(* ===== verification/_CoqProject ===== *)
-Q . S2P
Prelude.v
Errors.v
Ffi.v
Affinity.v
Task.v
TaskLife.v
TaskSpec.v
Runtime.v
Current.v
BlockOn.v
Timer.v
TimerLife.v
TimerSpec.v
TimerRun.v
Ring.v
RingOps.v
RingFutures.v
RingInv.v
RingPrim.v
RingCount.v
RingStep.v
RingSect.v
RingDrive.v
RingOpen.v
RingSys.v
RingSpec.v
RingOrder.v
RingStop.v
RingClient.v
RingGate.v
RingWork.v
RingRun.v
Query.v
Lifecycle.v
LifecycleSpec.v
OwnedIo.v
OwnedSpec.v
Fs.v
Net.v
NetSpec.v
BufferSpec.v
Frame.v
FrameSpec.v
Demo.v
DemoSpec.v
Handles.v
UnitTests.v
