(* ===== verification/Prelude.v ===== *)
(** * A verification of the nosv crate

    The crate (Rust, [src/src/]) is a safe asynchronous runtime over the C library
    nOS-V: it runs futures as native tasks, and adds timers, an io_uring driver, and
    file and TCP I/O on top of it.  This development models the crate's own logic and
    proves what makes it correct.  It is a library: this file holds what all the others
    share, every other file one component, its theory, or its guarantees.

    ** The program and its model

    [error.rs] is [Errors] and [ffi.rs] is [Ffi].  [affinity.rs] and the identifiers of
    [topology.rs] are [Affinity]; the queries of [topology.rs] and [memory.rs] are [Query].

    A spawned future ([task.rs]) is a native descriptor with a gate, a join cell and a
    future: [Task] has them and the native callbacks, [TaskLife] composes them with the
    wakers, abort handles and the joiner into a step relation, [TaskSpec] has the
    guarantees.  [Runtime] ([runtime.rs] and the builder of [task.rs]) is the registry of
    tasks with [spawn_on]; [Current] the thread-local current runtime and its guard;
    [BlockOn] the root future on the owner thread.

    [time.rs]: [Timer] has the deadline heap, the park gate, [Sleep] and [Timeout];
    [TimerLife] the step relation of the driver among its clients; [TimerSpec] the
    guarantees, and [TimerRun] the driver's task on its own, which ends after a shutdown.  [io_uring.rs]: [Ring] has the data, [RingOps] the sections of admission,
    cancellation, staging, submission and dispatch, [RingFutures] the futures over one
    submission and the owned operation of [io.rs], [RingGate] the native gate.  The theory
    of the ring is [RingInv] (the invariant), [RingPrim], [RingCount], [RingStep],
    [RingSect] and [RingDrive] (every change keeps it), [RingOpen] (which sections take the
    ring, close admission or start a shutdown) and [RingSys] (the step relation, with the
    driver's decision to stop and the taking of the ring as steps of their own);
    [RingSpec] has the guarantees, [RingOrder] and [RingStop] two that need a theory of
    their own (the order of a completion and its cancellation, and that a shutdown can
    finish), and [RingWork] shows that the ring implements the
    interface [WorkSource] the gate is proved against.  [RingRun] is the driver's loop and
    [shutdown_and_wait] in the order of the code, a run of both step relations; [RingClient]
    has the typed capabilities of a submission and clients that hold one at a time.
    [Lifecycle] builds and shuts down a runtime from the drivers' own operations;
    [LifecycleSpec] has the guarantees.  [Handles] has the capabilities of a runtime and
    what they check; [UnitTests] runs the crate's own unit tests on the model.

    [OwnedIo] has the buffers, the work items and the awaited operations of [io.rs], each
    of which is one call; [OwnedSpec] shows that this is what the future and the driver of
    [RingFutures] and [RingOps] make of an operation.  On it stand [Fs] ([fs.rs]) and
    [Net] with [NetSpec] ([net.rs]); [BufferSpec] is about the buffers of both.  The frame
    protocol of [examples/net_io_poc.rs] is [Frame] with [FrameSpec], and the tasks of the
    example are [Demo] with [DemoSpec].

    Definitions keep the names of the source where they can; a clash is resolved by a
    prefix for the component ([timer_], [owned_], [rt_], [file_]) or by the file name.

    ** How code becomes definitions

    A piece of Rust is a [prog]: a function of an oracle, a state and a history, to an
    outcome ([Done], [Panicked], [Aborted] or [Blocked]), a state and a longer history.
    Whatever is outside the crate is a call to the oracle, an arbitrary function of the
    whole history; nothing is assumed of it but what a theorem names.  The history is kept
    on abort, so safety is stated for aborted runs too.  [?] is [let?], [catch_unwind] and
    guards are [catch_unwind] and [finally], a loop whose bound is not in its text takes
    fuel.

    A mutex section is one program, so interleavings are sequences of sections: [TaskLife],
    [TimerLife] and [RingSys] are step relations over them ([reachable]), with an invariant
    proved by induction.  Where one thread waits while others run, what the others do is
    an argument: a script of polls and wakes in [Task] and [BlockOn], a list of moves in
    [Lifecycle]; the theorems hold for all of them.  A wait that its script never ends is
    [Blocked].

    Machine integers are [Z] with their wrap-around or overflow check written out;
    pointers are addresses; the [f32] of the memory statistics is its bit pattern.  The
    memory of a buffer is part of it, so a completion writes what the kernel wrote.

    ** What is proved

    Tasks: the descriptor is never used after its destruction; a wake-up is never lost nor
    submitted twice; a callback polls once and does what its specification says; the
    result is stored once and published after the future is dropped and the descriptor
    destroyed; the process aborts only after a native failure.  Runtime: every failure of
    [spawn_on] undoes what it did; [block_on] is its abstract loop; [build] balances what
    it created on every failure, and leaves both drivers running on success; [shutdown]
    drains, destroys each driver's type after its descriptor and aborts every task; running
    it again after a failure destroys types twice (a finding).  Timers: the driver asks to
    park no longer than to the next deadline, and not at all when a notification came; a
    pass fires exactly what is due; a sleep is ready exactly when due; a shutdown request
    wakes a parked driver, and its task then retires in a bounded number of steps.

    Ring: in every reachable state no section aborts (so none finds the ring taken: nothing
    is admitted, submitted or reaped after the stop), pointers the kernel holds have their
    context, each owned operation is finished exactly once, a drain certifies that nothing
    of the submission is in flight, cancellation reaches every original once, a delivered
    completion carries the caller's user data, the end of a stream certifies that nothing
    more is owed to it, admission takes a prefix, a completion and its cancellation may
    be dispatched in either order, and the driver neither stops nor sleeps with work left.
    The driver's loop is a run of the two step relations, so all of this holds of it, and
    [shutdown_and_wait] returns: once the driver is told to stop, its loop ends with
    nothing in flight, provided the kernel goes on to complete what it holds, at any pace
    and in any order.  What [submit_entries] promises the owner of the memory its entries
    refer to holds until a shutdown; a shutdown then ends streams whose operations are
    still in flight (a finding).  The current runtime is that of the innermost polling
    scope, whatever is polled and however it unwinds.  The capabilities of a runtime are
    inert once it closes and in a forked child; that of the raw ring is not (a finding).

    I/O: the exact and the [_all] transfers return for every schedule of short
    operations, cover the buffer without gap or overlap, keep what was transferred before
    an error, and read back what was written; flags mean what the options say; connecting
    and binding take the first address that works and leak no socket; accepting retries
    the transient errors only; a pending borrowed operation has not touched its buffer and
    its lane never has two readiness operations; an awaited operation is ready once, with
    the value of its completion or refusal, and its waiter is woken; a buffer comes back
    from every operation with its contract intact, whatever the kernel answers.  Frames
    survive a stream and a peer cannot make a receiver ask for more than 64 KiB when the
    example's vectors have the capacity it asks for, which the standard library does not
    promise (a finding); the functions of the example join every task they spawn unless
    they are aborted, which detaches connections (a finding).  Plus the round trip of native codes,
    faithful affinities, and checked topology and memory snapshots.

    ** What is assumed of the outside

    Only where a theorem says so: distinct native codes ([NosvCodes]); the bitfield of
    affinities ([AffinityLaws]); the entry accessors of the [uring] crate ([UringLaws]); a
    submit consumes no more than is queued ([kernel_bounded]), a completion belongs to an
    entry the kernel holds ([kernel_posts]); an allocation is not one in use
    ([allocator_fresh]); a returned array has the announced length ([array_contract]); the
    open flags are distinct bits ([OpenFlagsLaws]); a completed read wrote as many bytes
    as it reports ([delivers]); a regular file without other writers, whose reads at
    its cursor deliver what they report too ([file_contract]);
    the buffer traits' safety contract ([IoBufMutLaws]); a socket delivers its stream in
    order ([streams]), and a new vector is empty with room for what is asked for, or more
    ([allocates]); a nonblocking [accept4] is never interrupted
    ([uninterrupted], for the server of the example);
    for liveness, a kernel with room for the configured entries that takes what is
    submitted ([cooperative]), that completes only what it holds and, while it holds
    something, again and again something of it ([answering]), and a library that accepts
    its calls ([accepts]).  Each has an instance in the
    witness that uses it.

    ** Fuel

    The transfer loops run with the size of the buffer, enough because an iteration that
    continues moves a byte ([transfer_loop_rule]).  The retries of [accept], [poll_read]
    and [poll_write] depend on the environment: more fuel never changes a result, and
    [accept_meaning] says when it returns; under a timeout, fuel beyond the operations that
    complete before the deadline is enough ([timed_accept_returns]).  The timer's task
    needs six steps and one per waker after a shutdown ([turn_bound]).  The loop of the
    io_uring driver runs with any fuel for its safety, and some fuel is enough after a
    shutdown ([shutdown_and_wait_returns]).  Driver passes are bounded by the counts of the
    configuration, as in the source.

    ** Not modelled

    Relaxed memory (sections are atomic and sequentially consistent; the [Acquire] and
    [Release] flags of [OwnedControl] are steps); allocation failure; [Debug] output and
    descriptor accessors; reference counts (a weak reference is given whether it upgrades);
    the locks of [util.rs], which are the sections themselves; the integration tests, the
    unit test of the queue crate and the one of a model of its own; the
    re-exports of [lib.rs], the demonstration binary, and [main] and the output of the
    example.  The kernel, nOS-V and the [uring], [socket2], [tokio] and queue crates are
    oracles or interfaces.  A timeout around an operation ends it at the operation that
    is pending at the deadline ([Frame.timeout]); the timer behind it is [Timer]'s. *)

From Stdlib Require Import ZArith Lia.
From stdpp Require Import base gmap list strings relations.

#[global] Set Default Goal Selector "!".

(** ** Results of fallible Rust functions *)

(** [Result<A, E>]. *)
Inductive result (E A : Type) : Type :=
| Ok (a : A)
| Err (e : E).
Arguments Ok {E A} a.
Arguments Err {E A} e.

Definition map_err {E F A} (f : E -> F) (r : result E A) : result F A :=
  match r with Ok a => Ok a | Err e => Err (f e) end.

Definition result_map {E A B} (f : A -> B) (r : result E A) : result E B :=
  match r with Ok a => Ok (f a) | Err e => Err e end.

Definition is_ok {E A} (r : result E A) : bool :=
  match r with Ok _ => true | Err _ => false end.

(** [Option::ok_or]. *)
Definition ok_or {E A} (e : E) (o : option A) : result E A :=
  match o with Some a => Ok a | None => Err e end.

#[export] Instance result_eq_dec `{EqDecision E, EqDecision A} : EqDecision (result E A).
Proof. solve_decision. Defined.

(** How a piece of Rust code ends: with a value, by unwinding ([panic!],
    [assert!], [expect]), by [std::process::abort], or waiting forever on a
    condition variable under the schedule it was given. *)
Inductive outcome (A : Type) : Type :=
| Done (a : A)
| Panicked (msg : string)
| Aborted (msg : string)
| Blocked (where_ : string).
Arguments Done {A} a.
Arguments Panicked {A} msg.
Arguments Aborted {A} msg.
Arguments Blocked {A} where_.

(** ** The program monad

    A program over state [S] runs against an arbitrary environment: every call
    that leaves the crate is answered by an oracle that sees the whole history
    of earlier calls and answers.  The history (newest first) is part of the
    result even when the program aborts, so safety statements about it cover
    aborted runs. *)
Section Prog.
Context {Call Resp : Type}.

Definition history := list (Call * Resp).
Definition oracle := history -> Call -> Resp.

Definition prog (S A : Type) : Type :=
  oracle -> S -> history -> outcome A * S * history.

Definition prog_ret {S A} (a : A) : prog S A := fun _ s h => (Done a, s, h).

Definition prog_bind {S A B} (m : prog S A) (k : A -> prog S B) : prog S B :=
  fun o s h =>
    match m o s h with
    | (Done a, s', h') => k a o s' h'
    | (Panicked e, s', h') => (Panicked e, s', h')
    | (Aborted e, s', h') => (Aborted e, s', h')
    | (Blocked e, s', h') => (Blocked e, s', h')
    end.

Definition panic {S A} (msg : string) : prog S A := fun _ s h => (Panicked msg, s, h).
Definition abort {S A} (msg : string) : prog S A := fun _ s h => (Aborted msg, s, h).
Definition block {S A} (msg : string) : prog S A := fun _ s h => (Blocked msg, s, h).

Definition get {S} : prog S S := fun _ s h => (Done s, s, h).
Definition put {S} (s' : S) : prog S unit := fun _ _ h => (Done tt, s', h).
Definition modify {S} (f : S -> S) : prog S unit := fun _ s h => (Done tt, f s, h).
Definition gets {S A} (f : S -> A) : prog S A := fun _ s h => (Done (f s), s, h).

(** One call outside the crate, recorded with its answer. *)
Definition call {S} (c : Call) : prog S Resp :=
  fun o s h => let r := o h c in (Done r, s, (c, r) :: h).

(** Runs a program on a component of a larger state. *)
Definition zoom {S T A} (proj : S -> T) (inj : T -> S -> S) (m : prog T A) : prog S A :=
  fun o s h => let '(r, t, h') := m o (proj s) h in (r, inj t s, h').

(** [catch_unwind]: a panic becomes an ordinary value; an abort does not. *)
Definition catch_unwind {S A} (m : prog S A) : prog S (result string A) :=
  fun o s h =>
    match m o s h with
    | (Done a, s', h') => (Done (Ok a), s', h')
    | (Panicked e, s', h') => (Done (Err e), s', h')
    | (Aborted e, s', h') => (Aborted e, s', h')
    | (Blocked e, s', h') => (Blocked e, s', h')
    end.

(** A guard value: [cleanup] runs when the scope of [m] ends, also by unwinding. *)
Definition finally {S A} (m : prog S A) (cleanup : S -> S) : prog S A :=
  fun o s h =>
    match m o s h with
    | (Done a, s', h') => (Done a, cleanup s', h')
    | (Panicked e, s', h') => (Panicked e, cleanup s', h')
    | other => other
    end.
End Prog.
Arguments history : clear implicits.
Arguments oracle : clear implicits.
Arguments prog : clear implicits.
#[global] Arguments prog_bind {_ _ _ _ _} m k o s h : simpl never.

#[export] Instance prog_mret {C R S} : MRet (prog C R S) := fun A a => prog_ret a.
#[export] Instance prog_mbind {C R S} : MBind (prog C R S) := fun A B k m => prog_bind m k.

Declare Scope prog_scope.
Delimit Scope prog_scope with prog.
(** The [?] operator on a program that returns a [Result]. *)
Notation "'let?' x := m 'in' k" :=
  (prog_bind m (fun r => match r with Ok x => k | Err e => prog_ret (Err e) end))
  (at level 10, x pattern, m at level 100, k at level 200,
   format "'let?'  x  :=  m  'in' '//' k") : prog_scope.
Open Scope prog_scope.

(** [for x in l { body(x) }]. *)
Fixpoint for_each {C R S A} (body : A -> prog C R S unit) (l : list A) : prog C R S unit :=
  match l with
  | [] => mret tt
  | a :: l' => body a ;; for_each body l'
  end.

Definition outcome_of {A S H} (x : outcome A * S * H) : outcome A := x.1.1.
Definition state_of {A S H} (x : outcome A * S * H) : S := x.1.2.
Definition history_of {A S H} (x : outcome A * S * H) : H := x.2.

(** ** Predicate transformers

    [run_post m Q]: from every oracle-given run of [m] the outcome, the state and
    the history satisfy [Q]. *)
Section WP.
Context {C R S : Type}.
Implicit Types (o : oracle C R) (s : S) (h : history C R).

Definition run_post {A} (m : prog C R S A) o s h (Q : outcome A -> S -> history C R -> Prop) : Prop :=
  Q (outcome_of (m o s h)) (state_of (m o s h)) (history_of (m o s h)).

(** The postcondition after a step: the continuation's for a value, [Q] otherwise. *)
Definition then_post {A B} (k : A -> prog C R S B) o (Q : outcome B -> S -> history C R -> Prop)
    : outcome A -> S -> history C R -> Prop :=
  fun r s h =>
    match r with
    | Done a => run_post (k a) o s h Q
    | Panicked e => Q (Panicked e) s h
    | Aborted e => Q (Aborted e) s h
    | Blocked e => Q (Blocked e) s h
    end.

Lemma run_post_bind {A B} (m : prog C R S A) (k : A -> prog C R S B) o s h Q :
  run_post m o s h (then_post k o Q) -> run_post (prog_bind m k) o s h Q.
Proof.
  unfold run_post, then_post, prog_bind, outcome_of, state_of, history_of.
  destruct (m o s h) as [[[] ?] ?]; done.
Qed.

Lemma run_post_ret {A} (a : A) o s h (Q : outcome A -> S -> history C R -> Prop) :
  Q (Done a) s h -> run_post (prog_ret a) o s h Q.
Proof. done. Qed.

Lemma run_post_modify f o s h (Q : outcome unit -> S -> history C R -> Prop) :
  Q (Done tt) (f s) h -> run_post (modify f) o s h Q.
Proof. done. Qed.

Lemma run_post_call c o s h (Q : outcome R -> S -> history C R -> Prop) :
  (let r := o h c in Q (Done r) s ((c, r) :: h)) -> run_post (call c) o s h Q.
Proof. done. Qed.

Lemma run_post_bind_eq {A B} (m : prog C R S A) (k : A -> prog C R S B) o s h a s' h' Q :
  m o s h = (Done a, s', h') -> run_post (k a) o s' h' Q -> run_post (prog_bind m k) o s h Q.
Proof. unfold run_post, prog_bind. by intros ->. Qed.

Lemma run_post_mono {A} (m : prog C R S A) o s h (P Q : outcome A -> S -> history C R -> Prop) :
  run_post m o s h P -> (forall r s' h', P r s' h' -> Q r s' h') -> run_post m o s h Q.
Proof. unfold run_post. auto. Qed.

Lemma run_post_and {A} (m : prog C R S A) o s h (P Q : outcome A -> S -> history C R -> Prop) :
  run_post m o s h P -> run_post m o s h Q -> run_post m o s h (fun r s' h' => P r s' h' /\ Q r s' h').
Proof. by split. Qed.

Lemma run_post_zoom {T A} (proj : S -> T) inj (m : prog C R T A) o s h Q :
  Q (outcome_of (m o (proj s) h)) (inj (state_of (m o (proj s) h)) s) (history_of (m o (proj s) h)) ->
  run_post (zoom proj inj m) o s h Q.
Proof. unfold run_post, zoom. by destruct (m o (proj s) h) as [[? ?] ?]. Qed.

Lemma run_post_catch {A} (m : prog C R S A) o s h
    (Q : outcome (result string A) -> S -> history C R -> Prop) :
  run_post m o s h (fun r s' h' =>
    match r with
    | Done a => Q (Done (Ok a)) s' h'
    | Panicked e => Q (Done (Err e)) s' h'
    | Aborted e => Q (Aborted e) s' h'
    | Blocked e => Q (Blocked e) s' h'
    end) -> run_post (catch_unwind m) o s h Q.
Proof. unfold run_post, catch_unwind. by destruct (m o s h) as [[[] ?] ?]. Qed.

Lemma run_post_elim {A} (m : prog C R S A) o s h Q r s' h' :
  run_post m o s h Q -> m o s h = (r, s', h') -> Q r s' h'.
Proof. unfold run_post. intros HQ Hrun. by rewrite Hrun in HQ. Qed.

(** An invariant that every iteration preserves holds after [for_each]; it may
    speak about how the loop ended. *)
Lemma run_post_for_each {A} (body : A -> prog C R S unit)
    (I : outcome unit -> S -> history C R -> Prop) l o s h :
  (forall a s h, a ∈ l -> I (Done tt) s h -> run_post (body a) o s h I) ->
  I (Done tt) s h ->
  run_post (for_each body l) o s h I.
Proof.
  revert s h. induction l as [|a l IH]; intros s h Hb HI; [done|].
  apply run_post_bind. eapply run_post_mono; [apply Hb; [left|done]|].
  intros [[]|e|e|e] s' h' HI'; cbn; [|done..].
  apply IH; [|done]. intros. apply Hb; [by right|done].
Qed.
End WP.

(** Running on a part of the state, with the part's postcondition. *)
Lemma run_post_part {C R S T A} (proj : S -> T) (inj : T -> S -> S) (m : prog C R T A) o s h
    (Q : outcome A -> S -> history C R -> Prop) :
  run_post m o (proj s) h (fun r t h' => Q r (inj t s) h') -> run_post (zoom proj inj m) o s h Q.
Proof. intros H. by apply run_post_zoom. Qed.

Ltac run_unfold :=
  unfold mret, prog_mret, mbind, prog_mbind, prog_bind, prog_ret, modify, put, get, gets,
    abort, panic, block, call, zoom, catch_unwind, finally in *; cbn in *.

(** ** What a program may call

    [emits P m]: whatever the environment answers, [m] only adds calls that satisfy
    [P] to the history.  The rules below are resolved by [emits_auto]. *)
Create HintDb nosv discriminated.

Section Emits.
Context {C R : Type} (P : C * R -> Prop).

Definition emits {S A} (m : prog C R S A) : Prop :=
  forall o s h, run_post m o s h (fun _ _ h' => exists new, h' = new ++ h /\ Forall P new).

Lemma emits_ret {S A} (a : A) : emits (S := S) (prog_ret a).
Proof. intros o s h. by exists []. Qed.

Lemma emits_modify {S} (f : S -> S) : emits (modify f).
Proof. intros o s h. by exists []. Qed.

Lemma emits_put {S} (x : S) : emits (put x).
Proof. intros o s h. by exists []. Qed.

Lemma emits_get {S} : emits (S := S) get.
Proof. intros o s h. by exists []. Qed.

Lemma emits_gets {S A} (f : S -> A) : emits (gets f).
Proof. intros o s h. by exists []. Qed.

Lemma emits_panic {S A} msg : emits (S := S) (A := A) (panic msg).
Proof. intros o s h. by exists []. Qed.

Lemma emits_abort {S A} msg : emits (S := S) (A := A) (abort msg).
Proof. intros o s h. by exists []. Qed.

Lemma emits_block {S A} msg : emits (S := S) (A := A) (block msg).
Proof. intros o s h. by exists []. Qed.

Lemma emits_call {S} c : (forall r, P (c, r)) -> emits (S := S) (call c).
Proof. intros Hc o s h. exists [(c, o h c)]. split; [done|]. by constructor. Qed.

Lemma emits_bind {S A B} (m : prog C R S A) (k : A -> prog C R S B) :
  emits m -> (forall a, emits (k a)) -> emits (prog_bind m k).
Proof.
  intros Hm Hk o s h. apply run_post_bind. eapply run_post_mono; [apply Hm|].
  intros [a|e|e|e] s' h' (new & -> & Hn); cbn [then_post]; [|by exists new..].
  eapply run_post_mono; [apply Hk|]. intros _ s'' h'' (new' & -> & Hn').
  exists (new' ++ new). split; [by rewrite app_assoc|]. by apply Forall_app.
Qed.

Lemma emits_zoom {S T A} (proj : S -> T) inj (m : prog C R T A) : emits m -> emits (zoom proj inj m).
Proof. intros Hm o s h. apply run_post_zoom. apply (Hm o (proj s) h). Qed.

Lemma emits_catch {S A} (m : prog C R S A) : emits m -> emits (catch_unwind m).
Proof. intros Hm o s h. apply run_post_catch. eapply run_post_mono; [apply Hm|]. by intros []. Qed.

Lemma emits_finally {S A} (m : prog C R S A) f : emits m -> emits (finally m f).
Proof.
  intros Hm o s h. specialize (Hm o s h). unfold run_post, finally in *.
  by destruct (m o s h) as [[[] ?] ?].
Qed.

Lemma emits_for_each {S A} (body : A -> prog C R S unit) l :
  (forall a, emits (body a)) -> emits (for_each body l).
Proof. intros Hb. induction l as [|a l IH]; [apply emits_ret|by apply emits_bind]. Qed.
End Emits.

#[export] Hint Resolve emits_ret emits_modify emits_put emits_get emits_gets emits_panic
  emits_abort emits_block emits_call emits_bind emits_zoom emits_catch emits_finally
  emits_for_each : nosv.

(** Opens the head of a program and splits on what it matches. *)
Ltac emits_auto :=
  intros; unfold mret, prog_mret, mbind, prog_mbind in *;
  repeat first
    [ progress intros
    | solve [eauto 3 with nosv]
    | apply emits_bind | apply emits_zoom | apply emits_catch | apply emits_finally
    | apply emits_for_each | apply emits_call
    | match goal with
      | |- emits _ (match ?x with _ => _ end) => destruct x
      | |- emits _ (if ?x then _ else _) => destruct x
      | |- emits _ (let '_ := ?x in _) => destruct x
      end ].

(** ** What a program leaves alone

    [preserves f m]: however [m] ends, the part [f] of the state is as it was. *)
Section Preserves.
Context {C R S X : Type} (f : S -> X).

Definition preserves {A} (m : prog C R S A) : Prop :=
  forall o s h, run_post m o s h (fun _ s' _ => f s' = f s).

Lemma preserves_ret {A} (a : A) : preserves (prog_ret a).
Proof. done. Qed.

Lemma preserves_modify g : (forall s, f (g s) = f s) -> preserves (modify g).
Proof. intros Hg o s h. apply Hg. Qed.

Lemma preserves_get : preserves get.
Proof. done. Qed.

Lemma preserves_gets {A} (g : S -> A) : preserves (gets g).
Proof. done. Qed.

Lemma preserves_panic {A} msg : preserves (A := A) (panic msg).
Proof. done. Qed.

Lemma preserves_abort {A} msg : preserves (A := A) (abort msg).
Proof. done. Qed.

Lemma preserves_block {A} msg : preserves (A := A) (block msg).
Proof. done. Qed.

Lemma preserves_call c : preserves (call c).
Proof. done. Qed.

Lemma preserves_bind {A B} (m : prog C R S A) (k : A -> prog C R S B) :
  preserves m -> (forall a, preserves (k a)) -> preserves (prog_bind m k).
Proof.
  intros Hm Hk o s h. apply run_post_bind. eapply run_post_mono; [apply Hm|].
  intros [a|e|e|e] s' h' Hs; cbn [then_post]; [|done..].
  eapply run_post_mono; [apply Hk|]. intros _ s'' _ ->. done.
Qed.

Lemma preserves_catch {A} (m : prog C R S A) : preserves m -> preserves (catch_unwind m).
Proof. intros Hm o s h. apply run_post_catch. eapply run_post_mono; [apply Hm|]. by intros []. Qed.

Lemma preserves_zoom {T A} (proj : S -> T) inj (m : prog C R T A) :
  (forall t s, f (inj t s) = f s) -> preserves (zoom proj inj m).
Proof. intros Hi o s h. apply run_post_zoom. apply Hi. Qed.

Lemma preserves_for_each {A} (body : A -> prog C R S unit) l :
  (forall a, preserves (body a)) -> preserves (for_each body l).
Proof. intros Hb. induction l as [|a l IH]; [apply preserves_ret|by apply preserves_bind]. Qed.
End Preserves.

#[export] Hint Resolve preserves_ret preserves_modify preserves_get preserves_gets preserves_panic
  preserves_abort preserves_block preserves_call preserves_bind preserves_catch
  preserves_zoom preserves_for_each : nosv.

Ltac preserves_auto :=
  intros; unfold mret, prog_mret, mbind, prog_mbind in *;
  repeat first
    [ progress intros
    | solve [eauto 3 with nosv]
    | apply preserves_bind | apply preserves_catch | apply preserves_for_each | apply preserves_modify
    | apply preserves_zoom
    | match goal with
      | |- preserves _ (match ?x with _ => _ end) => destruct x
      | |- preserves _ (if ?x then _ else _) => destruct x
      | |- preserves _ (let '_ := ?x in _) => destruct x
      end ].

(** [respects R m]: however [m] ends, the state moved along the preorder [R]. *)
Section Respects.
Context {C R S : Type} (rel : S -> S -> Prop) `{!PreOrder rel}.

Definition respects {A} (m : prog C R S A) : Prop :=
  forall o s h, run_post m o s h (fun _ s' _ => rel s s').

Lemma respects_ret {A} (a : A) : respects (prog_ret a).
Proof. intros o s h. apply (reflexivity (R := rel)). Qed.

Lemma respects_modify g : (forall s, rel s (g s)) -> respects (modify g).
Proof. intros Hg o s h. apply Hg. Qed.

Lemma respects_get : respects get.
Proof. intros o s h. apply (reflexivity (R := rel)). Qed.

Lemma respects_panic {A} msg : respects (A := A) (panic msg).
Proof. intros o s h. apply (reflexivity (R := rel)). Qed.

Lemma respects_abort {A} msg : respects (A := A) (abort msg).
Proof. intros o s h. apply (reflexivity (R := rel)). Qed.

Lemma respects_call c : respects (call c).
Proof. intros o s h. apply (reflexivity (R := rel)). Qed.

Lemma respects_bind {A B} (m : prog C R S A) (k : A -> prog C R S B) :
  respects m -> (forall a, respects (k a)) -> respects (prog_bind m k).
Proof.
  intros Hm Hk o s h. apply run_post_bind. eapply run_post_mono; [apply Hm|].
  intros [a|e|e|e] s' h' Hs; cbn [then_post]; [|done..].
  eapply run_post_mono; [apply Hk|]. intros q s'' h'' Hs'. cbn in *. by etransitivity.
Qed.

Lemma respects_for_each {A} (body : A -> prog C R S unit) l :
  (forall a, respects (body a)) -> respects (for_each body l).
Proof. intros Hb. induction l as [|a l IH]; [apply respects_ret|by apply respects_bind]. Qed.
End Respects.

(** Both at once. *)
Lemma emits_preserves {C R S X A} (P : C * R -> Prop) (f : S -> X) (m : prog C R S A) o s h :
  emits P m -> preserves f m ->
  run_post m o s h (fun _ s' h' => f s' = f s /\ exists new, h' = new ++ h /\ Forall P new).
Proof. intros He Hp. split; [apply Hp|apply He]. Qed.

(** ** Reachability in a step relation *)

Section Reach.
Context {A : Type} (init : A -> Prop) (step : A -> A -> Prop).

Inductive reachable : A -> Prop :=
| reach_init a : init a -> reachable a
| reach_step a b : reachable a -> step a b -> reachable b.

Lemma reachable_invariant (I : A -> Prop) :
  (forall a, init a -> I a) ->
  (forall a b, I a -> step a b -> I b) ->
  forall a, reachable a -> I a.
Proof. intros H0 HS a; induction 1; eauto. Qed.
End Reach.

(** ** Machine integers *)

Definition u32_max : Z := 2 ^ 32 - 1.
Definition u64_max : Z := 2 ^ 64 - 1.
Definition i32_max : Z := 2 ^ 31 - 1.
Definition i32_min : Z := - 2 ^ 31.
Definition in_i32 (z : Z) : Prop := (i32_min <= z <= i32_max)%Z.
Definition in_u32 (z : Z) : Prop := (0 <= z <= u32_max)%Z.
Definition in_u64 (z : Z) : Prop := (0 <= z <= u64_max)%Z.
Definition wrap_u64 (z : Z) : Z := (z mod 2 ^ 64)%Z.
Definition wrap_u32 (z : Z) : Z := (z mod 2 ^ 32)%Z.

(** [u64::checked_add]. *)
Definition checked_add_u64 (a b : Z) : option Z :=
  if (a + b <=? u64_max)%Z then Some (a + b)%Z else None.

(** [AtomicU64::fetch_add(1)]: the old value, and the wrapped successor. *)
Definition fetch_add_u64 (a : Z) : Z * Z := (a, wrap_u64 (a + 1)).

(** ** Null pointers *)

(** A C pointer is an address, [0] when null; [NonNull::new]. *)
Definition non_null (p : N) : option positive :=
  match p with N0 => None | Npos q => Some q end.

Lemma non_null_Some p q : non_null p = Some q <-> p = Npos q.
Proof. destruct p; cbn; split; congruence. Qed.

(** ** Strings *)

Lemma append_cons c s t : String.append (String c s) t = String c (String.append s t).
Proof. reflexivity. Qed.

Lemma append_length s t :
  String.length (String.append s t) = (String.length s + String.length t)%nat.
Proof. induction s as [|c s IH]; [done|]. rewrite append_cons. cbn. by rewrite IH. Qed.

Lemma append_inj_r s1 s2 t : String.append s1 t = String.append s2 t -> s1 = s2.
Proof.
  revert s2. induction s1 as [|c s1 IH]; intros [|d s2] Heq;
    pose proof (f_equal String.length Heq) as Hlen; rewrite !append_length in Hlen;
    cbn in Hlen; try lia; [done|].
  rewrite !append_cons in Heq. injection Heq as -> Heq. f_equal. auto.
Qed.

(** ** Counting in lists and finite maps *)

(** How often [p] occurs in [l]. *)
Fixpoint occ (p : Z) (l : list Z) : nat :=
  match l with [] => 0 | q :: l' => Nat.b2n (bool_decide (q = p)) + occ p l' end.

Lemma occ_app p l1 l2 : occ p (l1 ++ l2) = (occ p l1 + occ p l2)%nat.
Proof. induction l1 as [|q l1 IH]; cbn; lia. Qed.

Lemma occ_pos p l : p ∈ l <-> (0 < occ p l)%nat.
Proof.
  induction l as [|q l IH]; cbn; [split; [by intros ?%elem_of_nil|lia]|].
  rewrite elem_of_cons, IH. destruct (bool_decide_reflect (q = p)) as [->|Hne]; cbn.
  - split; [lia|by left].
  - split; [intros [->|H]; [done|exact H]|by right].
Qed.

Lemma occ_zero p l : p ∉ l <-> occ p l = 0%nat.
Proof. rewrite occ_pos. lia. Qed.

Lemma occ_perm p l1 l2 : l1 ≡ₚ l2 -> occ p l1 = occ p l2.
Proof. induction 1; cbn; lia. Qed.

(** The sum of [f] over the values of a map. *)
Definition total {A} (f : A -> nat) (m : gmap Z A) : nat :=
  map_fold (fun _ a n => (f a + n)%nat) 0%nat m.

Section Total.
Context {A : Type} (f : A -> nat).
Implicit Types m : gmap Z A.

Lemma total_empty : total f ∅ = 0%nat.
Proof. apply map_fold_empty. Qed.

Lemma total_insert m k a : m !! k = None -> total f (<[ k := a ]> m) = (f a + total f m)%nat.
Proof. intros. unfold total. rewrite map_fold_insert_L; [done|lia|done]. Qed.

Lemma total_delete m k a : m !! k = Some a -> total f m = (f a + total f (delete k m))%nat.
Proof.
  intros H. rewrite <- (total_insert (delete k m) k) by apply lookup_delete_eq.
  by rewrite insert_delete_eq, insert_id.
Qed.

Lemma total_update m k a b :
  m !! k = Some a -> (total f (<[ k := b ]> m) + f a)%nat = (total f m + f b)%nat.
Proof.
  intros H. rewrite (total_delete m k a H), <- (insert_delete_eq m k b).
  rewrite total_insert by apply lookup_delete_eq. lia.
Qed.

Lemma total_ge m k a : m !! k = Some a -> (f a <= total f m)%nat.
Proof. intros H. rewrite (total_delete m k a H). lia. Qed.

Lemma total_zero m : total f m = 0%nat -> forall k a, m !! k = Some a -> f a = 0%nat.
Proof. intros H0 k a H. apply total_ge in H. lia. Qed.

Lemma total_zero_intro m : (forall k a, m !! k = Some a -> f a = 0%nat) -> total f m = 0%nat.
Proof.
  induction m as [|k a m Hk IH] using map_ind; intros H; [apply total_empty|].
  rewrite total_insert by done. rewrite (H k a) by apply lookup_insert_eq.
  apply IH. intros j b Hj. apply (H j). rewrite lookup_insert_ne; [done|congruence].
Qed.

Lemma total_pos m : (0 < total f m)%nat -> exists k a, m !! k = Some a /\ (0 < f a)%nat.
Proof.
  induction m as [|k a m Hk IH] using map_ind; [rewrite total_empty; lia|].
  rewrite total_insert by done. intros H. destruct (decide (0 < f a)%nat).
  - exists k, a. split; [apply lookup_insert_eq|done].
  - destruct IH as (j & b & Hj & Hb); [lia|]. exists j, b.
    split; [rewrite lookup_insert_ne; [done|congruence]|done].
Qed.
End Total.

