(* ===== verification/Errors.v ===== *)
(** * Errors: the error types of the safe layer ([src/src/error.rs])

    Native status codes and their translation in both directions, the error
    enums of the crate with the conversions [?] uses, and the diagnostics they
    print.  The numeric values of the [NOSV_*] constants belong to [nosv-sys]
    and are an interface here ([NosvCodes]); the only fact used about them is
    that the C header gives distinct codes to distinct conditions. *)

From Stdlib Require Import ZArith Lia.
From stdpp Require Import base list strings pretty.
From S2P Require Import Prelude.

Open Scope Z_scope.

(** ** The status codes of [nosv-sys] *)

Class NosvCodes := {
  NOSV_SUCCESS : Z;
  NOSV_ERR_INVALID_CALLBACK : Z;
  NOSV_ERR_INVALID_METADATA_SIZE : Z;
  NOSV_ERR_INVALID_OPERATION : Z;
  NOSV_ERR_INVALID_PARAMETER : Z;
  NOSV_ERR_NOT_INITIALIZED : Z;
  NOSV_ERR_OUT_OF_MEMORY : Z;
  NOSV_ERR_OUTSIDE_TASK : Z;
  NOSV_ERR_BUSY : Z;
  NOSV_ERR_TIMEOUT : Z
}.

Section KnownCodes.
Context `{NosvCodes}.

Definition known_error_codes : list Z :=
  [NOSV_ERR_INVALID_CALLBACK; NOSV_ERR_INVALID_METADATA_SIZE;
   NOSV_ERR_INVALID_OPERATION; NOSV_ERR_INVALID_PARAMETER;
   NOSV_ERR_NOT_INITIALIZED; NOSV_ERR_OUT_OF_MEMORY;
   NOSV_ERR_OUTSIDE_TASK; NOSV_ERR_BUSY; NOSV_ERR_TIMEOUT].
End KnownCodes.

(** What the C header promises: no two conditions share a code. *)
Class NosvCodesDistinct `{NosvCodes} : Prop :=
  codes_distinct : NoDup (NOSV_SUCCESS :: known_error_codes).

(** An instance of the interface, used by the witnesses. *)
Definition sample_codes : NosvCodes :=
  Build_NosvCodes 0 (-1) (-2) (-3) (-4) (-5) (-6) (-7) (-8) (-9).

Lemma sample_codes_distinct : @NosvCodesDistinct sample_codes.
Proof. red. apply (bool_decide_unpack _). vm_compute. exact I. Qed.

(** ** [NativeError] *)

Inductive NativeError : Type :=
| InvalidCallback
| InvalidMetadataSize
| InvalidOperation
| InvalidParameter
| NotInitialized
| OutOfMemory
| OutsideTask
| Busy
| Timeout
| Unknown (code : Z).

#[export] Instance NativeError_eq_dec : EqDecision NativeError.
Proof. solve_decision. Defined.

Section Codes.
Context `{codes : NosvCodes}.

(** The match of [from_code], in the order of its arms. *)
Definition classify (code : Z) : NativeError :=
  if code =? NOSV_ERR_INVALID_CALLBACK then InvalidCallback
  else if code =? NOSV_ERR_INVALID_METADATA_SIZE then InvalidMetadataSize
  else if code =? NOSV_ERR_INVALID_OPERATION then InvalidOperation
  else if code =? NOSV_ERR_INVALID_PARAMETER then InvalidParameter
  else if code =? NOSV_ERR_NOT_INITIALIZED then NotInitialized
  else if code =? NOSV_ERR_OUT_OF_MEMORY then OutOfMemory
  else if code =? NOSV_ERR_OUTSIDE_TASK then OutsideTask
  else if code =? NOSV_ERR_BUSY then Busy
  else if code =? NOSV_ERR_TIMEOUT then Timeout
  else Unknown code.

Definition from_code (code : Z) : result NativeError unit :=
  if code =? NOSV_SUCCESS then Ok tt else Err (classify code).

Definition code (e : NativeError) : Z :=
  match e with
  | InvalidCallback => NOSV_ERR_INVALID_CALLBACK
  | InvalidMetadataSize => NOSV_ERR_INVALID_METADATA_SIZE
  | InvalidOperation => NOSV_ERR_INVALID_OPERATION
  | InvalidParameter => NOSV_ERR_INVALID_PARAMETER
  | NotInitialized => NOSV_ERR_NOT_INITIALIZED
  | OutOfMemory => NOSV_ERR_OUT_OF_MEMORY
  | OutsideTask => NOSV_ERR_OUTSIDE_TASK
  | Busy => NOSV_ERR_BUSY
  | Timeout => NOSV_ERR_TIMEOUT
  | Unknown c => c
  end.

Definition native_message (e : NativeError) : string :=
  match e with
  | InvalidCallback => "invalid callback"
  | InvalidMetadataSize => "invalid metadata size"
  | InvalidOperation => "invalid native operation"
  | InvalidParameter => "invalid parameter"
  | NotInitialized => "nOS-V is not initialized"
  | OutOfMemory => "native allocation failed"
  | OutsideTask => "operation requires a nOS-v task"
  | Busy => "native resource is busy"
  | Timeout => "native operation timed out"
  | Unknown _ => "unknown native error"
  end%string.

(** [Display for NativeError]. *)
Definition display_native (e : NativeError) : string :=
  (native_message e ++ " (code " ++ pretty (code e) ++ ")")%string.
End Codes.

(** ** The other error enums and their conversions *)

(** [RuntimeClosed] is a unit struct. *)
Inductive RuntimeClosed : Type := mkRuntimeClosed.

(** [InvalidIoUringConfig] of [src/src/io_uring.rs]. *)
Inductive InvalidIoUringConfig : Type :=
| ZeroEntries
| EntriesNotPowerOfTwo
| ZeroReapSize
| ZeroPollInterval
| ZeroCompletionBuffer.

#[export] Instance InvalidIoUringConfig_eq_dec : EqDecision InvalidIoUringConfig.
Proof. solve_decision. Defined.

(** [std::io::ErrorKind], the kinds the crate names. *)
Inductive ErrorKind : Type :=
| KInvalidInput | KInvalidData | KUnexpectedEof | KWriteZero | KBrokenPipe
| KUnsupported | KWouldBlock | KInterrupted | KTimedOut | KOther.

#[export] Instance ErrorKind_eq_dec : EqDecision ErrorKind.
Proof. solve_decision. Defined.

(** [std::io::Error]: an OS error number, or a kind with a message. *)
Inductive IoError : Type :=
| RawOs (errno : Z)
| Custom (kind : ErrorKind) (msg : string).

#[export] Instance IoError_eq_dec : EqDecision IoError.
Proof. solve_decision. Defined.

Inductive InitError : Type :=
| InitAlreadyInTask
| InitInvalidIoUringConfig (e : InvalidIoUringConfig)
| InitIoUring (e : IoError)
| InitNative (e : NativeError).

Inductive SpawnError : Type :=
| SpawnRuntimeClosed
| SpawnForkedProcess
| SpawnNative (e : NativeError).

Inductive BlockOnError : Type :=
| BlockWrongThread
| BlockNested
| BlockAlreadyInTask
| BlockForkedProcess
| BlockRuntimeClosed
| BlockNative (e : NativeError).

Inductive ShutdownError : Type :=
| ShutWrongThread
| ShutForkedProcess
| ShutNative (e : NativeError).

(** A panic payload is opaque ([Box<dyn Any>]); it is identified by a string. *)
Inductive JoinError : Type :=
| Cancelled
| Panic (payload : string)
| Runtime (e : NativeError).

#[export] Instance InitError_eq_dec : EqDecision InitError.
Proof. solve_decision. Defined.
#[export] Instance SpawnError_eq_dec : EqDecision SpawnError.
Proof. solve_decision. Defined.
#[export] Instance BlockOnError_eq_dec : EqDecision BlockOnError.
Proof. solve_decision. Defined.
#[export] Instance ShutdownError_eq_dec : EqDecision ShutdownError.
Proof. solve_decision. Defined.
#[export] Instance JoinError_eq_dec : EqDecision JoinError.
Proof. solve_decision. Defined.

(** The [From] impls used by the [?] operator. *)
Definition init_from_native (e : NativeError) : InitError := InitNative e.
Definition spawn_from_closed (_ : RuntimeClosed) : SpawnError := SpawnRuntimeClosed.
Definition spawn_from_native (e : NativeError) : SpawnError := SpawnNative e.
Definition block_on_from_closed (_ : RuntimeClosed) : BlockOnError := BlockRuntimeClosed.

(** [Error::source] of [InitError] and [SpawnError], as the wrapped value. *)
Inductive ErrorSource : Type :=
| SrcConfig (e : InvalidIoUringConfig)
| SrcIo (e : IoError)
| SrcNative (e : NativeError).

Definition init_source (e : InitError) : option ErrorSource :=
  match e with
  | InitInvalidIoUringConfig e => Some (SrcConfig e)
  | InitIoUring e => Some (SrcIo e)
  | InitNative e => Some (SrcNative e)
  | InitAlreadyInTask => None
  end.

Definition spawn_source (e : SpawnError) : option ErrorSource :=
  match e with SpawnNative e => Some (SrcNative e) | _ => None end.

(** [JoinError]'s inspectors. *)
Definition is_cancelled (e : JoinError) : bool :=
  match e with Cancelled => true | _ => false end.
Definition is_panic (e : JoinError) : bool :=
  match e with Panic _ => true | _ => false end.
Definition into_panic (e : JoinError) : option string :=
  match e with Panic payload => Some payload | _ => None end.

(** [Display] of the enums. *)
Section Display.
Context `{codes : NosvCodes}.
Open Scope string_scope.

Definition display_closed (_ : RuntimeClosed) : string := "the nOS-V runtime is closed".

Definition display_config (e : InvalidIoUringConfig) : string :=
  match e with
  | ZeroEntries => "io_uring entries must be non-zero"
  | EntriesNotPowerOfTwo => "io_uring entries must be a power of two"
  | ZeroReapSize => "io_uring reap size must be non-zero"
  | ZeroPollInterval => "io_uring poll interval must be non-zero"
  | ZeroCompletionBuffer => "io_uring completion buffer limit must be non-zero"
  end.

(** [display_io] is the standard library's text of an [io::Error]. *)
Definition display_init (display_io : IoError -> string) (e : InitError) : string :=
  match e with
  | InitAlreadyInTask => "cannot create a runtime inside a nOS-v task"
  | InitInvalidIoUringConfig e => "invalid io_uring configuration: " ++ display_config e
  | InitIoUring e => "io_uring initialization failed: " ++ display_io e
  | InitNative e => "runtime initialization failed: " ++ display_native e
  end.

Definition display_spawn (e : SpawnError) : string :=
  match e with
  | SpawnRuntimeClosed => display_closed mkRuntimeClosed
  | SpawnForkedProcess => "runtime handle was inherited across fork"
  | SpawnNative e => "could not spawn task: " ++ display_native e
  end.

Definition display_block_on (e : BlockOnError) : string :=
  match e with
  | BlockWrongThread => "block_on must run on the runtime owner thread"
  | BlockNested => "nested block_on is not supported"
  | BlockAlreadyInTask => "block_on cannot run inside a nOS-v task"
  | BlockForkedProcess => "runtime was inherited across fork"
  | BlockRuntimeClosed => display_closed mkRuntimeClosed
  | BlockNative e => "block_on native operation failed: " ++ display_native e
  end.

Definition display_shutdown (e : ShutdownError) : string :=
  match e with
  | ShutWrongThread => "runtime shutdown must run on its owner thread"
  | ShutForkedProcess => "runtime was inherited across fork"
  | ShutNative e => "runtime shutdown failed: " ++ display_native e
  end.

Definition display_join (e : JoinError) : string :=
  match e with
  | Cancelled => "task was cancelled"
  | Panic _ => "task panicked"
  | Runtime e => "task failed in the native runtime: " ++ display_native e
  end.
End Display.

(** ** Properties *)

Section Properties.
Context `{codes : NosvCodes}.

Lemma classify_unknown c : classify c = Unknown c -> c ∉ known_error_codes.
Proof.
  unfold classify, known_error_codes. rewrite !not_elem_of_cons.
  repeat match goal with |- context [?a =? ?b] => destruct (Z.eqb_spec a b); [done|] end.
  repeat split; try done. apply not_elem_of_nil.
Qed.

Lemma pretty_suffix_inj (a b : Z) (t : string) :
  (pretty a ++ t = pretty b ++ t)%string -> a = b.
Proof. intros H. apply append_inj_r in H. by apply (inj pretty). Qed.

(** A code is preserved by classification, whatever the constants are. *)
Lemma code_classify c : code (classify c) = c.
Proof.
  unfold classify.
  repeat match goal with |- context [?a =? ?b] => destruct (Z.eqb_spec a b); [done|] end.
  done.
Qed.

Lemma classify_code `{!NosvCodesDistinct} e :
  (forall c, e = Unknown c -> c ∉ known_error_codes) -> classify (code e) = e.
Proof.
  intros Hu. pose proof codes_distinct as Hd.
  unfold known_error_codes in *. rewrite !NoDup_cons in Hd.
  repeat setoid_rewrite not_elem_of_cons in Hd. destruct_and! Hd.
  destruct e as [| | | | | | | | |c]; cbn [code]; unfold classify;
    try (specialize (Hu c eq_refl); rewrite ?not_elem_of_cons in Hu; destruct_and! Hu);
    repeat match goal with
      | |- context [?a =? ?b] => destruct (Z.eqb_spec a b); [congruence|]
      end; congruence.
Qed.

(**  Decoding a status code and reading back a [NativeError]'s code are
    inverse: a code decodes to [e] exactly when it is not the success code, [e]
    carries it, and [e] is [Unknown] only for codes the crate does not name. *)
Theorem native_code_roundtrip (Hd : NosvCodesDistinct) (c : Z) (e : NativeError) :
  from_code c = Err e <->
  c <> NOSV_SUCCESS /\ code e = c /\ (forall k, e = Unknown k -> k ∉ known_error_codes).
Proof.
  unfold from_code. destruct (Z.eqb_spec c NOSV_SUCCESS) as [->|Hne].
  { split; [done|naive_solver]. }
  split.
  - intros [= <-]. repeat split; [done|apply code_classify|].
    intros k Hk. pose proof (code_classify c) as Hc. rewrite Hk in Hc. cbn in Hc. subst k.
    by apply classify_unknown.
  - intros (_ & <- & Hu). by rewrite classify_code.
Qed.

(** Diagnostics are unambiguous: different native errors print different
    texts. *)
Theorem display_native_inj e1 e2 : e1 <> e2 -> display_native e1 <> display_native e2.
Proof.
  intros Hne Heq. apply Hne. unfold display_native in Heq.
  destruct e1, e2; cbv [String.append native_message] in Heq;
    try discriminate Heq; try reflexivity.
  f_equal. injection Heq as Heq. by apply pretty_suffix_inj in Heq.
Qed.
End Properties.

#[global] Arguments from_code {codes} code : simpl never.

(** The unknown code [-77], against the sample constants. *)
Lemma native_code_roundtrip_witness :
  from_code (codes := sample_codes) (-77) = Err (Unknown (-77)).
Proof.
  apply (@native_code_roundtrip sample_codes sample_codes_distinct (-77) (Unknown (-77))).
  split; [vm_compute; discriminate|]. split; [reflexivity|].
  intros k [= <-]. apply (bool_decide_unpack _). vm_compute. exact I.
Defined.

Lemma display_native_inj_witness :
  display_native (codes := sample_codes) (Unknown 12) <> display_native (codes := sample_codes) (Unknown 120).
Proof. apply (@display_native_inj sample_codes). discriminate. Defined.
