(* ===== verification/Ffi.v ===== *)
(** * Ffi: the boundary to nOS-V ([src/src/ffi.rs])

    Every wrapper of [ffi.rs] as a program over the external-call history.  The
    native library itself is not part of the repository: it is the oracle, an
    arbitrary function from the history of calls and answers to the next answer.
    A pointer is an address, [0] when null; [RawTask] and [RawTaskType] are the
    non-null ones.  Waker invocations are external calls too, so the history
    orders them against native operations. *)

From Stdlib Require Import ZArith Lia.
From stdpp Require Import base list strings.
From S2P Require Import Prelude Errors.

Open Scope Z_scope.

Definition RawTask := positive.
Definition RawTaskType := positive.

(** Identity of a [std::task::Waker]; [will_wake] compares identities. *)
Definition Waker := N.
Definition will_wake (a b : Waker) : bool := bool_decide (a = b).

Inductive SubmitFlags : Type := SUBMIT_NONE | SUBMIT_DEADLINE_WAKE.

(** The calls the crate makes out of safe Rust. *)
Inductive ncall : Type :=
| NInit
| NShutdown
| NSelf
| NTypeInit (label : string) (cost : bool)
| NTypeDestroy (ty : RawTaskType)
| NCreate (ty : RawTaskType) (metadata_size : Z)
| NMetadata (t : RawTask)
| NSetPriority (t : RawTask) (priority : Z)
| NSetAffinity (t : RawTask) (level type_ index : Z)
| NSubmit (t : RawTask) (flags : SubmitFlags)
| NSuspend
| NDestroy (t : RawTask)
| NAttach (label : string)
| NPause
| NYield
| NSetSubmitWindow (size : Z)
| NFlushSubmitWindow
| NWaitfor (nanos : Z)
| NDetach
| NCurrentCpu
| NCurrentNuma
| NNumCpus
| NAvailableCpus
| NNumNumaNodes
| NAvailableNumaNodes
| NNumDomains (level : Z)
| NAvailableDomains (level : Z)
| NNumCpusIn (level id : Z)
| NAvailableCpusIn (level id : Z)
| CFree (pointer : N)
| NMemoryUsed
| NMemorySize
| NMemoryPressure
| WakeCall (w : Waker).

#[export] Instance SubmitFlags_eq_dec : EqDecision SubmitFlags.
Proof. solve_decision. Defined.
#[export] Instance ncall_eq_dec : EqDecision ncall.
Proof. solve_decision. Defined.

(** An answer: the returned integer, the pointer returned or written to the
    output parameter, and the integers found behind a returned pointer or written
    to a scalar output parameter. *)
Record nresp : Type := RespData { rcode : Z; rptr : N; rdata : list Z }.
Definition Resp (code : Z) (ptr : N) : nresp := RespData code ptr [].

Notation nhistory := (history ncall nresp).
Notation noracle := (oracle ncall nresp).
Notation nprog := (prog ncall nresp).

(** The calls of a history, oldest first. *)
Definition calls (h : nhistory) : list ncall := rev (map fst h).

Lemma calls_app (h1 h2 : nhistory) : calls (h1 ++ h2) = calls h2 ++ calls h1.
Proof. unfold calls. by rewrite map_app, rev_app_distr. Qed.

Lemma calls_cons e (h : nhistory) : calls (e :: h) = calls h ++ [e.1].
Proof. done. Qed.

Section Ffi.
Context `{codes : NosvCodes} {S : Type}.

(** [RawTask::from_ptr]. *)
Definition from_ptr (pointer : N) : option RawTask := non_null pointer.

Definition status (c : ncall) : nprog S (result NativeError unit) :=
  r ← call c; mret (from_code (rcode r)).

(** Calls with an output pointer: a success with a null output is an error. *)
Definition status_ptr (c : ncall) : nprog S (result NativeError positive) :=
  r ← call c;
  mret (match from_code (rcode r) with
        | Ok _ => ok_or InvalidOperation (non_null (rptr r))
        | Err e => Err e
        end).

Definition ffi_init : nprog S (result NativeError unit) := status NInit.
Definition ffi_shutdown : nprog S (result NativeError unit) := status NShutdown.

Definition ffi_current : nprog S (option RawTask) :=
  r ← call NSelf; mret (from_ptr (rptr r)).

Definition type_init (label : string) (cost : bool) : nprog S (result NativeError RawTaskType) :=
  status_ptr (NTypeInit label cost).
Definition type_destroy (ty : RawTaskType) : nprog S (result NativeError unit) :=
  status (NTypeDestroy ty).

Definition create (ty : RawTaskType) (metadata_size : Z) : nprog S (result NativeError RawTask) :=
  status_ptr (NCreate ty metadata_size).

Definition metadata (t : RawTask) : nprog S (result NativeError positive) :=
  r ← call (NMetadata t); mret (ok_or InvalidMetadataSize (non_null (rptr r))).

Definition set_priority (t : RawTask) (priority : Z) : nprog S unit :=
  _ ← call (NSetPriority t priority); mret tt.
Definition set_affinity (t : RawTask) (a : Z * Z * Z) : nprog S unit :=
  let '(level, type_, index) := a in
  _ ← call (NSetAffinity t level type_ index); mret tt.

Definition submit_with (t : RawTask) (flags : SubmitFlags) : nprog S (result NativeError unit) :=
  status (NSubmit t flags).
Definition submit (t : RawTask) : nprog S (result NativeError unit) :=
  submit_with t SUBMIT_NONE.
Definition submit_deadline_wake (t : RawTask) : nprog S (result NativeError unit) :=
  submit_with t SUBMIT_DEADLINE_WAKE.

Definition suspend : nprog S (result NativeError unit) := status NSuspend.

(** A successful [nosv_suspend]: the callback will return suspended. *)
Definition suspends (e : ncall * nresp) : bool :=
  match e.1 with NSuspend => is_ok (from_code (rcode e.2)) | _ => false end.
Definition destroy (t : RawTask) : nprog S (result NativeError unit) := status (NDestroy t).
Definition attach (label : string) : nprog S (result NativeError RawTask) :=
  status_ptr (NAttach label).
Definition pause : nprog S (result NativeError unit) := status NPause.

(** [nosv_yield] through [from_code(..).map(drop)]. *)
Definition yield_now : nprog S (result NativeError unit) := status NYield.
Definition set_submit_window_size (size : Z) : nprog S (result NativeError unit) :=
  status (NSetSubmitWindow size).
Definition flush_submit_window : nprog S (result NativeError unit) := status NFlushSubmitWindow.

(** Nanoseconds saturate at [u64::MAX]. *)
Definition saturate_nanos (nanos : Z) : Z := Z.min nanos u64_max.
Definition waitfor (nanos : Z) : nprog S (result NativeError unit) :=
  status (NWaitfor (saturate_nanos nanos)).

Definition detach : nprog S (result NativeError unit) := status NDetach.

(** Negative sentinels become errors. *)
Definition non_negative (v : Z) : result NativeError Z :=
  if v <? 0 then Err InvalidOperation else Ok v.
Definition current_cpu : nprog S (result NativeError Z) :=
  r ← call NCurrentCpu; mret (non_negative (rcode r)).
Definition current_numa_node : nprog S (result NativeError Z) :=
  r ← call NCurrentNuma; mret (non_negative (rcode r)).

(** [waker.wake()], its panics contained by the caller. *)
Definition wake (w : Waker) : nprog S unit := _ ← call (WakeCall w); mret tt.
Definition wake_opt (w : option Waker) : nprog S unit :=
  match w with Some w => wake w | None => mret tt end.
End Ffi.

(** A library that accepts every call. *)
Definition accepts `{codes : NosvCodes} (o : noracle) : Prop :=
  (forall h c, from_code (rcode (o h c)) = Ok tt) /\ (forall h raw, rptr (o h (NMetadata raw)) <> 0%N).

(** One call, seen from its postcondition. *)
Lemma status_post `{codes : NosvCodes} {S} c o (s : S) h
    (Q : outcome (result NativeError unit) -> S -> nhistory -> Prop) :
  Q (Done (from_code (rcode (o h c)))) s ((c, o h c) :: h) ->
  run_post (status c) o s h Q.
Proof. done. Qed.

Lemma status_ptr_post `{codes : NosvCodes} {S} c o (s : S) h
    (Q : outcome (result NativeError positive) -> S -> nhistory -> Prop) :
  Q (Done (match from_code (rcode (o h c)) with
           | Ok _ => ok_or InvalidOperation (non_null (rptr (o h c)))
           | Err e => Err e
           end)) s ((c, o h c) :: h) ->
  run_post (status_ptr c) o s h Q.
Proof. done. Qed.

Lemma metadata_post {S} t o (s : S) h
    (Q : outcome (result NativeError positive) -> S -> nhistory -> Prop) :
  Q (Done (ok_or InvalidMetadataSize (non_null (rptr (o h (NMetadata t)))))) s
    ((NMetadata t, o h (NMetadata t)) :: h) ->
  run_post (metadata t) o s h Q.
Proof. done. Qed.

(** ** Native call accounting

    Safety statements are about which native calls a history contains. *)

Notation event := (ncall * nresp)%type.

Definition submits (t : RawTask) (e : event) : bool :=
  match e.1 with NSubmit u _ => bool_decide (t = u) | _ => false end.
Definition destroys (t : RawTask) (e : event) : bool :=
  match e.1 with NDestroy u => bool_decide (t = u) | _ => false end.
Definition wakes (w : Waker) (e : event) : bool :=
  match e.1 with WakeCall v => bool_decide (w = v) | _ => false end.

(** A call that dereferences the descriptor [t]. *)
Definition uses (t : RawTask) (e : event) : bool :=
  match e.1 with
  | NMetadata u | NSetPriority u _ | NSetAffinity u _ _ _ | NSubmit u _ | NDestroy u =>
      bool_decide (t = u)
  | _ => false
  end.

(** Number of events of a kind in a history. *)
Fixpoint count (p : event -> bool) (h : nhistory) : nat :=
  match h with
  | [] => 0
  | e :: h' => (if p e then 1 else 0) + count p h'
  end%nat.

Lemma count_app p h1 h2 : count p (h1 ++ h2) = (count p h1 + count p h2)%nat.
Proof. induction h1 as [|e h1 IH]; cbn; [done|]. rewrite IH. lia. Qed.

(** No use of [t] follows its destruction (histories are newest first). *)
Fixpoint no_use_after_destroy (t : RawTask) (h : nhistory) : Prop :=
  match h with
  | [] => True
  | e :: h' => (uses t e -> count (destroys t) h' = 0%nat) /\ no_use_after_destroy t h'
  end.

(** ** Descriptors that are created and destroyed *)

Section Descriptors.
Context `{codes : NosvCodes}.

(** A native descriptor came into being. *)
Definition creates (raw : RawTask) (e : event) : bool :=
  match e.1 with
  | NCreate _ _ => is_ok (from_code (rcode e.2)) && bool_decide (rptr e.2 = Npos raw)
  | _ => false
  end.

(** Every descriptor created in [h] was destroyed once, as its last use. *)
Definition all_destroyed (h : nhistory) : Prop :=
  forall raw, count (creates raw) h <> 0%nat ->
    count (destroys raw) h = 1%nat /\ no_use_after_destroy raw h.

Lemma none_created e : (forall raw, creates raw e = false) -> all_destroyed [e].
Proof. intros He raw. cbn. by rewrite He. Qed.

(** Calls that inspect or configure a descriptor. *)
Definition configures (e : event) : Prop :=
  match e.1 with NSetPriority _ _ | NSetAffinity _ _ _ _ | NMetadata _ => True | _ => False end.

Lemma configures_counts mid (raw : RawTask) : Forall configures mid ->
  count (submits raw) mid = 0%nat /\ count (destroys raw) mid = 0%nat /\
  count (creates raw) mid = 0%nat.
Proof.
  induction 1 as [|[c r] mid He Hm (IH1 & IH2 & IH3)]; [done|]. cbn.
  rewrite IH1, IH2, IH3. by destruct c.
Qed.

Lemma undestroyed_safe (raw : RawTask) h :
  count (destroys raw) h = 0%nat -> no_use_after_destroy raw h.
Proof.
  induction h as [|e h IH]; cbn; [done|]. destruct (destroys raw e); [lia|]. cbn. auto.
Qed.

(** The history of a descriptor created by [e] and then configured. *)
Section Created.
Context (raw : RawTask) (e : event) (mid : nhistory).
Hypothesis Hcreate : exists ty n, e.1 = NCreate ty n.
Hypothesis Hraw : forall u, creates u e = bool_decide (raw = u).
Hypothesis Hmid : Forall configures mid.

Lemma created_counts u :
  count (creates u) (mid ++ [e]) = (if bool_decide (raw = u) then 1 else 0)%nat /\
  count (destroys u) (mid ++ [e]) = 0%nat /\ count (submits u) (mid ++ [e]) = 0%nat.
Proof.
  destruct (configures_counts mid u Hmid) as (H1 & H2 & H3).
  rewrite !count_app, H1, H2, H3. cbn. rewrite Hraw.
  destruct e as [c r], Hcreate as (ty & n & He). cbn in He. subst c. cbn. by case_bool_decide.
Qed.

Lemma created_then_destroyed r sub :
  (sub = [] \/ exists q, sub = [(NSubmit raw SUBMIT_NONE, q)]) ->
  all_destroyed ((NDestroy raw, r) :: sub ++ mid ++ [e]).
Proof.
  intros Hsub u. destruct (created_counts u) as (H1 & H2 & H3).
  assert (count (creates u) (sub ++ mid ++ [e]) = (if bool_decide (raw = u) then 1 else 0)%nat /\
          count (destroys u) (sub ++ mid ++ [e]) = 0%nat) as [Hc Hd].
  { destruct Hsub as [->|[q ->]]; done. }
  cbn [count no_use_after_destroy]. rewrite Hc, Hd.
  unfold creates at 1, destroys at 1, uses at 1; cbn. case_bool_decide; [|done]. subst u. intros _.
  rewrite bool_decide_true by done. split_and!; [done|done|by apply undestroyed_safe].
Qed.
End Created.

(** ** Balanced resources

    What the crate holds of the library: its initialization, task types and
    descriptors.  [stack h st] runs the calls of [h] on the stack of held resources:
    a success pushes what it returned, a release pops, and [None] is a release of
    something other than the resource acquired last. *)
Inductive resource : Type :=
| RInit
| RType (ty : RawTaskType)
| RDesc (raw : RawTask).

#[local] Instance resource_eq_dec : EqDecision resource.
Proof. solve_decision. Defined.

Definition acquired (e : event) : option resource :=
  let returned := if is_ok (from_code (rcode e.2)) then non_null (rptr e.2) else None in
  match e.1 with
  | NInit => if is_ok (from_code (rcode e.2)) then Some RInit else None
  | NTypeInit _ _ => RType <$> returned
  | NCreate _ _ => RDesc <$> returned
  | _ => None
  end.

Definition released (c : ncall) : option resource :=
  match c with
  | NShutdown => Some RInit
  | NTypeDestroy ty => Some (RType ty)
  | NDestroy raw => Some (RDesc raw)
  | _ => None
  end.

Definition stack_step (e : event) (st : list resource) : option (list resource) :=
  match released e.1 with
  | Some r =>
      match st with
      | r' :: st' => if decide (r = r') then Some st' else None
      | [] => None
      end
  | None => Some (match acquired e with Some r => r :: st | None => st end)
  end.

Fixpoint stack (h : nhistory) (st : list resource) : option (list resource) :=
  match h with [] => Some st | e :: h' => stack h' st ≫= stack_step e end.

Lemma stack_app a b st : stack (a ++ b) st = stack b st ≫= stack a.
Proof.
  induction a as [|e a IH]; cbn; [by destruct (stack b st)|]. rewrite IH.
  by destruct (stack b st).
Qed.

(** Calls that neither acquire nor release. *)
Definition stackless (e : event) : Prop := acquired e = None /\ released e.1 = None.

Lemma stack_stackless new st : Forall stackless new -> stack new st = Some st.
Proof.
  induction 1 as [|e new [Ha Hr] _ IH]; [done|]. cbn. rewrite IH. cbn. unfold stack_step.
  by rewrite Ha, Hr.
Qed.

Lemma configures_stackless mid : Forall configures mid -> Forall stackless mid.
Proof. intros H. eapply Forall_impl; [done|]. by intros [[] r] He. Qed.

(** The event that created [raw]. *)
Definition made (raw : RawTask) (e : event) : Prop :=
  (exists ty n, e.1 = NCreate ty n) /\ (forall u, creates u e = bool_decide (raw = u)) /\
  forall st, stack [e] st = Some (RDesc raw :: st).

(** A release of what is on top. *)
Lemma stack_released c x r h st st' :
  released c = Some x -> stack h st = Some (x :: st') -> stack ((c, r) :: h) st = Some st'.
Proof. intros Hx H. cbn. rewrite H. cbn. unfold stack_step. cbn. by rewrite Hx, decide_True. Qed.

Lemma stack_destroyed raw r h st st' :
  stack h st = Some (RDesc raw :: st') -> stack ((NDestroy raw, r) :: h) st = Some st'.
Proof. by apply stack_released. Qed.

Lemma stack_over mid e raw st :
  made raw e -> Forall stackless mid -> stack (mid ++ [e]) st = Some (RDesc raw :: st).
Proof. intros (_ & _ & He) Hm. rewrite stack_app, He. cbn [mbind option_bind]. by apply stack_stackless. Qed.

(** [create]: a descriptor, or nothing that would have to be destroyed. *)
Lemma create_post {S} ty n o (s : S) h
    (Q : outcome (result NativeError RawTask) -> S -> nhistory -> Prop) :
  let e := (NCreate ty n, o h (NCreate ty n)) in
  (forall err, all_destroyed [e] -> (forall st, stack [e] st = Some st) ->
    Q (Done (Err err)) s (e :: h)) ->
  (forall raw, made raw e -> Q (Done (Ok raw)) s (e :: h)) ->
  run_post (create ty n) o s h Q.
Proof.
  intros e Herr Hok. apply status_ptr_post. fold e. set (r := o h _) in *.
  destruct (from_code (rcode r)) as [[]|err] eqn:Hc; [destruct (rptr r) as [|raw] eqn:Hp|];
    cbn [non_null ok_or].
  - apply Herr; [|by intros st; cbn; unfold stack_step, acquired; cbn; fold r; rewrite Hc, Hp].
    apply none_created. intros raw. unfold creates; cbn. fold r. by rewrite Hc, Hp.
  - apply Hok. split_and!; [by eexists _, _| |].
    + intros u. unfold creates; cbn. fold r. rewrite Hc, Hp. cbn. apply bool_decide_ext.
      split; [by intros [= ->]|by intros ->].
    + intros st. cbn. unfold stack_step, acquired. cbn. fold r. by rewrite Hc, Hp.
  - apply Herr; [|by intros st; cbn; unfold stack_step, acquired; cbn; fold r; rewrite Hc].
    apply none_created. intros raw. unfold creates; cbn. fold r. by rewrite Hc.
Qed.

(** [type_init]: a type on the stack, or nothing. *)
Lemma type_init_post {S} label cost o (s : S) h
    (Q : outcome (result NativeError RawTaskType) -> S -> nhistory -> Prop) :
  let e := (NTypeInit label cost, o h (NTypeInit label cost)) in
  (forall err, (forall st, stack [e] st = Some st) -> Q (Done (Err err)) s (e :: h)) ->
  (forall ty, (forall st, stack [e] st = Some (RType ty :: st)) -> Q (Done (Ok ty)) s (e :: h)) ->
  run_post (type_init label cost) o s h Q.
Proof.
  intros e Herr Hok. apply status_ptr_post. fold e. set (r := o h _) in *.
  destruct (from_code (rcode r)) as [[]|err] eqn:Hc; [destruct (rptr r) as [|ty] eqn:Hp|];
    cbn [non_null ok_or].
  - apply Herr. intros st. cbn. unfold stack_step, acquired. cbn. fold r. by rewrite Hc, Hp.
  - apply Hok. intros st. cbn. unfold stack_step, acquired. cbn. fold r. by rewrite Hc, Hp.
  - apply Herr. intros st. cbn. unfold stack_step, acquired. cbn. fold r. by rewrite Hc.
Qed.

End Descriptors.

(** A library called from outside any task that accepts everything and hands out
    fresh descriptors: the concrete oracle of the witnesses. *)
Definition accepting : noracle :=
  fun h c => match c with NSelf => Resp 0 0 | _ => Resp 0 (N.of_nat (S (length h))) end.
