(* ===== verification/Affinity.v ===== *)
(** * Affinity: topology identifiers and task placement

    [src/src/affinity.rs] and the identifier types of [src/src/topology.rs].  The
    C bitfield [nosv_affinity_t] is generated code outside the repository: its
    setters and getters are a type class whose laws are the bitfield contract,
    with the field widths of nOS-V. *)

From Stdlib Require Import ZArith Lia.
From stdpp Require Import base list sets strings.
From S2P Require Import Prelude Errors Ffi.

Open Scope Z_scope.

(** ** Identifiers *)

(** [id_type!]: a [u32] that fits the signed native API. *)
Record CpuId : Type := mkCpuId { cpu_get : Z }.
Record NumaNodeId : Type := mkNumaNodeId { numa_get : Z }.

Definition id_new {I} (mk : Z -> I) (value : Z) : result NativeError I :=
  if value >? i32_max then Err InvalidParameter else Ok (mk value).

(** [u32::try_from(i32)]: negative values are refused. *)
Definition id_from_native {I} (mk : Z -> I) (value : Z) : result NativeError I :=
  if value <? 0 then Err InvalidParameter else Ok (mk value).

Definition CpuId_new : Z -> result NativeError CpuId := id_new mkCpuId.
Definition CpuId_from_native : Z -> result NativeError CpuId := id_from_native mkCpuId.
Definition NumaNodeId_new : Z -> result NativeError NumaNodeId := id_new mkNumaNodeId.
Definition NumaNodeId_from_native : Z -> result NativeError NumaNodeId :=
  id_from_native mkNumaNodeId.

Inductive TopologyLevel : Type := LNode | LNuma | LComplexSet | LCore | LCpu.

#[export] Instance TopologyLevel_eq_dec : EqDecision TopologyLevel.
Proof. solve_decision. Defined.
#[export] Instance CpuId_eq_dec : EqDecision CpuId.
Proof. solve_decision. Defined.
#[export] Instance NumaNodeId_eq_dec : EqDecision NumaNodeId.
Proof. solve_decision. Defined.

Record DomainId : Type := mkDomainId { level : TopologyLevel; system_id : Z }.

Definition DomainId_new (lvl : TopologyLevel) (id : Z) : result NativeError DomainId :=
  if id <? 0 then Err InvalidParameter else Ok (mkDomainId lvl id).

(** The [nosv_topo_level_t] constants of the bindings. *)
Class TopoLevels := {
  NOSV_TOPO_LEVEL_NODE : Z;
  NOSV_TOPO_LEVEL_NUMA : Z;
  NOSV_TOPO_LEVEL_COMPLEX_SET : Z;
  NOSV_TOPO_LEVEL_CORE : Z;
  NOSV_TOPO_LEVEL_CPU : Z
}.

Definition raw_level `{TopoLevels} (l : TopologyLevel) : Z :=
  match l with
  | LNode => NOSV_TOPO_LEVEL_NODE
  | LNuma => NOSV_TOPO_LEVEL_NUMA
  | LComplexSet => NOSV_TOPO_LEVEL_COMPLEX_SET
  | LCore => NOSV_TOPO_LEVEL_CORE
  | LCpu => NOSV_TOPO_LEVEL_CPU
  end.

(** ** Affinity *)

Definition MAX_INDEX : Z := Z.shiftl 1 29 - 1.

Inductive AffinityKind : Type := Preferred | Strict.
Inductive AffinityTarget : Type :=
| TCpu (id : CpuId)
| TNumaNode (id : NumaNodeId)
| TComplexSet (id : Z).
Inductive Affinity : Type :=
| Any
| Target (kind : AffinityKind) (target : AffinityTarget).

Definition preferred_cpu (cpu : CpuId) : Affinity := Target Preferred (TCpu cpu).
Definition strict_cpu (cpu : CpuId) : Affinity := Target Strict (TCpu cpu).
Definition preferred_numa_node (node : NumaNodeId) : Affinity := Target Preferred (TNumaNode node).
Definition strict_numa_node (node : NumaNodeId) : Affinity := Target Strict (TNumaNode node).

(** The generated bitfield structure: the index field keeps 29 bits, the two
    selector fields keep the constants of their enums. *)
Class AffinityRepr := {
  affinity_t : Type;
  affinity_default : affinity_t;
  set_level : Z -> affinity_t -> affinity_t;
  set_type : Z -> affinity_t -> affinity_t;
  set_index : Z -> affinity_t -> affinity_t;
  get_level : affinity_t -> Z;
  get_type : affinity_t -> Z;
  get_index : affinity_t -> Z;
  NOSV_AFFINITY_LEVEL_NONE : Z;
  NOSV_AFFINITY_LEVEL_CPU : Z;
  NOSV_AFFINITY_LEVEL_NUMA : Z;
  NOSV_AFFINITY_LEVEL_USER_COMPLEX : Z;
  NOSV_AFFINITY_TYPE_PREFERRED : Z;
  NOSV_AFFINITY_TYPE_STRICT : Z
}.

Definition level_constants `{AffinityRepr} : list Z :=
  [NOSV_AFFINITY_LEVEL_NONE; NOSV_AFFINITY_LEVEL_CPU; NOSV_AFFINITY_LEVEL_NUMA;
   NOSV_AFFINITY_LEVEL_USER_COMPLEX].
Definition type_constants `{AffinityRepr} : list Z :=
  [NOSV_AFFINITY_TYPE_PREFERRED; NOSV_AFFINITY_TYPE_STRICT].

(** The bitfield contract of the generated accessors. *)
Class AffinityLaws `{AffinityRepr} : Prop := {
  get_set_level l r : l ∈ level_constants -> get_level (set_level l r) = l;
  get_set_type t r : t ∈ type_constants -> get_type (set_type t r) = t;
  get_set_index i r : get_index (set_index i r) = i mod 2 ^ 29;
  level_set_type t r : get_level (set_type t r) = get_level r;
  level_set_index i r : get_level (set_index i r) = get_level r;
  type_set_index i r : get_type (set_index i r) = get_type r
}.

Section ToRaw.
Context `{repr : AffinityRepr}.

Definition raw_target (t : AffinityTarget) : Z * Z :=
  match t with
  | TCpu id => (NOSV_AFFINITY_LEVEL_CPU, cpu_get id)
  | TNumaNode id => (NOSV_AFFINITY_LEVEL_NUMA, numa_get id)
  | TComplexSet id => (NOSV_AFFINITY_LEVEL_USER_COMPLEX, id)
  end.

Definition raw_kind (k : AffinityKind) : Z :=
  match k with
  | Preferred => NOSV_AFFINITY_TYPE_PREFERRED
  | Strict => NOSV_AFFINITY_TYPE_STRICT
  end.

Definition to_raw (a : Affinity) : result NativeError affinity_t :=
  let raw := affinity_default in
  match a with
  | Any =>
      let raw := set_level NOSV_AFFINITY_LEVEL_NONE raw in
      let raw := set_type NOSV_AFFINITY_TYPE_PREFERRED raw in
      Ok (set_index 0 raw)
  | Target kind target =>
      let '(level, index) := raw_target target in
      if index >? MAX_INDEX then Err InvalidParameter else
      let raw := set_level level raw in
      let raw := set_type (raw_kind kind) raw in
      Ok (set_index index raw)
  end.

(** What the bitfields of the encoded value must read back as. *)
Definition fields (a : Affinity) : Z * Z * Z :=
  match a with
  | Any => (NOSV_AFFINITY_LEVEL_NONE, NOSV_AFFINITY_TYPE_PREFERRED, 0)
  | Target kind target => ((raw_target target).1, raw_kind kind, (raw_target target).2)
  end.

(** The identifiers are unsigned 32-bit values. *)
Definition affinity_wf (a : Affinity) : Prop :=
  match a with Any => True | Target _ target => in_u32 (raw_target target).2 end.
End ToRaw.

(** A concrete layout: the three fields, each cut to its width. *)
Definition packed_affinity : AffinityRepr := {|
  affinity_t := Z * Z * Z;
  affinity_default := (0, 0, 0);
  set_level l r := (l mod 4, r.1.2, r.2);
  set_type t r := (r.1.1, t mod 2, r.2);
  set_index i r := (r.1.1, r.1.2, i mod 2 ^ 29);
  get_level r := r.1.1;
  get_type r := r.1.2;
  get_index r := r.2;
  NOSV_AFFINITY_LEVEL_NONE := 0;
  NOSV_AFFINITY_LEVEL_CPU := 1;
  NOSV_AFFINITY_LEVEL_NUMA := 2;
  NOSV_AFFINITY_LEVEL_USER_COMPLEX := 3;
  NOSV_AFFINITY_TYPE_PREFERRED := 0;
  NOSV_AFFINITY_TYPE_STRICT := 1
|}.

Lemma packed_affinity_laws : @AffinityLaws packed_affinity.
Proof.
  split; unfold level_constants, type_constants; cbn -[Z.pow];
    intros; set_unfold; destruct_or?; subst; done.
Qed.

(** ** Properties *)

Section Properties.
Context `{repr : AffinityRepr}.

Lemma raw_target_level t : (raw_target t).1 ∈ level_constants.
Proof. unfold level_constants. destruct t; cbn; repeat (left + right); left. Qed.
Lemma raw_kind_type k : raw_kind k ∈ type_constants.
Proof. unfold type_constants. destruct k; cbn; [left|right; left]. Qed.

(** Affinity encoding loses nothing: encoding fails, with
    [InvalidParameter], exactly when the target's index does not fit the 29-bit
    field, and otherwise the C fields read back as the level, the strength and the
    index of the affinity, the index never truncated. *)
Theorem to_raw_faithful (Hlaws : AffinityLaws) (a : Affinity) (Hwf : affinity_wf a) :
  match to_raw a with
  | Err e => e = InvalidParameter /\ (fields a).2 > MAX_INDEX
  | Ok r => (get_level r, get_type r, get_index r) = fields a /\ 0 <= (fields a).2 <= MAX_INDEX
  end.
Proof.
  destruct a as [|k t].
  - cbn. rewrite level_set_index, level_set_type, type_set_index, get_set_index, get_set_level,
      get_set_type; [done|left|left].
  - pose proof (raw_target_level t) as Hl. unfold to_raw, fields, affinity_wf in *.
    destruct (raw_target t) as [l i]; cbn -[MAX_INDEX] in *.
    rewrite Z.gtb_ltb. destruct (Z.ltb_spec MAX_INDEX i) as [Hi|Hi]; [split; [done|lia]|].
    split; [|unfold in_u32 in *; lia].
    rewrite level_set_index, level_set_type, type_set_index, get_set_index, get_set_level,
      get_set_type by first [done|apply raw_kind_type].
    rewrite Z.mod_small; [done|]. change MAX_INDEX with (2 ^ 29 - 1) in Hi.
    unfold in_u32 in *. lia.
Qed.
End Properties.

Lemma to_raw_faithful_witness :
  to_raw (repr := packed_affinity) (strict_cpu (mkCpuId 5)) = Ok (1, 1, 5) /\
  (get_level (AffinityRepr := packed_affinity) (1, 1, 5),
   get_type (AffinityRepr := packed_affinity) (1, 1, 5),
   get_index (AffinityRepr := packed_affinity) (1, 1, 5)) = (1, 1, 5).
Proof.
  split; [reflexivity|].
  apply (@to_raw_faithful packed_affinity packed_affinity_laws (strict_cpu (mkCpuId 5))).
  split; vm_compute; discriminate.
Defined.

(** Identifiers are checked at both ends: an identifier built from an unsigned
    value or accepted from the native side is non-negative, fits the signed native
    ABI and carries the value unchanged, and everything else is refused with
    [InvalidParameter]. *)
Theorem identifiers_checked (u n : Z) (lvl : TopologyLevel) (Hu : in_u32 u) (Hn : in_i32 n) :
  CpuId_new u = (if u <=? i32_max then Ok (mkCpuId u) else Err InvalidParameter) /\
  NumaNodeId_new u = (if u <=? i32_max then Ok (mkNumaNodeId u) else Err InvalidParameter) /\
  (forall c, CpuId_from_native n = Ok c <-> c = mkCpuId n /\ CpuId_new n = Ok c /\ 0 <= n) /\
  (forall c, NumaNodeId_from_native n = Ok c <-> c = mkNumaNodeId n /\ NumaNodeId_new n = Ok c /\ 0 <= n) /\
  (forall d, DomainId_new lvl n = Ok d <-> d = mkDomainId lvl n /\ 0 <= n) /\
  (n < 0 -> CpuId_from_native n = Err InvalidParameter /\
            DomainId_new lvl n = Err InvalidParameter).
Proof.
  unfold CpuId_new, NumaNodeId_new, CpuId_from_native, NumaNodeId_from_native, DomainId_new,
    id_new, id_from_native, in_i32 in *.
  rewrite !Z.gtb_ltb, Z.leb_antisym.
  destruct (Z.ltb_spec i32_max u), (Z.ltb_spec i32_max n), (Z.ltb_spec n 0); cbn;
    split_and!; try done; try lia; split; naive_solver lia.
Qed.

Lemma identifiers_checked_witness :
  CpuId_new 3000000000 = Err InvalidParameter /\ CpuId_from_native 7 = Ok (mkCpuId 7) /\
  DomainId_new LNuma 7 = Ok (mkDomainId LNuma 7).
Proof.
  destruct (identifiers_checked 3000000000 7 LNuma) as (H1 & _ & H2 & _ & H3 & _);
    [split; vm_compute; discriminate..|].
  split; [exact H1|]. split; [apply H2|apply H3]; split; try reflexivity;
    [split; [reflexivity|]|]; vm_compute; discriminate.
Defined.
