(* ===== verification/Task.v ===== *)
(** * Task: spawned tasks and joining ([src/src/task.rs])

    The scheduling gate ([NativeGate]/[TaskCore]), the join cell ([JoinState]),
    the erased runnable with its single poll ([Runnable::run_once]), the native
    callbacks, [JoinHandle]/[AbortHandle], and the configuration builder.  Each
    critical section of a mutex is one program; what other threads and user code
    do between two critical sections of a callback is an explicit list of gate
    operations in a [PollScript]. *)

From Stdlib Require Import ZArith Lia.
From stdpp Require Import base list strings.
From S2P Require Import Prelude Errors Ffi.

Open Scope Z_scope.

(** ** Data *)

Definition TaskId := Z.

Inductive TerminalKind : Type := TReady | TCancelled | TPanicked | TRuntimeError.

Inductive NativePhase : Type :=
| Building
| Live
| Terminal (k : TerminalKind)
| Destroying
| Destroyed.

#[export] Instance TerminalKind_eq_dec : EqDecision TerminalKind.
Proof. solve_decision. Defined.
#[export] Instance NativePhase_eq_dec : EqDecision NativePhase.
Proof. solve_decision. Defined.

Record NativeGate : Type := mkGate {
  task : option RawTask;
  phase : NativePhase;
  wake_submitted : bool;
  polling : bool;
  cancel_requested : bool
}.

Definition set_task t g := mkGate t (phase g) (wake_submitted g) (polling g) (cancel_requested g).
Definition set_phase p g := mkGate (task g) p (wake_submitted g) (polling g) (cancel_requested g).
Definition set_wake_submitted b g := mkGate (task g) (phase g) b (polling g) (cancel_requested g).
Definition set_polling b g := mkGate (task g) (phase g) (wake_submitted g) b (cancel_requested g).
Definition set_cancel_requested b g := mkGate (task g) (phase g) (wake_submitted g) (polling g) b.

Definition is_live (p : NativePhase) : bool := match p with Live => true | _ => false end.
Definition is_destroyed (p : NativePhase) : bool :=
  match p with Destroyed => true | _ => false end.
Definition is_terminal (p : NativePhase) : bool :=
  match p with Terminal _ => true | _ => false end.

(** The upgraded [Weak<RuntimeCore>], as far as the task layer looks at it. *)
Record RuntimeRef : Type := mkRuntimeRef { process_matches : bool }.

(** ** [TaskCore]: the gate operations *)

Section Gate.
Context `{codes : NosvCodes}.

(** The part [schedule] and [request_abort] share: submit under the gate. *)
Definition submit_live (missing rejected : string) : nprog NativeGate unit :=
  _ ← modify (set_wake_submitted true);
  raw ← gets task;
  match raw with
  | None => abort missing
  | Some raw =>
      r ← submit raw;
      match r with Ok _ => mret tt | Err _ => abort rejected end
  end.

Definition schedule (runtime : option RuntimeRef) : nprog NativeGate unit :=
  match runtime with
  | None => mret tt
  | Some runtime =>
      if negb (process_matches runtime) then mret tt else
      gate ← get;
      if negb (is_live (phase gate)) || wake_submitted gate then mret tt else
      submit_live "live task without descriptor" "ordinary submit failed for a live task"
  end.

Definition request_abort (runtime : option RuntimeRef) : nprog NativeGate bool :=
  match runtime with
  | None => mret false
  | Some runtime =>
      if negb (process_matches runtime) then mret false else
      gate ← get;
      if negb (is_live (phase gate)) || cancel_requested gate then mret false else
      _ ← modify (set_cancel_requested true);
      _ ← (if negb (wake_submitted gate)
           then submit_live "live task without descriptor" "ordinary cancellation submit failed"
           else mret tt);
      mret true
  end.

Definition start_poll : nprog NativeGate bool :=
  gate ← get;
  if negb (is_live (phase gate)) || polling gate
  then abort "invalid callback entry state"
  else
    _ ← modify (set_polling true);
    _ ← modify (set_wake_submitted false);
    if cancel_requested gate then
      _ ← modify (set_polling false);
      _ ← modify (set_phase (Terminal TCancelled));
      mret false
    else mret true.

Definition finish_pending : nprog NativeGate bool :=
  gate ← get;
  if negb (is_live (phase gate)) || negb (polling gate)
  then abort "invalid pending state"
  else
    _ ← modify (set_polling false);
    if cancel_requested gate then
      _ ← modify (set_phase (Terminal TCancelled));
      mret false
    else mret true.

Definition finish_terminal (kind : TerminalKind) : nprog NativeGate bool :=
  gate ← get;
  if negb (is_live (phase gate)) || negb (polling gate)
  then abort "invalid terminal state"
  else
    _ ← modify (set_polling false);
    let cancelled := cancel_requested gate in
    _ ← modify (set_phase (Terminal (if cancelled then TCancelled else kind)));
    mret (negb cancelled).

Definition replace_terminal (kind : TerminalKind) : nprog NativeGate unit :=
  modify (fun gate => if is_terminal (phase gate) then set_phase (Terminal kind) gate else gate).

Definition suspend_failed : nprog NativeGate unit :=
  modify (fun gate =>
    if is_live (phase gate) then set_phase (Terminal TRuntimeError) gate else gate).

Definition retire : nprog NativeGate (result NativeError unit) :=
  gate ← get;
  if negb (is_terminal (phase gate)) then mret (Err InvalidOperation) else
  _ ← modify (set_phase Destroying);
  raw ← gets task;
  _ ← modify (set_task None);
  let? raw := mret (ok_or InvalidOperation raw) in
  let? _ := destroy raw in
  _ ← modify (set_phase Destroyed);
  mret (Ok tt).
End Gate.

(** ** [JoinState]: the result cell of one [JoinHandle] *)

Section Join.
Context `{codes : NosvCodes} {T : Type}.

Record JoinInner : Type := mkJoin {
  jresult : option (result JoinError T);
  native_completed : bool;
  waiter : option Waker;
  consumed : bool
}.

Definition join_new : JoinInner := mkJoin None false None false.

Definition store (r : result JoinError T) : nprog JoinInner unit :=
  inner ← get;
  match jresult inner with
  | Some _ => abort "task result stored twice"
  | None => put (mkJoin (Some r) (native_completed inner) (waiter inner) (consumed inner))
  end.

Definition replace_error_if_unpublished (e : JoinError) : nprog JoinInner unit :=
  modify (fun inner =>
    if native_completed inner then inner
    else mkJoin (Some (Err e)) (native_completed inner) (waiter inner) (consumed inner)).

(** The critical section of [publish], then the wake outside the mutex. *)
Definition publish : nprog JoinInner unit :=
  inner ← get;
  let r := match jresult inner with
           | None => Some (Err (Runtime InvalidOperation))
           | r => r
           end in
  _ ← put (mkJoin r true None (consumed inner));
  _ ← catch_unwind (wake_opt (waiter inner));
  mret tt.

(** [Poll<Result<T, JoinError>>]; [None] is [Pending]. *)
Definition join_poll (cx : Waker) : nprog JoinInner (option (result JoinError T)) :=
  inner ← get;
  if consumed inner then panic "JoinHandle polled after completion" else
  if native_completed inner then
    _ ← put (mkJoin None true (waiter inner) true);
    mret (Some (match jresult inner with
                | Some r => r
                | None => Err (Runtime InvalidOperation)
                end))
  else
    let stale := match waiter inner with None => true | Some old => negb (will_wake old cx) end in
    _ ← (if stale
         then put (mkJoin (jresult inner) (native_completed inner) (Some cx) (consumed inner))
         else mret tt);
    mret None.

Definition join_is_finished (inner : JoinInner) : bool := native_completed inner.
End Join.
Arguments JoinInner : clear implicits.

Definition abort_is_finished (g : NativeGate) : bool := is_destroyed (phase g).

(** ** [Runnable]: one poll of the future *)

Section Runnable.
Context `{codes : NosvCodes} {F T : Type}.

(** A task: its gate, its future slot, its join cell, and the [CURRENT]
    thread-local of the pthread running its callback. *)
Record TaskState : Type := mkTask {
  gate : NativeGate;
  future : option F;
  join : JoinInner T;
  current : option RuntimeRef
}.

Definition on_gate {A} (m : nprog NativeGate A) : nprog TaskState A :=
  zoom gate (fun g s => mkTask g (future s) (join s) (current s)) m.
Definition on_join {A} (m : nprog (JoinInner T) A) : nprog TaskState A :=
  zoom join (fun j s => mkTask (gate s) (future s) j (current s)) m.
Definition set_future (f : option F) (s : TaskState) : TaskState :=
  mkTask (gate s) f (join s) (current s).
Definition set_current (c : option RuntimeRef) (s : TaskState) : TaskState :=
  mkTask (gate s) (future s) (join s) c.

(** What a waker or an abort handle does at some point of a callback. *)
Inductive gate_op : Type :=
| GWake (rt : option RuntimeRef)
| GAbort (rt : option RuntimeRef).

Definition run_gate_op (op : gate_op) : nprog NativeGate unit :=
  match op with
  | GWake rt => schedule rt
  | GAbort rt => _ ← request_abort rt; mret tt
  end.

Inductive PollOut : Type :=
| PollPending
| PollReady (output : T)
| PollPanic (payload : string).

(** The behaviour of user code and other threads during one callback. *)
Record PollScript : Type := mkScript {
  during : list gate_op;              (* while the future is polled *)
  next_future : F;                    (* the future after the poll *)
  out : PollOut;
  before_suspend : list gate_op;      (* between [finish_pending] and [nosv_suspend] *)
  drop_ops : list gate_op;            (* while the future is destroyed *)
  drop_panic : option string;         (* the payload its destructor panics with *)
  output_drop_ops : list gate_op      (* while a losing output is destroyed *)
}.

Definition take_and_drop_future (u : PollScript) : nprog TaskState (option string) :=
  f ← gets future;
  _ ← modify (set_future None);
  match f with
  | None => mret None
  | Some _ => _ ← on_gate (for_each run_gate_op (drop_ops u)); mret (drop_panic u)
  end.

Definition drop_output (u : PollScript) (_ : T) : nprog TaskState unit :=
  on_gate (for_each run_gate_op (output_drop_ops u)).

Definition terminal_cancelled (u : PollScript) : nprog TaskState unit :=
  _ ← take_and_drop_future u;
  on_join (store (Err Cancelled)).

(** The poll itself, panics caught. *)
Definition poll_future (u : PollScript) : nprog TaskState PollOut :=
  f ← gets future;
  match f with
  | None => abort "future missing during poll"
  | Some _ =>
      _ ← on_gate (for_each run_gate_op (during u));
      _ ← modify (set_future (Some (next_future u)));
      mret (out u)
  end.

(** The body of [run_once] under the [CURRENT] guard. *)
Definition run_entered (u : PollScript) : nprog TaskState unit :=
  polled ← poll_future u;
  match polled with
  | PollPending =>
      keep ← on_gate finish_pending;
      if negb keep then terminal_cancelled u else
      _ ← on_gate (for_each run_gate_op (before_suspend u));
      r ← suspend;
      match r with
      | Ok _ => mret tt
      | Err error =>
          _ ← on_gate suspend_failed;
          _ ← take_and_drop_future u;
          on_join (store (Err (Runtime error)))
      end
  | PollReady output =>
      won ← on_gate (finish_terminal TReady);
      if negb won then
        _ ← take_and_drop_future u;
        _ ← drop_output u output;
        on_join (store (Err Cancelled))
      else
        payload ← take_and_drop_future u;
        match payload with
        | Some payload =>
            _ ← on_gate (replace_terminal TPanicked);
            _ ← drop_output u output;
            on_join (store (Err (Panic payload)))
        | None => on_join (store (Ok output))
        end
  | PollPanic payload =>
      panic_wins ← on_gate (finish_terminal TPanicked);
      drop_panic ← take_and_drop_future u;
      if (panic_wins : bool)
      then on_join (store (Err (Panic (default payload drop_panic))))
      else on_join (store (Err Cancelled))
  end.

(** [enter_current]: install a handle in [CURRENT] until the scope ends. *)
Definition enter_current (handle : RuntimeRef) {A} (m : nprog TaskState A) : nprog TaskState A :=
  previous ← gets current;
  _ ← modify (set_current (Some handle));
  finally m (set_current previous).

Definition run_once (runtime : option RuntimeRef) (u : PollScript) : nprog TaskState unit :=
  live ← on_gate start_poll;
  if negb live then terminal_cancelled u else
  match runtime with
  | None =>
      _ ← on_gate (finish_terminal TRuntimeError);
      _ ← take_and_drop_future u;
      on_join (store (Err (Runtime InvalidOperation)))
  | Some handle => enter_current handle (run_entered u)
  end.

Definition force_panic (payload : string) : nprog TaskState unit :=
  _ ← on_gate (replace_terminal TPanicked);
  on_join (replace_error_if_unpublished (Panic payload)).

Definition force_native_error (e : NativeError) : nprog TaskState unit :=
  on_join (replace_error_if_unpublished (Runtime e)).

(** [owner_pointer]: the owner written into the descriptor's metadata by
    [spawn_on]; [owned] says whether the slot still holds it. *)
Definition owner_pointer (raw : RawTask) (owned : bool) : nprog TaskState bool :=
  r ← metadata raw;
  match r with
  | Err _ => abort "task metadata missing"
  | Ok _ => mret owned
  end.

Definition run_callback (pointer : N) (owned : bool) (runtime : option RuntimeRef)
    (u : PollScript) : nprog TaskState unit :=
  callback ← catch_unwind (
    match from_ptr pointer with
    | None => abort "null callback task"
    | Some raw =>
        owner ← owner_pointer raw owned;
        if negb owner then abort "null task owner" else
        r ← catch_unwind (run_once runtime u);
        match r with Ok _ => mret tt | Err payload => force_panic payload end
    end);
  match callback with Ok _ => mret tt | Err _ => abort "panic in task run callback" end.

(** [completed_callback] up to the registry removal, which belongs to the
    runtime ([task_completed]); the flag says whether it is due. *)
Definition completed_callback (pointer : N) (runtime : option RuntimeRef)
    : nprog TaskState bool :=
  completed ← catch_unwind (
    match from_ptr pointer with
    | None => abort "null completed task"
    | Some raw =>
        _ ← owner_pointer raw true;
        r ← on_gate retire;
        match r with
        | Err error =>
            _ ← force_native_error error;
            abort "could not retire completed native task"
        | Ok _ =>
            _ ← on_join publish;
            mret (match runtime with Some _ => true | None => false end)
        end
    end);
  match completed with Ok due => mret due | Err _ => abort "panic in completed callback" end.

Definition cost_callback (pointer : N) (owned : bool) (monitoring_cost : Z)
    : nprog TaskState Z :=
  r ← catch_unwind (
    match from_ptr pointer with
    | None => abort "null cost task"
    | Some raw =>
        owner ← owner_pointer raw owned;
        mret (if (owner : bool) then monitoring_cost else 1)
    end);
  match r with Ok cost => mret cost | Err _ => mret 1 end.
End Runnable.
Arguments TaskState : clear implicits.
Arguments PollScript : clear implicits.
Arguments PollOut : clear implicits.
