(* ===== verification/TaskLife.v ===== *)
(** * TaskLife: the protocol of one spawned task

    The callbacks, wakers, abort handles and the joiner of [Task], composed into a
    step relation, with the invariants that make the protocol safe: the native
    descriptor is never used after it was destroyed, no submission is lost or
    duplicated, the result is stored once, and it is published only after the
    future is dropped and the descriptor destroyed. *)

From Stdlib Require Import ZArith Lia.
From stdpp Require Import base list strings.
From S2P Require Import Prelude Errors Ffi Task.

Open Scope Z_scope.

(** ** The life of one task

    A step relation for one spawned task and everything that touches it: native
    callbacks, wakers and abort handles on any thread, and the joiner.  The
    guards of the callback steps are nOS-V's contract: the run callback is
    entered once per submission and never concurrently, and the completed
    callback is called once, after a run callback that returned without a
    successful [nosv_suspend]. *)

Inductive CallbackStatus : Type :=
| Idle        (* not entered yet, or suspended *)
| Returned    (* the final run callback returned *)
| Retired     (* the completed callback ran *)
| Dead.       (* the process was aborted *)

Section Life.
Context `{codes : NosvCodes} {F T : Type} (o : noracle) (raw : RawTask).

Record TaskSys : Type := mkSys {
  st : TaskState F T;
  hist : nhistory;
  runs : nat;
  status : CallbackStatus
}.

Definition spawned_gate : NativeGate := mkGate (Some raw) Live true false false.

(** The state in which [spawn_on] leaves a task it returned a handle for. *)
Definition life_init (s : TaskSys) : Prop :=
  gate (st s) = spawned_gate /\ is_Some (future (st s)) /\ join (st s) = join_new /\
  count (submits raw) (hist s) = 1%nat /\ count (destroys raw) (hist s) = 0%nat /\
  no_use_after_destroy raw (hist s) /\ runs s = 0%nat /\ status s = Idle.

Definition after_run (n : nat) (h : nhistory)
    (x : outcome unit * TaskState F T * nhistory) : TaskSys :=
  let '(r, s', h') := x in
  match r with
  | Done _ => mkSys s' h' (S n)
                (if (count suspends h <? count suspends h')%nat then Idle else Returned)
  | _ => mkSys s' h' (S n) Dead
  end.

Definition after_complete (n : nat) (x : outcome bool * TaskState F T * nhistory) : TaskSys :=
  let '(r, s', h') := x in
  mkSys s' h' n (match r with Done _ => Retired | _ => Dead end).

Definition after_op {A} (n : nat) (c : CallbackStatus)
    (x : outcome A * TaskState F T * nhistory) : TaskSys :=
  let '(r, s', h') := x in
  mkSys s' h' n (match r with Aborted _ => Dead | _ => c end).

Inductive life_step : TaskSys -> TaskSys -> Prop :=
| step_run s h n rt u :
    (n < count (submits raw) h)%nat ->
    life_step (mkSys s h n Idle) (after_run n h (run_callback (Npos raw) true rt u o s h))
| step_complete s h n rt :
    life_step (mkSys s h n Returned) (after_complete n (completed_callback (Npos raw) rt o s h))
| step_gate s h n c op :
    c <> Dead ->
    life_step (mkSys s h n c) (after_op n c (on_gate (run_gate_op op) o s h))
| step_join s h n c cx :
    c <> Dead ->
    life_step (mkSys s h n c) (after_op n c (on_join (join_poll cx) o s h)).

Definition b2n (b : bool) : nat := if b then 1 else 0.

(** The result a joiner gets agrees with the terminal reason of the gate. *)
Definition agrees (k : TerminalKind) (r : result JoinError T) : Prop :=
  match k, r with
  | TReady, Ok _ => True
  | TCancelled, Err Cancelled => True
  | TPanicked, Err (Panic _) => True
  | TRuntimeError, Err (Runtime _) => True
  | _, _ => False
  end.

(** The descriptor is not destroyed yet, and has been submitted [n] times. *)
Definition alive_history (n : nat) (h : nhistory) : Prop :=
  count (submits raw) h = n /\ count (destroys raw) h = 0%nat /\ no_use_after_destroy raw h.

(** A live gate: as many submissions as entered callbacks, plus the one in
    flight exactly when [wake_submitted] says so, as it does after a request to
    cancel. *)
Definition live_gate (pol : bool) (n k : nat) (g : NativeGate) (h : nhistory) : Prop :=
  task g = Some raw /\ phase g = Live /\ polling g = pol /\
  alive_history (n + b2n (wake_submitted g)) h /\ count suspends h = k /\
  (cancel_requested g = true -> wake_submitted g = true).

(** nOS-V refused a submission or a destruction, or lost the metadata. *)
Definition fault (e : event) : bool :=
  match e.1 with
  | NSubmit _ _ | NDestroy _ => negb (is_ok (from_code (rcode e.2)))
  | NMetadata _ => match rptr e.2 with N0 => true | _ => false end
  | _ => false
  end.

Definition faulted (h : nhistory) : Prop := exists e, e ∈ h /\ fault e = true.

(** All that holds once the process was aborted. *)
Definition aborted_inv (h : nhistory) : Prop := no_use_after_destroy raw h /\ faulted h.

Definition unpublished (j : JoinInner T) : Prop :=
  jresult j = None /\ native_completed j = false /\ consumed j = false.

Definition waiting_inv (s : TaskState F T) (h : nhistory) (n k : nat) : Prop :=
  live_gate false n k (gate s) h /\ is_Some (future s) /\ unpublished (join s).

Definition returned_inv (s : TaskState F T) (h : nhistory) : Prop :=
  exists kind r m,
    task (gate s) = Some raw /\ phase (gate s) = Terminal kind /\ polling (gate s) = false /\
    alive_history m h /\ future s = None /\ jresult (join s) = Some r /\ agrees kind r /\
    native_completed (join s) = false /\ consumed (join s) = false.

Definition retired_inv (s : TaskState F T) (h : nhistory) : Prop :=
  task (gate s) = None /\ phase (gate s) = Destroyed /\ polling (gate s) = false /\
  count (destroys raw) h = 1%nat /\ no_use_after_destroy raw h /\ future s = None /\
  native_completed (join s) = true /\
  (consumed (join s) = false -> is_Some (jresult (join s))).

Definition life_inv (s : TaskSys) : Prop :=
  match status s with
  | Idle => exists k, waiting_inv (st s) (hist s) (runs s) k
  | Returned => returned_inv (st s) (hist s)
  | Retired => retired_inv (st s) (hist s)
  | Dead => aborted_inv (hist s)
  end.
End Life.
Arguments TaskSys : clear implicits.

(** ** What a callback means

    The abstract specification of one run callback: the result it stores, or
    [None] when the task suspends.  It mentions neither the gate nor the slots. *)

Section CallbackSpec.
Context `{codes : NosvCodes} {F T : Type}.

(** An abort request that reaches a live task. *)
Definition abort_hits (op : gate_op) : bool :=
  match op with GAbort (Some rt) => process_matches rt | _ => false end.

(** The answer of the [nosv_suspend] that ended the callback. *)
Definition suspend_answer (h : nhistory) : result NativeError unit :=
  match h with (NSuspend, r) :: _ => from_code (rcode r) | _ => Ok tt end.

Definition polled_result (cancelled : bool) (u : PollScript F T)
    (suspended : result NativeError unit) : option (result JoinError T) :=
  if cancelled then Some (Err Cancelled) else
  match out u with
  | PollPending => match suspended with Ok _ => None | Err e => Some (Err (Runtime e)) end
  | PollReady output =>
      Some (match drop_panic u with Some payload => Err (Panic payload) | None => Ok output end)
  | PollPanic payload => Some (Err (Panic (default payload (drop_panic u))))
  end.

Definition callback_result (cancelled : bool) (rt : option RuntimeRef) (u : PollScript F T)
    (suspended : result NativeError unit) : option (result JoinError T) :=
  if cancelled then Some (Err Cancelled) else
  match rt with
  | None => Some (Err (Runtime InvalidOperation))
  | Some _ => polled_result (existsb abort_hits (during u)) u suspended
  end.
End CallbackSpec.

(** ** Gate operations preserve liveness of the descriptor *)

Section GateLemmas.
Context `{codes : NosvCodes} {F T : Type} (o : noracle) (raw : RawTask).
Implicit Types (g : NativeGate) (h : nhistory).

Lemma alive_submit n h r :
  alive_history raw n h ->
  alive_history raw (S n) ((NSubmit raw SUBMIT_NONE, r) :: h).
Proof.
  intros (Hs & Hd & Hn). repeat split; cbn; [|done..].
  by rewrite bool_decide_true, Hs.
Qed.

(** Programs that neither panic nor wait, and abort only after a fault. *)
Definition ends {A} (r : outcome A) h : Prop :=
  match r with Done _ => True | Aborted _ => faulted h | _ => False end.

Lemma faulted_here e h : fault e = true -> faulted (e :: h).
Proof. exists e. split; [left|done]. Qed.

Lemma gate_op_live op pol n k g h :
  live_gate raw pol n k g h ->
  run_post (run_gate_op op) o g h (fun r g' h' => ends r h' /\ live_gate raw pol n k g' h').
Proof.
  intros (Ht & Hp & Hpol & Ha & Hk & Hcw).
  destruct g as [t p ws po cr]; cbn in *; subst.
  unfold run_post, run_gate_op, schedule, request_abort, submit_live, submit, submit_with, Ffi.status.
  destruct op as [[rt|]|[rt|]]; run_unfold; try done;
    destruct (process_matches rt); cbn; try done;
    destruct ws, cr; cbn; try destruct (from_code _) eqn:Hc; cbn;
    refine (conj _ (conj eq_refl (conj eq_refl (conj eq_refl (conj _ (conj eq_refl _))))));
    rewrite ?Nat.add_0_r, ?Nat.add_1_r in *; try done;
    first [by apply alive_submit | apply faulted_here; unfold fault; cbn; by rewrite Hc].
Qed.

(** Only an abort request changes [cancel_requested], and it sticks. *)
Lemma gate_op_cancel op pol n k g h :
  live_gate raw pol n k g h ->
  run_post (run_gate_op op) o g h (fun r g' h' =>
    cancel_requested g' = cancel_requested g || abort_hits op).
Proof.
  intros (Ht & Hp & _). destruct g as [t p ws po cr]; cbn in *; subst.
  unfold run_post, run_gate_op, schedule, request_abort, submit_live, submit, submit_with, Ffi.status.
  destruct op as [[rt|]|[rt|]]; run_unfold; rewrite ?orb_false_r; try done;
    destruct (process_matches rt); cbn; rewrite ?orb_false_r; try done;
    destruct ws, cr; cbn; try destruct (from_code _); done.
Qed.

Lemma gate_ops_cancel ops pol n k g h :
  live_gate raw pol n k g h ->
  run_post (for_each run_gate_op ops) o g h (fun r g' h' =>
    match r with
    | Done _ => cancel_requested g' = cancel_requested g || existsb abort_hits ops
    | _ => True
    end).
Proof.
  revert g h. induction ops as [|op ops IH]; intros g h Hl.
  { unfold run_post; run_unfold. by rewrite orb_false_r. }
  cbn. apply run_post_bind.
  pose proof (gate_op_live op pol n k g h Hl) as H1.
  pose proof (gate_op_cancel op pol n k g h Hl) as H2.
  unfold run_post in H1, H2. unfold run_post at 1.
  destruct (run_gate_op op o g h) as [[r g'] h']; cbn in *. destruct r; try done. cbn.
  destruct H1 as [_ Hl']. eapply run_post_mono; [by apply IH|].
  intros [] g2 h2; try done. intros ->. by rewrite H2, orb_assoc.
Qed.

Lemma gate_ops_live ops pol n k g h :
  live_gate raw pol n k g h ->
  run_post (for_each run_gate_op ops) o g h
    (fun r g' h' => ends r h' /\ live_gate raw pol n k g' h').
Proof.
  intros Hl. apply run_post_for_each; [|done]. intros ???? [_ ?]. by apply gate_op_live.
Qed.

(** Once the gate left [Live], wakes and aborts neither change it nor reach nOS-V. *)
Lemma gate_op_inert op g h :
  phase g <> Live -> run_gate_op op o g h = (Done tt, g, h).
Proof.
  intros Hp. unfold run_gate_op, schedule, request_abort.
  destruct op as [[rt|]|[rt|]]; run_unfold; try done;
    destruct (process_matches rt); cbn; try done;
    by destruct (phase g).
Qed.

Lemma gate_ops_inert ops g h :
  phase g <> Live -> for_each run_gate_op ops o g h = (Done tt, g, h).
Proof.
  intros Hp. induction ops as [|op ops IH]; [done|].
  cbn. unfold mbind, prog_mbind, prog_bind. by rewrite gate_op_inert.
Qed.
End GateLemmas.

(** ** One callback *)

Section Callback.
Context `{codes : NosvCodes} {F T : Type} (o : noracle) (raw : RawTask).
Implicit Types (s : TaskState F T) (h : nhistory) (u : PollScript F T).

Lemma on_gate_inert ops s h :
  phase (gate s) <> Live -> on_gate (for_each run_gate_op ops) o s h = (Done tt, s, h).
Proof.
  intros Hp. unfold on_gate, zoom. rewrite gate_ops_inert by done. by destruct s.
Qed.

Lemma take_and_drop_terminal u s h f :
  phase (gate s) <> Live -> future s = Some f ->
  take_and_drop_future u o s h = (Done (drop_panic u), set_future None s, h).
Proof.
  intros Hp Hf. unfold take_and_drop_future. run_unfold. rewrite Hf.
  change (gate s) with (gate (set_future None s)) in Hp.
  by rewrite (on_gate_inert _ _ _ Hp).
Qed.

Definition stored (r : result JoinError T) (s : TaskState F T) : TaskState F T :=
  mkTask (gate s) None
    (mkJoin (Some r) (native_completed (join s)) (waiter (join s)) (consumed (join s)))
    (current s).

Lemma store_empty r s h :
  jresult (join s) = None -> future s = None ->
  on_join (store r) o s h = (Done tt, stored r s, h).
Proof. intros Hj Hf. unfold on_join, store. run_unfold. rewrite Hj. cbn. by rewrite Hf. Qed.

(** What a run callback guarantees: [current] is restored; the task is suspended
    with one more submission consumed, or its result is stored. *)
Definition run_guarantee (n k : nat) (c : option RuntimeRef)
    (e : result NativeError unit -> option (result JoinError T)) (r : outcome unit) (s : TaskState F T) (h : nhistory) : Prop :=
  match r with
  | Done _ =>
      current s = c /\ jresult (join s) = e (suspend_answer h) /\
      (waiting_inv raw s h (S n) (S k) \/ returned_inv raw s h /\ count suspends h = k)
  | Aborted _ => aborted_inv raw h
  | _ => False
  end.

Lemma run_guarantee_ext n k c e e' r s h :
  run_guarantee n k c e r s h -> (forall x, e x = e' x) -> run_guarantee n k c e' r s h.
Proof. unfold run_guarantee. destruct r; [|done..]. intros (? & ? & ?) He. by rewrite <- He. Qed.

(** A finished task: the gate just became terminal, the future is still there
    and nothing is stored yet. *)
Definition finishing (kind : TerminalKind) (k : nat) (s : TaskState F T) (h : nhistory) : Prop :=
  task (gate s) = Some raw /\ phase (gate s) = Terminal kind /\ polling (gate s) = false /\
  (exists m, alive_history raw m h) /\ is_Some (future s) /\ unpublished (join s) /\
  count suspends h = k.

Lemma finishing_not_live kind k s h : finishing kind k s h -> phase (gate s) <> Live.
Proof. intros (_ & -> & _). done. Qed.

Lemma stored_guarantee kind r n k e s h :
  finishing kind k s h -> agrees kind r -> e (suspend_answer h) = Some r ->
  run_guarantee n k (current s) e (Done tt) (stored r (set_future None s)) h.
Proof.
  intros (Ht & Hp & Hpol & [m Ha] & _ & (_ & Hn & Hc) & Hk) Hr He.
  split; [done|]. split; [done|]. right. split; [|done]. exists kind, r, m. naive_solver.
Qed.

(** Dropping the future of a finished task and storing its result. *)
Lemma drop_and_store kind u (f : option string -> result JoinError T) n k e s h :
  finishing kind k s h -> agrees kind (f (drop_panic u)) ->
  e (suspend_answer h) = Some (f (drop_panic u)) ->
  run_post (d ← take_and_drop_future u; on_join (store (f d))) o s h
    (run_guarantee n k (current s) e).
Proof.
  intros Hf Hr He. pose proof (finishing_not_live _ _ _ _ Hf) as Hp.
  pose proof Hf as (_ & _ & _ & _ & [x Hx] & (Hj & _) & _).
  unfold run_post. unfold mbind, prog_mbind, prog_bind at 1.
  unfold prog_bind. rewrite (take_and_drop_terminal _ _ _ x) by done.
  rewrite store_empty by done. by eapply stored_guarantee.
Qed.

(** The callback is polling the future: [n] callbacks entered, this one included. *)
Definition polling_inv (n k : nat) (s : TaskState F T) (h : nhistory) : Prop :=
  live_gate raw true n k (gate s) h /\ is_Some (future s) /\ unpublished (join s).

Lemma on_gate_ops_live ops pol n k s h :
  live_gate raw pol n k (gate s) h ->
  run_post (on_gate (for_each run_gate_op ops)) o s h (fun r s' h' =>
    ends r h' /\ live_gate raw pol n k (gate s') h' /\ future s' = future s /\
    join s' = join s /\ current s' = current s /\
    match r with
    | Done _ => cancel_requested (gate s') = cancel_requested (gate s) || existsb abort_hits ops
    | _ => True
    end).
Proof.
  intros Hl. apply run_post_zoom. cbn.
  pose proof (gate_ops_cancel o raw ops pol n k (gate s) h Hl) as Hc. unfold run_post in Hc.
  by destruct (gate_ops_live o raw ops pol n k (gate s) h Hl).
Qed.

Lemma poll_future_post u n k s h :
  polling_inv n k s h ->
  run_post (poll_future u) o s h (fun r s' h' =>
    match r with
    | Done x => x = out u /\ polling_inv n k s' h' /\ current s' = current s /\
        cancel_requested (gate s') = cancel_requested (gate s) || existsb abort_hits (during u)
    | Aborted _ => aborted_inv raw h'
    | _ => False
    end).
Proof.
  intros (Hl & [f Hf] & Hu). unfold poll_future. apply run_post_bind.
  unfold run_post at 1; cbn. rewrite Hf. apply run_post_bind.
  eapply run_post_mono; [by apply on_gate_ops_live|].
  intros r s' h' (He & Hl' & Hf' & Hj' & Hc' & Hcr). destruct r; try done; cbn.
  - unfold run_post; run_unfold. split_and!; [done| |done|done].
    split; [done|]. split; [done|].
    change (unpublished (join s')). by rewrite Hj'.
  - by destruct Hl' as (_ & _ & _ & (_ & _ & ?) & _); split.
Qed.

Lemma finish_terminal_post kind n k s h :
  polling_inv n k s h ->
  exists s', on_gate (finish_terminal kind) o s h = (Done (negb (cancel_requested (gate s))), s', h) /\
    finishing (if cancel_requested (gate s) then TCancelled else kind) k s' h /\
    current s' = current s.
Proof.
  intros ((Ht & Hp & Hpol & Ha & Hk & Hcw) & Hf & Hu).
  eexists. unfold on_gate, finish_terminal. run_unfold. rewrite Hp, Hpol. cbn.
  split; [done|]. split; [|done]. repeat split; cbn; try done; [by eexists|apply Hu..].
Qed.

Lemma finish_pending_post n k s h :
  polling_inv n k s h ->
  exists s', on_gate finish_pending o s h = (Done (negb (cancel_requested (gate s))), s', h) /\
    (if cancel_requested (gate s) then finishing TCancelled k s' h
     else live_gate raw false n k (gate s') h) /\
    future s' = future s /\ join s' = join s /\ current s' = current s.
Proof.
  intros ((Ht & Hp & Hpol & Ha & Hk & Hcw) & Hf & Hu).
  unfold on_gate, finish_pending. run_unfold. rewrite Hp, Hpol. cbn.
  destruct (cancel_requested (gate s)) eqn:Hcr; cbn; (eexists; split; [done|]; split; [|done]).
  - repeat split; cbn; try done; [by eexists|apply Hu..].
  - refine (conj Ht (conj Hp (conj eq_refl (conj Ha (conj Hk _))))). cbn. by rewrite Hcr.
Qed.

Lemma suspend_failed_post n k s h :
  live_gate raw false n k (gate s) h -> is_Some (future s) -> unpublished (join s) ->
  exists s', on_gate suspend_failed o s h = (Done tt, s', h) /\
    finishing TRuntimeError k s' h /\ current s' = current s.
Proof.
  intros (Ht & Hp & Hpol & Ha & Hk & Hcw) Hf Hu.
  unfold on_gate, suspend_failed. run_unfold. rewrite Hp. cbn.
  eexists; split; [done|]; split; [|done].
  repeat split; cbn; try done; [by eexists|apply Hu..].
Qed.

Lemma alive_other n h e :
  alive_history raw n h -> submits raw e = false -> destroys raw e = false ->
  alive_history raw n (e :: h).
Proof. intros (Hs & Hd & Hn) H1 H2. repeat split; cbn; rewrite ?H1, ?H2; done. Qed.

Lemma pending_post u n k s h :
  polling_inv (S n) k s h ->
  run_post
    (keep ← on_gate finish_pending;
     if negb keep then terminal_cancelled u else
     _ ← on_gate (for_each run_gate_op (before_suspend u));
     r ← suspend;
     match r with
     | Ok _ => mret tt
     | Err error =>
         _ ← on_gate suspend_failed;
         _ ← take_and_drop_future u;
         on_join (store (Err (Runtime error)))
     end) o s h (run_guarantee n k (current s) (fun x =>
       if cancel_requested (gate s) then Some (Err Cancelled) else
       match x with Ok _ => None | Err e => Some (Err (Runtime e)) end)).
Proof.
  intros Hpi. destruct (finish_pending_post _ _ _ _ Hpi) as (s1 & Heq & Hc & Hf1 & Hj1 & Hc1).
  destruct Hpi as (_ & Hf & Hu). rewrite <- Hc1.
  eapply run_post_bind_eq; [exact Heq|]. rewrite negb_involutive.
  destruct (cancel_requested (gate s)); cbn.
  { by apply (drop_and_store TCancelled u (fun _ => Err Cancelled)). }
  apply run_post_bind. eapply run_post_mono; [by apply on_gate_ops_live|].
  intros r s2 h2 (He & Hl2 & Hf2 & Hj2 & Hc2 & _). destruct r; try done; cbn; cycle 1.
  { by destruct Hl2 as (_ & _ & _ & (_ & _ & ?) & _); split. }
  apply run_post_bind, status_post. cbn. rewrite <- Hc2.
  destruct Hl2 as (Ht2 & Hp2 & Hpol2 & Ha2 & Hk2 & Hcw2).
  pose proof (alive_other _ _ (NSuspend, o h2 NSuspend) Ha2 eq_refl eq_refl) as Ha3.
  destruct (from_code (rcode (o h2 NSuspend))) as [[]|error] eqn:Hs.
  - unfold run_post; run_unfold. split; [done|]. cbn. rewrite Hs. rewrite <- Hj1, <- Hj2 in Hu.
    split; [apply Hu|]. left. rewrite <- Hf1, <- Hf2 in Hf.
    refine (conj (conj Ht2 (conj Hp2 (conj Hpol2 (conj Ha3 (conj _ Hcw2))))) (conj Hf Hu)).
    rewrite <- Hk2. cbn. unfold suspends; cbn. by rewrite Hs.
  - destruct (suspend_failed_post (S n) k s2 ((NSuspend, o h2 NSuspend) :: h2))
      as (s3 & Heq3 & Hfin & Hc3).
    + refine (conj Ht2 (conj Hp2 (conj Hpol2 (conj Ha3 (conj _ Hcw2))))).
      rewrite <- Hk2. cbn. unfold suspends; cbn. by rewrite Hs.
    + by rewrite Hf2, Hf1.
    + by rewrite Hj2, Hj1.
    + eapply run_post_bind_eq; [exact Heq3|]. rewrite <- Hc3.
      apply (drop_and_store TRuntimeError u (fun _ => Err (Runtime error))); [done..|].
      cbn. by rewrite Hs.
Qed.

(** A ready future whose output is kept, lost to cancellation, or lost to a
    panicking destructor. *)
Lemma ready_post u output n k s h :
  polling_inv (S n) k s h ->
  run_post
    (won ← on_gate (finish_terminal TReady);
     if negb won then
       _ ← take_and_drop_future u;
       _ ← drop_output u output;
       on_join (store (Err Cancelled))
     else
       payload ← take_and_drop_future u;
       match payload with
       | Some payload =>
           _ ← on_gate (replace_terminal TPanicked);
           _ ← drop_output u output;
           on_join (store (Err (Panic payload)))
       | None => on_join (store (Ok output))
       end) o s h (run_guarantee n k (current s) (fun _ => Some (
         if cancel_requested (gate s) then Err Cancelled else
         match drop_panic u with Some p => Err (Panic p) | None => Ok output end))).
Proof.
  intros Hpi. destruct (finish_terminal_post TReady _ _ _ _ Hpi) as (s1 & Heq & Hfin & Hc1).
  rewrite <- Hc1. eapply run_post_bind_eq; [exact Heq|]. rewrite negb_involutive.
  pose proof (finishing_not_live _ _ _ _ Hfin) as Hp.
  pose proof Hfin as (_ & Hterm & _ & _ & [x Hx] & (Hj & _) & _).
  destruct (cancel_requested (gate s)); cbn.
  - eapply run_post_bind_eq; [by apply (take_and_drop_terminal _ _ _ x)|].
    eapply run_post_bind_eq; [by apply on_gate_inert|].
    unfold run_post. rewrite store_empty by done. by eapply stored_guarantee.
  - eapply run_post_bind_eq; [by apply (take_and_drop_terminal _ _ _ x)|].
    destruct (drop_panic u) as [payload|].
    + eapply run_post_bind_eq.
      { unfold on_gate, replace_terminal. run_unfold. by rewrite Hterm. }
      eapply run_post_bind_eq; [by apply on_gate_inert|].
      unfold run_post. rewrite store_empty by done.
      apply (stored_guarantee TPanicked _ n k _
               (mkTask (set_phase (Terminal TPanicked) (gate s1)) (future s1) (join s1) (current s1)));
        [|done..].
      destruct Hfin as (Ht & _ & Hpol & Ha & Hfu & Hu & Hk).
      exact (conj Ht (conj eq_refl (conj Hpol (conj Ha (conj Hfu (conj Hu Hk)))))) .
    + unfold run_post. rewrite store_empty by done. by eapply stored_guarantee.
Qed.

Lemma panic_post u payload n k s h :
  polling_inv (S n) k s h ->
  run_post
    (panic_wins ← on_gate (finish_terminal TPanicked);
     drop_panic ← take_and_drop_future u;
     if (panic_wins : bool)
     then on_join (store (Err (Panic (default payload drop_panic))))
     else on_join (store (Err Cancelled))) o s h (run_guarantee n k (current s) (fun _ => Some (
       if cancel_requested (gate s) then Err Cancelled
       else Err (Panic (default payload (drop_panic u)))))).
Proof.
  intros Hpi. destruct (finish_terminal_post TPanicked _ _ _ _ Hpi) as (s1 & Heq & Hfin & Hc1).
  rewrite <- Hc1. eapply run_post_bind_eq; [exact Heq|].
  destruct (cancel_requested (gate s)); cbn.
  - by apply (drop_and_store TCancelled u (fun _ => Err Cancelled)).
  - by apply (drop_and_store TPanicked u (fun d => Err (Panic (default payload d)))).
Qed.

Lemma run_entered_post u n k s h :
  polling_inv (S n) k s h ->
  run_post (run_entered u) o s h (run_guarantee n k (current s)
    (polled_result (cancel_requested (gate s) || existsb abort_hits (during u)) u)).
Proof.
  intros Hpi. unfold run_entered. apply run_post_bind.
  eapply run_post_mono; [by apply poll_future_post|].
  intros r s1 h1. destruct r as [x| | |]; try done. intros (-> & Hpi1 & Hc1 & <-). cbn.
  rewrite <- Hc1. unfold polled_result.
  destruct (out u);
    (eapply run_post_mono;
     [first [by apply pending_post|by apply ready_post|by apply panic_post]|]);
    intros ??? Hg; (eapply run_guarantee_ext; [exact Hg|]);
    intros x; by destruct (cancel_requested (gate s1)).
Qed.

(** The guard restores [CURRENT]. *)
Lemma enter_current_post handle (m : nprog (TaskState F T) unit) n k e s h :
  run_post m o (set_current (Some handle) s) h (run_guarantee n k (Some handle) e) ->
  run_post (enter_current handle m) o s h (run_guarantee n k (current s) e).
Proof.
  unfold enter_current, run_post, finally. run_unfold.
  destruct (m o (set_current (Some handle) s) h) as [[[] s1] h1]; cbn; [|done..].
  intros (_ & He & [Hw|Hr]); (split; [done|]; split; [exact He|]).
  - left. exact Hw.
  - right. exact Hr.
Qed.

Lemma start_poll_post n k s h :
  waiting_inv raw s h n k -> wake_submitted (gate s) = true ->
  exists s', on_gate start_poll o s h = (Done (negb (cancel_requested (gate s))), s', h) /\
    (if cancel_requested (gate s) then finishing TCancelled k s' h
     else polling_inv (S n) k s' h) /\
    current s' = current s /\ cancel_requested (gate s') = cancel_requested (gate s).
Proof.
  intros ((Ht & Hp & Hpol & Ha & Hk & Hcw) & Hf & Hu) Hw.
  unfold on_gate, start_poll. run_unfold. rewrite Hp, Hpol. cbn.
  destruct (cancel_requested (gate s)) eqn:Hc; cbn;
    (eexists; split; [done|]; split; [|by rewrite <- Hc]).
  - repeat split; cbn; try done; [by eexists|apply Hu..].
  - split; [|done]. rewrite Hw in Ha. unfold live_gate; cbn in *.
    rewrite Nat.add_0_r, Hc, <- Nat.add_1_r. by split_and!.
Qed.

Lemma run_once_post rt u n k s h :
  waiting_inv raw s h n k -> wake_submitted (gate s) = true ->
  run_post (run_once rt u) o s h (run_guarantee n k (current s)
    (callback_result (cancel_requested (gate s)) rt u)).
Proof.
  intros Hwi Hw. destruct (start_poll_post _ _ _ _ Hwi Hw) as (s1 & Heq & Hc & Hc1 & Hcr).
  rewrite <- Hc1. unfold run_once. eapply run_post_bind_eq; [exact Heq|].
  rewrite negb_involutive. destruct (cancel_requested (gate s)) eqn:Hcs; cbn.
  { by apply (drop_and_store TCancelled u (fun _ => Err Cancelled)). }
  destruct rt as [handle|].
  - apply enter_current_post.
    eapply run_post_mono;
      [by apply (run_entered_post u n k (set_current (Some handle) s1))|].
    intros ??? Hg. eapply run_guarantee_ext; [exact Hg|]. intros x. cbn. by rewrite Hcr.
  - destruct (finish_terminal_post TRuntimeError _ _ _ _ Hc) as (s2 & Heq2 & Hfin & Hc2).
    rewrite <- Hc2. eapply run_post_bind_eq; [exact Heq2|].
    rewrite Hcr in Hfin.
    by apply (drop_and_store TRuntimeError u (fun _ => Err (Runtime InvalidOperation))).
Qed.

Lemma waiting_inv_other e n k s h :
  waiting_inv raw s h n k -> submits raw e = false -> destroys raw e = false ->
  suspends e = false -> waiting_inv raw s (e :: h) n k.
Proof.
  intros ((Ht & Hp & Hpol & Ha & Hk & Hcw) & Hfu) H1 H2 H3.
  split; [|done]. refine (conj Ht (conj Hp (conj Hpol (conj _ (conj _ Hcw))))).
  - by apply alive_other.
  - cbn. by rewrite H3.
Qed.

Lemma owner_pointer_post owned s h Q :
  (forall r, Q (Done owned) s ((NMetadata raw, r) :: h)) ->
  (forall r, rptr r = 0%N ->
     Q (Aborted "task metadata missing") s ((NMetadata raw, r) :: h)) ->
  run_post (owner_pointer raw owned) o s h Q.
Proof.
  intros H1 H2. unfold owner_pointer. apply run_post_bind, metadata_post.
  destruct (rptr _) eqn:Hr; cbn; [by apply H2|apply H1].
Qed.

Lemma run_callback_post rt u n k s h :
  waiting_inv raw s h n k -> wake_submitted (gate s) = true ->
  run_post (run_callback (Npos raw) true rt u) o s h (run_guarantee n k (current s)
    (callback_result (cancel_requested (gate s)) rt u)).
Proof.
  intros Hwi Hw. unfold run_callback. apply run_post_bind, run_post_catch. cbn.
  apply run_post_bind. apply owner_pointer_post; [intros r|intros r Hr]; cbn; cycle 1.
  { destruct Hwi as ((_ & _ & _ & (_ & Hd & Hn) & _) & _).
    split; [by split|]. apply faulted_here. unfold fault. cbn. by rewrite Hr. }
  apply (waiting_inv_other (NMetadata raw, r)) in Hwi; [|done..].
  apply run_post_bind, run_post_catch.
  eapply run_post_mono; [by apply run_once_post|].
  intros [] s1 h1; cbn; [|done..]. intros Hg. exact Hg.
Qed.

Lemma completed_callback_post rt s h :
  returned_inv raw s h ->
  run_post (completed_callback (Npos raw) rt) o s h (fun r s' h' =>
    match r with
    | Done _ => retired_inv raw s' h'
    | Aborted _ => aborted_inv raw h'
    | _ => False
    end).
Proof.
  destruct s as [[t p ws pol cr] f [jr nc w c] cur].
  intros (kind & r & m & Ht & Hp & Hpol & (Hs & Hd & Hn) & Hf & Hj & _ & Hnc & Hc).
  cbn in *; subst. unfold completed_callback. apply run_post_bind, run_post_catch. cbn.
  apply run_post_bind. apply owner_pointer_post; [intros a|intros a Ha]; cbn; cycle 1.
  { split; [by split|]. apply faulted_here. unfold fault. cbn. by rewrite Ha. }
  unfold run_post, on_gate, on_join, retire, destroy, Ffi.status, publish, wake_opt, wake,
    force_native_error, replace_error_if_unpublished.
  run_unfold. destruct (from_code _) eqn:Hcode; cbn; cycle 1.
  { split; [by split|]. apply faulted_here. unfold fault. cbn. by rewrite Hcode. }
  unfold retired_inv; destruct w; cbn; rewrite ?bool_decide_true, ?Hd by done;
    split_and!; done || eauto.
Qed.

Lemma join_poll_unpublished cx (j : JoinInner T) h :
  unpublished j ->
  exists j', join_poll cx o j h = (Done None, j', h) /\ unpublished j' /\ jresult j' = jresult j.
Proof.
  intros (Hr & Hn & Hc). unfold join_poll. run_unfold. rewrite Hc, Hn.
  destruct (waiter j) as [w|]; [destruct (will_wake w cx)|]; cbn; eauto; eexists; done.
Qed.

Lemma join_poll_published cx (j : JoinInner T) h :
  native_completed j = true ->
  run_post (join_poll cx) o j h (fun r j' h' =>
    h' = h /\ native_completed j' = true /\
    match r with
    | Done x => x = Some (default (Err (Runtime InvalidOperation)) (jresult j)) /\
                consumed j = false /\ consumed j' = true
    | Panicked _ => consumed j = true /\ j' = j
    | _ => False
    end).
Proof.
  intros Hn. unfold run_post, join_poll. run_unfold. rewrite Hn.
  destruct (consumed j); cbn; [done|]. by destruct (jresult j).
Qed.
End Callback.

(** ** The invariant of the protocol *)

Section Invariant.
Context `{codes : NosvCodes} {F T : Type} (o : noracle) (raw : RawTask).
Implicit Types (x : TaskSys F T).

Lemma life_init_inv x : life_init raw x -> life_inv raw x.
Proof.
  intros (Hg & Hf & Hj & Hs & Hd & Hn & Hr & Hst). unfold life_inv. rewrite Hst.
  eexists. unfold waiting_inv, live_gate, alive_history. rewrite Hg, Hj, Hr. cbn.
  split_and!; try done.
Qed.

Lemma live_gate_in_flight pol n k g h :
  live_gate raw pol n k g h -> (n < count (submits raw) h)%nat <-> wake_submitted g = true.
Proof.
  intros (_ & _ & _ & (Hs & _ & _) & _). rewrite Hs. destruct (wake_submitted g); cbn; lia || naive_solver lia.
Qed.

Lemma after_run_inv n k c e h y :
  run_post (fun _ _ _ => y) o (y.1.2) h (run_guarantee raw n k c e) ->
  count suspends h = k ->
  life_inv raw (after_run (T := T) (F := F) n h y).
Proof.
  destruct y as [[r s'] h']. unfold run_post, life_inv, after_run. intros Hg Hk.
  destruct r; try done. destruct Hg as (_ & _ & [Hw|[Hr Hk']]);
    destruct (Nat.ltb_spec (count suspends h) (count suspends h')); cbn in *; try lia.
  - by exists (S k).
  - destruct Hw as ((_ & _ & _ & _ & Hk') & _). cbn in *. lia.
  - done.
Qed.

Lemma life_step_inv x y : life_inv raw x -> life_step o raw x y -> life_inv raw y.
Proof.
  intros Hi Hstep. destruct Hstep as [s h n rt u Hn|s h n rt|s h n c op Hc|s h n c cx Hc].
  - destruct Hi as [k Hw]. cbn in *.
    pose proof Hw as (Hl & _). pose proof Hl as (_ & _ & _ & _ & Hk & _).
    eapply after_run_inv; [|exact Hk].
    apply (run_callback_post o raw rt u n k s h Hw). by eapply live_gate_in_flight.
  - apply (completed_callback_post o raw rt) in Hi. cbn in *.
    unfold run_post, after_complete in *.
    destruct (completed_callback _ _ _ _ _) as [[[] s'] h']; by cbn in *.
  - assert (c = Idle \/ phase (gate s) <> Live) as [->|Hp].
    { destruct c; cbn in Hi; auto; right;
        [by destruct Hi as (? & ? & ? & _ & -> & _)|by destruct Hi as (_ & -> & _)]. }
    + destruct Hi as [k (Hl & Hf & Hu)]. cbn in *.
      pose proof (gate_op_live o raw op _ _ _ _ _ Hl) as Hpost.
      unfold run_post in Hpost. unfold on_gate, zoom.
      destruct (run_gate_op op o (gate s) h) as [[r g'] h']; cbn in *.
      destruct Hpost as [He Hl']. destruct r; try done; cbn; [by exists k|].
      by destruct Hl' as (_ & _ & _ & (_ & _ & ?) & _); split.
    + unfold on_gate, zoom. rewrite gate_op_inert by done. by destruct s, c.
  - unfold on_join, zoom. destruct c; cbn in Hi; [| | |done].
    + destruct Hi as [k (Hl & Hf & Hu)].
      destruct (join_poll_unpublished o cx _ h Hu) as (j' & -> & Hu' & _). by exists k.
    + destruct Hi as (kind & r & m & Ht & Hp & Hpol & Ha & Hf & Hj & Hr & Hnc & Hcs).
      unfold join_poll. run_unfold. rewrite Hcs, Hnc. cbn.
      destruct (waiter (join s)) as [w|]; [destruct (will_wake w cx)|]; cbn;
        exists kind, r, m; done.
    + destruct Hi as (Ht & Hp & Hpol & Hd & Hn & Hf & Hnc & Hr).
      pose proof (join_poll_published o cx _ h Hnc) as Hpost. unfold run_post in Hpost.
      destruct (join_poll cx o (join s) h) as [[r j'] h']. cbn in *.
      destruct Hpost as (-> & Hnc' & Hpost).
      destruct r; try done; cbn;
        refine (conj Ht (conj Hp (conj Hpol (conj Hd (conj Hn (conj Hf (conj Hnc' _)))))));
        cbn; intros Hcs; destruct Hpost as [? Hc']; [destruct Hc'|subst j']; congruence || auto.
Qed.

Lemma life_reachable_inv x :
  reachable (life_init raw) (life_step o raw) x -> life_inv raw x.
Proof. apply reachable_invariant; [apply life_init_inv|apply life_step_inv]. Qed.
End Invariant.
