(* ===== verification/TaskSpec.v ===== *)
(** * TaskSpec: what a spawned task guarantees

    The properties of the protocol of [TaskLife], each with an evaluated witness:
    descriptor safety, submission accounting, the meaning of a run callback, the
    exact order of completion and publication, the joiner's contract, and the
    only way the process can abort. *)

From Stdlib Require Import ZArith Lia.
From stdpp Require Import base list strings.
From S2P Require Import Prelude Errors Ffi Task TaskLife.

Open Scope Z_scope.

(** ** Consequences of the invariant *)

Lemma destroyed_once (raw : RawTask) h :
  no_use_after_destroy raw h -> (count (destroys raw) h <= 1)%nat.
Proof.
  induction h as [|e h IH]; cbn; [lia|]. intros [Hu Hn]. specialize (IH Hn).
  destruct (destroys raw e) eqn:Hd; [|lia].
  rewrite Hu; [lia|]. unfold destroys, uses in *. destruct e as [[] ?]; cbn in *; try done.
  apply bool_decide_eq_true in Hd. by apply bool_decide_pack.
Qed.

Section Consequences.
Context `{codes : NosvCodes} {F T : Type} (o : noracle) (raw : RawTask).
Implicit Types (x : TaskSys F T).

Lemma life_inv_safe x : life_inv raw x -> no_use_after_destroy raw (hist x).
Proof.
  unfold life_inv. destruct (status x).
  - intros (k & (_ & _ & _ & (_ & _ & ?) & _) & _). done.
  - intros (? & ? & ? & _ & _ & _ & (_ & _ & ?) & _). done.
  - by intros (_ & _ & _ & _ & ? & _).
  - by intros [? _].
Qed.

Lemma life_inv_destroyed x : life_inv raw x -> status x <> Dead ->
  count (destroys raw) (hist x) = (if is_destroyed (phase (gate (st x))) then 1 else 0)%nat.
Proof.
  unfold life_inv. destruct (status x); [| | |done].
  - by intros (k & (_ & -> & _ & (_ & ? & _) & _) & _) _.
  - by intros (? & ? & ? & _ & -> & _ & (_ & ? & _) & _) _.
  - by intros (_ & -> & _ & ? & _) _.
Qed.
End Consequences.

(** ** A concrete run

    A task spawned as descriptor [1], cancelled while it waits, run and completed
    against the accepting library. *)
Module Sample.
#[local] Existing Instance sample_codes.

Definition rt : RuntimeRef := mkRuntimeRef true.
Definition script (r : PollOut nat) (ops : list gate_op) : PollScript nat nat :=
  mkScript ops 7%nat r [] [] None [].
Definition spawned : TaskSys nat nat :=
  mkSys (mkTask (spawned_gate 1%positive) (Some 0%nat) join_new None)
        [(NSubmit 1%positive SUBMIT_NONE, Resp 0 0)] 0%nat Idle.

Lemma spawned_init : life_init 1%positive spawned.
Proof. repeat split; done || by eexists. Qed.

Definition ran : TaskSys nat nat :=
  after_run 0%nat (hist spawned)
    (run_callback 1%N true (Some rt) (script (PollReady 5%nat) []) accepting (st spawned) (hist spawned)).
Definition woken : TaskSys nat nat :=
  after_op 0%nat Idle (on_gate (run_gate_op (GWake (Some rt))) accepting
    (st spawned) (hist spawned)).
Definition joined : TaskSys nat nat :=
  after_op (runs ran) (status ran) (on_join (join_poll 9%N) accepting (st ran) (hist ran)).
Definition completed : TaskSys nat nat :=
  after_complete (runs joined) (completed_callback 1%N (Some rt) accepting (st joined) (hist joined)).

Lemma spawned_reachable : reachable (life_init 1%positive) (life_step accepting 1%positive) spawned.
Proof. apply reach_init, spawned_init. Qed.

Lemma joined_reachable : reachable (life_init 1%positive) (life_step accepting 1%positive) joined.
Proof.
  apply reach_step with (a := ran); cycle 1.
  { by apply (step_join accepting 1%positive (st ran) (hist ran) 1%nat Returned 9%N). }
  apply reach_step with (a := spawned); [apply spawned_reachable|].
  apply (step_run accepting 1%positive (st spawned) (hist spawned) 0%nat). vm_compute. lia.
Qed.

(** A library that refuses every submission. *)
Definition refusing : noracle :=
  fun h c => match c with NSubmit _ _ => Resp (-1) 0%N | _ => accepting h c end.
Definition refused : TaskSys nat nat :=
  after_run 0%nat (hist spawned)
    (run_callback 1%N true (Some rt) (script PollPending [GWake (Some rt)]) refusing
       (st spawned) (hist spawned)).

Lemma refused_reachable : reachable (life_init 1%positive) (life_step refusing 1%positive) refused.
Proof.
  apply reach_step with (a := spawned); [apply reach_init, spawned_init|].
  apply (step_run refusing 1%positive (st spawned) (hist spawned) 0%nat). vm_compute. lia.
Qed.

Lemma completed_reachable : reachable (life_init 1%positive) (life_step accepting 1%positive) completed.
Proof.
  apply reach_step with (a := joined); cycle 1.
  { apply (step_complete accepting 1%positive (st joined) (hist joined) 1%nat (Some rt)). }
  apply joined_reachable.
Qed.
End Sample.

(** ** Properties *)

(** C1. Descriptor safety: whatever wakers, abort handles, the joiner and the
    native callbacks do, in every reachable state the native task descriptor was
    destroyed at most once and never used (submitted, inspected or destroyed)
    after its destruction; unless the process aborted, it was destroyed exactly
    when the gate says so. *)
Theorem descriptor_safety `{codes : NosvCodes} {F T : Type} (o : noracle) (raw : RawTask)
    (x : TaskSys F T) :
  reachable (life_init raw) (life_step o raw) x ->
  no_use_after_destroy raw (hist x) /\ (count (destroys raw) (hist x) <= 1)%nat /\
  (status x <> Dead ->
   count (destroys raw) (hist x) = (if is_destroyed (phase (gate (st x))) then 1 else 0)%nat).
Proof.
  intros Hr%life_reachable_inv. pose proof (life_inv_safe _ _ Hr).
  split; [done|]. split; [by apply destroyed_once|]. by apply life_inv_destroyed.
Qed.

Lemma descriptor_safety_witness :
  status Sample.completed = Retired /\
  no_use_after_destroy 1%positive (hist Sample.completed) /\
  count (destroys 1%positive) (hist Sample.completed) = 1%nat.
Proof.
  split; [reflexivity|].
  destruct (@descriptor_safety sample_codes nat nat accepting 1%positive _
              Sample.completed_reachable) as (H & _ & Hd).
  split; [exact H|]. rewrite Hd; [reflexivity|]. vm_compute. discriminate.
Defined.

(** C5. No submission is lost or duplicated: while the task waits for a callback,
    nOS-V was asked to run it exactly once per callback that was entered, plus
    once more exactly when [wake_submitted] is set; and a wake or an
    abort through a live runtime leaves a callback due, unless nOS-V refused the
    submission and the process aborted. *)
Theorem no_lost_wake `{codes : NosvCodes} {F T : Type} (o : noracle) (raw : RawTask)
    (x : TaskSys F T) (rt : RuntimeRef) (op : gate_op) :
  reachable (life_init raw) (life_step o raw) x ->
  status x = Idle -> process_matches rt = true -> op = GWake (Some rt) \/ op = GAbort (Some rt) ->
  count (submits raw) (hist x) = (runs x + b2n (wake_submitted (gate (st x))))%nat /\
  let y := after_op (runs x) Idle (on_gate (run_gate_op op) o (st x) (hist x)) in
  status y = Dead \/ (runs y < count (submits raw) (hist y))%nat.
Proof.
  intros Hr%life_reachable_inv Hi Hm Hop. unfold life_inv in Hr. rewrite Hi in Hr.
  destruct Hr as [k (Hl & _)]. split; [by destruct Hl as (_ & _ & _ & (-> & _) & _)|].
  pose proof (gate_op_live o raw op _ _ _ _ _ Hl) as Hpost.
  assert (wake_submitted (state_of (run_gate_op op o (gate (st x)) (hist x))) = true) as Hw.
  { destruct Hl as (Ht & Hp & _ & _ & _ & Hcw). destruct (gate (st x)) as [t p ws po cr]; cbn in *; subst.
    destruct Hop as [-> | ->]; unfold run_gate_op, schedule, request_abort, submit_live, submit,
      submit_with, Ffi.status; run_unfold; rewrite Hm; cbn;
      destruct ws, cr; cbn in *; try destruct (from_code _); auto. }
  unfold run_post in Hpost. unfold on_gate, zoom.
  destruct (run_gate_op op o (gate (st x)) (hist x)) as [[r g] h]. cbn in *.
  destruct Hpost as [He Hl']. destruct r; try done; [right|by left]. cbn.
  by eapply live_gate_in_flight.
Qed.

Lemma no_lost_wake_witness :
  (runs Sample.woken < count (submits 1%positive) (hist Sample.woken))%nat.
Proof.
  destruct (@no_lost_wake sample_codes nat nat accepting 1%positive _ Sample.rt
              (GWake (Some Sample.rt)) Sample.spawned_reachable eq_refl eq_refl
              (or_introl eq_refl)) as (_ & [H|H]).
  - vm_compute in H. discriminate.
  - exact H.
Defined.

(** C7. Meaning of a run callback: from every reachable waiting state with a
    submission in flight, a callback that ends stores exactly the result the
    abstract specification [callback_result] names (cancellation first, then the
    poll's outcome and its destructors' panics, then a failed suspension) or
    leaves the task suspended with no result, and always restores the thread's
    [CURRENT]; it never unwinds into nOS-V and never blocks. *)
Theorem run_callback_meaning `{codes : NosvCodes} {F T : Type} (o : noracle) (raw : RawTask)
    (x : TaskSys F T) (rt : option RuntimeRef) (u : PollScript F T) :
  reachable (life_init raw) (life_step o raw) x ->
  status x = Idle -> wake_submitted (gate (st x)) = true ->
  run_post (run_callback (Npos raw) true rt u) o (st x) (hist x) (fun r s h =>
    match r with
    | Done _ =>
        current s = current (st x) /\
        jresult (join s) =
          callback_result (cancel_requested (gate (st x))) rt u (suspend_answer h) /\
        (jresult (join s) = None <-> phase (gate s) = Live) /\
        (jresult (join s) = None <-> is_Some (future s))
    | Aborted _ => faulted h
    | _ => False
    end).
Proof.
  intros Hr%life_reachable_inv Hi Hw. unfold life_inv in Hr. rewrite Hi in Hr.
  destruct Hr as [k Hwi].
  eapply run_post_mono; [by apply (run_callback_post o raw rt u (runs x) k)|].
  intros [] s h; cbn; [|done|by intros [_ ?]|done].
  intros (Hc & He & Hcase). split; [done|]. split; [done|].
  destruct Hcase as [((_ & Hp & _) & Hf & (Hn & _))|[(kd & r & m & _ & Hp & _ & _ & Hf & Hj & _) _]].
  - rewrite Hn, Hp. naive_solver.
  - rewrite Hj, Hp, Hf. split; split; intros Hx; try done; by destruct Hx.
Qed.

Lemma run_callback_meaning_witness :
  jresult (join (st Sample.ran)) = Some (Ok 5%nat).
Proof.
  pose proof (@run_callback_meaning sample_codes nat nat accepting 1%positive _ (Some Sample.rt)
                (Sample.script (PollReady 5%nat) []) Sample.spawned_reachable eq_refl eq_refl)
    as H.
  vm_compute in H. destruct H as (_ & H & _). vm_compute. exact H.
Defined.

(** C10. Completion order: the completed callback of a returned task first destroys
    the native descriptor, then publishes the result the run callback stored
    (which agrees with the gate's terminal reason), and only then wakes the
    registered joiner, exactly once; nothing else reaches nOS-V, and the registry
    removal is due exactly when the runtime is still there. *)
Theorem completion_order `{codes : NosvCodes} {F T : Type} (o : noracle) (raw : RawTask)
    (x : TaskSys F T) (rt : option RuntimeRef) :
  reachable (life_init raw) (life_step o raw) x -> status x = Returned ->
  let h1 := (NMetadata raw, o (hist x) (NMetadata raw)) :: hist x in
  let h2 := (NDestroy raw, o h1 (NDestroy raw)) :: h1 in
  let h3 := match waiter (join (st x)) with
            | Some w => (WakeCall w, o h2 (WakeCall w)) :: h2
            | None => h2
            end in
  rptr (o (hist x) (NMetadata raw)) <> 0%N -> from_code (rcode (o h1 (NDestroy raw))) = Ok tt ->
  exists kind r s',
    completed_callback (Npos raw) rt o (st x) (hist x) = (Done (bool_decide (is_Some rt)), s', h3) /\
    phase (gate (st x)) = Terminal kind /\ jresult (join (st x)) = Some r /\ agrees kind r /\
    phase (gate s') = Destroyed /\ future s' = None /\
    join s' = mkJoin (Some r) true None false.
Proof.
  intros Hr%life_reachable_inv Hi h1 h2 h3 Hm Hd. unfold life_inv in Hr. rewrite Hi in Hr.
  destruct x as [[[t p ws pol cr] f [jr nc w c] cur] h n sts].
  destruct Hr as (kind & r & m & Ht & Hp & Hpol & Ha & Hf & Hj & Hag & Hnc & Hc).
  cbn in *; subst. exists kind, r, (mkTask (mkGate None Destroyed ws false cr) None
    (mkJoin (Some r) true None false) cur). split; [|done].
  unfold completed_callback, owner_pointer, metadata. run_unfold.
  destruct (rptr (o h (NMetadata raw))) eqn:Hrp; [done|]. cbn.
  unfold on_gate, on_join, retire, destroy, Ffi.status, publish, wake_opt, wake. run_unfold.
  unfold h1 in Hd. rewrite Hd. unfold h3, h2, h1. by destruct rt, w.
Qed.

Lemma completion_order_witness :
  calls (hist Sample.joined) = [NSubmit 1%positive SUBMIT_NONE; NMetadata 1%positive] /\
  exists s, completed_callback (codes := sample_codes) 1%N (Some Sample.rt) accepting
              (st Sample.joined) (hist Sample.joined) =
    (Done true, s, history_of (completed_callback (codes := sample_codes) 1%N (Some Sample.rt)
                                 accepting (st Sample.joined) (hist Sample.joined))) /\
  join s = mkJoin (Some (Ok 5%nat)) true None false.
Proof.
  split; [reflexivity|].
  edestruct (@completion_order sample_codes nat nat accepting 1%positive Sample.joined
              (Some Sample.rt)) as (kind & r & s & H & _ & Hr & _ & _ & _ & Hj).
  - exact Sample.joined_reachable.
  - reflexivity.
  - vm_compute. discriminate.
  - reflexivity.
  - exists s. split; [exact H|]. rewrite Hj. vm_compute in Hr. injection Hr as <-. reflexivity.
Defined.

(** C11. The joiner's contract: in every reachable state of a process that was not
    aborted, polling the [JoinHandle] is pending exactly until the task is
    retired, and then the handle's latest waker is the registered one; when it is
    ready, the future was dropped and the descriptor destroyed before, the value
    is the stored result, never the fallback, and it is delivered once: a further
    poll panics. *)
Theorem join_contract `{codes : NosvCodes} {F T : Type} (o : noracle) (raw : RawTask)
    (x : TaskSys F T) (cx : Waker) :
  reachable (life_init raw) (life_step o raw) x -> status x <> Dead ->
  run_post (on_join (join_poll cx)) o (st x) (hist x) (fun r s h =>
    h = hist x /\ gate s = gate (st x) /\ future s = future (st x) /\
    match r with
    | Done None => status x <> Retired /\ waiter (join s) = Some cx
    | Done (Some v) =>
        status x = Retired /\ future s = None /\ phase (gate s) = Destroyed /\
        jresult (join (st x)) = Some v /\ consumed (join (st x)) = false /\ consumed (join s) = true
    | Panicked _ => consumed (join (st x)) = true
    | _ => False
    end).
Proof.
  intros Hr%life_reachable_inv Hd. apply run_post_zoom. cbn.
  assert (native_completed (join (st x)) = false -> consumed (join (st x)) = false ->
          run_post (join_poll cx) o (join (st x)) (hist x) (fun r j h =>
            h = hist x /\ r = Done None /\ waiter j = Some cx)) as Hpend.
  { intros Hn Hc. unfold run_post, join_poll. run_unfold. rewrite Hn, Hc.
    destruct (waiter (join (st x))) as [w|] eqn:Hw; cbn; [|done].
    unfold will_wake. case_bool_decide; cbn; subst; done. }
  unfold life_inv in Hr. destruct (status x) eqn:Hst; [| | |done].
  - destruct Hr as (k & _ & _ & _ & Hn & Hc).
    unfold run_post in Hpend. destruct (Hpend Hn Hc) as (-> & -> & ->); auto.
  - destruct Hr as (kind & r & m & _ & _ & _ & _ & _ & Hj & _ & Hn & Hc).
    unfold run_post in Hpend. destruct (Hpend Hn Hc) as (-> & -> & ->); auto.
  - destruct Hr as (_ & Hp & _ & _ & _ & Hf & Hn & Hj).
    pose proof (join_poll_published o cx _ (hist x) Hn) as Hpost. unfold run_post in Hpost.
    destruct (join_poll cx o (join (st x)) (hist x)) as [[r j] h]; cbn in *.
    destruct Hpost as (-> & Hn' & Hpost).
    destruct r as [v| | |]; cbn; try done; [|by destruct Hpost].
    destruct Hpost as (-> & Hc & Hc'). destruct (Hj Hc) as [v Hv]. by rewrite Hv.
Qed.

Lemma join_contract_witness :
  outcome_of (on_join (join_poll 9%N) accepting (st Sample.completed) (hist Sample.completed))
    = Done (Some (Ok 5%nat)) /\
  jresult (join (st Sample.completed)) = Some (Ok 5%nat) /\
  phase (gate (st Sample.completed)) = Destroyed.
Proof.
  split; [reflexivity|].
  pose proof (@join_contract sample_codes nat nat accepting 1%positive Sample.completed 9%N
                Sample.completed_reachable) as H.
  assert (status Sample.completed <> Dead) as Hd by (vm_compute; discriminate).
  specialize (H Hd). destruct H as (_ & _ & _ & H). vm_compute in H.
  destruct H as (_ & _ & Hp & Hj & _). split; [exact Hj|exact Hp].
Defined.

(** C26. The only way to abort: if the process was aborted from a task's callback,
    waker or abort handle, then nOS-V refused a submission or a destruction, or
    lost the task's metadata; no interleaving of well-formed calls reaches one of
    the code's other aborts. *)
Theorem aborts_only_after_fault `{codes : NosvCodes} {F T : Type} (o : noracle) (raw : RawTask)
    (x : TaskSys F T) :
  reachable (life_init raw) (life_step o raw) x -> status x = Dead ->
  exists e, e ∈ hist x /\ fault e = true.
Proof.
  intros Hr%life_reachable_inv Hd. unfold life_inv in Hr. rewrite Hd in Hr. by destruct Hr.
Qed.

(** The library refuses the wake of the spawned task after its first callback. *)
Lemma aborts_only_after_fault_witness : exists e, e ∈ hist Sample.refused /\ fault (codes := sample_codes) e = true.
Proof.
  apply (@aborts_only_after_fault sample_codes nat nat Sample.refusing 1%positive Sample.refused
           Sample.refused_reachable).
  reflexivity.
Defined.
