(* ===== verification/Runtime.v ===== *)
(** * Runtime: registry, spawning and handles ([src/src/runtime.rs], [src/src/task.rs])

    [RuntimeCore] with its lifecycle and task registry, task identifiers,
    [spawn_on] with every failure path, [TaskBuilder], the lifecycle-checked
    capabilities, and what wakers and callbacks of registered tasks do to the
    registry.  A spawn holds the state mutex from the lifecycle check through the
    submission, so it is one program over the runtime state. *)

From Stdlib Require Import ZArith Lia.
From stdpp Require Import base gmap sets list strings.
From S2P Require Import Prelude Errors Ffi Affinity Task TaskLife.

Open Scope Z_scope.

(** ** Data *)

Inductive Lifecycle : Type := Running | Closing | Closed.

#[export] Instance Lifecycle_eq_dec : EqDecision Lifecycle.
Proof. solve_decision. Defined.

Definition is_running (l : Lifecycle) : bool := match l with Running => true | _ => false end.

(** The immutable fields of [RuntimeCore]. *)
Record CoreIds : Type := mkCoreIds {
  owner_thread : Z;
  pid : Z;
  task_type : RawTaskType;
  timer_type : RawTaskType;
  io_uring_type : RawTaskType
}.

Record TaskConfig : Type := mkConfig {
  name : option string;
  priority : option Z;
  affinity : option Affinity;
  monitoring_cost : option Z
}.
Definition config_default : TaskConfig := mkConfig None None None None.

(** ** [TaskBuilder] *)

Definition builder_new : TaskConfig := config_default.
Definition rust_name (n : string) (c : TaskConfig) : TaskConfig :=
  mkConfig (Some n) (priority c) (affinity c) (monitoring_cost c).
Definition set_builder_priority (p : Z) (c : TaskConfig) : TaskConfig :=
  mkConfig (name c) (Some p) (affinity c) (monitoring_cost c).
Definition set_builder_affinity (a : Affinity) (c : TaskConfig) : TaskConfig :=
  mkConfig (name c) (priority c) (Some a) (monitoring_cost c).
Definition set_builder_cost (cost : Z) (c : TaskConfig) : TaskConfig :=
  mkConfig (name c) (priority c) (affinity c) (Some cost).

Section Runtime.
Context `{codes : NosvCodes} `{repr : AffinityRepr} {F T : Type}.

(** One spawned task: [TaskCore], [Runnable] and [JoinState] behind their [Arc]s. *)
Record TaskRec : Type := mkTaskRec {
  tstate : TaskState F T;
  tname : option string;
  tcost : Z
}.

(** The runtime: [RuntimeState] (lifecycle and registry, under one mutex), the
    identifier counter, the tasks some [Arc] still reaches, the [NativeOwner] boxes
    handed to nOS-V, and the owner pointers written into native metadata. *)
Record RState : Type := mkRState {
  ids : CoreIds;
  lifecycle : Lifecycle;
  tasks : gset TaskId;
  next_task_id : Z;
  task_store : gmap TaskId TaskRec;
  owners : gset TaskId;
  meta : gmap RawTask TaskId
}.

Definition set_lifecycle l s :=
  mkRState (ids s) l (tasks s) (next_task_id s) (task_store s) (owners s) (meta s).
Definition set_tasks t s :=
  mkRState (ids s) (lifecycle s) t (next_task_id s) (task_store s) (owners s) (meta s).
Definition set_next n s :=
  mkRState (ids s) (lifecycle s) (tasks s) n (task_store s) (owners s) (meta s).
Definition set_task_store m s :=
  mkRState (ids s) (lifecycle s) (tasks s) (next_task_id s) m (owners s) (meta s).
Definition set_owners w s :=
  mkRState (ids s) (lifecycle s) (tasks s) (next_task_id s) (task_store s) w (meta s).
Definition set_meta m s :=
  mkRState (ids s) (lifecycle s) (tasks s) (next_task_id s) (task_store s) (owners s) m.

(** [self.pid == getpid()], in the process [getpid]. *)
Definition core_process_matches (getpid : Z) (s : RState) : bool := pid (ids s) =? getpid.

Definition alloc_task_id : nprog RState TaskId :=
  s ← get;
  let '(id, next) := fetch_add_u64 (next_task_id s) in
  _ ← modify (set_next next);
  if id =? u64_max then abort "task identifier space exhausted" else mret id.

(** [task_completed]; the flag says whether [drained] is notified. *)
Definition task_completed (id : TaskId) : nprog RState bool :=
  _ ← modify (fun s => set_tasks (tasks s ∖ {[ id ]}) s);
  s ← get;
  mret (bool_decide (tasks s = ∅)).

Definition ensure_running (getpid : Z) : nprog RState (result RuntimeClosed unit) :=
  s ← get;
  mret (if negb (core_process_matches getpid s) || negb (is_running (lifecycle s))
        then Err mkRuntimeClosed else Ok tt).

(** ** [spawn_on] *)

Definition building_gate : NativeGate := mkGate None Building false false false.

Definition update_gate (id : TaskId) (f : NativeGate -> NativeGate) (s : RState) : RState :=
  set_task_store (alter (fun r =>
    mkTaskRec (mkTask (f (gate (tstate r))) (future (tstate r)) (join (tstate r))
                 (current (tstate r))) (tname r) (tcost r)) id (task_store s)) s.

Definition opt_to_raw (a : option Affinity) : result SpawnError (option affinity_t) :=
  match a with
  | None => Ok None
  | Some a => result_map Some (map_err spawn_from_native (to_raw a))
  end.

(** The reversal of a rejected submission. *)
Definition unspawn (id : TaskId) (raw : RawTask) : nprog RState unit :=
  _ ← modify (fun s => set_tasks (tasks s ∖ {[ id ]}) s);
  _ ← modify (update_gate id (fun g => set_task None (set_phase Destroying g)));
  _ ← destroy raw;
  _ ← modify (update_gate id (set_phase Destroyed));
  modify (fun s => set_owners (owners s ∖ {[ id ]}) s).

(** Leaving [spawn_on] with an error drops its last references to the task. *)
Definition drop_task (id : TaskId) : nprog RState unit :=
  modify (fun s => set_task_store (delete id (task_store s)) s).

Definition apply_attributes (raw : RawTask) (config : TaskConfig) (a : option affinity_t)
    : nprog RState unit :=
  _ ← (match priority config with Some p => set_priority raw p | None => mret tt end);
  match a with
  | Some a => set_affinity raw (get_level a, get_type a, get_index a)
  | None => mret tt
  end.

Definition spawn_on (getpid : Z) (config : TaskConfig) (fut : F)
    : nprog RState (result SpawnError TaskId) :=
  s ← get;
  if negb (core_process_matches getpid s) then mret (Err SpawnForkedProcess) else
  let? raw_affinity := mret (opt_to_raw (affinity config)) in
  if negb (is_running (lifecycle s)) then mret (Err SpawnRuntimeClosed) else
  id ← alloc_task_id;
  _ ← modify (fun s => set_task_store (<[ id := mkTaskRec
         (mkTask building_gate (Some fut) join_new None) (name config)
         (default 1 (monitoring_cost config)) ]> (task_store s)) s);
  created ← create (task_type (ids s)) 8;
  match created with
  | Err error => _ ← drop_task id; mret (Err (spawn_from_native error))
  | Ok raw =>
      metadata ← metadata raw;
      match metadata with
      | Err error =>
          _ ← destroy raw;
          _ ← drop_task id;
          mret (Err (SpawnNative error))
      | Ok _ =>
          _ ← modify (fun s => set_owners (owners s ∪ {[ id ]}) s);
          _ ← modify (fun s => set_meta (<[ raw := id ]> (meta s)) s);
          _ ← apply_attributes raw config raw_affinity;
          _ ← modify (update_gate id (fun g =>
                set_wake_submitted true (set_phase Live (set_task (Some raw) g))));
          _ ← modify (fun s => set_tasks (tasks s ∪ {[ id ]}) s);
          submitted ← submit raw;
          match submitted with
          | Err error =>
              _ ← unspawn id raw;
              _ ← drop_task id;
              mret (Err (SpawnNative error))
          | Ok _ => mret (Ok id)
          end
      end
  end.

(** [crate::spawn]: the handle installed in [CURRENT], or closed. *)
Definition spawn (getpid : Z) (current : option RuntimeRef) (fut : F)
    : nprog RState (result SpawnError TaskId) :=
  match current with
  | None => mret (Err (spawn_from_closed mkRuntimeClosed))
  | Some _ => spawn_on getpid config_default fut
  end.

(** ** Well-formedness *)

(** Every identifier in use was allocated, so the next one is fresh. *)
Definition ids_below (n : Z) (s : RState) : Prop :=
  forall id, id ∈ tasks s \/ id ∈ owners s \/ is_Some (task_store s !! id) -> 1 <= id < n.

Definition rt_wf (s : RState) : Prop :=
  1 <= next_task_id s <= u64_max /\ ids_below (next_task_id s) s.

Lemma rt_wf_fresh s : rt_wf s ->
  next_task_id s ∉ tasks s /\ next_task_id s ∉ owners s /\ task_store s !! next_task_id s = None.
Proof.
  intros [_ Hb]. split_and!.
  - intros H. destruct (Hb _ (or_introl H)). lia.
  - intros H. destruct (Hb _ (or_intror (or_introl H))). lia.
  - apply eq_None_not_Some. intros H. destruct (Hb _ (or_intror (or_intror H))). lia.
Qed.

(** What a rejected spawn leaves: the runtime as it was, up to the identifier it
    consumed and dead metadata. *)
Definition same_tasks (s s' : RState) : Prop :=
  ids s' = ids s /\ lifecycle s' = lifecycle s /\ tasks s' = tasks s /\
  owners s' = owners s /\ task_store s' = task_store s.

(** The native attributes of a configuration, in the order they are installed. *)
Definition attribute_calls (raw : RawTask) (config : TaskConfig) : list ncall :=
  (match priority config with Some p => [NSetPriority raw p] | None => [] end) ++
  (match opt_to_raw (affinity config) with
   | Ok (Some a) => [NSetAffinity raw (get_level a) (get_type a) (get_index a)]
   | _ => []
   end).

(** A spawn that succeeded: the task is registered under a fresh identifier, owned
    by its descriptor's metadata, and starts the protocol of [TaskLife]. *)
Definition spawned (config : TaskConfig) (fut : F) (s s' : RState) (id : TaskId)
    (new : nhistory) : Prop :=
  id = next_task_id s /\ id ∉ tasks s /\
  tasks s' = tasks s ∪ {[ id ]} /\ owners s' = owners s ∪ {[ id ]} /\
  lifecycle s' = lifecycle s /\
  exists raw r,
    task_store s' = <[ id := r ]> (task_store s) /\ meta s' = <[ raw := id ]> (meta s) /\
    future (tstate r) = Some fut /\
    tname r = name config /\ tcost r = default 1 (monitoring_cost config) /\
    count (creates raw) new = 1%nat /\
    calls new = [NCreate (task_type (ids s)) 8; NMetadata raw] ++ attribute_calls raw config ++
                [NSubmit raw SUBMIT_NONE] /\
    life_init raw (mkSys (tstate r) new 0 Idle).

Definition spawn_post (getpid : Z) (config : TaskConfig) (fut : F) (s : RState) (h : nhistory)
    (r : outcome (result SpawnError TaskId)) (s' : RState) (h' : nhistory) : Prop :=
  exists new, h' = new ++ h /\
  match r with
  | Done (Ok id) =>
      pid (ids s) = getpid /\ lifecycle s = Running /\ rt_wf s' /\ spawned config fut s s' id new
  | Done (Err e) =>
      rt_wf s' /\ same_tasks s s' /\ all_destroyed new /\
      (e = SpawnForkedProcess <-> pid (ids s) <> getpid) /\
      (e <> SpawnForkedProcess -> is_ok (opt_to_raw (affinity config)) = true ->
        (e = SpawnRuntimeClosed <-> lifecycle s <> Running)) /\
      (lifecycle s <> Running -> new = [])
  | Aborted _ => next_task_id s = u64_max /\ new = []
  | _ => False
  end.

(** ** Spawning meets its contract *)

Lemma alloc_task_id_post o s h Q :
  rt_wf s ->
  (next_task_id s < u64_max -> Q (Done (next_task_id s)) (set_next (next_task_id s + 1) s) h) ->
  (forall m s', next_task_id s = u64_max -> Q (Aborted m) s' h) ->
  run_post alloc_task_id o s h Q.
Proof.
  intros [Hn _] HD HA. unfold run_post, alloc_task_id. run_unfold.
  destruct (Z.eqb_spec (next_task_id s) u64_max) as [He|He]; cbn; [by apply HA|].
  unfold wrap_u64. rewrite Z.mod_small; [apply HD; lia|]. unfold u64_max in *. lia.
Qed.

(** Refusals before anything was allocated. *)
Lemma rejected getpid config fut s h e :
  rt_wf s ->
  (e = SpawnForkedProcess <-> pid (ids s) <> getpid) ->
  (e <> SpawnForkedProcess -> is_ok (opt_to_raw (affinity config)) = true ->
    (e = SpawnRuntimeClosed <-> lifecycle s <> Running)) ->
  spawn_post getpid config fut s h (Done (Err e)) s h.
Proof. intros Hwf H1 H2. exists []. split_and!; try done. Qed.

Lemma opt_to_raw_err a e : opt_to_raw a = Err e -> exists n, e = SpawnNative n.
Proof. destruct a as [a|]; cbn; [|done]. destruct (to_raw a); cbn; [done|]. intros [= <-]. by eexists. Qed.

(** Failures after the identifier was consumed. *)
Lemma failed getpid config fut s h e s' new :
  rt_wf s -> pid (ids s) = getpid -> lifecycle s = Running -> next_task_id s < u64_max ->
  same_tasks s s' -> next_task_id s' = next_task_id s + 1 -> all_destroyed new ->
  spawn_post getpid config fut s h (Done (Err (SpawnNative e))) s' (new ++ h).
Proof.
  intros [Hn Hb] Hp Hl Hm Hs Hn' Hd. exists new. split; [done|].
  split; [|split_and!; try done].
  destruct Hs as (_ & _ & Ht & Ho & Hst). unfold rt_wf, ids_below. rewrite Hn', Ht, Ho, Hst.
  split; [lia|]. intros id Hid. apply Hb in Hid. lia.
Qed.

Lemma same_after_drop s n m :
  rt_wf s -> same_tasks s
    (set_task_store (delete (next_task_id s) (<[next_task_id s := m]> (task_store s))) (set_next n s)).
Proof.
  intros Hwf. destruct (rt_wf_fresh _ Hwf) as (_ & _ & Hs).
  split_and!; try done. cbn. by rewrite delete_insert_id.
Qed.

Lemma apply_attributes_post o raw config a s h :
  opt_to_raw (affinity config) = Ok a ->
  run_post (apply_attributes raw config a) o s h (fun r s' h' =>
    r = Done tt /\ s' = s /\ exists mid, h' = mid ++ h /\ Forall configures mid /\
      calls mid = attribute_calls raw config).
Proof.
  intros Ha. unfold run_post, apply_attributes, set_priority, set_affinity, attribute_calls.
  rewrite Ha.
  destruct (priority config), a; run_unfold; split_and!; try done.
  - eexists [_; _]. split; [done|]. split; [by repeat constructor|done].
  - eexists [_]. split; [done|]. split; [by repeat constructor|done].
  - eexists [_]. split; [done|]. split; [by repeat constructor|done].
  - by exists [].
Qed.

Lemma spawn_on_post o getpid config fut s h :
  rt_wf s -> run_post (spawn_on getpid config fut) o s h (spawn_post getpid config fut s h).
Proof.
  intros Hwf. unfold spawn_on. apply run_post_bind. unfold run_post at 1. cbn.
  unfold core_process_matches. destruct (Z.eqb_spec (pid (ids s)) getpid) as [Hp|Hp]; cbn; cycle 1.
  { apply rejected; done. }
  eapply run_post_bind_eq; [reflexivity|].
  destruct (opt_to_raw (affinity config)) as [a|e] eqn:Ha; cycle 1.
  { pose proof (opt_to_raw_err _ _ Ha) as [n ->]. apply run_post_ret, rejected; [done|by split; [|intros []]|by rewrite Ha]. }
  destruct (lifecycle s) eqn:Hl;
    [|apply run_post_ret, rejected; [done|by split; [|intros []]|by rewrite Hl]..].
  apply run_post_bind, alloc_task_id_post; [done| |]; cycle 1.
  { intros m s' Hn. by exists []. }
  intros Hn. cbn. apply run_post_bind. unfold run_post at 1. cbn.
  set (id := next_task_id s) in *.
  assert (forall m, rt_wf s -> same_tasks s
    (set_task_store (delete id (<[id := m]> (task_store s))) (set_next (id + 1) s))) as Hdrop.
  { intros m Hw. by apply same_after_drop. }
  apply run_post_bind, create_post; cbn [then_post]; set (e1 := (NCreate _ _, _)).
  { intros err Hd _. apply (failed _ _ _ _ _ _ _ [e1]); try done. by apply Hdrop. }
  intros raw (Hcr & He1 & _). cbn [then_post].
  apply run_post_bind, metadata_post. cbn [then_post]. set (r2 := o _ _). set (e2 := (NMetadata raw, r2)).
  destruct (rptr r2) as [|mptr]; cbn [non_null ok_or].
  { apply run_post_bind, status_post. set (r3 := o _ _).
    apply (failed _ _ _ _ _ _ _ [(NDestroy raw, r3); e2; e1]); try done; [by apply Hdrop|].
    apply (created_then_destroyed raw e1 [e2] Hcr He1 ltac:(by repeat constructor) r3 []). by left. }
  do 2 (eapply run_post_bind_eq; [reflexivity|]).
  apply run_post_bind. eapply run_post_mono; [by apply apply_attributes_post|].
  intros ? ? ? (-> & -> & mid & -> & Hmid & Hcalls). cbn [then_post].
  assert (Forall configures (mid ++ [e2])) as Hmid2
    by (apply Forall_app; split; [done|by repeat constructor]).
  do 2 (eapply run_post_bind_eq; [reflexivity|]).
  replace (mid ++ e2 :: e1 :: h) with (((mid ++ [e2]) ++ [e1]) ++ h) by (by rewrite <- !app_assoc).
  apply run_post_bind, status_post. cbn [then_post]. set (r4 := o _ _).
  destruct (from_code (rcode r4)) as [[]|er] eqn:Hsub.
  - apply run_post_ret. exists ((NSubmit raw SUBMIT_NONE, r4) :: (mid ++ [e2]) ++ [e1]).
    split; [done|]. split; [done|]. split; [done|].
    destruct (rt_wf_fresh _ Hwf) as (Hnt & _ & Hst). fold id in Hnt, Hst. split.
    { destruct Hwf as [Hn1 Hb]. split; cbn; fold id in Hn1 |- *; [lia|].
      intros j. cbn. rewrite !elem_of_union, !elem_of_singleton.
      intros [[Hj|Hj]|[[Hj|Hj]|Hj]]; try (subst j; lia).
      1,2: enough (1 <= j < id) by lia; apply Hb; auto.
      destruct (decide (j = id)) as [->|Hne]; [lia|].
      rewrite lookup_alter_ne, lookup_insert_ne in Hj by done.
      enough (1 <= j < id) by lia; apply Hb; auto. }
    split_and!; try done. eexists raw, _. split_and!.
    + cbn. by rewrite alter_insert_eq.
    + done.
    + done.
    + done.
    + done.
    + destruct (created_counts raw e1 (mid ++ [e2]) Hcr He1 Hmid2 raw) as (Hc & _ & _).
      cbn [count]. rewrite Hc, bool_decide_true by done. done.
    + rewrite <- Hcalls. unfold calls.
      rewrite map_cons, !map_app. cbn [rev]. by rewrite !rev_app_distr, <- !app_assoc.
    + destruct (created_counts raw e1 (mid ++ [e2]) Hcr He1 Hmid2 raw) as (_ & Hd & Hs).
      split_and!; try done; try by eexists.
      * cbn -[app]. rewrite Hs. unfold submits; cbn. by rewrite bool_decide_true.
      * cbn -[app]. split; [done|]. by apply undestroyed_safe.
  - apply run_post_bind. unfold unspawn.
    do 2 (eapply run_post_bind_eq; [reflexivity|]).
    apply run_post_bind, status_post. cbn [then_post]. set (r5 := o _ _).
    eapply run_post_bind_eq; [reflexivity|]. apply run_post_modify. cbn [then_post].
    eapply run_post_bind_eq; [reflexivity|]. apply run_post_ret.
    apply (failed _ _ _ _ _ _ _ ((NDestroy raw, r5) :: [(NSubmit raw SUBMIT_NONE, r4)] ++
             (mid ++ [e2]) ++ [e1])); try done.
    + destruct (rt_wf_fresh _ Hwf) as (Hnt & Hno & Hst). fold id in Hnt, Hno, Hst.
      split_and!; try done; cbn; [set_solver..|].
      apply map_eq. intros j. destruct (decide (j = id)) as [->|Hne].
      * by rewrite lookup_delete_eq.
      * by rewrite lookup_delete_ne, !lookup_alter_ne, lookup_insert_ne by done.
    + apply (created_then_destroyed raw e1 (mid ++ [e2]) Hcr He1 Hmid2). right. by eexists.
Qed.

(** ** Queries of the current task, and yielding ([src/src/task.rs]) *)

(** The result of a fallible program, mapped by a fallible conversion. *)
Definition and_then {S A B} (m : nprog S (result NativeError A)) (f : A -> result NativeError B)
    : nprog S (result NativeError B) :=
  r ← m; mret (match r with Ok a => f a | Err e => Err e end).

Definition task_current_cpu {S} : nprog S (result NativeError CpuId) :=
  and_then current_cpu CpuId_from_native.
Definition task_current_numa_node {S} : nprog S (result NativeError NumaNodeId) :=
  and_then current_numa_node NumaNodeId_from_native.

Definition with_current {S R} (query : nprog S (result NativeError R))
    : nprog S (result NativeError R) :=
  current ← ffi_current;
  match current with None => mret (Err OutsideTask) | Some _ => query end.

(** [YieldNow]: the flag is [yielded]; the answer is [Poll<()>] as "is ready". *)
Definition yield_poll (cx : Waker) : nprog bool bool :=
  yielded ← get;
  if (yielded : bool) then mret true else
  _ ← put true;
  _ ← wake cx;
  mret false.

(** ** Properties *)

(** C28. Spawning is all or nothing.  In a well-formed runtime, [spawn_on] ends
    with the task registered under a fresh identifier, its owner box handed to a new
    descriptor, and the native calls create, metadata, the configured attributes
    (before the submission, never after) and one submission, in the initial state of
    the task protocol; or with an error that leaves lifecycle, registry, owners and
    tasks as they were, every descriptor it created destroyed exactly once as its
    last use, and no native call at all when the runtime is closing.  It aborts
    only when the identifier counter is exhausted, never reusing an identifier. *)
Theorem spawn_contract o getpid config fut s h :
  rt_wf s ->
  run_post (spawn_on getpid config fut) o s h (fun r s' h' => exists new, h' = new ++ h /\
    match r with
    | Done (Ok id) =>
        pid (ids s) = getpid /\ lifecycle s = Running /\ rt_wf s' /\
        spawned config fut s s' id new
    | Done (Err e) =>
        rt_wf s' /\ same_tasks s s' /\ all_destroyed new /\
        (e = SpawnForkedProcess <-> pid (ids s) <> getpid) /\
        (e <> SpawnForkedProcess -> is_ok (opt_to_raw (affinity config)) = true ->
          (e = SpawnRuntimeClosed <-> lifecycle s <> Running)) /\
        (lifecycle s <> Running -> new = [])
    | Aborted _ => next_task_id s = u64_max /\ new = []
    | _ => False
    end).
Proof. intros Hwf. by apply spawn_on_post. Qed.
End Runtime.
Arguments TaskRec : clear implicits.
Arguments RState : clear implicits.

(** ** A concrete runtime *)
Module Sample.
Definition start : RState nat nat :=
  mkRState (mkCoreIds 1 10 2%positive 3%positive 4%positive) Running ∅ 1 ∅ ∅ ∅.
Definition config : TaskConfig := set_builder_priority 5 (rust_name "sample" builder_new).

Lemma start_wf : rt_wf start.
Proof.
  split; [split; vm_compute; discriminate|].
  intros id [H|[H|[? H]]]; cbn in H; [set_solver..|by rewrite lookup_empty in H].
Qed.
End Sample.

Lemma spawn_contract_witness :
  let x := spawn_on (codes := sample_codes) (repr := packed_affinity) 10 Sample.config 0%nat
             accepting Sample.start [] in
  outcome_of x = Done (Ok 1) /\ tasks (state_of x) = {[ 1 ]} /\
  exists new, history_of x = new ++ [] /\
    calls new = [NCreate 2%positive 8; NMetadata 1%positive; NSetPriority 1%positive 5;
                 NSubmit 1%positive SUBMIT_NONE].
Proof.
  destruct (@spawn_contract sample_codes packed_affinity nat nat accepting 10 Sample.config 0%nat
              Sample.start [] Sample.start_wf) as (new & Hh & H).
  split; [reflexivity|]. split; [reflexivity|].
  exists new. split; [exact Hh|]. rewrite app_nil_r in Hh. rewrite <- Hh. reflexivity.
Defined.
