(* ===== verification/Current.v ===== *)
(** * Current: the current runtime of a thread ([src/src/runtime.rs])

    The thread-local [CURRENT], the guard [enter_current] installs for a polling scope,
    and [Handle::try_current], which every constructor without an explicit handle asks.
    The code polled inside a scope is arbitrary: it may look, open further scopes, panic
    and catch panics.  A handle is an identity. *)

From Stdlib Require Import ZArith Lia.
From stdpp Require Import base list strings.
From S2P Require Import Prelude Errors.

Open Scope Z_scope.

Definition Handle := N.

(** The thread-local cell, and what the polled code saw in it, newest first. *)
Record Thread : Type := mkThread { current_handle : option Handle; looked : list (result RuntimeClosed Handle) }.

Definition set_current_handle c t := mkThread c (looked t).

Section Current.
Context {C R : Type}.
Notation thread := (prog C R Thread).

(** [Handle::try_current]. *)
Definition try_current : thread (result RuntimeClosed Handle) :=
  gets (fun t => ok_or mkRuntimeClosed (current_handle t)).

(** [enter_current] around its scope: the guard remembers the previous handle and puts
    it back when the scope ends, also by unwinding. *)
Definition enter_current {A} (handle : Handle) (scope : thread A) : thread A :=
  previous ← gets current_handle;
  _ ← modify (set_current_handle (Some handle));
  finally scope (set_current_handle previous).

(** ** Polled code *)

Inductive Code : Type :=
| Return
| Panic
| Look (rest : Code)                          (* [try_current] *)
| Enter (handle : Handle) (scope rest : Code) (* a poll of a root or spawned future *)
| Catch (body rest : Code).                   (* [catch_unwind], its result dropped *)

Definition look : thread unit :=
  r ← try_current; modify (fun t => mkThread (current_handle t) (r :: looked t)).

Fixpoint run_code (c : Code) : thread unit :=
  match c with
  | Return => mret tt
  | Panic => panic "user panic"
  | Look rest => _ ← look; run_code rest
  | Enter handle scope rest => _ ← enter_current handle (run_code scope); run_code rest
  | Catch body rest => _ ← catch_unwind (run_code body); run_code rest
  end.

(** The reference: the handle of the innermost enclosing scope, by the text alone;
    [true] when the code returns. *)
Fixpoint lexical (cur : option Handle) (c : Code) : bool * list (result RuntimeClosed Handle) :=
  match c with
  | Return => (true, [])
  | Panic => (false, [])
  | Look rest => let '(b, l) := lexical cur rest in (b, ok_or mkRuntimeClosed cur :: l)
  | Enter handle scope rest =>
      let '(b, l) := lexical (Some handle) scope in
      if b then let '(b', l') := lexical cur rest in (b', l ++ l') else (false, l)
  | Catch body rest =>
      let '(_, l) := lexical cur body in let '(b', l') := lexical cur rest in (b', l ++ l')
  end.

(** C33. Whatever the polled code does, [try_current] answers with the runtime of the
    innermost polling scope that textually encloses it, and [RuntimeClosed] outside of
    all of them; it calls nothing outside the crate; and when the code ends, also by a
    panic at any depth, the thread has the current runtime it had before. *)
Theorem current_is_lexical c o t h :
  run_code c o t h =
    (let '(returned, seen) := lexical (current_handle t) c in
     (if returned then Done tt else Panicked "user panic",
      mkThread (current_handle t) (rev seen ++ looked t), h)).
Proof.
  revert t h. induction c as [| |rest IH|handle scope IHs rest IH|body IHb rest IH]; intros [cur seen] h; cbn [run_code lexical].
  - reflexivity.
  - reflexivity.
  - unfold look, try_current. run_unfold. rewrite IH. cbn. destruct (lexical cur rest) as [b l]. cbn.
    by rewrite <- app_assoc.
  - unfold enter_current. run_unfold. rewrite IHs. cbn. destruct (lexical (Some handle) scope) as [[] l]; cbn; [|done].
    rewrite IH. cbn. destruct (lexical cur rest) as [b' l']. cbn. by rewrite rev_app_distr, <- app_assoc.
  - run_unfold. rewrite IHb. cbn. destruct (lexical cur body) as [b l].
    destruct b; cbn; rewrite IH; cbn; destruct (lexical cur rest) as [b' l']; cbn;
      by rewrite rev_app_distr, <- app_assoc.
Qed.
End Current.
