(* ===== verification/BlockOn.v ===== *)
(** * BlockOn: the root future on the owner thread ([Runtime::try_block_on], [Parker])

    The attached-thread loop of [src/src/runtime.rs] with its parker gate.  The
    root future and the threads holding its wakers are a script: for every poll,
    the wakes that arrive during it, how it ends, and the wakes that arrive before
    the pause returns.  A script that runs out models a root future that is never
    polled again. *)

From Stdlib Require Import ZArith Lia.
From stdpp Require Import base list strings.
From S2P Require Import Prelude Errors Ffi Task TaskLife Runtime.

Open Scope Z_scope.

(** ** [Parker] *)

Record ParkerGate : Type := mkParker {
  p_raw : RawTask;
  p_pid : Z;
  p_live : bool;
  p_wake_submitted : bool
}.

Section Parker.
Context `{codes : NosvCodes}.

Definition begin_poll (g : ParkerGate) : ParkerGate :=
  mkParker (p_raw g) (p_pid g) (p_live g) false.
Definition close (g : ParkerGate) : ParkerGate :=
  mkParker (p_raw g) (p_pid g) false (p_wake_submitted g).

(** [Wake::wake_by_ref], called in the process [getpid]. *)
Definition parker_wake (getpid : Z) : nprog ParkerGate unit :=
  gate ← get;
  if negb (p_pid gate =? getpid) then mret tt else
  if negb (p_live gate) || p_wake_submitted gate then mret tt else
  _ ← put (mkParker (p_raw gate) (p_pid gate) (p_live gate) true);
  r ← submit (p_raw gate);
  match r with Ok _ => mret tt | Err _ => abort "nOS-V rejected an attached-thread wake" end.
End Parker.

(** ** [try_block_on] *)

Inductive RootOut (T : Type) : Type :=
| RootPending
| RootReady (output : T)
| RootPanic (payload : string).
Arguments RootPending {T}.
Arguments RootReady {T} output.
Arguments RootPanic {T} payload.

(** One poll: the processes whose threads wake the root during the poll, its end,
    and the wakes before the pause returns. *)
Record RootPoll (T : Type) : Type := mkRootPoll {
  r_during : list Z;
  r_out : RootOut T;
  r_paused : list Z
}.
Arguments mkRootPoll {T}.
Arguments r_during {T}.
Arguments r_out {T}.
Arguments r_paused {T}.

(** The owner thread's view: the runtime it checks, its thread-locals, and the
    parker of the call (kept alive by cloned wakers after it returns). *)
Record BState : Type := mkBState {
  b_ids : CoreIds;
  b_lifecycle : Lifecycle;
  parker : option ParkerGate;
  tls_current : option RuntimeRef;
  in_block_on : bool
}.

Definition set_parker p s := mkBState (b_ids s) (b_lifecycle s) p (tls_current s) (in_block_on s).
Definition set_tls c s := mkBState (b_ids s) (b_lifecycle s) (parker s) c (in_block_on s).
Definition set_in_block_on b s := mkBState (b_ids s) (b_lifecycle s) (parker s) (tls_current s) b.

Section BlockOn.
Context `{codes : NosvCodes} {T : Type} (thread getpid : Z).

Definition on_parker (m : nprog ParkerGate unit) : nprog BState unit :=
  s ← get;
  match parker s with
  | None => mret tt
  | Some g => zoom (fun _ => g) (fun g' => set_parker (Some g')) m
  end.

Definition wake_all (pids : list Z) : nprog BState unit :=
  for_each (fun p => on_parker (parker_wake p)) pids.

(** The [loop] under [catch_unwind]. *)
Fixpoint drive (polls : list (RootPoll T)) : nprog BState (result BlockOnError T) :=
  match polls with
  | [] => block "root future"
  | p :: polls =>
      _ ← on_parker (modify begin_poll);
      _ ← wake_all (r_during p);
      match r_out p with
      | RootPanic payload => panic payload
      | RootReady output => mret (Ok output)
      | RootPending =>
          _ ← wake_all (r_paused p);
          r ← pause;
          match r with
          | Err e => mret (Err (BlockNative e))
          | Ok _ => drive polls
          end
      end
  end.

Definition try_block_on (polls : list (RootPoll T)) : nprog BState (result BlockOnError T) :=
  s ← get;
  if negb (owner_thread (b_ids s) =? thread) then mret (Err BlockWrongThread) else
  if negb (pid (b_ids s) =? getpid) then mret (Err BlockForkedProcess) else
  if negb (is_running (b_lifecycle s)) then mret (Err BlockRuntimeClosed) else
  current ← ffi_current;
  match current with
  | Some _ => mret (Err BlockAlreadyInTask)
  | None =>
      _ ← modify (set_in_block_on true);
      if in_block_on s then mret (Err BlockNested) else
      attached ← attach "rust.block_on";
      match attached with
      | Err error => _ ← modify (set_in_block_on false); mret (Err (BlockNative error))
      | Ok raw =>
          _ ← modify (set_parker (Some (mkParker raw (pid (b_ids s)) true true)));
          _ ← modify (set_tls (Some (mkRuntimeRef true)));
          driven ← catch_unwind (drive polls);
          _ ← on_parker (modify close);
          _ ← modify (set_tls (tls_current s));
          _ ← modify (set_in_block_on false);
          detached ← detach;
          match driven with
          | Ok (Ok output) => mret (map_err BlockNative (result_map (fun _ => output) detached))
          | Ok (Err error) => mret (Err error)
          | Err payload => panic payload
          end
      end
  end.

(** [block_on] *)
Definition block_on (polls : list (RootPoll T)) : nprog BState T :=
  r ← try_block_on polls;
  match r with Ok output => mret output | Err e => panic ("nOS-V block_on failed: " ++ display_block_on e)%string end.
End BlockOn.

(** ** What [block_on] means

    The polls that run and the way the loop ends, as a function of the script and
    of the answers to [nosv_pause]; and the native calls it makes. *)

Section Meaning.
Context `{codes : NosvCodes} {T : Type}.

Fixpoint root_run (polls : list (RootPoll T)) (answers : list (result NativeError unit))
    : list (RootPoll T) * outcome (result BlockOnError T) :=
  match polls with
  | [] => ([], Blocked "root future")
  | p :: polls =>
      match r_out p with
      | RootPanic payload => ([p], Panicked payload)
      | RootReady output => ([p], Done (Ok output))
      | RootPending =>
          match answers with
          | Ok _ :: answers => let '(ps, r) := root_run polls answers in (p :: ps, r)
          | Err e :: _ => ([p], Done (Err (BlockNative e)))
          | [] => ([p], Blocked "pause")
          end
      end
  end.

(** Whether some wake of the poll's epoch comes from the process of the parker. *)
Definition woken (pd : Z) (p : RootPoll T) : bool :=
  existsb (Z.eqb pd) (r_during p) ||
  match r_out p with RootPending => existsb (Z.eqb pd) (r_paused p) | _ => false end.

Definition epoch_calls (raw : RawTask) (pd : Z) (p : RootPoll T) : list ncall :=
  (if woken pd p then [NSubmit raw SUBMIT_NONE] else []) ++
  match r_out p with RootPending => [NPause] | _ => [] end.

Definition root_calls (raw : RawTask) (pd : Z) (ps : list (RootPoll T)) : list ncall :=
  concat (map (epoch_calls raw pd) ps).

(** The answers to the pauses of a history, oldest first. *)
Fixpoint pause_answers (h : nhistory) : list (result NativeError unit) :=
  match h with
  | [] => []
  | (NPause, r) :: h => pause_answers h ++ [from_code (rcode r)]
  | _ :: h => pause_answers h
  end.

Lemma pause_answers_app h1 h2 : pause_answers (h1 ++ h2) = pause_answers h2 ++ pause_answers h1.
Proof.
  induction h1 as [|[c r] h1 IH]; cbn; [by rewrite app_nil_r|].
  destruct c; try done. by rewrite IH, app_assoc.
Qed.
End Meaning.

Section Proofs.
Context `{codes : NosvCodes} {T : Type} (o : noracle).
Implicit Types (s : BState) (h : nhistory).

(** The parker of a call that is still attached. *)
Definition attached_as (raw : RawTask) (pd : Z) (sub : bool) s : Prop :=
  parker s = Some (mkParker raw pd true sub).

Definition same_but_parker s s' : Prop := exists p, s' = set_parker p s.

Lemma wake_all_post raw pd pids : forall sub s h,
  attached_as raw pd sub s ->
  run_post (wake_all pids) o s h (fun r s' h' =>
    same_but_parker s s' /\
    match r with
    | Done _ => attached_as raw pd (sub || existsb (Z.eqb pd) pids) s' /\
        exists new, h' = new ++ h /\ pause_answers new = [] /\
          calls new = if negb sub && existsb (Z.eqb pd) pids then [NSubmit raw SUBMIT_NONE] else []
    | Aborted _ => faulted h'
    | _ => False
    end).
Proof.
  induction pids as [|p pids IH]; intros sub s h Ha; cbn.
  { split; [exists (parker s); by destruct s|].
    rewrite orb_false_r, andb_false_r. split; [done|]. by exists []. }
  apply run_post_bind. unfold run_post at 1. unfold on_parker. run_unfold. rewrite Ha.
  unfold parker_wake, submit, submit_with, Ffi.status. run_unfold.
  assert (set_parker (Some (mkParker raw pd true sub)) s = s) as Hid.
  { unfold attached_as in Ha. destruct s; cbn in *. by rewrite Ha. }
  destruct (Z.eqb_spec pd p) as [->|Hne]; cbn; [destruct sub; cbn|].
  - rewrite Hid. eapply run_post_mono; [by apply (IH true)|]. done.
  - set (r := o h (NSubmit raw SUBMIT_NONE)).
    destruct (from_code (rcode r)) as [[]|e] eqn:Hr; cbn.
    + eapply run_post_mono; [by apply (IH true)|].
      intros x s' h' [[q ->] Hx]. split; [by exists q|].
      destruct x; try done. destruct Hx as (Ha' & new & -> & Hp & Hc). split; [done|].
      exists (new ++ [(NSubmit raw SUBMIT_NONE, r)]). rewrite <- app_assoc. split; [done|].
      rewrite pause_answers_app, Hp, calls_app, Hc. done.
    + split; [by eexists|]. apply faulted_here. unfold fault; cbn. fold r. by rewrite Hr.
  - rewrite Hid. eapply run_post_mono; [by apply (IH sub)|]. done.
Qed.
Lemma same_but_parker_trans s1 s2 s3 :
  same_but_parker s1 s2 -> same_but_parker s2 s3 -> same_but_parker s1 s3.
Proof. intros [p ->] [q ->]. by exists q. Qed.

(** What the loop did: the calls and the end its specification names. *)
Definition drove (raw : RawTask) (pd : Z) (polls : list (RootPoll T)) (h : nhistory)
    (r : outcome (result BlockOnError T)) (h' : nhistory) : Prop :=
  exists new, h' = new ++ h /\
    calls new = root_calls raw pd (root_run polls (pause_answers new)).1 /\
    r = (root_run polls (pause_answers new)).2.

Definition drive_spec (raw : RawTask) (pd : Z) (polls : list (RootPoll T)) s h
    (r : outcome (result BlockOnError T)) s' h' : Prop :=
  same_but_parker s s' /\
  match r with
  | Aborted _ => faulted h'
  | _ => (exists sub, attached_as raw pd sub s') /\ drove raw pd polls h r h'
  end.

(** One pending epoch in front of a loop that did what it should. *)
Lemma drove_pending raw pd p polls h new q r h' :
  r_out p = RootPending -> from_code (rcode q) = Ok tt -> pause_answers new = [] ->
  calls new = (if woken pd p then [NSubmit raw SUBMIT_NONE] else []) ->
  drove raw pd polls ((NPause, q) :: new ++ h) r h' ->
  drove raw pd (p :: polls) h r h'.
Proof.
  intros Hp Hq Hn Hc (new' & -> & Hcalls & ->).
  exists (new' ++ (NPause, q) :: new). rewrite <- app_assoc. split; [done|].
  rewrite pause_answers_app. cbn. rewrite Hn, Hq, Hp. cbn.
  destruct (root_run polls (pause_answers new')) as [ps x] eqn:Hr. cbn in *. split; [|done].
  rewrite calls_app, Hcalls. unfold root_calls. cbn. f_equal.
  unfold epoch_calls. rewrite Hp. unfold calls in Hc. by rewrite Hc.
Qed.

Lemma drove_last raw pd p polls h new r h' :
  (root_run (p :: polls) (pause_answers new)) = ([p], r) ->
  h' = new ++ h -> calls new = epoch_calls raw pd p ->
  drove raw pd (p :: polls) h r h'.
Proof.
  intros Hr -> Hc. exists new. rewrite Hr. split_and!; try done.
  rewrite Hc. unfold root_calls. cbn. by rewrite app_nil_r.
Qed.

Lemma drive_post raw pd polls : forall sub s h,
  attached_as raw pd sub s ->
  run_post (drive polls) o s h (drive_spec raw pd polls s h).
Proof.
  induction polls as [|p polls IH]; intros sub s h Ha.
  { split; [exists (parker s); by destruct s|]. split; [by eexists|]. by exists []. }
  cbn [drive]. eapply run_post_bind_eq.
  { unfold on_parker. run_unfold. by rewrite Ha. }
  cbn. unfold begin_poll; cbn. apply run_post_bind.
  eapply run_post_mono; [by apply (wake_all_post raw pd _ false)|].
  intros r1 s1 h1 [Hs1 Hr1]. pose proof (same_but_parker_trans s _ s1 (ex_intro _ _ eq_refl) Hs1)
    as Hs1'. destruct r1; try done; cbn.
  destruct Hr1 as (Ha1 & new1 & -> & Hp1 & Hc1). cbn in Ha1, Hc1.
  destruct (r_out p) as [|output|payload] eqn:Hout.
  - apply run_post_bind. eapply run_post_mono; [eapply wake_all_post; exact Ha1|].
    intros r2 s2 h2 [Hs2 Hr2]. pose proof (same_but_parker_trans _ _ _ Hs1' Hs2) as Hs2'.
    destruct r2; try done; cbn.
    destruct Hr2 as (Ha2 & new2 & -> & Hp2 & Hc2).
    assert (calls (new2 ++ new1) = if woken pd p then [NSubmit raw SUBMIT_NONE] else []) as Hc.
    { rewrite calls_app, Hc1, Hc2. unfold woken. rewrite Hout.
      by destruct (existsb _ _), (existsb _ _). }
    assert (pause_answers (new2 ++ new1) = []) as Hp by (by rewrite pause_answers_app, Hp1, Hp2).
    apply run_post_bind, status_post. cbn. rewrite app_assoc. set (q := o _ NPause).
    destruct (from_code (rcode q)) as [[]|e] eqn:Hq.
    + eapply run_post_mono; [by eapply IH|]. intros r s3 h3 [Hs3 Hr3].
      split; [by eapply same_but_parker_trans|].
      destruct r; try done; destruct Hr3 as [? ?]; (split; [done|]); by eapply drove_pending.
    + split; [done|]. split; [by eexists|].
      apply (drove_last _ _ _ _ _ ((NPause, q) :: new2 ++ new1)); [|done|].
      * cbn. rewrite Hp, Hq, Hout. done.
      * unfold epoch_calls. rewrite Hout, <- Hc. done.
  - split; [done|]. split; [by eexists|].
    apply (drove_last _ _ _ _ _ new1); [by cbn; rewrite Hout|done|].
    unfold epoch_calls, woken. by rewrite Hout, Hc1, orb_false_r, app_nil_r.
  - split; [done|]. split; [by eexists|].
    apply (drove_last _ _ _ _ _ new1); [by cbn; rewrite Hout|done|].
    unfold epoch_calls, woken. by rewrite Hout, Hc1, orb_false_r, app_nil_r.
Qed.
End Proofs.

(** ** Properties *)

Section Properties.
Context `{codes : NosvCodes} {T : Type}.

(** The checks before the thread is attached, in order. *)
Definition refusal (thread getpid : Z) (s : BState) : option BlockOnError :=
  if negb (owner_thread (b_ids s) =? thread) then Some BlockWrongThread else
  if negb (pid (b_ids s) =? getpid) then Some BlockForkedProcess else
  if negb (is_running (b_lifecycle s)) then Some BlockRuntimeClosed else None.

(** The value of an attached call: the root's, unless the detach failed. *)
Definition attached_result (r : outcome (result BlockOnError T)) (detached : result NativeError unit)
    : outcome (result BlockOnError T) :=
  match r, detached with
  | Done (Ok _), Err e => Done (Err (BlockNative e))
  | _, _ => r
  end.

(** Refusals of [try_block_on]: on a foreign thread, in a forked child, on a
    closing runtime, inside a nOS-V task or inside another [block_on], the call
    returns the first applicable error in this order, leaves the thread's state as
    it was and makes no native call beyond the query for a current task; a failed
    attach also leaves everything unchanged. *)
Theorem block_on_refusals (thread getpid : Z) (polls : list (RootPoll T)) (o : noracle)
    (s : BState) (h : nhistory) :
  let q := o h NSelf in
  let h1 := (NSelf, q) :: h in
  let a := o h1 (NAttach "rust.block_on") in
  (forall e, refusal thread getpid s = Some e ->
     try_block_on thread getpid polls o s h = (Done (Err e), s, h)) /\
  (refusal thread getpid s = None -> rptr q <> 0%N ->
     try_block_on thread getpid polls o s h = (Done (Err BlockAlreadyInTask), s, h1)) /\
  (refusal thread getpid s = None -> rptr q = 0%N -> in_block_on s = true ->
     try_block_on thread getpid polls o s h = (Done (Err BlockNested), s, h1)) /\
  (refusal thread getpid s = None -> rptr q = 0%N -> in_block_on s = false ->
   forall e, from_code (rcode a) = Err e ->
     try_block_on thread getpid polls o s h =
       (Done (Err (BlockNative e)), s, (NAttach "rust.block_on", a) :: h1)).
Proof.
  unfold refusal, try_block_on, attach, status_ptr, ffi_current, from_ptr. run_unfold.
  destruct (_ =? thread), (_ =? getpid), (is_running _); cbn; (split; [by intros e [= <-]|]); try done.
  split_and!.
  - intros _ Hq. by destruct (rptr _).
  - intros _ -> Hb. cbn. rewrite Hb. cbn. destruct s; cbn in *; by rewrite <- Hb.
  - intros _ Hq Hb e He. rewrite Hq. cbn. rewrite Hb. cbn. rewrite He. cbn.
    destruct s; cbn in *; by rewrite <- Hb.
Qed.

(** C29. Meaning of [block_on] on an idle owner thread: after a successful attach,
    the loop polls, coalesces the wakes of each poll's epoch into at most one
    submission of the attached task (exactly one when some wake of the epoch comes
    from this process, so no wake is lost, and forked children never submit),
    pauses after each pending poll and stops at the first ready poll, panic or
    failed pause, exactly as [root_run] says; however it ends, the parker is closed
    and the thread-locals are restored before the single, final detach, the root's
    panic is resumed, and an output survives unless the detach failed.  Wakes that
    arrive later make no native call. *)
Theorem block_on_meaning (thread getpid : Z) (polls : list (RootPoll T)) (o : noracle)
    (s : BState) (h : nhistory) (raw : RawTask) :
  let h1 := (NSelf, o h NSelf) :: h in
  let a := o h1 (NAttach "rust.block_on") in
  let h2 := (NAttach "rust.block_on", a) :: h1 in
  refusal thread getpid s = None -> rptr (o h NSelf) = 0%N -> in_block_on s = false ->
  from_code (rcode a) = Ok tt -> rptr a = Npos raw ->
  run_post (try_block_on thread getpid polls) o s h (fun r s' h' =>
    match r with
    | Aborted _ => faulted h'
    | Blocked _ => drove raw (pid (b_ids s)) polls h2 r h'
    | _ =>
        tls_current s' = tls_current s /\ in_block_on s' = false /\
        b_ids s' = b_ids s /\ b_lifecycle s' = b_lifecycle s /\
        exists new d, h' = (NDetach, d) :: new ++ h2 /\
          calls new = root_calls raw (pid (b_ids s)) (root_run polls (pause_answers new)).1 /\
          r = attached_result (root_run polls (pause_answers new)).2 (from_code (rcode d)) /\
          (forall p o' h'', on_parker (parker_wake p) o' s' h'' = (Done tt, s', h''))
    end).
Proof.
  intros h1 a h2 Href Hq Hb Ha Hraw. unfold refusal in Href. unfold try_block_on.
  eapply run_post_bind_eq; [reflexivity|].
  destruct (_ =? thread), (_ =? getpid), (is_running _); cbn [negb] in *; try done.
  eapply run_post_bind_eq; [unfold ffi_current, from_ptr; run_unfold; by rewrite Hq|]. cbn [non_null].
  eapply run_post_bind_eq; [reflexivity|]. rewrite Hb.
  eapply run_post_bind_eq.
  { unfold attach, status_ptr. run_unfold. unfold a, h1 in Ha, Hraw. by rewrite Ha, Hraw. }
  do 2 (eapply run_post_bind_eq; [reflexivity|]).
  apply run_post_bind, run_post_catch.
  eapply run_post_mono; [by apply (drive_post o raw (pid (b_ids s)) polls true)|].
  intros r s1 h3 [[p ->] Hr].
  destruct r as [r|payload|m|m]; cbn [then_post]; [| |done|by destruct Hr].
  - destruct Hr as [[sub Hat] (new & -> & Hcalls & Hres)].
    unfold attached_as in Hat; cbn in Hat; subst p.
    eapply run_post_bind_eq; [reflexivity|]. do 2 (eapply run_post_bind_eq; [reflexivity|]).
    apply run_post_bind, status_post. cbn [then_post]. set (d := o _ NDetach).
    destruct r as [output|e]; [destruct (from_code (rcode d)) as [[]|e] eqn:Hd|];
      (apply run_post_ret; split_and!; try done);
      exists new, d; (split_and!; try done); try (rewrite <- Hres; cbn; by rewrite ?Hd);
      intros p o' h''; unfold on_parker, parker_wake; run_unfold; by destruct (_ =? p).
  - destruct Hr as [[sub Hat] (new & -> & Hcalls & Hres)].
    unfold attached_as in Hat; cbn in Hat; subst p.
    eapply run_post_bind_eq; [reflexivity|]. do 2 (eapply run_post_bind_eq; [reflexivity|]).
    apply run_post_bind, status_post. cbn [then_post]. set (d := o _ NDetach).
    unfold run_post, panic; cbn. split_and!; try done.
    exists new, d; (split_and!; try done); [by rewrite <- Hres|].
    intros p o' h''; unfold on_parker, parker_wake; run_unfold; by destruct (_ =? p).
Qed.
End Properties.

(** ** A concrete call

    A root that is woken during its first poll and ready on its second. *)
Module Sample.
Definition ids : CoreIds := mkCoreIds 1 10 2%positive 3%positive 4%positive.
Definition idle : BState := mkBState ids Running None None false.
Definition closing : BState := mkBState ids Closing None None false.
Definition polls : list (RootPoll nat) :=
  [mkRootPoll [10; 99] RootPending [10]; mkRootPoll [] (RootReady 7%nat) []].
End Sample.

Lemma block_on_refusals_witness :
  try_block_on (codes := sample_codes) 1 10 Sample.polls accepting Sample.closing [] =
    (Done (Err BlockRuntimeClosed), Sample.closing, []) /\
  try_block_on (codes := sample_codes) 2 10 Sample.polls accepting Sample.idle [] =
    (Done (Err BlockWrongThread), Sample.idle, []).
Proof.
  split.
  - apply (@block_on_refusals sample_codes nat 1 10 Sample.polls accepting Sample.closing []).
    reflexivity.
  - apply (@block_on_refusals sample_codes nat 2 10 Sample.polls accepting Sample.idle []).
    reflexivity.
Defined.

Lemma block_on_meaning_witness :
  let x := try_block_on (codes := sample_codes) 1 10 Sample.polls accepting Sample.idle [] in
  outcome_of x = Done (Ok 7%nat) /\
  calls (history_of x) =
    [NSelf; NAttach "rust.block_on"; NSubmit 2%positive SUBMIT_NONE; NPause; NDetach] /\
  tls_current (state_of x) = None.
Proof.
  pose proof (@block_on_meaning sample_codes nat 1 10 Sample.polls accepting Sample.idle []
                2%positive eq_refl eq_refl eq_refl eq_refl eq_refl) as H.
  destruct H as (H & _).
  split; [reflexivity|]. split; [reflexivity|]. exact H.
Defined.
