(* ===== verification/Timer.v ===== *)
(** * Timer: monotonic timers ([src/src/time.rs])

    The deadline heap, the park gate and the critical sections of [TimerDriver],
    the [Sleep] and [Timeout] futures, and the native callbacks.  Instants are
    nanoseconds of the monotonic clock.  Every critical section of a mutex is one
    program; how the driver's loop and the other threads interleave them is the
    step relation of [TimerLife]. *)

From Stdlib Require Import ZArith Lia.
From stdpp Require Import base gmap sets list strings.
From S2P Require Import Prelude Errors Ffi.

Open Scope Z_scope.

(** ** Data *)

Definition TimerRef := N.

Record TimerState : Type := mkTimer {
  fired : bool;
  cancelled : bool;
  waiter : option Waker
}.

Record TimerEntry : Type := mkEntry {
  deadline : Z;
  entry_id : Z;
  entry_state : TimerRef
}.

#[export] Instance TimerState_eq_dec : EqDecision TimerState.
Proof. solve_decision. Defined.
#[export] Instance TimerEntry_eq_dec : EqDecision TimerEntry.
Proof. solve_decision. Defined.

(** [Ord for TimerEntry]: chronological order reversed, then identifiers reversed. *)
Definition cmp_entry (self other : TimerEntry) : comparison :=
  match deadline other ?= deadline self with
  | Eq => entry_id other ?= entry_id self
  | c => c
  end.

(** The [BinaryHeap] of the standard library, as the list of its elements from the
    greatest down: [peek] is the head and [push] keeps the order. *)
Fixpoint heap_push (e : TimerEntry) (heap : list TimerEntry) : list TimerEntry :=
  match heap with
  | [] => [e]
  | x :: heap' =>
      match cmp_entry e x with Lt => x :: heap_push e heap' | _ => e :: heap end
  end.

Inductive DriverPark : Type :=
| TBuilding
| TRunning
| TPaused
| TDeadlineWait
| TWakePending
| TTerminal
| TDestroyed.

#[export] Instance DriverPark_eq_dec : EqDecision DriverPark.
Proof. solve_decision. Defined.

(** The driver: its heap and shutdown flag, its gate, its identifier counter, the
    completion flag, and the timer states its entries and futures share. *)
Record TState : Type := mkT {
  states : gmap TimerRef TimerState;
  timers : list TimerEntry;
  shutdown : bool;
  graw : option RawTask;
  gphase : DriverPark;
  notified : bool;
  next_timer : Z;
  completed : bool
}.

Definition set_states x s := mkT x (timers s) (shutdown s) (graw s) (gphase s) (notified s) (next_timer s) (completed s).
Definition set_timers x s := mkT (states s) x (shutdown s) (graw s) (gphase s) (notified s) (next_timer s) (completed s).
Definition set_shutdown x s := mkT (states s) (timers s) x (graw s) (gphase s) (notified s) (next_timer s) (completed s).
Definition set_graw x s := mkT (states s) (timers s) (shutdown s) x (gphase s) (notified s) (next_timer s) (completed s).
Definition set_gphase x s := mkT (states s) (timers s) (shutdown s) (graw s) x (notified s) (next_timer s) (completed s).
Definition set_notified x s := mkT (states s) (timers s) (shutdown s) (graw s) (gphase s) x (next_timer s) (completed s).
Definition set_next_timer x s := mkT (states s) (timers s) (shutdown s) (graw s) (gphase s) (notified s) x (completed s).
Definition set_completed x s := mkT (states s) (timers s) (shutdown s) (graw s) (gphase s) (notified s) (next_timer s) x.

Definition set_fired (t : TimerState) : TimerState := mkTimer true (cancelled t) (waiter t).
Definition set_waiter (w : option Waker) (t : TimerState) : TimerState :=
  mkTimer (fired t) (cancelled t) w.
(** [state.cancelled = true; state.waiter = None]. *)
Definition cancel_timer (t : TimerState) : TimerState := mkTimer (fired t) true None.

Section Driver.
Context `{codes : NosvCodes}.

(** ** Construction *)

Definition driver_new : TState := mkT ∅ [] false None TBuilding false 1 false.

(** [TimerDriver::start]; the driver is built by the caller as [driver_new]. *)
Definition timer_start (ty : RawTaskType) : nprog TState (result NativeError unit) :=
  let? raw := create ty 8 in
  m ← metadata raw;
  match m with
  | Err error => _ ← destroy raw; mret (Err error)
  | Ok _ =>
      _ ← modify (set_graw (Some raw));
      _ ← modify (set_gphase TRunning);
      r ← submit raw;
      match r with
      | Err error =>
          _ ← modify (set_graw None);
          _ ← destroy raw;
          _ ← modify (set_gphase TDestroyed);
          mret (Err error)
      | Ok _ => mret (Ok tt)
      end
  end.

(** ** Registration and notification *)

(** The data section of [register]; the flag says whether [notify] follows. *)
Definition register_entry (dl : Z) (state : TimerRef) : nprog TState bool :=
  s ← get;
  let '(id, next) := fetch_add_u64 (next_timer s) in
  _ ← modify (set_next_timer next);
  if id =? u64_max then abort "timer identifier exhausted" else
  if shutdown s then
    _ ← modify (fun s => set_states (alter cancel_timer state (states s)) s);
    mret false
  else
    _ ← modify (fun s => set_timers (heap_push (mkEntry dl id state) (timers s)) s);
    mret true.

(** [notify]. *)
Definition notify : nprog TState unit :=
  _ ← modify (set_notified true);
  s ← get;
  let send (deadline_wake : bool) : nprog TState unit :=
    _ ← modify (set_gphase TWakePending);
    match graw s with
    | None => abort "timer descriptor missing"
    | Some raw =>
        r ← (if deadline_wake then submit_deadline_wake raw else submit raw);
        match r with Ok _ => mret tt | Err _ => abort "timer wake submit failed" end
    end in
  match gphase s with
  | TPaused => send false
  | TDeadlineWait => send true
  | TRunning | TWakePending => mret tt
  | TBuilding | TTerminal | TDestroyed => mret tt
  end.

Definition register (dl : Z) (state : TimerRef) : nprog TState unit :=
  pushed ← register_entry dl state;
  if (pushed : bool) then notify else mret tt.

(** ** The driver's loop, one critical section at a time *)

(** Pops every entry due at [now]: the new states, the remaining heap and the
    wakers taken, in order. *)
Fixpoint fire_due (now : Z) (states : gmap TimerRef TimerState) (heap : list TimerEntry)
    : gmap TimerRef TimerState * list TimerEntry * list Waker :=
  match heap with
  | [] => (states, [], [])
  | e :: heap' =>
      if deadline e <=? now then
        match states !! entry_state e with
        | Some t =>
            if cancelled t then fire_due now states heap'
            else
              let '(states', rest, ws) :=
                fire_due now (<[ entry_state e := set_waiter None (set_fired t) ]> states) heap' in
              (states', rest, match waiter t with Some w => w :: ws | None => ws end)
        | None => fire_due now states heap'
        end
      else (states, heap, [])
  end.

(** Drops cancelled entries from the top of the heap. *)
Fixpoint prune (states : gmap TimerRef TimerState) (heap : list TimerEntry) : list TimerEntry :=
  match heap with
  | e :: heap' =>
      match states !! entry_state e with
      | Some t => if cancelled t then prune states heap' else heap
      | None => heap
      end
  | [] => []
  end.

Definition cancel_all (heap : list TimerEntry) (states : gmap TimerRef TimerState)
    : gmap TimerRef TimerState :=
  foldr (fun e m => alter cancel_timer (entry_state e) m) states heap.

(** The data section of [run]: the wait to perform and the wakers to call. *)
Definition collect (now : Z) : nprog TState (option Z * list Waker) :=
  s ← get;
  if shutdown s then
    _ ← modify (fun s => set_timers [] (set_states (cancel_all (timers s) (states s)) s));
    mret (None, [])
  else
    let '(states', heap', wake) := fire_due now (states s) (timers s) in
    let heap'' := prune states' heap' in
    _ ← modify (fun s => set_timers heap'' (set_states states' s));
    mret (option_map (fun e => Z.max 0 (deadline e - now)) (head heap''), wake).

(** [catch_unwind(|| waiter.wake())]. *)
Definition wake_waiter (w : Waker) : nprog TState unit := _ ← catch_unwind (wake w); mret tt.

(** The shutdown check after the wakes: [true] ends the loop. *)
Definition check_shutdown : nprog TState bool :=
  s ← get;
  if shutdown s then _ ← modify (set_gphase TTerminal); mret true else mret false.

(** The gate section: whether to park. *)
Definition decide_park (wait : option Z) : nprog TState bool :=
  s ← get;
  if notified s then
    _ ← modify (set_notified false);
    _ ← modify (set_gphase TRunning);
    mret false
  else
    _ ← modify (set_gphase (if wait then TDeadlineWait else TPaused));
    mret true.

Definition park (wait : option Z) : nprog TState unit :=
  r ← match wait with Some d => waitfor d | None => pause end;
  match r with Ok _ => mret tt | Err _ => abort "timer driver could not park" end.

Definition resumed : nprog TState unit := modify (set_gphase TRunning).

(** One pass of the loop with nothing in between, [true] when it must return. *)
Definition run_pass (now : Z) : nprog TState bool :=
  '(wait, ws) ← collect now;
  _ ← for_each wake_waiter ws;
  stop ← check_shutdown;
  if (stop : bool) then mret true else
  should_wait ← decide_park wait;
  if negb should_wait then mret false else
  _ ← park wait;
  _ ← resumed;
  mret false.

(** ** Retirement and shutdown *)

Definition timer_retire : nprog TState unit :=
  s ← get;
  match gphase s with
  | TTerminal =>
      _ ← modify (set_graw None);
      match graw s with
      | None => abort "timer descriptor missing"
      | Some raw =>
          r ← destroy raw;
          match r with
          | Err _ => abort "timer descriptor could not be destroyed"
          | Ok _ =>
              _ ← modify (set_gphase TDestroyed);
              modify (set_completed true)
          end
      end
  | _ => abort "timer completed before terminal state"
  end.

(** [shutdown_and_wait] up to its wait, and the wait for [completed]. *)
Definition request_shutdown : nprog TState unit :=
  _ ← modify (set_shutdown true);
  notify.

Definition await_completed : nprog TState unit :=
  s ← get;
  if completed s then mret tt else block "completed_cv".

(** ** Native callbacks *)

Definition timer_owner (raw : RawTask) : nprog TState unit :=
  m ← metadata raw;
  match m with Ok _ => mret tt | Err _ => abort "timer metadata missing" end.

Definition timer_run_callback (pointer : N) (run : nprog TState unit) : nprog TState unit :=
  r ← catch_unwind (
    match from_ptr pointer with
    | None => abort "null timer task"
    | Some raw => _ ← timer_owner raw; run
    end);
  match r with Ok _ => mret tt | Err _ => abort "panic in timer run callback" end.

Definition timer_completed_callback (pointer : N) : nprog TState unit :=
  r ← catch_unwind (
    match from_ptr pointer with
    | None => abort "null completed timer"
    | Some raw => _ ← timer_owner raw; timer_retire
    end);
  match r with Ok _ => mret tt | Err _ => abort "panic in timer completed callback" end.

(** ** [Sleep] *)

Record Sleep : Type := mkSleep {
  sleep_deadline : Z;
  sleep_state : TimerRef;
  sleep_driver : bool    (* registered with the driver *)
}.

(** The current runtime, as [Handle::try_current] and [ensure_running] see it. *)
Inductive CurrentHandle : Type := NoHandle | HandleClosed | HandleRunning.

(** The state section of [Sleep::poll]: ready, or the waiter refreshed. *)
Definition sleep_check (now : Z) (cx : Waker) (sl : Sleep) : nprog TState bool :=
  s ← get;
  match states s !! sleep_state sl with
  | None => panic "unreachable timer state"
  | Some t =>
      if fired t || (sleep_deadline sl <=? now) then
        _ ← modify (set_states (<[ sleep_state sl := set_fired t ]> (states s)));
        mret true
      else
        let stale := match waiter t with None => true | Some old => negb (will_wake old cx) end in
        _ ← (if stale
             then modify (set_states (<[ sleep_state sl := set_waiter (Some cx) t ]> (states s)))
             else mret tt);
        mret false
  end.

(** [Sleep::poll] up to the notification of a registration: [None] is ready, and
    [Some due] is pending with [notify] still due. *)
Definition sleep_poll (now : Z) (cx : Waker) (handle : CurrentHandle) (sl : Sleep)
    : nprog TState (option bool * Sleep) :=
  ready ← sleep_check now cx sl;
  if (ready : bool) then mret (None, sl) else
  if sleep_driver sl then mret (Some false, sl) else
  match handle with
  | NoHandle => panic "nosv::time::Sleep polled outside a runtime"
  | HandleClosed =>
      panic "nosv::time::Sleep polled through a closed or fork-inherited runtime"
  | HandleRunning =>
      pushed ← register_entry (sleep_deadline sl) (sleep_state sl);
      mret (Some pushed, mkSleep (sleep_deadline sl) (sleep_state sl) true)
  end.

(** [Drop for Sleep] up to its notification; the flag says whether one is due. *)
Definition sleep_drop (sl : Sleep) : nprog TState bool :=
  _ ← modify (fun s => set_states (alter cancel_timer (sleep_state sl) (states s)) s);
  mret (sleep_driver sl).

Definition sleep_until (dl : Z) (r : TimerRef) : nprog TState Sleep :=
  _ ← modify (fun s => set_states (<[ r := mkTimer false false None ]> (states s)) s);
  mret (mkSleep dl r false).
End Driver.

(** ** Durations *)

(** The largest [Instant] of the Linux monotonic clock: [i64] seconds. *)
Definition INSTANT_MAX : Z := (2 ^ 63 - 1) * 10 ^ 9 + 999999999.

Definition checked_add (now d : Z) : option Z :=
  if now + d <=? INSTANT_MAX then Some (now + d) else None.

(** [Instant + Duration] panics on overflow. *)
Definition far_future (now : Z) : option Z := checked_add now (100 * 365 * 24 * 60 * 60 * 10 ^ 9).

(** [sleep(duration)]: the deadline, [None] when [far_future] panics; the fallback
    reads the clock again. *)
Definition sleep_at (now now' d : Z) : option Z :=
  match checked_add now d with Some dl => Some dl | None => far_future now' end.

(** ** [Timeout] *)

Inductive Elapsed : Type := mkElapsed.

Definition display_elapsed (_ : Elapsed) : string := "deadline elapsed".

(** [Timeout::poll] from the readiness of the operation and then of the timer,
    which is polled only when the operation is pending. *)
Definition timeout_poll {S T} (op : nprog S (option T)) (timer : nprog S bool)
    : nprog S (option (result Elapsed T)) :=
  x ← op;
  match x with
  | Some output => mret (Some (Ok output))
  | None =>
      ready ← timer;
      mret (if (ready : bool) then Some (Err mkElapsed) else None)
  end.
