(* ===== verification/TimerLife.v ===== *)
(** * TimerLife: the timer driver among its clients

    The step relation of one [TimerDriver]: its loop, whose critical sections the
    driver's task executes one by one, against futures that are created, polled and
    dropped, notifications in flight, the clock, and shutdown; and its invariant. *)

From Stdlib Require Import ZArith Lia Sorting.Sorted.
From stdpp Require Import base gmap sets list strings.
From S2P Require Import Prelude Errors Ffi Timer.

Open Scope Z_scope.

(** ** The system *)

(** Where the driver's task is in [TimerDriver::run]. *)
Inductive TPc : Type :=
| AtTop
| Waking (wait : option Z) (ws : list Waker)
| Checking (wait : option Z)
| Deciding (wait : option Z)
| Parked (wait : option Z)
| Resuming
| LoopReturned
| LoopRetired
| TDead.

Record TSys : Type := mkTSys {
  t : TState;
  th : nhistory;
  pc : TPc;
  clock : Z;
  since : Z;                        (* the clock read by the last [collect] *)
  in_flight : nat;                  (* calls of [notify] that are due *)
  sleeps : gmap TimerRef Sleep      (* the live [Sleep] futures *)
}.

Section System.
Context `{codes : NosvCodes} (o : noracle).

(** The state after a critical section, where [f] says how the rest goes on. *)
Definition after {A} (x : TSys) (y : outcome A * TState * nhistory) (f : A -> TSys -> TSys) : TSys :=
  let '(r, s, h) := y in
  let x' := mkTSys s h (pc x) (clock x) (since x) (in_flight x) (sleeps x) in
  match r with
  | Done a => f a x'
  | Panicked _ => x'
  | _ => mkTSys s h TDead (clock x) (since x) (in_flight x) (sleeps x)
  end.

Definition run_on {A} (m : nprog TState A) (x : TSys) := m o (t x) (th x).

Definition goto (p : TPc) (x : TSys) : TSys :=
  mkTSys (t x) (th x) p (clock x) (since x) (in_flight x) (sleeps x).
Definition set_clock (c : Z) (x : TSys) : TSys :=
  mkTSys (t x) (th x) (pc x) c (since x) (in_flight x) (sleeps x).
Definition set_since (c : Z) (x : TSys) : TSys :=
  mkTSys (t x) (th x) (pc x) (clock x) c (in_flight x) (sleeps x).
Definition set_in_flight (n : nat) (x : TSys) : TSys :=
  mkTSys (t x) (th x) (pc x) (clock x) (since x) n (sleeps x).
Definition set_sleeps (m : gmap TimerRef Sleep) (x : TSys) : TSys :=
  mkTSys (t x) (th x) (pc x) (clock x) (since x) (in_flight x) m.
Definition owe_notify (due : bool) (x : TSys) : TSys :=
  set_in_flight (if due then S (in_flight x) else in_flight x) x.

Inductive tstep : TSys -> TSys -> Prop :=
(* the environment; polls and drops of one future are sequential *)
| ts_tick x c : clock x <= c -> tstep x (set_clock c x)
| ts_create x r dl :
    states (t x) !! r = None ->
    tstep x (after x (run_on (sleep_until dl r) x) (fun sl x => set_sleeps (<[ r := sl ]> (sleeps x)) x))
| ts_poll x r sl cx hd :
    pc x <> TDead -> sleeps x !! r = Some sl ->
    tstep x (after x (run_on (sleep_poll (clock x) cx hd sl) x) (fun '(due, sl') x =>
      set_sleeps (<[ r := sl' ]> (sleeps x)) (owe_notify (default false due) x)))
| ts_drop x r sl :
    pc x <> TDead -> sleeps x !! r = Some sl ->
    tstep x (after x (run_on (sleep_drop sl) x) (fun due x =>
      set_sleeps (delete r (sleeps x)) (owe_notify due x)))
| ts_notify x n :
    pc x <> TDead -> in_flight x = S n ->
    tstep x (after x (run_on notify x) (fun _ x => set_in_flight n x))
| ts_shutdown x :
    pc x <> TDead ->
    tstep x (after x (run_on (modify (set_shutdown true)) x) (fun _ x => owe_notify true x))
(* the driver's task *)
| ts_collect x :
    pc x = AtTop ->
    tstep x (after x (run_on (collect (clock x)) x) (fun '(wait, ws) x =>
      goto (Waking wait ws) (set_since (clock x) x)))
| ts_wake x wait w ws :
    pc x = Waking wait (w :: ws) ->
    tstep x (after x (run_on (wake_waiter w) x) (fun _ x => goto (Waking wait ws) x))
| ts_woken x wait :
    pc x = Waking wait [] -> tstep x (goto (Checking wait) x)
| ts_check x wait :
    pc x = Checking wait ->
    tstep x (after x (run_on check_shutdown x) (fun (stop : bool) x =>
      goto (if stop then LoopReturned else Deciding wait) x))
| ts_decide x wait :
    pc x = Deciding wait ->
    tstep x (after x (run_on (decide_park wait) x) (fun (should_wait : bool) x =>
      goto (if should_wait then Parked wait else AtTop) x))
| ts_park x wait :
    pc x = Parked wait -> tstep x (after x (run_on (park wait) x) (fun _ x => goto Resuming x))
| ts_resume x :
    pc x = Resuming -> tstep x (after x (run_on resumed x) (fun _ x => goto AtTop x))
| ts_retire x pointer :
    pc x = LoopReturned -> graw (t x) = Some pointer ->
    tstep x (after x (run_on (timer_completed_callback (Npos pointer)) x) (fun _ x =>
      goto LoopRetired x)).

(** The state in which [TimerDriver::start] leaves the driver. *)
Definition tinit (raw : RawTask) (x : TSys) : Prop :=
  states (t x) = ∅ /\ timers (t x) = [] /\ shutdown (t x) = false /\ graw (t x) = Some raw /\
  gphase (t x) = TRunning /\ notified (t x) = false /\ completed (t x) = false /\
  1 <= next_timer (t x) /\
  pc x = AtTop /\ in_flight x = 0%nat /\ sleeps x = ∅ /\ since x <= clock x /\
  count (destroys raw) (th x) = 0%nat /\ no_use_after_destroy raw (th x).
End System.

(** ** The invariant *)

Definition sorted (heap : list TimerEntry) : Prop :=
  StronglySorted (fun a b => deadline a <= deadline b) heap.

Definition park_phase (wait : option Z) : DriverPark :=
  if wait then TDeadlineWait else TPaused.

(** The wait covers every entry: nothing is due before it ends. *)
Definition covered (wait : option Z) (since : Z) (heap : list TimerEntry) : Prop :=
  forall e, e ∈ heap -> match wait with None => False | Some d => since + d <= deadline e end.

(** The driver will look again before it parks, or someone is about to tell it. *)
Definition alerted (x : TSys) : Prop := notified (t x) = true \/ (0 < in_flight x)%nat.

Section Inv.
Context `{codes : NosvCodes} (o : noracle) (raw : RawTask).

Definition gate_inv (x : TSys) : Prop :=
  match pc x with
  | AtTop | Waking _ _ | Checking _ | Deciding _ =>
      graw (t x) = Some raw /\ gphase (t x) = TRunning
  | Parked wait =>
      graw (t x) = Some raw /\
      (gphase (t x) = park_phase wait /\ notified (t x) = false \/
       gphase (t x) = TWakePending /\ notified (t x) = true)
  | Resuming =>
      graw (t x) = Some raw /\
      (gphase (t x) = TPaused \/ gphase (t x) = TDeadlineWait \/ gphase (t x) = TWakePending)
  | LoopReturned => graw (t x) = Some raw /\ gphase (t x) = TTerminal /\ shutdown (t x) = true
  | LoopRetired => graw (t x) = None /\ gphase (t x) = TDestroyed
  | TDead => True
  end.

Definition is_retired (p : TPc) : bool := match p with LoopRetired => true | _ => false end.

Definition native_inv (x : TSys) : Prop :=
  no_use_after_destroy raw (th x) /\
  (pc x <> TDead -> count (destroys raw) (th x) = (if is_retired (pc x) then 1 else 0)%nat).

Definition wait_inv (x : TSys) : Prop :=
  match pc x with
  | Waking wait _ | Checking wait =>
      (shutdown (t x) = false -> covered wait (since x) (timers (t x)) \/ alerted x)
  | Deciding wait | Parked wait =>
      (covered wait (since x) (timers (t x)) \/ alerted x) /\ (shutdown (t x) = true -> alerted x)
  | _ => True
  end.

(** A live future: never fired early, and still on the heap while it waits. *)
Definition sleep_inv (x : TSys) : Prop :=
  forall r sl, sleeps x !! r = Some sl -> sleep_state sl = r /\
    exists ts, states (t x) !! r = Some ts /\
      (fired ts = true -> sleep_deadline sl <= clock x) /\
      (cancelled ts = true -> shutdown (t x) = true) /\
      (sleep_driver sl = true -> fired ts = false -> cancelled ts = false ->
        exists e, e ∈ timers (t x) /\ entry_state e = r /\ deadline e = sleep_deadline sl).

Definition heap_inv (x : TSys) : Prop :=
  sorted (timers (t x)) /\
  forall e, e ∈ timers (t x) -> exists ts, states (t x) !! entry_state e = Some ts /\
    (cancelled ts = true \/
     exists sl, sleeps x !! entry_state e = Some sl /\ deadline e = sleep_deadline sl /\
       sleep_driver sl = true).

End Inv.

(** ** The heap *)

Lemma heap_push_elem e x heap : x ∈ heap_push e heap <-> x = e \/ x ∈ heap.
Proof.
  induction heap as [|y heap IH]; cbn; [set_solver|].
  destruct (cmp_entry e y); set_solver.
Qed.

Lemma cmp_entry_order e x :
  (cmp_entry e x = Lt -> deadline x <= deadline e) /\
  (cmp_entry e x <> Lt -> deadline e <= deadline x).
Proof.
  unfold cmp_entry. destruct (Z.compare_spec (deadline x) (deadline e)); split; intros; try done; lia.
Qed.

Lemma heap_push_sorted e heap : sorted heap -> sorted (heap_push e heap).
Proof.
  unfold sorted. induction 1 as [|x heap Hs IH Hx]; cbn; [by repeat constructor|].
  destruct (cmp_entry_order e x) as [H1 H2].
  assert (forall y, y ∈ x :: heap -> deadline x <= deadline y) as Hle.
  { intros y. rewrite elem_of_cons. intros [->|Hy]; [lia|]. by apply (proj1 (Forall_forall _ _) Hx). }
  destruct (cmp_entry e x) eqn:Hc.
  - constructor; [by constructor|]. apply Forall_forall. intros y Hy. specialize (Hle y Hy).
    specialize (H2 ltac:(done)). lia.
  - constructor; [done|]. apply Forall_forall. intros y. rewrite heap_push_elem.
    intros [->|Hy]; [auto|]. by apply (proj1 (Forall_forall _ _) Hx).
  - constructor; [by constructor|]. apply Forall_forall. intros y Hy. specialize (Hle y Hy).
    specialize (H2 ltac:(done)). lia.
Qed.

Lemma sorted_tail e heap : sorted (e :: heap) ->
  sorted heap /\ forall x, x ∈ heap -> deadline e <= deadline x.
Proof. intros H. inversion_clear H as [|?? Hs Hf]. split; [done|]. by apply Forall_forall. Qed.

(** ** Firing *)

(** What [collect] may do to one timer state. *)
Definition advanced (ts ts' : TimerState) : Prop :=
  ts' = ts \/ cancelled ts = false /\ ts' = set_waiter None (set_fired ts).

Lemma advanced_trans a b c : advanced a b -> advanced b c -> advanced a c.
Proof. intros [->|[Ha ->]] [->|[Hb ->]]; unfold advanced; auto. Qed.

Record fire_post (now : Z) (st : gmap TimerRef TimerState) (heap : list TimerEntry)
    (st' : gmap TimerRef TimerState) (rest : list TimerEntry) (ws : list Waker) : Prop := {
  fire_sorted : sorted rest;
  fire_sub x : x ∈ rest -> x ∈ heap /\ now < deadline x;
  fire_rest x : x ∈ heap -> now < deadline x -> x ∈ rest;
  fire_none r : st !! r = None -> st' !! r = None;
  fire_some r ts : st !! r = Some ts -> exists ts', st' !! r = Some ts' /\ advanced ts ts' /\
    (ts' <> ts -> exists e, e ∈ heap /\ entry_state e = r /\ deadline e <= now);
  fire_fired e ts : e ∈ heap -> deadline e <= now -> st !! entry_state e = Some ts ->
    cancelled ts = false ->
    st' !! entry_state e = Some (set_waiter None (set_fired ts)) /\
    (forall w, waiter ts = Some w -> w ∈ ws);
  fire_wakers w : w ∈ ws -> exists e ts, e ∈ heap /\ deadline e <= now /\
    st !! entry_state e = Some ts /\ cancelled ts = false /\ waiter ts = Some w
}.

Lemma fire_post_skip now st e heap st' rest ws :
  deadline e <= now ->
  (forall ts, st !! entry_state e = Some ts -> cancelled ts = true) ->
  fire_post now st heap st' rest ws -> fire_post now st (e :: heap) st' rest ws.
Proof.
  intros Hd He [H1 H2 H3 H4 H5 H6 H7]. split; try done.
  - intros x Hx. destruct (H2 x Hx). split; [by right|done].
  - intros x. rewrite elem_of_cons. intros [->|Hx] Hdx; [lia|auto].
  - intros r ts Hr. destruct (H5 r ts Hr) as (ts' & Ht & Ha & Hx). exists ts'. split_and!; try done.
    intros Hne. destruct (Hx Hne) as (x & Hx' & ?). exists x. split; [by right|done].
  - intros x ts. rewrite elem_of_cons. intros [->|Hx] Hdx Hst Hc; [|by apply H6].
    by rewrite (He _ Hst) in Hc.
  - intros w Hw. destruct (H7 w Hw) as (x & ts & Hx & ?). exists x, ts. split; [by right|done].
Qed.

Lemma advanced_fired ts ts' :
  cancelled ts = false -> advanced (set_waiter None (set_fired ts)) ts' ->
  ts' = set_waiter None (set_fired ts).
Proof. by intros Hc [->|[_ ->]]. Qed.

Lemma fire_post_take now st e heap ts st' rest ws :
  deadline e <= now -> st !! entry_state e = Some ts -> cancelled ts = false ->
  fire_post now (<[entry_state e := set_waiter None (set_fired ts)]> st) heap st' rest ws ->
  fire_post now st (e :: heap) st' rest
    (match waiter ts with Some w => w :: ws | None => ws end).
Proof.
  intros Hd He Hc [H1 H2 H3 H4 H5 H6 H7].
  destruct (H5 (entry_state e) (set_waiter None (set_fired ts)))
    as (te & Hte & Hae & _); [by rewrite lookup_insert_eq|].
  apply advanced_fired in Hae; [|done]. subst te.
  split; try done.
  - intros x Hx. destruct (H2 x Hx). split; [by right|done].
  - intros x. rewrite elem_of_cons. intros [->|Hx] Hdx; [lia|auto].
  - intros r Hr. destruct (decide (r = entry_state e)) as [->|Hne]; [by rewrite He in Hr|].
    apply H4. by rewrite lookup_insert_ne.
  - intros r tr Hr. destruct (decide (r = entry_state e)) as [->|Hne].
    + assert (tr = ts) as -> by congruence. eexists. split; [exact Hte|]. split; [by right|].
      intros _. exists e. split_and!; [left|done|done].
    + destruct (H5 r tr) as (ts' & Ht & Ha & Hx); [by rewrite lookup_insert_ne|].
      exists ts'. split_and!; try done. intros Hn. destruct (Hx Hn) as (x & ? & ?).
      exists x. split; [by right|done].
  - intros x tx. rewrite elem_of_cons. intros Hx Hdx Hst Hcx.
    destruct (decide (entry_state x = entry_state e)) as [Heq|Hne].
    + rewrite Heq in *. assert (tx = ts) as -> by congruence. split; [done|].
      intros w Hw. rewrite Hw. left.
    + destruct Hx as [->|Hx]; [done|].
      destruct (H6 x tx Hx Hdx) as [Ht Hw]; [by rewrite lookup_insert_ne|done|].
      split; [done|]. intros w Hww. destruct (waiter ts); [right|]; auto.
  - intros w Hw.
    assert (waiter ts = Some w \/ w ∈ ws) as [Hw'|Hw'].
    { destruct (waiter ts); [rewrite elem_of_cons in Hw; destruct Hw as [->|]|]; auto. }
    + exists e, ts. split_and!; [left|done..].
    + destruct (H7 w Hw') as (x & tx & Hx & Hdx & Hst & Hcx & Hwx).
      destruct (decide (entry_state x = entry_state e)) as [Heq|Hne].
      * rewrite Heq, lookup_insert_eq in Hst. by injection Hst as <-.
      * rewrite lookup_insert_ne in Hst by done. exists x, tx. split_and!; [by right|done..].
Qed.

Lemma fire_due_post now heap : forall st,
  sorted heap ->
  let '(st', rest, ws) := fire_due now st heap in fire_post now st heap st' rest ws.
Proof.
  induction heap as [|e heap IH]; intros st Hs; cbn.
  { split; try done; try set_solver. intros r ts Hr. exists ts. split_and!; [done|by left|done]. }
  destruct (sorted_tail _ _ Hs) as [Hs' Hle].
  destruct (Z.leb_spec (deadline e) now) as [Hd|Hd]; cycle 1.
  { assert (forall x, x ∈ e :: heap -> now < deadline x) as Hall.
    { intros x. rewrite elem_of_cons. intros [->|Hx]; [lia|]. specialize (Hle _ Hx). lia. }
    split; try done.
    - intros x Hx. auto.
    - intros r ts Hr. exists ts. split_and!; [done|by left|done].
    - intros x ts Hx Hdx. specialize (Hall _ Hx). lia.
    - set_solver. }
  destruct (st !! entry_state e) as [ts|] eqn:He; [destruct (cancelled ts) eqn:Hc|].
  - specialize (IH st Hs'). destruct (fire_due now st heap) as [[st' rest] ws].
    apply fire_post_skip; try done. intros ? [= <-]%(eq_trans (eq_sym He)). done.
  - specialize (IH (<[entry_state e := set_waiter None (set_fired ts)]> st) Hs').
    destruct (fire_due _ _ heap) as [[st' rest] ws]. by apply fire_post_take.
  - specialize (IH st Hs'). destruct (fire_due now st heap) as [[st' rest] ws].
    apply fire_post_skip; try done. intros ? ?. congruence.
Qed.

Lemma prune_post st heap :
  sorted heap -> sorted (prune st heap) /\
  (forall x, x ∈ prune st heap -> x ∈ heap) /\
  (forall x, x ∈ heap -> x ∈ prune st heap \/
     exists ts, st !! entry_state x = Some ts /\ cancelled ts = true).
Proof.
  induction heap as [|e heap IH]; intros Hs; cbn; [split_and!; try done; auto|].
  destruct (sorted_tail _ _ Hs) as [Hs' _].
  destruct (st !! entry_state e) as [ts|] eqn:He; [destruct (cancelled ts) eqn:Hc|];
    [|split_and!; auto..].
  destruct (IH Hs') as (H1 & H2 & H3). split_and!; [done| |].
  - intros x Hx. right. auto.
  - intros x. rewrite elem_of_cons. intros [->|Hx]; [right; by exists ts|auto].
Qed.

(** ** Preservation, step by step *)

Section Steps.
Context `{codes : NosvCodes} (o : noracle) (raw : RawTask).
Implicit Types (x : TSys).

(** The parts of the invariant about futures and the heap, which the driver's
    bookkeeping does not touch. *)
Definition client_inv (s : TState) (c : Z) (m : gmap TimerRef Sleep) : Prop :=
  sleep_inv (mkTSys s [] AtTop c 0 0 m) /\ heap_inv (mkTSys s [] AtTop c 0 0 m).

Lemma client_inv_iff x : client_inv (t x) (clock x) (sleeps x) <-> sleep_inv x /\ heap_inv x.
Proof. done. Qed.

(** One timer state changes without losing its future. *)
Lemma client_update s c m r sl ts ts' :
  client_inv s c m -> m !! r = Some sl -> states s !! r = Some ts ->
  (fired ts = true -> fired ts' = true) -> (fired ts' = true -> sleep_deadline sl <= c) ->
  cancelled ts' = cancelled ts ->
  client_inv (set_states (<[ r := ts' ]> (states s)) s) c m.
Proof.
  intros [Hsl Hh] Hm Hr Hf Hf' Hc. split.
  - intros r0 sl0 H0. destruct (Hsl r0 sl0 H0) as (Href & t0 & Ht0 & H1 & H2 & H3). cbn in *.
    split; [done|]. destruct (decide (r0 = r)) as [->|Hne].
    + assert (sl0 = sl) as -> by congruence. assert (t0 = ts) as -> by congruence.
      exists ts'. rewrite lookup_insert_eq. split_and!; try done; [by rewrite Hc|].
      intros Hd Hf0 Hc0. apply H3; [done| |by rewrite <- Hc].
      destruct (fired ts); [|done]. by rewrite Hf in Hf0.
    + exists t0. by rewrite lookup_insert_ne.
  - destruct Hh as [Hs Hh]. split; [done|]. intros e He. destruct (Hh e He) as (t0 & Ht0 & H0).
    cbn in *. destruct (decide (entry_state e = r)) as [<-|Hne].
    + assert (t0 = ts) as -> by congruence. exists ts'.
      rewrite lookup_insert_eq. split; [done|]. by rewrite Hc.
    + exists t0. by rewrite lookup_insert_ne.
Qed.

(** A pending future registers: its entry joins the heap. *)
Lemma client_push s c m r sl id ts :
  client_inv s c m -> m !! r = Some sl -> states s !! r = Some ts ->
  client_inv (set_timers (heap_push (mkEntry (sleep_deadline sl) id r) (timers s)) s) c
    (<[ r := mkSleep (sleep_deadline sl) (sleep_state sl) true ]> m).
Proof.
  intros [Hsl [Hs Hh]] Hm Hr. split.
  - intros r0 sl0; cbn. destruct (decide (r0 = r)) as [->|Hne].
    + rewrite lookup_insert_eq. intros [= <-]. cbn.
      destruct (Hsl r sl Hm) as (Href & t0 & Ht0 & H1 & H2 & H3). split; [done|].
      exists t0. split_and!; try done. intros _ _ _. eexists. split; [apply heap_push_elem; by left|].
      done.
    + rewrite lookup_insert_ne by done. intros H0.
      destruct (Hsl r0 sl0 H0) as (Href & t0 & Ht0 & H1 & H2 & H3). split; [done|].
      exists t0. split_and!; try done. intros Hd Hf Hc. destruct (H3 Hd Hf Hc) as (e & He & ?).
      exists e. split; [apply heap_push_elem; by right|done].
  - split; [by apply heap_push_sorted|]. intros e. cbn. rewrite heap_push_elem. intros [->|He]; cbn.
    + exists ts. split; [done|]. right. eexists. by rewrite lookup_insert_eq.
    + destruct (Hh e He) as (t0 & Ht0 & H0). exists t0. split; [done|].
      destruct H0 as [H0|(sl0 & Hsl0 & Hd & Hr0)]; [by left|right].
      destruct (decide (entry_state e = r)) as [<-|Hne].
      * assert (sl0 = sl) as -> by (cbn in Hsl0; congruence).
        eexists. by rewrite lookup_insert_eq.
      * exists sl0. by rewrite lookup_insert_ne.
Qed.

(** A future is cancelled: its entry, if any, becomes stale. *)
Lemma client_cancel s c m r m' :
  client_inv s c m ->
  (forall r0, r0 <> r -> m' !! r0 = m !! r0) ->
  (forall sl, m' !! r = Some sl -> shutdown s = true /\ exists sl0, m !! r = Some sl0 /\
     sleep_deadline sl = sleep_deadline sl0 /\ sleep_state sl = sleep_state sl0) ->
  client_inv (set_states (alter cancel_timer r (states s)) s) c m'.
Proof.
  intros [Hsl [Hs Hh]] Hm Hr. split.
  - intros r0 sl0 H0. destruct (decide (r0 = r)) as [->|Hne].
    + destruct (Hr sl0 H0) as (Hsd & sl1 & Hsl1 & Hd1 & Hr1).
      destruct (Hsl r sl1 Hsl1) as (Href & t0 & Ht0 & H1 & H2 & H3). cbn in *.
      split; [congruence|]. exists (cancel_timer t0). rewrite lookup_alter_eq, Ht0, Hd1. done.
    + rewrite Hm in H0 by done. destruct (Hsl r0 sl0 H0) as (Href & t0 & Ht0 & H1). cbn in *.
      split; [done|]. exists t0. by rewrite lookup_alter_ne.
  - split; [done|]. intros e He. destruct (Hh e He) as (t0 & Ht0 & H0). cbn in *.
    destruct (decide (entry_state e = r)) as [<-|Hne].
    + exists (cancel_timer t0). rewrite lookup_alter_eq, Ht0. split; [done|]. by left.
    + exists t0. rewrite lookup_alter_ne by done. split; [done|]. by rewrite Hm.
Qed.

Lemma client_inv_ext s s' c m :
  states s' = states s -> timers s' = timers s -> (shutdown s = true -> shutdown s' = true) ->
  client_inv s c m -> client_inv s' c m.
Proof.
  intros H1 H2 H3 [Hsl Hh]. split.
  - intros r sl Hr. destruct (Hsl r sl Hr) as (? & ts & Hts & ? & Hc & ?). cbn in *.
    split; [done|]. exists ts. rewrite H1, H2. auto 8.
  - unfold heap_inv. cbn. by rewrite H1, H2.
Qed.

Lemma client_clock s c c' m : c <= c' -> client_inv s c m -> client_inv s c' m.
Proof.
  intros Hc [Hsl Hh]. split; [|done]. intros r sl Hr.
  destruct (Hsl r sl Hr) as (? & ts & Hts & Hf & Hrest). split; [done|]. exists ts.
  split; [done|]. split; [|done]. intros Hfi. specialize (Hf Hfi). cbn in *. lia.
Qed.

Lemma client_create s c m r dl :
  states s !! r = None -> client_inv s c m ->
  client_inv (set_states (<[ r := mkTimer false false None ]> (states s)) s) c
    (<[ r := mkSleep dl r false ]> m).
Proof.
  intros Hr [Hsl [Hs Hh]]. split.
  - intros r0 sl0; cbn. destruct (decide (r0 = r)) as [->|Hne].
    + rewrite lookup_insert_eq. intros [= <-]. split; [done|]. eexists. cbn.
      by rewrite lookup_insert_eq.
    + rewrite lookup_insert_ne by done. intros H0. destruct (Hsl r0 sl0 H0) as (? & ts & Hts & ?).
      split; [done|]. exists ts. cbn in *. by rewrite lookup_insert_ne.
  - split; [done|]. intros e He. destruct (Hh e He) as (ts & Hts & H0). cbn in *.
    assert (entry_state e <> r) by congruence. exists ts. by rewrite !lookup_insert_ne by done.
Qed.

Lemma advanced_fields ts ts' : advanced ts ts' ->
  cancelled ts' = cancelled ts /\ (fired ts' = false -> ts' = ts).
Proof. by intros [->|[Hc ->]]. Qed.

(** What a pass over a live heap leaves to its clients. *)
Lemma client_collect s c m st' rest ws :
  client_inv s c m -> fire_post c (states s) (timers s) st' rest ws ->
  client_inv (set_timers (prune st' rest) (set_states st' s)) c m.
Proof.
  intros [Hsl [Hs Hh]] Hp. destruct (prune_post st' rest (fire_sorted _ _ _ _ _ _ Hp)) as (Hp1 & Hp2 & Hp3).
  split.
  - intros r sl Hr. destruct (Hsl r sl Hr) as (Href & ts & Hts & H1 & H2 & H3). cbn in *.
    split; [done|]. destruct (fire_some _ _ _ _ _ _ Hp r ts Hts) as (ts' & Hts' & Ha & Hx).
    exists ts'. split; [done|]. destruct (advanced_fields _ _ Ha) as [Hca Hfa]. split_and!.
    + intros Hf. destruct Ha as [->|[Hc ->]]; [auto|].
      destruct (decide (set_waiter None (set_fired ts) = ts)) as [Heq|Hne].
      { rewrite Heq in Hf. auto. }
      destruct (Hx Hne) as (e & He & <- & Hd). destruct (Hh e He) as (t0 & Ht0 & H0). cbn in *.
      assert (t0 = ts) as -> by congruence.
      destruct H0 as [H0|(sl0 & Hsl0 & Hd0 & _)]; [congruence|].
      assert (sl0 = sl) as -> by congruence. lia.
    + rewrite Hca. auto.
    + intros Hd Hf Hc. rewrite Hca in Hc. pose proof (Hfa Hf) as ->.
      destruct (H3 Hd Hf Hc) as (e & He & <- & Hde). exists e. split; [|done].
      destruct (Z.le_gt_cases (deadline e) c) as [Hle|Hgt].
      { destruct (fire_fired _ _ _ _ _ _ Hp e ts He Hle Hts Hc) as [Hst _].
        rewrite Hst in Hts'. injection Hts' as Heq. by rewrite <- Heq in Hf. }
      destruct (Hp3 e) as [|(t0 & Ht0 & Hc0)]; [by apply (fire_rest _ _ _ _ _ _ Hp)|done|].
      assert (t0 = ts) as -> by congruence. congruence.
  - split; [done|]. intros e He. cbn in *. apply Hp2 in He.
    destruct (fire_sub _ _ _ _ _ _ Hp e He) as [He' Hd].
    destruct (Hh e He') as (ts & Hts & H0). cbn in *.
    destruct (fire_some _ _ _ _ _ _ Hp _ ts Hts) as (ts' & Hts' & Ha & _).
    exists ts'. split; [done|]. by rewrite (proj1 (advanced_fields _ _ Ha)).
Qed.

Lemma collect_covered c st st' rest ws heap :
  fire_post c st heap st' rest ws ->
  covered (option_map (fun e => Z.max 0 (deadline e - c)) (head (prune st' rest))) c (prune st' rest).
Proof.
  intros Hp. destruct (prune_post st' rest (fire_sorted _ _ _ _ _ _ Hp)) as (Hp1 & Hp2 & _).
  destruct (prune st' rest) as [|e heap'] eqn:He; intros x Hx; [by apply elem_of_nil in Hx|].
  destruct (sorted_tail _ _ Hp1) as [_ Hle]. cbn.
  assert (c < deadline e) by (apply (fire_sub _ _ _ _ _ _ Hp), Hp2; left).
  apply elem_of_cons in Hx as [->|Hx]; [lia|]. specialize (Hle _ Hx). lia.
Qed.

Lemma cancel_all_lookup heap st r ts : st !! r = Some ts ->
  exists ts', cancel_all heap st !! r = Some ts' /\ (ts' = ts \/ ts' = cancel_timer ts) /\
    ((exists e, e ∈ heap /\ entry_state e = r) -> ts' = cancel_timer ts).
Proof.
  intros Hr. induction heap as [|e heap IH]; cbn.
  { exists ts. split_and!; [done|by left|]. intros (e & He & _). by apply elem_of_nil in He. }
  destruct IH as (ts' & Hts' & Hor & Hin). unfold cancel_all in Hts'. destruct (decide (entry_state e = r)) as [Heq|Hne].
  - exists (cancel_timer ts). rewrite Heq, lookup_alter_eq, Hts'. cbn.
    split_and!; [|by right|done]. by destruct Hor as [->| ->].
  - exists ts'. rewrite lookup_alter_ne by done. split_and!; try done.
    intros (x & Hx & Hxr). apply Hin. apply elem_of_cons in Hx as [->|Hx]; [done|by exists x].
Qed.

Lemma client_drain s c m :
  shutdown s = true -> client_inv s c m ->
  client_inv (set_timers [] (set_states (cancel_all (timers s) (states s)) s)) c m.
Proof.
  intros Hsd [Hsl [Hs Hh]]. split.
  - intros r sl Hr. destruct (Hsl r sl Hr) as (Href & ts & Hts & H1 & H2 & H3). cbn in *.
    split; [done|]. destruct (cancel_all_lookup (timers s) _ r ts Hts) as (ts' & Hts' & Hor & Hin).
    exists ts'. split_and!; try done; [by destruct Hor as [->| ->]|].
    intros Hd Hf Hc. destruct Hor as [->| ->]; [|done].
    destruct (H3 Hd Hf Hc) as (e & He & Her & _). rewrite (Hin ltac:(by exists e)) in Hc. done.
  - split; [constructor|]. intros e He. by apply elem_of_nil in He.
Qed.

Definition tinv (x : TSys) : Prop :=
  native_inv raw x /\
  (pc x <> TDead ->
    gate_inv raw x /\ wait_inv x /\ client_inv (t x) (clock x) (sleeps x) /\ since x <= clock x).

Lemma tinit_inv x : tinit raw x -> tinv x.
Proof.
  intros (H1 & H2 & H3 & H4 & H5 & H6 & H7 & H8 & H9 & H10 & H11 & H12 & H13 & H14).
  split; [split; [done|]; intros _; by rewrite H13, H9|]. intros _.
  unfold gate_inv, wait_inv. rewrite H9. split_and!; try done. split; [|split].
  - intros r sl Hr. cbn in Hr. rewrite H11 in Hr. by rewrite lookup_empty in Hr.
  - cbn. rewrite H2. constructor.
  - intros e He. cbn in He. rewrite H2 in He. by apply elem_of_nil in He.
Qed.

Lemma native_same x y :
  native_inv raw x -> th y = th x ->
  pc y = TDead \/ is_retired (pc y) = is_retired (pc x) /\ pc x <> TDead ->
  native_inv raw y.
Proof.
  intros [Hn Hd] Hh Hpc. unfold native_inv. rewrite Hh. split; [done|].
  intros Hy. destruct Hpc as [Hy' | [-> Hx]]; [done|auto].
Qed.

Lemma native_add x y e :
  native_inv raw x -> pc x <> TDead -> th y = e :: th x ->
  destroys raw e = false -> uses raw e = false \/ is_retired (pc x) = false ->
  pc y = TDead \/ is_retired (pc y) = is_retired (pc x) ->
  native_inv raw y.
Proof.
  intros [Hn Hd] Hx Hh Hde Hu Hpc. unfold native_inv. rewrite Hh. cbn. rewrite Hde. cbn.
  specialize (Hd Hx). split.
  - split; [|done]. destruct Hu as [->|Hr]; [done|]. intros _. by rewrite Hd, Hr.
  - intros Hy. destruct Hpc as [Hy' | ->]; done.
Qed.

Lemma alerted_in_flight x n : in_flight x = S n -> alerted x.
Proof. intros Hn. right. lia. Qed.

Lemma inv_clock x c : tinv x -> clock x <= c -> tinv (set_clock c x).
Proof.
  intros [Hn Hi] Hc. split; [done|]. intros Hpc. destruct (Hi Hpc) as (Hg & Hw & Hcl & Hs).
  split_and!; try done; [by eapply client_clock|cbn; lia].
Qed.

Lemma inv_create x r dl : tinv x -> states (t x) !! r = None ->
  tinv (after x (run_on o (sleep_until dl r) x) (fun sl x => set_sleeps (<[ r := sl ]> (sleeps x)) x)).
Proof.
  intros [Hn Hi] Hr. split; [done|]. intros Hpc. destruct (Hi Hpc) as (Hg & Hw & Hcl & Hs).
  split_and!; try done. by apply client_create.
Qed.

(** Refreshing the waiter of a pending poll. *)
Lemma refresh_waiter s h r ts cx :
  states s !! r = Some ts ->
  exists ts', fired ts' = fired ts /\ cancelled ts' = cancelled ts /\ waiter ts' = Some cx /\
    forall Q : outcome bool -> TState -> nhistory -> Prop,
      Q (Done false) (set_states (<[ r := ts' ]> (states s)) s) h ->
      run_post (_ ← (if match waiter ts with None => true | Some old => negb (will_wake old cx) end
                     then modify (set_states (<[ r := set_waiter (Some cx) ts ]> (states s)))
                     else mret tt); mret false) o s h Q.
Proof.
  intros Hts.
  destruct (match waiter ts with None => true | Some old => negb (will_wake old cx) end) eqn:Hst.
  - by exists (set_waiter (Some cx) ts).
  - exists ts. split; [done|]. split; [done|]. split.
    { destruct (waiter ts); [|done]. unfold will_wake in Hst.
      by apply negb_false_iff, bool_decide_eq_true in Hst as ->. }
    intros Q HQ. unfold run_post. run_unfold. rewrite insert_id in HQ by done. by destruct s.
Qed.

(** A poll leaves the gate and the history alone, refreshes or registers its own
    timer, and owes a notification exactly when it pushed an entry. *)
Lemma sleep_poll_post s c m h r sl cx hd :
  client_inv s c m -> m !! r = Some sl ->
  run_post (sleep_poll c cx hd sl) o s h (fun q s' h' =>
    h' = h /\ graw s' = graw s /\ gphase s' = gphase s /\ notified s' = notified s /\
    shutdown s' = shutdown s /\
    match q with
    | Done (due, sl') => client_inv s' c (<[ r := sl' ]> m) /\
        (default false due = false -> timers s' = timers s)
    | Panicked _ => client_inv s' c m /\ timers s' = timers s
    | Aborted _ => True
    | Blocked _ => False
    end).
Proof.
  intros Hcl Hm. pose proof Hcl as [Hsl _].
  destruct (Hsl r sl Hm) as (<- & ts & Hts & Hf & Hc & He).
  cbn in Hts, Hf, Hc, He. set (r := sleep_state sl) in *.
  unfold sleep_poll, sleep_check. apply run_post_bind. apply run_post_bind. unfold run_post at 1. cbn.
  fold r. rewrite Hts.
  destruct (fired ts || (sleep_deadline sl <=? c)) eqn:Hready; cbn.
  - unfold run_post. run_unfold. refine (conj eq_refl (conj eq_refl (conj eq_refl (conj eq_refl (conj eq_refl _))))). split; [|done].
    rewrite (insert_id m r sl) by done. eapply client_update; try done. cbn. intros _.
    apply orb_true_iff in Hready as [Hfi|Hle%Z.leb_le]; auto.
  - apply orb_false_iff in Hready as [Hnf Hdl].
    destruct (refresh_waiter s h r ts cx Hts) as (ts' & Hf' & Hc' & _ & HQ).
    apply HQ. clear HQ. cbn [then_post].
    assert (client_inv (set_states (<[ r := ts' ]> (states s)) s) c m) as Hcl'.
    { eapply client_update; try done; rewrite Hf'; [done|]. auto. }
    destruct (sleep_driver sl) eqn:Hdrv.
    { apply run_post_ret. refine (conj eq_refl (conj eq_refl (conj eq_refl (conj eq_refl (conj eq_refl _))))).
      split; [|done]. by rewrite (insert_id m). }
    destruct hd; [refine (conj eq_refl (conj eq_refl (conj eq_refl (conj eq_refl (conj eq_refl _))))); exact (conj Hcl' eq_refl)..|].
    apply run_post_bind. unfold run_post at 1, register_entry. run_unfold.
    destruct (next_timer s =? u64_max); cbn; [done|].
    destruct (shutdown s) eqn:Hsd; cbn;
      refine (conj eq_refl (conj eq_refl (conj eq_refl (conj eq_refl (conj _ _)))));
      [done| |done|]; (split; [|done]).
    + eapply client_inv_ext with (s := set_states (alter cancel_timer r _) _);
        [..|eapply client_cancel; [exact Hcl'| |]]; try done.
      * intros r0 Hne. by rewrite lookup_insert_ne.
      * rewrite lookup_insert_eq. intros sl0 [= <-]. split; [done|]. by exists sl.
    + eapply client_inv_ext; [..|eapply client_push; [exact Hcl'|done|]]; try done.
      cbn. by rewrite lookup_insert_eq.
Qed.

(** The driver's own wait is not disturbed by a change that keeps the heap, or that
    owes a notification. *)
Lemma wait_inv_ext x y :
  wait_inv x -> pc y = pc x -> since y = since x ->
  (timers (t y) = timers (t x) \/ alerted y) ->
  (shutdown (t y) = shutdown (t x) \/ alerted y) -> (alerted x -> alerted y) ->
  wait_inv y.
Proof.
  unfold wait_inv. intros Hw -> -> Ht Hs Ha.
  destruct (pc x); try done; destruct Ht as [-> | Ht]; destruct Hs as [-> | Hs]; naive_solver.
Qed.

Lemma gate_inv_ext x y :
  gate_inv raw x -> pc y = pc x -> graw (t y) = graw (t x) -> gphase (t y) = gphase (t x) ->
  notified (t y) = notified (t x) -> (shutdown (t x) = true -> shutdown (t y) = true) ->
  gate_inv raw y.
Proof.
  unfold gate_inv. intros Hg -> -> -> -> Hs. destruct (pc x); try done. naive_solver.
Qed.

Lemma inv_poll x r sl cx hd :
  tinv x -> pc x <> TDead -> sleeps x !! r = Some sl ->
  tinv (after x (run_on o (sleep_poll (clock x) cx hd sl) x) (fun '(due, sl') x =>
    set_sleeps (<[ r := sl' ]> (sleeps x)) (owe_notify (default false due) x))).
Proof.
  intros [Hn Hi] Hpc Hr. destruct (Hi Hpc) as (Hg & Hw & Hcl & Hs).
  pose proof (sleep_poll_post (t x) (clock x) (sleeps x) (th x) r sl cx hd Hcl Hr) as Hp.
  unfold run_post, run_on in *.
  destruct (sleep_poll (clock x) cx hd sl o (t x) (th x)) as [[q s'] h']. cbn in Hp.
  destruct Hp as (-> & H1 & H2 & H3 & H4 & Hq).
  destruct q as [[due sl']|e|e|e]; cbn; [| | |done].
  - destruct Hq as [Hcl' Ht]. split; [apply (native_same x); [done|done|by right]|]. intros _.
    split; [apply (gate_inv_ext x); try done; cbn; congruence|].
    split; [|by split].
    apply (wait_inv_ext x); try done; cbn.
    + destruct (default false due) eqn:Hd; cbn; [right; by right; cbn; lia|left; auto].
    + by left.
    + intros [Ha|Ha]; [left; cbn; by rewrite H3|right; destruct (default false due); cbn; lia].
  - destruct Hq as [Hcl' Ht]. split; [apply (native_same x); [done|done|by right]|]. intros _.
    split; [apply (gate_inv_ext x); try done; cbn; congruence|].
    split; [|by split].
    apply (wait_inv_ext x); try done; cbn; [by left..|].
    intros [Ha|Ha]; [left; cbn; by rewrite H3|by right].
  - split; [|done]. apply (native_same x); [done|done|by left].
Qed.

Lemma inv_drop x r sl :
  tinv x -> pc x <> TDead -> sleeps x !! r = Some sl ->
  tinv (after x (run_on o (sleep_drop sl) x) (fun due x =>
    set_sleeps (delete r (sleeps x)) (owe_notify due x))).
Proof.
  intros [Hn Hi] Hpc Hr. destruct (Hi Hpc) as (Hg & Hw & Hcl & Hs).
  pose proof Hcl as [Hsl _]. destruct (Hsl r sl Hr) as (Href & _).
  unfold run_on, sleep_drop. run_unfold.
  split; [apply (native_same x); [done|done|by right]|]. intros _.
  split; [by apply (gate_inv_ext x)|]. split.
  { apply (wait_inv_ext x); try done; cbn; [by left..|].
    intros [Ha|Ha]; [by left|right; destruct (sleep_driver sl); cbn; lia]. }
  split; [|done]. cbn. rewrite Href. apply (client_cancel _ _ (sleeps x)); [done| |].
  - intros r0 Hne. by rewrite lookup_delete_ne.
  - intros sl0. by rewrite lookup_delete_eq.
Qed.

(** [notify] always leaves the driver alerted; it submits only while the driver
    parks, in the mode of the park. *)
Lemma notify_cases s h :
  graw s = Some raw \/ gphase s = TDestroyed ->
  match notify o s h with
  | (Done _, s', h') =>
      notified s' = true /\ graw s' = graw s /\ states s' = states s /\ timers s' = timers s /\
      shutdown s' = shutdown s /\
      match gphase s with
      | TPaused => gphase s' = TWakePending /\ exists r, h' = (NSubmit raw SUBMIT_NONE, r) :: h
      | TDeadlineWait =>
          gphase s' = TWakePending /\ exists r, h' = (NSubmit raw SUBMIT_DEADLINE_WAKE, r) :: h
      | p => gphase s' = p /\ h' = h
      end
  | (Aborted _, s', h') =>
      (gphase s = TPaused \/ gphase s = TDeadlineWait) /\
      exists f r, h' = (NSubmit raw f, r) :: h /\ from_code (rcode r) <> Ok tt
  | _ => False
  end.
Proof.
  intros Hraw. unfold notify, submit_deadline_wake, submit, submit_with, Ffi.status. run_unfold.
  destruct (gphase s) eqn:Hp; cbn; try done;
    (destruct Hraw as [Hraw | ?]; [|done]); cbn; rewrite ?Hraw; cbn;
    match goal with |- context [o h ?c] => destruct (from_code (rcode (o h c))) as [[]|] eqn:He end;
    cbn; rewrite ?Hraw; try (split_and!; try done; by eexists);
    (split; [auto|]); eexists; eexists; (split; [done|]); by rewrite He.
Qed.

Lemma inv_notify x n :
  tinv x -> pc x <> TDead -> in_flight x = S n ->
  tinv (after x (run_on o notify x) (fun _ x => set_in_flight n x)).
Proof.
  intros [Hn Hi] Hpc Hfl. destruct (Hi Hpc) as (Hg & Hw & Hcl & Hs).
  assert (graw (t x) = Some raw \/ gphase (t x) = TDestroyed) as Hraw.
  { unfold gate_inv in Hg. destruct (pc x); naive_solver. }
  assert (gphase (t x) = TPaused \/ gphase (t x) = TDeadlineWait -> is_retired (pc x) = false) as Hret.
  { unfold gate_inv in Hg. intros Hp. destruct (pc x); try done. destruct Hg as [_ Hg].
    rewrite Hg in Hp. by destruct Hp. }
  pose proof (notify_cases (t x) (th x) Hraw) as Hc. unfold run_on.
  destruct (notify o (t x) (th x)) as [[[] s'] h']; cbn; try done.
  - destruct Hc as (H1 & H2 & H3 & H4 & H5 & H6). split.
    { destruct (gphase (t x)); destruct H6 as [_ Hh]; try (apply (native_same x); [done|done|by right]);
        destruct Hh as [r Hh]; (eapply native_add; [done|done|exact Hh|done|by right; auto|by right]). }
    intros _. split.
    { unfold gate_inv in *. cbn. rewrite H2, H5.
      destruct (pc x) as [|w ws|w|w|w| | | |]; try done;
        try (destruct Hg as [Hgr Hg]; rewrite Hg in H6; destruct H6; by split);
        try (destruct Hg as (Hgr & Hg & Hg'); rewrite Hg in H6; by destruct H6).
      - destruct Hg as [Hgr [[Hg Hg']|[Hg Hg']]]; rewrite Hg in H6; [|by destruct H6; auto].
        split; [done|]. right. by destruct w, H6.
      - destruct Hg as [Hgr Hg]. split; [done|]. destruct Hg as [Hg|[Hg|Hg]]; rewrite Hg in H6;
          destruct H6; auto. }
    split; [|split; [eapply client_inv_ext; [done|done| |exact Hcl]; cbn; congruence|done]].
    apply (wait_inv_ext x); try done; [by left..|]. intros _. by left.
  - destruct Hc as (Hp & f & r & -> & _). split; [|done].
    eapply native_add; [done|done|done|done|right; auto|by left].
Qed.

Lemma inv_shutdown x :
  tinv x -> pc x <> TDead ->
  tinv (after x (run_on o (modify (set_shutdown true)) x) (fun _ x => owe_notify true x)).
Proof.
  intros [Hn Hi] Hpc. destruct (Hi Hpc) as (Hg & Hw & Hcl & Hs).
  assert (forall y, in_flight y = S (in_flight x) -> alerted y) as Ha by (right; lia).
  split; [apply (native_same x); [done|done|by right]|]. intros _.
  split; [by apply (gate_inv_ext x)|]. split; [|split; [by apply (client_inv_ext (t x))|done]].
  apply (wait_inv_ext x); try done; [by left|right; by apply Ha|intros _; by apply Ha].
Qed.

Lemma collect_live c s h :
  shutdown s = false ->
  let '(st', rest, ws) := fire_due c (states s) (timers s) in
  collect c o s h =
    (Done (option_map (fun e => Z.max 0 (deadline e - c)) (head (prune st' rest)), ws),
     set_timers (prune st' rest) (set_states st' s), h).
Proof.
  intros Hs. unfold collect. run_unfold. rewrite Hs.
  destruct (fire_due c (states s) (timers s)) as [[st' rest] ws]. done.
Qed.

Lemma inv_collect x :
  tinv x -> pc x = AtTop ->
  tinv (after x (run_on o (collect (clock x)) x) (fun '(wait, ws) x =>
    goto (Waking wait ws) (set_since (clock x) x))).
Proof.
  intros [Hn Hi] Hpc. destruct (Hi ltac:(by rewrite Hpc)) as (Hg & Hw & Hcl & Hs).
  unfold run_on. destruct (shutdown (t x)) eqn:Hsd.
  - unfold collect. run_unfold. rewrite Hsd. cbn.
    split; [apply (native_same x); [done|done|right; by rewrite Hpc]|]. intros _.
    split; [unfold gate_inv in *; by rewrite Hpc in Hg|]. split; [|split].
    + unfold wait_inv; cbn. by rewrite Hsd.
    + by apply client_drain.
    + cbn; lia.
  - pose proof (collect_live (clock x) (t x) (th x) Hsd) as Hc.
    pose proof (fire_due_post (clock x) (timers (t x)) (states (t x)) (proj1 (proj2 Hcl))) as Hf.
    destruct (fire_due _ _ _) as [[st' rest] ws]. rewrite Hc.
    split; [apply (native_same x); [done|done|right; by rewrite Hpc]|]. intros _.
    split; [unfold gate_inv in *; by rewrite Hpc in Hg|]. split; [|split].
    + intros _. left. by eapply collect_covered.
    + by eapply client_collect.
    + cbn; lia.
Qed.

Lemma inv_wake x wait w ws :
  tinv x -> pc x = Waking wait (w :: ws) ->
  tinv (after x (run_on o (wake_waiter w) x) (fun _ x => goto (Waking wait ws) x)).
Proof.
  intros [Hn Hi] Hpc. destruct (Hi ltac:(by rewrite Hpc)) as (Hg & Hw & Hcl & Hs).
  split.
  { eapply native_add; [done|by rewrite Hpc|done|done|by left|by rewrite Hpc; right]. }
  intros _. unfold gate_inv, wait_inv in *. rewrite Hpc in Hg, Hw. done.
Qed.

Lemma inv_woken x wait : tinv x -> pc x = Waking wait [] -> tinv (goto (Checking wait) x).
Proof.
  intros [Hn Hi] Hpc. destruct (Hi ltac:(by rewrite Hpc)) as (Hg & Hw & Hcl & Hs).
  split; [apply (native_same x); [done|done|right; by rewrite Hpc]|].
  intros _. unfold gate_inv, wait_inv in *. by rewrite Hpc in Hg, Hw.
Qed.

Lemma inv_check x wait :
  tinv x -> pc x = Checking wait ->
  tinv (after x (run_on o check_shutdown x) (fun (stop : bool) x =>
    goto (if stop then LoopReturned else Deciding wait) x)).
Proof.
  intros [Hn Hi] Hpc. destruct (Hi ltac:(by rewrite Hpc)) as (Hg & Hw & Hcl & Hs).
  unfold run_on, check_shutdown. run_unfold. unfold gate_inv, wait_inv in *. rewrite Hpc in Hg, Hw.
  destruct (shutdown (t x)) eqn:Hsd; cbn;
    (split; [apply (native_same x); [done|done|right; by rewrite Hpc]|]); intros _; cbn.
  - split_and!; try done; by destruct Hg.
  - rewrite Hsd. split; [done|]. split; [split; [by apply Hw|done]|]. done.
Qed.

Lemma inv_decide x wait :
  tinv x -> pc x = Deciding wait ->
  tinv (after x (run_on o (decide_park wait) x) (fun (should_wait : bool) x =>
    goto (if should_wait then Parked wait else AtTop) x)).
Proof.
  intros [Hn Hi] Hpc. destruct (Hi ltac:(by rewrite Hpc)) as (Hg & Hw & Hcl & Hs).
  unfold run_on, decide_park. run_unfold. unfold gate_inv, wait_inv in *. rewrite Hpc in Hg, Hw.
  destruct (notified (t x)) eqn:Hno; cbn;
    (split; [apply (native_same x); [done|done|right; by rewrite Hpc]|]); intros _; cbn.
  - destruct Hg. by split_and!.
  - destruct Hg as [Hg _]. split; [split; [done|by left]|]. split; [|done].
    destruct Hw as [Hw1 Hw2]. split; [|intros Hsd; destruct (Hw2 Hsd) as [Ha|Ha]; [congruence|by right]].
    destruct Hw1 as [Hw1|[Ha|Ha]]; [by left|congruence|right; by right].
Qed.

Lemma inv_park x wait :
  tinv x -> pc x = Parked wait ->
  tinv (after x (run_on o (park wait) x) (fun _ x => goto Resuming x)).
Proof.
  intros [Hn Hi] Hpc. destruct (Hi ltac:(by rewrite Hpc)) as (Hg & Hw & Hcl & Hs).
  unfold run_on, park, waitfor, pause, Ffi.status. run_unfold.
  unfold gate_inv in Hg; rewrite Hpc in Hg.
  destruct wait as [d|]; cbn; destruct (from_code _) as [[]|]; cbn;
    (split; [eapply native_add; [done|by rewrite Hpc|done|done|by left|by rewrite Hpc; auto]|]);
    try done; intros _; (split; [|by split]);
    unfold gate_inv; cbn; destruct Hg as [Hgr [[Hp _]|[Hp _]]]; cbn in Hp; auto.
Qed.

Lemma inv_resume x :
  tinv x -> pc x = Resuming -> tinv (after x (run_on o resumed x) (fun _ x => goto AtTop x)).
Proof.
  intros [Hn Hi] Hpc. destruct (Hi ltac:(by rewrite Hpc)) as (Hg & Hw & Hcl & Hs).
  split; [apply (native_same x); [done|done|right; by rewrite Hpc]|]. intros _.
  unfold gate_inv in *; rewrite Hpc in Hg. destruct Hg as [Hg _]. by split_and!.
Qed.

Lemma inv_retire x p :
  tinv x -> pc x = LoopReturned -> graw (t x) = Some p ->
  tinv (after x (run_on o (timer_completed_callback (Npos p)) x) (fun _ x => goto LoopRetired x)).
Proof.
  intros [Hn Hi] Hpc Hp. destruct (Hi ltac:(by rewrite Hpc)) as (Hg & Hw & Hcl & Hs).
  unfold gate_inv in Hg; rewrite Hpc in Hg. destruct Hg as (Hgr & Hph & _).
  assert (p = raw) as -> by congruence. destruct Hn as [Hn Hd].
  specialize (Hd ltac:(by rewrite Hpc)). rewrite Hpc in Hd. cbn in Hd.
  unfold run_on, timer_completed_callback, timer_owner, timer_retire, metadata, destroy, Ffi.status.
  run_unfold. destruct (rptr _); cbn; [split; [|done]; split; [by split|done]|].
  rewrite Hph, Hgr. cbn. destruct (from_code _) as [[]|]; cbn;
    (split; [split; [by split|]|]); try done; intros _; cbn; rewrite ?bool_decide_true, ?Hd by done;
    done.
Qed.

Lemma tstep_inv x y : tinv x -> tstep o x y -> tinv y.
Proof.
  intros Hi Hstep. destruct Hstep.
  - by apply inv_clock.
  - by apply inv_create.
  - by apply inv_poll.
  - by apply inv_drop.
  - by apply inv_notify.
  - by apply inv_shutdown.
  - by apply inv_collect.
  - by eapply inv_wake.
  - by apply inv_woken.
  - by apply inv_check.
  - by apply inv_decide.
  - by apply inv_park.
  - by apply inv_resume.
  - by apply inv_retire.
Qed.

Lemma timer_reachable_inv x : reachable (tinit raw) (tstep o) x -> tinv x.
Proof. apply reachable_invariant; [apply tinit_inv|apply tstep_inv]. Qed.
End Steps.
