(* ===== verification/TimerSpec.v ===== *)
(** * TimerSpec: what timers guarantee

    The properties of the timer driver and of [Sleep], from the invariant of
    [TimerLife], each with an evaluated witness. *)

From Stdlib Require Import ZArith Lia.
From stdpp Require Import base gmap sets list strings.
From S2P Require Import Prelude Errors Ffi Timer TimerLife.

Open Scope Z_scope.

(** ** A concrete run

    A timer for instant 100 is registered at instant 10; the driver parks for it,
    and fires it at instant 150. *)
Module Sample.
#[local] Existing Instance sample_codes.

Definition raw : RawTask := 1%positive.
Definition t0 : TState := mkT ∅ [] false (Some raw) TRunning false 1 false.
Definition start : TSys := mkTSys t0 [(NSubmit raw SUBMIT_NONE, Resp 0 0)] AtTop 10 0 0 ∅.

Definition created : TSys :=
  after start (run_on accepting (sleep_until 100 5%N) start)
    (fun sl x => set_sleeps (<[ 5%N := sl ]> (sleeps x)) x).
Definition polled : TSys :=
  after created (run_on accepting (sleep_poll 10 7%N HandleRunning (mkSleep 100 5%N false)) created)
    (fun '(due, sl') x => set_sleeps (<[ 5%N := sl' ]> (sleeps x)) (owe_notify (default false due) x)).
Definition collected (x : TSys) : TSys :=
  after x (run_on accepting (collect (clock x)) x)
    (fun '(wait, ws) x => goto (Waking wait ws) (set_since (clock x) x)).
Definition woken_all (wait : option Z) (x : TSys) : TSys := goto (Checking wait) x.
Definition checked (wait : option Z) (x : TSys) : TSys :=
  after x (run_on accepting check_shutdown x)
    (fun (stop : bool) x => goto (if stop then LoopReturned else Deciding wait) x).
Definition decided (wait : option Z) (x : TSys) : TSys :=
  after x (run_on accepting (decide_park wait) x)
    (fun (should_wait : bool) x => goto (if should_wait then Parked wait else AtTop) x).
Definition notified_by (n : nat) (x : TSys) : TSys :=
  after x (run_on accepting notify x) (fun _ x => set_in_flight n x).

(** The driver collects after the registration, and the notification arrives
    before it parks; it goes round once more and parks. *)
Definition c1 : TSys := collected polled.
Definition n1 : TSys := notified_by 0%nat c1.
Definition d1 : TSys := decided (Some 90) (checked (Some 90) (woken_all (Some 90) n1)).
Definition c2 : TSys := collected d1.
Definition parked : TSys := decided (Some 90) (checked (Some 90) (woken_all (Some 90) c2)).

Definition reached (x : TSys) : Prop := reachable (tinit raw) (tstep accepting) x.

Lemma start_reached : reached start.
Proof.
  apply reach_init. unfold tinit. cbn. by split_and!.
Qed.

Lemma polled_reached : reached polled.
Proof.
  apply reach_step with (a := created).
  - apply reach_step with (a := start); [apply start_reached|].
    apply (ts_create accepting start 5%N 100). reflexivity.
  - apply (ts_poll accepting created 5%N (mkSleep 100 5%N false) 7%N HandleRunning);
      [discriminate|reflexivity].
Qed.

(** A pass with nobody to wake, from the top of the loop to the gate section. *)
Lemma pass_reached wait x :
  reached x -> pc x = AtTop -> pc (collected x) = Waking wait [] ->
  pc (checked wait (woken_all wait (collected x))) = Deciding wait ->
  reached (decided wait (checked wait (woken_all wait (collected x)))).
Proof.
  intros Hx H1 H2 H3. eapply reach_step; [|by apply ts_decide].
  eapply reach_step; [|by apply ts_check]. eapply reach_step; [|by apply ts_woken].
  eapply reach_step; [exact Hx|by apply ts_collect].
Qed.

Lemma parked_reached : reached parked.
Proof.
  apply (pass_reached (Some 90) d1); try reflexivity.
  eapply reach_step; [|by apply ts_decide]. eapply reach_step; [|by apply ts_check].
  eapply reach_step; [|by apply ts_woken].
  eapply reach_step; [|by apply (ts_notify accepting c1 0%nat)].
  eapply reach_step; [apply polled_reached|by apply ts_collect].
Qed.

Definition late : TSys := set_clock 150 polled.
Lemma late_reached : reached late.
Proof. eapply reach_step; [apply polled_reached|]. apply ts_tick. vm_compute. discriminate. Qed.
End Sample.

(** ** Properties *)

Section Claims.
Context `{codes : NosvCodes} (o : noracle) (raw : RawTask).

(** C27. No notification of the timer driver is lost, and its park covers every
    deadline: in every reachable state in which it is parked, with no call of [notify]
    still on its way, either a wake of the park was already submitted, or the park is the
    one the gate says, no shutdown was requested, an indefinite pause means that no
    registered timer is left to fire, and the duration it passed to nOS-V is at most the
    time that was left, at the clock reading of its last pass, to the deadline of every
    registered timer that has not fired.  (The library counts the duration from the call,
    which comes after that reading, so a timer can be late by the time the driver spent
    in between; the theorem bounds what the code asks for.) *)
Theorem park_covers_deadlines (x : TSys) (wait : option Z) :
  reachable (tinit raw) (tstep o) x -> pc x = Parked wait -> in_flight x = 0%nat ->
  gphase (t x) = TWakePending /\ notified (t x) = true \/
  gphase (t x) = park_phase wait /\ shutdown (t x) = false /\
  forall r sl ts, sleeps x !! r = Some sl -> states (t x) !! r = Some ts ->
    sleep_driver sl = true -> fired ts = false ->
    match wait with None => False | Some d => d <= sleep_deadline sl - since x end.
Proof.
  intros [_ Hi]%timer_reachable_inv Hpc Hfl. destruct (Hi ltac:(by rewrite Hpc)) as (Hg & Hw & [Hsl _] & _).
  unfold gate_inv, wait_inv in *. rewrite Hpc in Hg, Hw.
  destruct Hg as [_ [[Hph Hno]|Hp]]; [right|by left].
  assert (~ alerted x) as Hna by (intros [Ha|Ha]; [congruence|lia]).
  destruct Hw as [[Hcov|] Hsd]; [|done]. split; [done|].
  assert (shutdown (t x) = false) as Hs by (destruct (shutdown (t x)); [by destruct Hna; auto|done]).
  split; [done|]. intros r sl ts Hr Hts Hd Hf.
  destruct (Hsl r sl Hr) as (_ & ts' & Hts' & _ & Hc & He). cbn in *.
  assert (ts' = ts) as -> by congruence.
  destruct He as (e & He & _ & <-); [done|done| |]. 2: { specialize (Hcov e He). destruct wait; [lia|done]. }
  destruct (cancelled ts); [|done]. rewrite Hc in Hs; done.
Qed.

(** A [Sleep] is ready exactly from its deadline on: polled in any reachable
    state, a live sleep completes if and only if the monotonic clock has reached its
    deadline, whatever the driver and other timers did before; otherwise it is
    registered and waits with the given waker (or it is refused because there is no
    running runtime). *)
Theorem sleep_ready_iff_due (x : TSys) (r : TimerRef) (sl : Sleep) (cx : Waker) :
  reachable (tinit raw) (tstep o) x -> pc x <> TDead -> sleeps x !! r = Some sl ->
  run_post (sleep_poll (clock x) cx HandleRunning sl) o (t x) (th x) (fun q s' _ =>
    match q with
    | Done (None, _) => sleep_deadline sl <= clock x
    | Done (Some _, sl') => clock x < sleep_deadline sl /\ sleep_driver sl' = true /\
        exists ts, states s' !! r = Some ts /\ fired ts = false /\
          (waiter ts = Some cx \/ shutdown s' = true /\ cancelled ts = true)
    | Aborted _ => next_timer (t x) = u64_max
    | _ => False
    end).
Proof.
  intros [_ Hi]%timer_reachable_inv Hpc Hr. destruct (Hi Hpc) as (_ & _ & [Hsl _] & _).
  destruct (Hsl r sl Hr) as (<- & ts & Hts & Hf & Hc & _). cbn in Hts, Hf, Hc.
  unfold sleep_poll, sleep_check. apply run_post_bind, run_post_bind. unfold run_post at 1. cbn.
  rewrite Hts. destruct (fired ts || (sleep_deadline sl <=? clock x)) eqn:Hready; cbn.
  { unfold run_post; run_unfold. apply orb_true_iff in Hready as [Hfi|Hle%Z.leb_le]; auto. }
  apply orb_false_iff in Hready as [Hnf Hdl%Z.leb_gt].
  destruct (refresh_waiter o (t x) (th x) _ ts cx Hts) as (ts' & Hf' & Hc' & Hw' & HQ).
  rewrite Hnf in Hf'.
  apply HQ. cbn [then_post]. destruct (sleep_driver sl) eqn:Hdrv.
  { apply run_post_ret. split_and!; try done. exists ts'. cbn. rewrite lookup_insert_eq.
    split_and!; auto. }
  apply run_post_bind. unfold run_post at 1, register_entry. run_unfold.
  destruct (Z.eqb_spec (next_timer (t x)) u64_max); cbn; [done|].
  destruct (shutdown (t x)) eqn:Hsd; cbn; (split_and!; try done).
  - exists (cancel_timer ts'). rewrite lookup_alter_eq, lookup_insert_eq. by split_and!; auto.
  - exists ts'. rewrite lookup_insert_eq. by split_and!; auto.
Qed.

(** C30. A pass fires exactly what is due: when the driver looks at its heap at
    instant [clock] in any reachable state that is not shutting down, afterwards
    every registered live sleep is marked fired if its deadline has come and
    untouched if it has not; the wakers it then calls are exactly the waiters of the
    sleeps that became due; and the wait it computes covers everything left. *)
Theorem pass_fires_exactly_due (x : TSys) :
  reachable (tinit raw) (tstep o) x -> pc x = AtTop -> shutdown (t x) = false ->
  run_post (collect (clock x)) o (t x) (th x) (fun q s' h' => h' = th x /\
    exists wait ws, q = Done (wait, ws) /\ covered wait (clock x) (timers s') /\
    (forall r sl ts, sleeps x !! r = Some sl -> states (t x) !! r = Some ts ->
       sleep_driver sl = true -> fired ts = false ->
       states s' !! r = Some (if sleep_deadline sl <=? clock x
                              then set_waiter None (set_fired ts) else ts)) /\
    (forall w, w ∈ ws -> exists r sl ts, sleeps x !! r = Some sl /\ states (t x) !! r = Some ts /\
       sleep_deadline sl <= clock x /\ waiter ts = Some w) /\
    (forall r sl ts w, sleeps x !! r = Some sl -> states (t x) !! r = Some ts ->
       sleep_driver sl = true -> fired ts = false -> sleep_deadline sl <= clock x ->
       waiter ts = Some w -> w ∈ ws)).
Proof.
  intros [_ Hi]%timer_reachable_inv Hpc Hsd.
  destruct (Hi ltac:(by rewrite Hpc)) as (_ & _ & [Hsl [Hs Hh]] & _). cbn in *.
  assert (forall r sl ts, sleeps x !! r = Some sl -> states (t x) !! r = Some ts ->
    sleep_driver sl = true -> fired ts = false -> cancelled ts = false /\
    exists e, e ∈ timers (t x) /\ entry_state e = r /\ deadline e = sleep_deadline sl) as Hreg.
  { intros r sl ts Hr Hts Hd Hf. destruct (Hsl r sl Hr) as (_ & ts' & Hts' & _ & Hc & He). cbn in *.
    assert (ts' = ts) as -> by congruence.
    assert (cancelled ts = false) as Hc' by (destruct (cancelled ts); [by rewrite Hc in Hsd|done]).
    auto. }
  unfold run_post. pose proof (collect_live o (clock x) (t x) (th x) Hsd) as Hc.
  pose proof (fire_due_post (clock x) (timers (t x)) (states (t x)) Hs) as Hp.
  destruct (fire_due _ _ _) as [[st' rest] ws]. rewrite Hc. clear Hc. cbn. split; [done|].
  eexists _, ws. split; [done|]. split; [by eapply collect_covered|]. split_and!.
  - intros r sl ts Hr Hts Hd Hf. destruct (Hreg r sl ts Hr Hts Hd Hf) as (Hc & e & He & <- & <-).
    destruct (Z.leb_spec (deadline e) (clock x)) as [Hle|Hgt];
      [by apply (fire_fired _ _ _ _ _ _ Hp e ts)|].
    destruct (fire_some _ _ _ _ _ _ Hp _ ts Hts) as (ts' & Hts' & _ & Hne). rewrite Hts'.
    destruct (decide (ts' = ts)) as [->|Hx]; [done|].
    destruct (Hne Hx) as (e' & He' & Heq & Hd').
    destruct (Hh e' He') as (t0 & Ht0 & [Hc0|(sl0 & Hsl0 & Hd0 & _)]); rewrite Heq in *; [congruence|].
    assert (sl0 = sl) as -> by congruence.
    destruct (Hh e He) as (t1 & Ht1 & [Hc1|(sl1 & Hsl1 & Hd1 & _)]); [congruence|].
    assert (sl1 = sl) as -> by congruence. lia.
  - intros w Hw. destruct (fire_wakers _ _ _ _ _ _ Hp w Hw) as (e & ts & He & Hd & Hts & Hc & Hww).
    destruct (Hh e He) as (t0 & Ht0 & [Hc0|(sl0 & Hsl0 & Hd0 & _)]); [congruence|].
    exists (entry_state e), sl0, ts. split_and!; try done. lia.
  - intros r sl ts w Hr Hts Hd Hf Hdl Hww.
    destruct (Hreg r sl ts Hr Hts Hd Hf) as (Hc & e & He & <- & Hde).
    destruct (fire_fired _ _ _ _ _ _ Hp e ts He) as [_ Hin]; [lia|done|done|auto].
Qed.

(** The wake mode matches the park: a notification submits the driver's
    descriptor only while it parks and no wake is pending, exactly once per park,
    with the deadline-wake flag exactly when the park is a deadline wait; in every
    other state it makes no native call.  A refused submission aborts. *)
Theorem notify_matches_park (x : TSys) :
  reachable (tinit raw) (tstep o) x -> pc x <> TDead ->
  run_post notify o (t x) (th x) (fun q s' h' =>
    match q with
    | Done _ =>
        notified s' = true /\
        match pc x with
        | Parked wait =>
            gphase s' = TWakePending /\
            (if notified (t x) then h' = th x
             else exists r, h' = (NSubmit raw (if wait then SUBMIT_DEADLINE_WAKE else SUBMIT_NONE), r)
                                  :: th x)
        | Resuming => True
        | _ => h' = th x /\ gphase s' = gphase (t x)
        end
    | Aborted _ => exists f r, h' = (NSubmit raw f, r) :: th x /\ from_code (rcode r) <> Ok tt
    | _ => False
    end).
Proof.
  intros [_ Hi]%timer_reachable_inv Hpc. destruct (Hi Hpc) as (Hg & _ & _ & _).
  unfold gate_inv in Hg.
  assert (graw (t x) = Some raw \/ gphase (t x) = TDestroyed) as Hraw
    by (destruct (pc x); naive_solver).
  pose proof (notify_cases o raw (t x) (th x) Hraw) as Hc. unfold run_post.
  destruct (notify o (t x) (th x)) as [[[] s'] h']; cbn; try done; [|by destruct Hc].
  destruct Hc as (Hn & _ & _ & _ & _ & Hp). split; [done|].
  destruct (pc x) as [|wait ws|wait|wait|wait| | | |]; try done;
    try (destruct Hg as [_ Hg]; rewrite Hg in *; by destruct Hp);
    try (destruct Hg as (_ & Hg & _); rewrite Hg in *; by destruct Hp).
  destruct Hg as [_ [[Hph Hno]|[Hph Hno]]]; rewrite Hno, ?Hph in *; [|done].
  by destruct wait.
Qed.

(** The driver's descriptor is used safely: in every reachable state it was
    destroyed at most once and never used afterwards, and it is destroyed exactly
    when the driver has retired after its loop returned. *)
Theorem timer_descriptor_safety (x : TSys) :
  reachable (tinit raw) (tstep o) x ->
  no_use_after_destroy raw (th x) /\
  (pc x <> TDead ->
    count (destroys raw) (th x) = (if is_retired (pc x) then 1 else 0)%nat /\
    (pc x = LoopRetired <-> gphase (t x) = TDestroyed)).
Proof.
  intros [[Hn Hd] Hi]%timer_reachable_inv. split; [done|]. intros Hpc. split; [auto|].
  destruct (Hi Hpc) as (Hg & _). unfold gate_inv in Hg.
  destruct (pc x) as [|wait ws|wait|wait|wait| | | |]; try done.
  all: destruct_and?; destruct_or?; destruct_and?; try destruct wait; cbn in *;
    split; intros; try congruence; done.
Qed.
End Claims.

(** Starting the driver is all or nothing: [TimerDriver::start] either leaves
    one new descriptor, created, inspected and submitted once, with the driver in
    the initial state of its protocol, or returns an error with every descriptor it
    created destroyed exactly once as its last use and none retained. *)
Lemma timer_start_contract `{codes : NosvCodes} (o : noracle) (ty : RawTaskType) (h : nhistory) :
  run_post (timer_start ty) o driver_new h (fun r s' h' => exists new, h' = new ++ h /\
    match r with
    | Done (Ok _) => exists raw, count (creates raw) new = 1%nat /\
        calls new = [NCreate ty 8; NMetadata raw; NSubmit raw SUBMIT_NONE] /\
        (forall st, stack new st = Some (RDesc raw :: st)) /\
        forall c, tinit raw (mkTSys s' new AtTop c c 0 ∅)
    | Done (Err _) => all_destroyed new /\ (forall st, stack new st = Some st) /\ graw s' = None /\ completed s' = false
    | _ => False
    end).
Proof.
  unfold timer_start. apply run_post_bind, create_post; cbn [then_post]; set (e1 := (NCreate _ _, _)).
  { intros err Hn Hst. exists [e1]. by split_and!. }
  intros raw Hmade. pose proof Hmade as (Hcr & He1 & _). apply run_post_bind, metadata_post. cbn [then_post]. set (r2 := o _ _).
  set (e2 := (NMetadata raw, r2)).
  assert (Forall configures [e2]) as He2 by (by repeat constructor).
  destruct (rptr r2) as [|mptr]; cbn [non_null ok_or].
  { apply run_post_bind, status_post. cbn [then_post]. set (r3 := o _ _). apply run_post_ret.
    exists ((NDestroy raw, r3) :: [] ++ [e2] ++ [e1]). split_and!; try done.
    - apply (created_then_destroyed raw e1 [e2] Hcr He1 He2). by left.
    - intros st. by apply stack_destroyed, (stack_over [e2]), configures_stackless. }
  do 2 (eapply run_post_bind_eq; [reflexivity|]).
  apply run_post_bind, status_post. cbn [then_post]. set (r3 := o _ _).
  destruct (from_code (rcode r3)) as [[]|e] eqn:Hsub.
  - apply run_post_ret. exists ((NSubmit raw SUBMIT_NONE, r3) :: [e2] ++ [e1]). split; [done|].
    exists raw. destruct (created_counts raw e1 [e2] Hcr He1 He2 raw) as (Hc & _ & _).
    split_and!; [|done| |].
    + cbn [count]. by rewrite Hc, bool_decide_true.
    + intros st. apply (stack_over [(NSubmit raw SUBMIT_NONE, r3); e2]); [done|]. by repeat constructor.
    + intros c. unfold tinit. cbn [t th pc in_flight sleeps since clock].
      by split_and!.
  - eapply run_post_bind_eq; [reflexivity|].
    apply run_post_bind, status_post. cbn [then_post]. set (r4 := o _ _).
    eapply run_post_bind_eq; [reflexivity|]. apply run_post_ret.
    exists ((NDestroy raw, r4) :: [(NSubmit raw SUBMIT_NONE, r3)] ++ [e2] ++ [e1]).
    split_and!; try done.
    + apply (created_then_destroyed raw e1 [e2] Hcr He1 He2). right. by eexists.
    + intros st. apply stack_destroyed, (stack_over [(NSubmit raw SUBMIT_NONE, r3); e2]); [done|].
      by repeat constructor.
Qed.

(** ** Witnesses *)

Lemma park_covers_deadlines_witness :
  pc Sample.parked = Parked (Some 90) /\ 90 <= 100 - since Sample.parked.
Proof.
  split; [reflexivity|].
  destruct (@park_covers_deadlines sample_codes accepting Sample.raw Sample.parked (Some 90)
              Sample.parked_reached eq_refl eq_refl) as [[H _]|(_ & _ & H)].
  - vm_compute in H. discriminate.
  - apply (H 5%N (mkSleep 100 5%N true) (mkTimer false false (Some 7%N))); reflexivity.
Defined.

Lemma sleep_ready_iff_due_witness :
  outcome_of (sleep_poll 150 8%N HandleRunning (mkSleep 100 5%N true) accepting
    (t Sample.late) (th Sample.late)) = Done (None, mkSleep 100 5%N true) /\ 100 <= 150.
Proof.
  split; [reflexivity|].
  assert (pc Sample.late <> TDead) as Hpc by (vm_compute; discriminate).
  exact (@sleep_ready_iff_due sample_codes accepting Sample.raw Sample.late 5%N (mkSleep 100 5%N true)
           8%N Sample.late_reached Hpc eq_refl).
Defined.

Lemma pass_fires_exactly_due_witness :
  let y := collect 150 accepting (t Sample.late) (th Sample.late) in
  outcome_of y = Done (None, [7%N]) /\ states (state_of y) !! 5%N = Some (mkTimer true false None).
Proof.
  pose proof (@pass_fires_exactly_due sample_codes accepting Sample.raw Sample.late
                Sample.late_reached eq_refl eq_refl) as H.
  unfold run_post in H. destruct H as (_ & wait & ws & _ & _ & H & _).
  specialize (H 5%N (mkSleep 100 5%N true) (mkTimer false false (Some 7%N))).
  split; [vm_compute; reflexivity|]. revert H. vm_compute. intros H. apply H; reflexivity.
Defined.

Lemma notify_matches_park_witness :
  exists r, history_of (notify (codes := sample_codes) accepting (t Sample.parked) (th Sample.parked)) =
    (NSubmit Sample.raw SUBMIT_DEADLINE_WAKE, r) :: th Sample.parked.
Proof.
  assert (pc Sample.parked <> TDead) as Hpc by (vm_compute; discriminate).
  pose proof (@notify_matches_park sample_codes accepting Sample.raw Sample.parked
                Sample.parked_reached Hpc) as H.
  revert H. vm_compute. intros (_ & _ & r & H). exists r. exact H.
Defined.

Lemma timer_descriptor_safety_witness :
  count (destroys Sample.raw) (th Sample.parked) = 0%nat.
Proof.
  assert (pc Sample.parked <> TDead) as Hpc by (vm_compute; discriminate).
  destruct (@timer_descriptor_safety sample_codes accepting Sample.raw Sample.parked
              Sample.parked_reached) as (_ & H).
  destruct (H Hpc) as [Hc _]. exact Hc.
Defined.

(** ** A shutdown that skips the cancellation pass *)
Module ShutdownRace.
Definition quiet : TSys := Sample.notified_by 0%nat Sample.polled.
Definition passing : TSys := Sample.collected quiet.
Definition closing : TSys :=
  after passing (run_on accepting (modify (set_shutdown true)) passing) (fun _ x => owe_notify true x).
Definition returned : TSys := Sample.checked (Some 90) (Sample.woken_all (Some 90) closing).
End ShutdownRace.

(** A shutdown may skip the cancellation pass: when shutdown is requested
    after the driver read its heap and before its check after the wakes, the loop
    returns while a registered timer is neither fired nor cancelled and its waker is
    still stored: the concrete run [ShutdownRace] reaches that state. *)
Theorem shutdown_may_skip_cancellation :
  Sample.reached ShutdownRace.returned /\ pc ShutdownRace.returned = LoopReturned /\
  sleeps ShutdownRace.returned !! 5%N = Some (mkSleep 100 5%N true) /\
  states (t ShutdownRace.returned) !! 5%N = Some (mkTimer false false (Some 7%N)).
Proof.
  split; [|by vm_compute].
  eapply reach_step; [|by apply ts_check]. eapply reach_step; [|by apply ts_woken].
  eapply reach_step; [|by apply (ts_shutdown accepting ShutdownRace.passing)].
  eapply reach_step; [|by apply (ts_collect accepting ShutdownRace.quiet)].
  eapply reach_step; [apply Sample.polled_reached|].
  by apply (ts_notify accepting Sample.polled 0%nat).
Qed.
