(* ===== verification/TimerRun.v ===== *)
(** * TimerRun: a timer shutdown ends

    The driver's task on its own, in [TimerDriver::run] order: it takes one step of
    [TimerLife] at a time, and while nobody woke it from a park it takes none.  From
    every state that follows a shutdown request, whatever other threads did since, it
    leaves the loop and retires. *)

From Stdlib Require Import ZArith Lia.
From stdpp Require Import base gmap sets list strings.
From S2P Require Import Prelude Errors Ffi Timer TimerLife TimerSpec.

Open Scope Z_scope.

Section Task.
Context `{codes : NosvCodes} (o : noracle).

(** The task parks and no wake of its park was submitted: nOS-V leaves it asleep (a
    deadline that would end its wait is not counted on). *)
Definition asleep (x : TSys) : bool :=
  match pc x with Parked wait => bool_decide (gphase (t x) = park_phase wait) | _ => false end.

(** The next step of the driver's task; nOS-V calls the completed callback when the run
    callback has returned. *)
Definition task_step (x : TSys) : option TSys :=
  if asleep x then None else
  match pc x with
  | AtTop => Some (after x (run_on o (collect (clock x)) x) (fun '(wait, ws) x =>
      goto (Waking wait ws) (set_since (clock x) x)))
  | Waking wait (w :: ws) => Some (after x (run_on o (wake_waiter w) x) (fun _ x => goto (Waking wait ws) x))
  | Waking wait [] => Some (goto (Checking wait) x)
  | Checking wait => Some (after x (run_on o check_shutdown x) (fun (stop : bool) x =>
      goto (if stop then LoopReturned else Deciding wait) x))
  | Deciding wait => Some (after x (run_on o (decide_park wait) x) (fun (should_wait : bool) x =>
      goto (if should_wait then Parked wait else AtTop) x))
  | Parked wait => Some (after x (run_on o (park wait) x) (fun _ x => goto Resuming x))
  | Resuming => Some (after x (run_on o resumed x) (fun _ x => goto AtTop x))
  | LoopReturned =>
      match graw (t x) with
      | Some pointer => Some (after x (run_on o (timer_completed_callback (Npos pointer)) x) (fun _ x =>
          goto LoopRetired x))
      | None => None
      end
  | LoopRetired | TDead => None
  end.

Fixpoint task_run (n : nat) (x : TSys) : TSys :=
  match n with
  | O => x
  | S n => match task_step x with Some y => task_run n y | None => x end
  end.

(** [shutdown_and_wait] up to its wait, from any thread. *)
Definition ask_shutdown (x : TSys) : TSys := after x (run_on o request_shutdown x) (fun _ x => x).

(** The data section is still ahead of the task, when its loop has to end. *)
Definition looks_again (p : TPc) : bool :=
  match p with AtTop | Deciding _ | Parked _ | Resuming => true | _ => false end.

Lemma task_step_tstep x y : task_step x = Some y -> tstep o x y.
Proof.
  unfold task_step. destruct (asleep x); [done|].
  destruct (pc x) as [|wait [|w ws]|wait|wait|wait| | | |] eqn:Hpc; try done;
    try (intros [= <-]; solve [by econstructor]).
  destruct (graw (t x)) eqn:Hr; [|done]. intros [= <-]. by apply ts_retire.
Qed.

(** ** What the request leaves behind *)

(** The task cannot park again: it was told, or it is past its last park. *)
Definition told (x : TSys) : Prop :=
  pc x <> TDead -> shutdown (t x) = true /\
  match pc x with
  | Deciding _ | Parked _ => notified (t x) = true
  | _ => True
  end.

(** A retired driver raised its flag. *)
Definition flagged (x : TSys) : Prop := pc x = LoopRetired -> completed (t x) = true.

Definition flags (s : TState) := (shutdown s, notified s, completed s).

Lemma poll_flags c cx hd sl : preserves flags (sleep_poll c cx hd sl).
Proof. unfold sleep_poll, sleep_check, register_entry. preserves_auto; done. Qed.
Lemma collect_flags c : preserves flags (collect c).
Proof. unfold collect. preserves_auto; done. Qed.

(** [notify] leaves the driver notified, and its other flags alone. *)
Lemma notify_flags s h :
  match notify o s h with
  | (Done _, s', _) => flags s' = (shutdown s, true, completed s)
  | (Aborted _, _, _) => True
  | _ => False
  end.
Proof.
  unfold notify, submit_deadline_wake, submit, submit_with, Ffi.status. run_unfold.
  destruct (gphase s); cbn; try done; (destruct (graw s); cbn; [|done]);
    by destruct (from_code _).
Qed.

Lemma told_step x y : told x -> tstep o x y -> told y.
Proof.
  assert (forall x y, told x -> pc y = pc x -> flags (t y) = flags (t x) -> told y) as Hsame.
  { intros x0 y0 H Hp [= E1 E2 E3]. unfold told. by rewrite Hp, E1, E2. }
  intros Hx Hstep. destruct Hstep as [x c Hc|x r dl Hr|x r sl cx hd Hpc Hr|x r sl Hpc Hr|x n Hpc Hf|x Hpc
    |x Hpc|x wait w ws Hpc|x wait Hpc|x wait Hpc|x wait Hpc|x wait Hpc|x Hpc|x p Hpc Hr].
  - done.
  - by apply (Hsame x).
  - pose proof (poll_flags (clock x) cx hd sl o (t x) (th x)) as H. unfold run_post, run_on in *.
    destruct (sleep_poll _ _ _ _ _ _ _) as [[q s'] h']. destruct q as [[]| | |]; first [by apply (Hsame x)|by intros []|done].
  - by apply (Hsame x).
  - pose proof (notify_flags (t x) (th x)) as H. unfold run_on.
    destruct (notify o (t x) (th x)) as [[q s'] h']. destruct q; try done. injection H as E1 E2 E3.
    intros Hd. destruct (Hx Hd) as [Hs _]. cbn. rewrite E1, E2. split; [done|]. by destruct (pc x).
  - intros Hd. destruct (Hx Hd) as [_ H]. by split.
  - pose proof (collect_flags (clock x) o (t x) (th x)) as H. unfold run_post, run_on in *.
    destruct (Hx ltac:(by rewrite Hpc)) as [Hs _].
    destruct (collect _ _ _ _) as [[q s'] h']. cbn in H. injection H as E1 E2 E3.
    destruct q as [[]| | |]; try done; intros Hd; cbn; rewrite E1; [done|by rewrite Hpc].
  - destruct (Hx ltac:(by rewrite Hpc)) as [Hs _]. done.
  - destruct (Hx ltac:(by rewrite Hpc)) as [Hs _]. done.
  - destruct (Hx ltac:(by rewrite Hpc)) as [Hs _]. unfold run_on, check_shutdown. run_unfold.
    rewrite Hs. done.
  - destruct (Hx ltac:(by rewrite Hpc)) as [Hs Hn]. rewrite Hpc in Hn. unfold run_on, decide_park. run_unfold.
    rewrite Hn. done.
  - destruct (Hx ltac:(by rewrite Hpc)) as [Hs _]. unfold run_on, park, waitfor, pause, Ffi.status. run_unfold.
    destruct wait; cbn; destruct (from_code _); cbn; try done.
  - destruct (Hx ltac:(by rewrite Hpc)) as [Hs _]. done.
  - destruct (Hx ltac:(by rewrite Hpc)) as [Hs _].
    unfold run_on, timer_completed_callback, timer_owner, timer_retire, metadata, destroy, Ffi.status.
    run_unfold. destruct (rptr _); cbn; [done|]. destruct (gphase (t x)); cbn; try done.
    rewrite Hr. cbn. by destruct (from_code _).
Qed.

Lemma flagged_step x y : flagged x -> tstep o x y -> flagged y.
Proof.
  assert (forall x y, flagged x -> pc y = pc x -> flags (t y) = flags (t x) -> flagged y) as Hsame.
  { intros x0 y0 H Hp [= E1 E2 E3]. unfold flagged. by rewrite Hp, E3. }
  intros Hx Hstep. destruct Hstep as [x c Hc|x r dl Hr|x r sl cx hd Hpc Hr|x r sl Hpc Hr|x n Hpc Hf|x Hpc
    |x Hpc|x wait w ws Hpc|x wait Hpc|x wait Hpc|x wait Hpc|x wait Hpc|x Hpc|x p Hpc Hr].
  - done.
  - by apply (Hsame x).
  - pose proof (poll_flags (clock x) cx hd sl o (t x) (th x)) as H. unfold run_post, run_on in *.
    destruct (sleep_poll _ _ _ _ _ _ _) as [[q s'] h']. destruct q as [[]| | |]; first [by apply (Hsame x)|by intros []|done].
  - by apply (Hsame x).
  - pose proof (notify_flags (t x) (th x)) as H. unfold run_on.
    destruct (notify o (t x) (th x)) as [[q s'] h']. destruct q; try done. injection H as E1 E2 E3.
    unfold flagged. cbn. by rewrite E3.
  - done.
  - unfold run_on. destruct (collect _ _ _ _) as [[q s'] h']; unfold flagged.
    by destruct q as [[]| | |]; cbn; rewrite ?Hpc.
  - done.
  - done.
  - unfold run_on, check_shutdown, flagged. run_unfold. by destruct (shutdown (t x)).
  - unfold run_on, decide_park, flagged. run_unfold. by destruct (notified (t x)).
  - unfold run_on, park, waitfor, pause, Ffi.status, flagged. run_unfold.
    by destruct wait; cbn; destruct (from_code _).
  - done.
  - unfold run_on, timer_completed_callback, timer_owner, timer_retire, metadata, destroy, Ffi.status, flagged.
    run_unfold. destruct (rptr _); cbn; [done|]. destruct (gphase (t x)); cbn; try done.
    rewrite Hr. cbn. by destruct (from_code _).
Qed.
End Task.

(** ** The task alone reaches its end *)

Section Finish.
Context `{codes : NosvCodes} (o : noracle) (raw : RawTask).
Hypothesis Ho : accepts o.

(** Within [b] steps the task retires, with these timers left. *)
Definition finishes (b : nat) (x : TSys) (st : gmap TimerRef TimerState) (tm : list TimerEntry) : Prop :=
  exists n, (n <= b)%nat /\ let y := task_run o n x in
    pc y = LoopRetired /\ completed (t y) = true /\ graw (t y) = None /\
    states (t y) = st /\ timers (t y) = tm.

Definition at_pc (p : TPc) (s : TState) (h : nhistory) (x : TSys) : TSys :=
  mkTSys s h p (clock x) (since x) (in_flight x) (sleeps x).

Lemma finishes_step b x y st tm : task_step o x = Some y -> finishes b y st tm -> finishes (S b) x st tm.
Proof. intros Hs (n & Hn & H). exists (S n). split; [lia|]. cbn. by rewrite Hs. Qed.

Lemma finish_returned x :
  pc x = LoopReturned -> gate_inv raw x -> finishes 1 x (states (t x)) (timers (t x)).
Proof.
  intros Hpc Hg. unfold gate_inv in Hg. rewrite Hpc in Hg. destruct Hg as (Hr & Hp & _).
  eapply finishes_step.
  { unfold task_step, asleep, run_on, timer_completed_callback, timer_owner, timer_retire, metadata, destroy,
      Ffi.status. rewrite Hpc, Hr. run_unfold.
    pose proof (proj2 Ho (th x) raw) as Hm. destruct (rptr _); [by destruct Hm|]. cbn. rewrite Hp, Hr. cbn.
    rewrite (proj1 Ho). reflexivity. }
  by exists 0%nat.
Qed.

Lemma finish_checking x wait :
  pc x = Checking wait -> gate_inv raw x -> told x -> finishes 2 x (states (t x)) (timers (t x)).
Proof.
  intros Hpc Hg Ht. destruct (Ht ltac:(by rewrite Hpc)) as [Hs _].
  unfold gate_inv in Hg. rewrite Hpc in Hg. destruct Hg as [Hr Hp].
  eapply finishes_step.
  { unfold task_step, asleep, run_on, check_shutdown. rewrite Hpc. run_unfold. rewrite Hs. reflexivity. }
  apply (finish_returned (at_pc LoopReturned (set_gphase TTerminal (t x)) (th x) x)); [done|]. by unfold gate_inv.
Qed.

Lemma finish_waking ws : forall x wait,
  pc x = Waking wait ws -> gate_inv raw x -> told x -> finishes (length ws + 3) x (states (t x)) (timers (t x)).
Proof.
  induction ws as [|w ws IH]; intros x wait Hpc Hg Ht; destruct (Ht ltac:(by rewrite Hpc)) as [Hs _];
    pose proof Hg as Hg'; unfold gate_inv in Hg'; rewrite Hpc in Hg'.
  - eapply finishes_step; [unfold task_step, asleep; by rewrite Hpc|].
    by apply (finish_checking (goto (Checking wait) x) wait).
  - eapply finishes_step.
    { unfold task_step, asleep, run_on. rewrite Hpc. unfold wake_waiter, wake. run_unfold. reflexivity. }
    by apply (IH (at_pc (Waking wait ws) (t x) ((WakeCall w, o (th x) (WakeCall w)) :: th x) x) wait).
Qed.

Lemma finish_top x :
  pc x = AtTop -> gate_inv raw x -> told x ->
  finishes 4 x (cancel_all (timers (t x)) (states (t x))) [].
Proof.
  intros Hpc Hg Ht. destruct (Ht ltac:(by rewrite Hpc)) as [Hs _].
  unfold gate_inv in Hg. rewrite Hpc in Hg.
  eapply finishes_step.
  { unfold task_step, asleep, run_on, collect. rewrite Hpc. run_unfold. rewrite Hs. reflexivity. }
  by apply (finish_waking [] (set_since (clock x) (at_pc (Waking None [])
    (set_timers [] (set_states (cancel_all (timers (t x)) (states (t x))) (t x))) (th x) x)) None).
Qed.

Lemma finish_resuming x :
  pc x = Resuming -> gate_inv raw x -> told x ->
  finishes 5 x (cancel_all (timers (t x)) (states (t x))) [].
Proof.
  intros Hpc Hg Ht. destruct (Ht ltac:(by rewrite Hpc)) as [Hs _].
  unfold gate_inv in Hg. rewrite Hpc in Hg. destruct Hg as [Hr _].
  eapply finishes_step.
  { unfold task_step, asleep, run_on, resumed. rewrite Hpc. run_unfold. reflexivity. }
  by apply (finish_top (at_pc AtTop (set_gphase TRunning (t x)) (th x) x)).
Qed.

Lemma finish_parked x wait :
  pc x = Parked wait -> gate_inv raw x -> told x ->
  finishes 6 x (cancel_all (timers (t x)) (states (t x))) [].
Proof.
  intros Hpc Hg Ht. destruct (Ht ltac:(by rewrite Hpc)) as [Hs Hn]. rewrite Hpc in Hn.
  unfold gate_inv in Hg. rewrite Hpc in Hg. destruct Hg as [Hr [[_ Hf]|[Hp _]]]; [congruence|].
  eapply finishes_step.
  { unfold task_step, asleep, run_on, park, waitfor, pause, Ffi.status. rewrite Hpc, Hp.
    rewrite bool_decide_false by (by destruct wait). run_unfold.
    instantiate (1 := let c := if wait is Some d then NWaitfor (saturate_nanos d) else NPause in
      at_pc Resuming (t x) ((c, o (th x) c) :: th x) x).
    destruct wait; cbn; rewrite (proj1 Ho); reflexivity. }
  apply (finish_resuming (at_pc Resuming (t x) (_ :: th x) x)); [done| |done]. unfold gate_inv. cbn. auto.
Qed.

Lemma finish_deciding x wait :
  pc x = Deciding wait -> gate_inv raw x -> told x ->
  finishes 5 x (cancel_all (timers (t x)) (states (t x))) [].
Proof.
  intros Hpc Hg Ht. destruct (Ht ltac:(by rewrite Hpc)) as [Hs Hn]. rewrite Hpc in Hn.
  unfold gate_inv in Hg. rewrite Hpc in Hg. destruct Hg as [Hr _].
  eapply finishes_step.
  { unfold task_step, asleep, run_on, decide_park. rewrite Hpc. run_unfold. rewrite Hn. reflexivity. }
  by apply (finish_top (at_pc AtTop (set_gphase TRunning (set_notified false (t x))) (th x) x)).
Qed.

(** The steps the task may still need: it may have wakers to call. *)
Definition turn_bound (x : TSys) : nat :=
  match pc x with Waking _ ws => length ws + 3 | _ => 6 end.

Lemma finish x :
  pc x <> TDead -> tinv raw x -> told x -> flagged x ->
  finishes (turn_bound x) x
    (if looks_again (pc x) then cancel_all (timers (t x)) (states (t x)) else states (t x))
    (if looks_again (pc x) then [] else timers (t x)).
Proof.
  intros Hd [_ Hi] Ht Hf. destruct (Hi Hd) as (Hg & _). unfold turn_bound.
  assert (forall a b st tm, (a <= b)%nat -> finishes a x st tm -> finishes b x st tm) as Hle.
  { intros a b st tm Hab (n & Hn & H). exists n. split; [lia|done]. }
  destruct (pc x) as [|wait ws|wait|wait|wait| | | |] eqn:Hpc; cbn [looks_again]; [| | | | | | | |done].
  - eapply Hle; [|by apply finish_top]. lia.
  - by eapply finish_waking.
  - eapply Hle; [|by eapply finish_checking]. lia.
  - eapply Hle; [|by eapply finish_deciding]. lia.
  - by eapply finish_parked.
  - eapply Hle; [|by apply finish_resuming]. lia.
  - eapply Hle; [|by apply finish_returned]. lia.
  - exists 0%nat. unfold gate_inv in Hg. rewrite Hpc in Hg. destruct Hg as [Hr _]. cbn.
    split_and!; [lia|done..|by apply Hf|done|done|done].
Qed.
End Finish.

(** ** The request *)

Section Claims.
Context `{codes : NosvCodes} (o : noracle) (raw : RawTask).

Definition wake_flag (wait : option Z) : SubmitFlags :=
  match wait with Some _ => SUBMIT_DEADLINE_WAKE | None => SUBMIT_NONE end.

(** The request against a library that accepts calls: it ends, and it submits the
    descriptor exactly when the task is parked and no wake was sent yet. *)
Lemma ask_runs x :
  accepts o -> gate_inv raw x -> pc x <> TDead ->
  exists s h, request_shutdown o (t x) (th x) = (Done tt, s, h) /\
    flags s = (true, true, completed (t x)) /\
    h = match pc x with
        | Parked wait =>
            if notified (t x) then th x
            else (NSubmit raw (wake_flag wait), o (th x) (NSubmit raw (wake_flag wait))) :: th x
        | Resuming => h
        | _ => th x
        end.
Proof.
  intros Ho Hg Hd. unfold gate_inv in Hg. unfold request_shutdown, notify, submit, submit_deadline_wake,
    submit_with, Ffi.status.
  run_unfold. destruct (pc x) as [|wait ws|wait|wait|wait| | | |] eqn:Hpc; [| | | | | | | |done].
  1-4: destruct Hg as [_ ->]; by eexists _, _.
  - destruct Hg as [Hr [[Hp Hn]|[Hp Hn]]]; rewrite Hp, Hn; [|by eexists _, _].
    destruct wait; cbn; rewrite Hr; cbn; rewrite (proj1 Ho); by eexists _, _.
  - destruct Hg as [Hr [Hp|[Hp|Hp]]]; rewrite Hp; cbn; rewrite ?Hr; cbn; rewrite ?(proj1 Ho); by eexists _, _.
  - destruct Hg as (_ & -> & _); by eexists _, _.
  - destruct Hg as (_ & ->); by eexists _, _.
Qed.

Lemma ask_reached x :
  accepts o -> reachable (tinit raw) (tstep o) x -> pc x <> TDead ->
  let y := ask_shutdown o x in
  reachable (tinit raw) (tstep o) y /\ pc y = pc x /\ told y /\
  (flagged x -> flagged y).
Proof.
  intros Ho Hx Hd. pose proof (timer_reachable_inv _ _ _ Hx) as [_ Hi]. destruct (Hi Hd) as (Hg & _).
  destruct (ask_runs x Ho Hg Hd) as (s & h & E & Hf & _). cbv zeta. unfold ask_shutdown, run_on.
  rewrite E. cbn. split; [|split; [done|split]].
  - set (y := after x (run_on o (modify (set_shutdown true)) x) (fun _ x => owe_notify true x)).
    assert (reachable (tinit raw) (tstep o) y) as Hy by (eapply reach_step; [exact Hx|by apply ts_shutdown]).
    replace (mkTSys _ _ _ _ _ _ _) with
      (after y (run_on o notify y) (fun _ x0 => set_in_flight (in_flight x) x0)).
    { eapply reach_step; [exact Hy|]. by apply ts_notify. }
    unfold run_on. change (notify o (t y) (th y)) with (request_shutdown o (t x) (th x)). by rewrite E.
  - intros _. injection Hf as E1 E2 E3. cbn. rewrite E1, E2. split; [done|]. by destruct (pc x).
  - injection Hf as E1 E2 E3. unfold flagged. cbn. by rewrite E3.
Qed.

Lemma reach_flagged x : reachable (tinit raw) (tstep o) x -> flagged x.
Proof.
  apply reachable_invariant; [|intros a b; apply flagged_step].
  intros a (_ & _ & _ & _ & _ & _ & _ & _ & Hpc & _). unfold flagged. by rewrite Hpc.
Qed.

Lemma task_run_reached n : forall x,
  reachable (tinit raw) (tstep o) x -> reachable (tinit raw) (tstep o) (task_run o n x).
Proof.
  induction n as [|n IH]; intros x Hx; cbn; [done|]. destruct (task_step o x) as [y|] eqn:Hs; [|done].
  apply IH. eapply reach_step; [exact Hx|by apply task_step_tstep].
Qed.

(** C38. A timer shutdown terminates, because its request wakes the driver.  In every
    reachable state of the driver among its clients, and with a library that accepts
    calls, [request_shutdown] returns; a driver that is parked and was not woken yet is
    submitted, once, in the mode of its park, and no other state but a park that just
    ended makes a call.  From every state that any interleaving of the threads reaches
    after that and in which the process was not aborted, the driver's task, which takes
    no step while it is parked and was not woken, needs at most six steps of its own and
    one per waker it still has to call to leave its loop and retire its descriptor; then
    the wait of [shutdown_and_wait] ends.  A pass that was still to come cancelled every
    timer; if the task was past its data section, the heap is left as it was. *)
Theorem timer_shutdown_completes (x : TSys) :
  accepts o -> reachable (tinit raw) (tstep o) x -> pc x <> TDead ->
  let y := ask_shutdown o x in
  pc y = pc x /\
  th y = match pc x with
         | Parked wait =>
             if notified (t x) then th x
             else (NSubmit raw (wake_flag wait), o (th x) (NSubmit raw (wake_flag wait))) :: th x
         | Resuming => th y
         | _ => th x
         end /\
  forall z, rtc (tstep o) y z -> pc z <> TDead ->
    exists n, (n <= turn_bound z)%nat /\ let w := task_run o n z in
      pc w = LoopRetired /\ graw (t w) = None /\ count (destroys raw) (th w) = 1%nat /\
      await_completed o (t w) (th w) = (Done tt, t w, th w) /\
      if looks_again (pc z)
      then timers (t w) = [] /\
        forall e st, e ∈ timers (t z) -> states (t z) !! entry_state e = Some st ->
          exists st', states (t w) !! entry_state e = Some st' /\ cancelled st' = true
      else timers (t w) = timers (t z) /\ states (t w) = states (t z).
Proof.
  intros Ho Hx Hd. destruct (ask_reached x Ho Hx Hd) as (Hy & Hpc & Ht & Hf).
  specialize (Hf (reach_flagged x Hx)). cbv zeta. split; [done|]. split.
  { pose proof (timer_reachable_inv _ _ _ Hx) as [_ Hi]. destruct (Hi Hd) as (Hg & _).
    destruct (ask_runs x Ho Hg Hd) as (s & h & E & _ & Hh). unfold ask_shutdown, run_on. by rewrite E. }
  intros z Hz Hdz.
  assert (reachable (tinit raw) (tstep o) z /\ told z /\ flagged z) as (Hrz & Htz & Hfz).
  { clear Hdz. revert Hy Ht Hf. clear Hpc. induction Hz as [|a b c Hab _ IH]; [done|]. intros Ha Hta Hfa.
    apply IH; [by eapply reach_step|by eapply told_step|by eapply flagged_step]. }
  pose proof (timer_reachable_inv _ _ _ Hrz) as Hiz.
  destruct (finish o raw Ho z Hdz Hiz Htz Hfz) as (n & Hn & Hw). cbv zeta in Hw.
  destruct Hw as (Hpw & Hcw & Hgw & Hsw & Hmw). exists n. split; [done|]. cbv zeta.
  pose proof (timer_reachable_inv _ _ _ (task_run_reached n z Hrz)) as [[_ Hdw] _].
  split_and!; [done|done| | |].
  - rewrite Hdw, Hpw by (by rewrite Hpw). done.
  - unfold await_completed. run_unfold. by rewrite Hcw.
  - rewrite Hsw, Hmw. destruct (looks_again (pc z)); [|done]. split; [done|]. intros e st He Hst.
    destruct (cancel_all_lookup (timers (t z)) _ _ _ Hst) as (st' & Hst' & _ & Hin).
    exists st'. split; [done|]. rewrite Hin by (by exists e). done.
Qed.
End Claims.

(** ** A driver waits for instant 100 when its shutdown is requested *)

Lemma timer_shutdown_completes_witness :
  let x := TimerSpec.Sample.parked in
  let y := @ask_shutdown sample_codes accepting x in
  pc x = Parked (Some 90) /\ @task_step sample_codes accepting x = None /\
  map fst (th y) = NSubmit 1%positive SUBMIT_DEADLINE_WAKE :: map fst (th x) /\
  exists n, (n <= 6)%nat /\ timers (t (@task_run sample_codes accepting n y)) = [].
Proof.
  assert (@accepts sample_codes accepting) as Ho by (split; [intros h []; reflexivity|done]).
  assert (pc TimerSpec.Sample.parked <> TDead) as Hd by (vm_compute; discriminate).
  destruct (@timer_shutdown_completes sample_codes accepting TimerSpec.Sample.raw TimerSpec.Sample.parked Ho
              TimerSpec.Sample.parked_reached Hd) as (Hp & Hh & Hrun).
  split; [vm_compute; reflexivity|]. split; [vm_compute; reflexivity|].
  split; [rewrite Hh; vm_compute; reflexivity|].
  set (y := @ask_shutdown sample_codes accepting TimerSpec.Sample.parked) in *.
  assert (pc y <> TDead) as Hdy by (rewrite Hp; exact Hd).
  destruct (Hrun y (rtc_refl _ _) Hdy) as (n & Hn & _ & _ & _ & _ & Ht).
  assert (looks_again (pc y) = true /\ turn_bound y = 6%nat) as [E1 E2] by (vm_compute; split; reflexivity).
  rewrite E1 in Ht. rewrite E2 in Hn. exists n. split; [exact Hn|exact (proj1 Ht)].
Defined.
