(* ===== verification/Ring.v ===== *)
(** * Ring: the io_uring submission state machine ([src/src/io_uring.rs])

    The shared data of [IoUringDriver]: pointer-keyed CQE contexts, the staged and
    cancellation queues, per-submission counters and delivery queues, the
    completion-native (owned) operations, and every operation on them: admission,
    cancellation, staging, submission, completion dispatch and the futures.

    The low-level [uring] crate and the kernel are outside the repository.  Entries
    are abstract, with the accessors the driver uses; whether a push finds room and
    how many entries a submit consumes is answered by an oracle.  The model keeps
    the entries of the userspace SQ, the entries the kernel accepted and has not
    finished, and the posted CQEs, as the documentation of io_uring describes
    them. *)

From Stdlib Require Import ZArith Lia.
From stdpp Require Import base gmap sets list strings.
From S2P Require Import Prelude Errors Ffi.

Open Scope Z_scope.

(** ** The [uring] crate *)

(** Submission and completion entries, and the accessors the driver uses. *)
Class Uring := {
  sqe : Type;
  cqe : Type;
  sqe_user_data : sqe -> Z;
  sqe_set_user_data : Z -> sqe -> sqe;
  async_cancel : Z -> sqe;          (* [opcode::AsyncCancel::new(target).build()] *)
  cqe_user_data : cqe -> Z;
  cqe_set_user_data : Z -> cqe -> cqe;
  cqe_flags : cqe -> Z;
  cqe_more : cqe -> bool;           (* [cqueue::more] of the flags *)
  cqe_result : cqe -> Z
}.

(** The documented behaviour of the accessors. *)
Class UringLaws `{Uring} : Prop := {
  sqe_set_get u e : sqe_user_data (sqe_set_user_data u e) = u;
  cqe_set_get u c : cqe_user_data (cqe_set_user_data u c) = u;
  cqe_set_flags u c : cqe_flags (cqe_set_user_data u c) = cqe_flags c;
  cqe_more_flags c : cqe_more c = Z.testbit (cqe_flags c) 1;   (* [IORING_CQE_F_MORE] *)
  cqe_set_more u c : cqe_more (cqe_set_user_data u c) = cqe_more c;
  cqe_set_result u c : cqe_result (cqe_set_user_data u c) = cqe_result c
}.

(** ** Configuration *)

Record IoUringConfig : Type := mkIoUringConfig {
  entries : Z;
  reap_size : Z;
  poll_interval : Z;
  max_buffered_completions : Z
}.

Definition config_default : IoUringConfig := mkIoUringConfig 256 256 50000 65536.

(** [u32::is_power_of_two]. *)
Definition is_power_of_two (n : Z) : bool := (0 <? n) && (Z.land n (n - 1) =? 0).

Definition validate (c : IoUringConfig) : result InvalidIoUringConfig IoUringConfig :=
  if entries c =? 0 then Err ZeroEntries else
  if negb (is_power_of_two (entries c)) then Err EntriesNotPowerOfTwo else
  if reap_size c =? 0 then Err ZeroReapSize else
  if poll_interval c =? 0 then Err ZeroPollInterval else
  if max_buffered_completions c =? 0 then Err ZeroCompletionBuffer else
  Ok c.

(** ** Data *)

Definition SubId := N.     (* identity of an [Arc<SubmissionState>] *)
Definition OpId := N.      (* identity of an [Arc<OwnedControl>] *)

Inductive CompletionError : Type := BufferOverflow.
Inductive SubmissionErrorKind : Type := KRuntimeClosed | KCompletionBufferOverflow.

Definition display_completion_error (_ : CompletionError) : string :=
  "io_uring completion buffer overflowed; cancellation was requested".
Definition display_submission_error (e : SubmissionErrorKind) : string :=
  match e with
  | KRuntimeClosed => "the io_uring runtime is closed"
  | KCompletionBufferOverflow => "completion buffering overflowed during admission"
  end.

Inductive Delivery : Type := Open | Cancelling | Overflow | Detached.
Inductive ContextKind : Type := Original | Cancel.
Inductive ContextPhase : Type := Staged | Submitted | CTerminal.

#[export] Instance Delivery_eq_dec : EqDecision Delivery.
Proof. solve_decision. Defined.
#[export] Instance ContextKind_eq_dec : EqDecision ContextKind.
Proof. solve_decision. Defined.
#[export] Instance ContextPhase_eq_dec : EqDecision ContextPhase.
Proof. solve_decision. Defined.

Inductive StagedContext : Type :=
| SRaw (pointer : Z)
| SOwned (pointer : Z)
| SOwnedCancel (pointer : Z).

Definition staged_pointer (s : StagedContext) : Z :=
  match s with SRaw p | SOwned p | SOwnedCancel p => p end.

Record CqeContext : Type := mkContext {
  kind : ContextKind;
  cphase : ContextPhase;
  index : Z;
  original_user_data : Z;
  cstate : SubId;
  target : option Z;
  cancel_queued : bool;
  cancel_seen : bool
}.

Definition set_cphase p c :=
  mkContext (kind c) p (index c) (original_user_data c) (cstate c) (target c) (cancel_queued c) (cancel_seen c).
Definition set_cancel_queued b c :=
  mkContext (kind c) (cphase c) (index c) (original_user_data c) (cstate c) (target c) b (cancel_seen c).
Definition set_cancel_seen b c :=
  mkContext (kind c) (cphase c) (index c) (original_user_data c) (cstate c) (target c) (cancel_queued c) b.

Record CancelCommand : Type := mkCancel {
  cc_target : Z;
  cc_index : Z;
  cc_user_data : Z;
  cc_state : SubId
}.

Record OwnedCancelContext : Type := mkOwnedCancel { oc_phase : ContextPhase; oc_target : Z }.

(** Reasons an owned operation is completed before submission. *)
Inductive OwnedFailure : Type := FClosed | FCancelled | FUnsupported.

Definition is_empty {A} (l : list A) : bool := match l with [] => true | _ => false end.

Section Data.
Context `{U : Uring} {T : Type}.

Record Completion : Type := mkCompletion { c_index : Z; c_cqe : cqe }.

Record SubmissionInner : Type := mkSub {
  limit : Z;
  delivery : Delivery;
  normal : list Completion;
  cancellations : list Completion;
  normal_overflow : bool;
  cancel_overflow : bool;
  iterator_finished : bool;
  originals : Z;
  accepted : Z;
  original_terminal : Z;
  cancels : Z;
  cancel_terminal : Z;
  admission_waker : option Waker;
  normal_waker : option Waker;
  cancel_waker : option Waker;
  drain_waker : option Waker
}.

Definition set_delivery x u := mkSub (limit u) x (normal u) (cancellations u) (normal_overflow u) (cancel_overflow u) (iterator_finished u) (originals u) (accepted u) (original_terminal u) (cancels u) (cancel_terminal u) (admission_waker u) (normal_waker u) (cancel_waker u) (drain_waker u).
Definition set_normal x u := mkSub (limit u) (delivery u) x (cancellations u) (normal_overflow u) (cancel_overflow u) (iterator_finished u) (originals u) (accepted u) (original_terminal u) (cancels u) (cancel_terminal u) (admission_waker u) (normal_waker u) (cancel_waker u) (drain_waker u).
Definition set_cancellations x u := mkSub (limit u) (delivery u) (normal u) x (normal_overflow u) (cancel_overflow u) (iterator_finished u) (originals u) (accepted u) (original_terminal u) (cancels u) (cancel_terminal u) (admission_waker u) (normal_waker u) (cancel_waker u) (drain_waker u).
Definition set_normal_overflow x u := mkSub (limit u) (delivery u) (normal u) (cancellations u) x (cancel_overflow u) (iterator_finished u) (originals u) (accepted u) (original_terminal u) (cancels u) (cancel_terminal u) (admission_waker u) (normal_waker u) (cancel_waker u) (drain_waker u).
Definition set_cancel_overflow x u := mkSub (limit u) (delivery u) (normal u) (cancellations u) (normal_overflow u) x (iterator_finished u) (originals u) (accepted u) (original_terminal u) (cancels u) (cancel_terminal u) (admission_waker u) (normal_waker u) (cancel_waker u) (drain_waker u).
Definition set_iterator_finished x u := mkSub (limit u) (delivery u) (normal u) (cancellations u) (normal_overflow u) (cancel_overflow u) x (originals u) (accepted u) (original_terminal u) (cancels u) (cancel_terminal u) (admission_waker u) (normal_waker u) (cancel_waker u) (drain_waker u).
Definition set_originals x u := mkSub (limit u) (delivery u) (normal u) (cancellations u) (normal_overflow u) (cancel_overflow u) (iterator_finished u) x (accepted u) (original_terminal u) (cancels u) (cancel_terminal u) (admission_waker u) (normal_waker u) (cancel_waker u) (drain_waker u).
Definition set_accepted x u := mkSub (limit u) (delivery u) (normal u) (cancellations u) (normal_overflow u) (cancel_overflow u) (iterator_finished u) (originals u) x (original_terminal u) (cancels u) (cancel_terminal u) (admission_waker u) (normal_waker u) (cancel_waker u) (drain_waker u).
Definition set_original_terminal x u := mkSub (limit u) (delivery u) (normal u) (cancellations u) (normal_overflow u) (cancel_overflow u) (iterator_finished u) (originals u) (accepted u) x (cancels u) (cancel_terminal u) (admission_waker u) (normal_waker u) (cancel_waker u) (drain_waker u).
Definition set_cancels x u := mkSub (limit u) (delivery u) (normal u) (cancellations u) (normal_overflow u) (cancel_overflow u) (iterator_finished u) (originals u) (accepted u) (original_terminal u) x (cancel_terminal u) (admission_waker u) (normal_waker u) (cancel_waker u) (drain_waker u).
Definition set_cancel_terminal x u := mkSub (limit u) (delivery u) (normal u) (cancellations u) (normal_overflow u) (cancel_overflow u) (iterator_finished u) (originals u) (accepted u) (original_terminal u) (cancels u) x (admission_waker u) (normal_waker u) (cancel_waker u) (drain_waker u).
Definition set_admission_waker x u := mkSub (limit u) (delivery u) (normal u) (cancellations u) (normal_overflow u) (cancel_overflow u) (iterator_finished u) (originals u) (accepted u) (original_terminal u) (cancels u) (cancel_terminal u) x (normal_waker u) (cancel_waker u) (drain_waker u).
Definition set_normal_waker x u := mkSub (limit u) (delivery u) (normal u) (cancellations u) (normal_overflow u) (cancel_overflow u) (iterator_finished u) (originals u) (accepted u) (original_terminal u) (cancels u) (cancel_terminal u) (admission_waker u) x (cancel_waker u) (drain_waker u).
Definition set_cancel_waker x u := mkSub (limit u) (delivery u) (normal u) (cancellations u) (normal_overflow u) (cancel_overflow u) (iterator_finished u) (originals u) (accepted u) (original_terminal u) (cancels u) (cancel_terminal u) (admission_waker u) (normal_waker u) x (drain_waker u).
Definition set_drain_waker x u := mkSub (limit u) (delivery u) (normal u) (cancellations u) (normal_overflow u) (cancel_overflow u) (iterator_finished u) (originals u) (accepted u) (original_terminal u) (cancels u) (cancel_terminal u) (admission_waker u) (normal_waker u) (cancel_waker u) x.

Definition sub_new (limit : Z) : SubmissionInner :=
  mkSub limit Open [] [] false false false 0 0 0 0 0 None None None None.

(** A boxed handler: its control, its opcode and entry, and how a result of the
    kernel or a failure becomes the typed result. *)
Record OwnedHandler : Type := mkHandler {
  h_control : OpId;
  h_opcode : Z;
  h_entry : sqe;
  h_complete : Z -> T;
  h_fail : IoError -> T
}.

Record OwnedCqeContext : Type := mkOwned {
  o_phase : ContextPhase;
  o_control : OpId;
  handler : option OwnedHandler;
  o_cancel_queued : bool;
  o_cancel_seen : bool
}.

(** [OwnedControl] and the result slot of its [OwnedState]. *)
Record Control : Type := mkControl {
  op_cancelled : bool;
  op_completed : bool;
  op_waker : option Waker;
  op_result : option T
}.

Record DriverData : Type := mkData {
  contexts : gmap Z CqeContext;
  staged : list StagedContext;
  cancel_queue : list CancelCommand;
  owned_contexts : gmap Z OwnedCqeContext;
  owned_cancel_contexts : gmap Z OwnedCancelContext;
  owned_pending : list OwnedHandler;
  owned_cancel_queue : list Z;
  submissions : list SubId;
  accepting : bool;
  dshutdown : bool
}.

Definition set_contexts x d := mkData x (staged d) (cancel_queue d) (owned_contexts d) (owned_cancel_contexts d) (owned_pending d) (owned_cancel_queue d) (submissions d) (accepting d) (dshutdown d).
Definition set_staged x d := mkData (contexts d) x (cancel_queue d) (owned_contexts d) (owned_cancel_contexts d) (owned_pending d) (owned_cancel_queue d) (submissions d) (accepting d) (dshutdown d).
Definition set_cancel_queue x d := mkData (contexts d) (staged d) x (owned_contexts d) (owned_cancel_contexts d) (owned_pending d) (owned_cancel_queue d) (submissions d) (accepting d) (dshutdown d).
Definition set_owned_contexts x d := mkData (contexts d) (staged d) (cancel_queue d) x (owned_cancel_contexts d) (owned_pending d) (owned_cancel_queue d) (submissions d) (accepting d) (dshutdown d).
Definition set_owned_cancel_contexts x d := mkData (contexts d) (staged d) (cancel_queue d) (owned_contexts d) x (owned_pending d) (owned_cancel_queue d) (submissions d) (accepting d) (dshutdown d).
Definition set_owned_pending x d := mkData (contexts d) (staged d) (cancel_queue d) (owned_contexts d) (owned_cancel_contexts d) x (owned_cancel_queue d) (submissions d) (accepting d) (dshutdown d).
Definition set_owned_cancel_queue x d := mkData (contexts d) (staged d) (cancel_queue d) (owned_contexts d) (owned_cancel_contexts d) (owned_pending d) x (submissions d) (accepting d) (dshutdown d).
Definition set_submissions x d := mkData (contexts d) (staged d) (cancel_queue d) (owned_contexts d) (owned_cancel_contexts d) (owned_pending d) (owned_cancel_queue d) x (accepting d) (dshutdown d).
Definition set_closed d := mkData (contexts d) (staged d) (cancel_queue d) (owned_contexts d) (owned_cancel_contexts d) (owned_pending d) (owned_cancel_queue d) (submissions d) false true.

(** The driver's shared state, and what the kernel holds of it: the user data of
    the entries in the userspace SQ, of the accepted entries without a terminal
    CQE, and the posted CQEs. *)
Record Ring : Type := mkRing {
  data : DriverData;
  subs : gmap SubId SubmissionInner;
  handles : gset SubId;             (* submissions a future or handle keeps alive *)
  controls : gmap OpId Control;
  owned_queue : list OwnedHandler;
  owned_admission : bool;
  sq : list Z;
  flight : list Z;
  cq : list cqe;
  ring_open : bool                  (* [ring: Mutex<Option<IoUring>>] is [Some] *)
}.

Definition set_data x s := mkRing x (subs s) (handles s) (controls s) (owned_queue s) (owned_admission s) (sq s) (flight s) (cq s) (ring_open s).
Definition set_subs x s := mkRing (data s) x (handles s) (controls s) (owned_queue s) (owned_admission s) (sq s) (flight s) (cq s) (ring_open s).
Definition set_handles x s := mkRing (data s) (subs s) x (controls s) (owned_queue s) (owned_admission s) (sq s) (flight s) (cq s) (ring_open s).
Definition set_controls x s := mkRing (data s) (subs s) (handles s) x (owned_queue s) (owned_admission s) (sq s) (flight s) (cq s) (ring_open s).
Definition set_owned_queue x s := mkRing (data s) (subs s) (handles s) (controls s) x (owned_admission s) (sq s) (flight s) (cq s) (ring_open s).
Definition set_owned_admission x s := mkRing (data s) (subs s) (handles s) (controls s) (owned_queue s) x (sq s) (flight s) (cq s) (ring_open s).
Definition set_kernel q f s := mkRing (data s) (subs s) (handles s) (controls s) (owned_queue s) (owned_admission s) q f (cq s) (ring_open s).
Definition set_cq x s := mkRing (data s) (subs s) (handles s) (controls s) (owned_queue s) (owned_admission s) (sq s) (flight s) x (ring_open s).
Definition set_ring_open x s := mkRing (data s) (subs s) (handles s) (controls s) (owned_queue s) (owned_admission s) (sq s) (flight s) (cq s) x.

Definition on_data (f : DriverData -> DriverData) (s : Ring) : Ring := set_data (f (data s)) s.
Definition on_sub (id : SubId) (f : SubmissionInner -> SubmissionInner) (s : Ring) : Ring :=
  set_subs (alter f id (subs s)) s.

Definition ring_new : Ring :=
  mkRing (mkData ∅ [] [] ∅ ∅ [] [] [] true false) ∅ ∅ ∅ [] true [] [] [] true.
End Data.
Arguments Completion {U}.
Arguments SubmissionInner {U}.
Arguments OwnedHandler {U} T.
Arguments OwnedCqeContext {U} T.
Arguments Control T : clear implicits.
Arguments DriverData {U} T.
Arguments Ring {U} T.
