(* ===== verification/RingOps.v ===== *)
(** * RingOps: the operations of the io_uring driver ([src/src/io_uring.rs])

    Admission, cancellation, staging, submission and dispatch over the data of [Ring].
    One program is one critical section of the driver's data mutex (or of a
    submission's mutex); an operation that ends by calling [notify] says so in its
    result or its name.  The futures are in [RingFutures], the gate in [RingGate]. *)

From Stdlib Require Import ZArith Lia.
From stdpp Require Import base gmap sets list strings.
From S2P Require Import Prelude Errors Ffi Ring.

Open Scope Z_scope.

(** Linux error numbers. *)
Definition EINTR : Z := 4.
Definition EAGAIN : Z := 11.
Definition EBUSY : Z := 16.
Definition ECANCELED : Z := 125.

Definition runtime_closed_error : IoError := Custom KBrokenPipe "nOS-V I/O runtime is closed".
Definition unsupported_opcode_error : IoError :=
  Custom KUnsupported "kernel io_uring does not support this operation".

(** The calls into the [uring] crate that the environment decides: whether a push
    finds room, and what a submit consumes ([rcode] negative: the error number). *)
Inductive ucall `{Uring} : Type :=
| UPush (e : sqe)
| USubmit.

Record uresp : Type := UResp { rroom : bool; rcount : Z }.

Section Ops.
Context `{U : Uring} {T : Type}.
(** The allocator: where [Box::new] puts a context, given the boxes alive. *)
Context (new_box : history ucall uresp -> gset Z -> Z).

Notation uprog := (prog ucall uresp).
Notation ring := (Ring T).

(** ** Helpers *)

(** The addresses of the live context boxes. *)
Definition boxes (d : DriverData T) : gset Z :=
  dom (contexts d) ∪ dom (owned_contexts d) ∪ dom (owned_cancel_contexts d).

Definition alloc : uprog ring Z := fun _ s h => (Done (new_box h (boxes (data s))), s, h).

Definition context_pointer_in_use (d : DriverData T) (p : Z) : bool := bool_decide (p ∈ boxes d).

(** [sq.push]: on success the entry joins the userspace SQ. *)
Definition sq_push (e : sqe) : uprog ring bool :=
  r ← call (UPush e);
  if rroom r then
    _ ← modify (fun s => set_kernel (sq s ++ [sqe_user_data e]) (flight s) s);
    mret true
  else mret false.

(** [ring.submit()]: the kernel consumes a prefix of the SQ, or fails. *)
Definition ring_submit : uprog ring (result Z Z) :=
  r ← call USubmit;
  if rcount r <? 0 then mret (Err (- rcount r)) else
  _ ← modify (fun s => set_kernel (drop (Z.to_nat (rcount r)) (sq s))
                         (flight s ++ take (Z.to_nat (rcount r)) (sq s)) s);
  mret (Ok (rcount r)).

Definition is_retryable (errno : Z) : bool :=
  (errno =? EINTR) || (errno =? EAGAIN) || (errno =? EBUSY).

Definition replace_waker (slot : option Waker) (replacement : Waker) : option Waker :=
  match slot with
  | None => Some replacement
  | Some old => if negb (will_wake old replacement) then Some replacement else slot
  end.

Definition opt_list {A} (o : option A) : list A := match o with Some a => [a] | None => [] end.

Definition drained (u : SubmissionInner) : bool :=
  (original_terminal u =? originals u) && (cancel_terminal u =? cancels u).

(** [wake_drain]: the updated state and the waker taken. *)
Definition wake_drain (u : SubmissionInner) : SubmissionInner * list Waker :=
  if drained u then (set_drain_waker None u, opt_list (drain_waker u)) else (u, []).

Definition detach (u : SubmissionInner) : SubmissionInner :=
  set_cancel_waker None (set_normal_waker None (set_cancellations [] (set_normal []
    (set_delivery Detached u)))).

(** A live [Arc<SubmissionState>]: a future or handle, a context, or a command. *)
Definition strong (s : ring) (id : SubId) : bool :=
  bool_decide (id ∈ handles s) ||
  existsb (fun c => bool_decide (cstate c = id)) (map snd (map_to_list (contexts (data s)))) ||
  existsb (fun c => bool_decide (cc_state c = id)) (cancel_queue (data s)).

Definition get_sub (id : SubId) : uprog ring SubmissionInner :=
  fun o s h => match subs s !! id with
               | Some u => (Done u, s, h)
               | None => (Panicked "unreachable submission", s, h)
               end.
Definition put_sub (id : SubId) (u : SubmissionInner) : uprog ring unit :=
  modify (fun s => set_subs (<[ id := u ]> (subs s)) s).

(** ** Registration *)

Definition register_submission (lim : Z) (id : SubId) : uprog ring unit :=
  _ ← modify (fun s => set_handles (handles s ∪ {[ id ]})
                         (set_subs (<[ id := sub_new lim ]> (subs s)) s));
  modify (fun s => on_data (fun d =>
    set_submissions (filter (fun i => strong s i = true) (submissions d) ++ [id]) d) s).

(** ** Cancellation requests *)

(** The submission section of [request_cancel]. *)
Definition close_delivery (id : SubId) (dl : Delivery) : uprog ring unit :=
  modify (on_sub id (fun u =>
    let u := match delivery u, dl with
             | Open, _ | _, Detached => set_delivery dl u
             | _, _ => u
             end in
    match dl with
    | Detached => set_cancel_waker None (set_normal_waker None (set_cancellations [] (set_normal [] u)))
    | _ => u
    end)).

Definition cancel_target (id : SubId) (pc : Z * CqeContext) : bool :=
  bool_decide (kind pc.2 = Original) && negb (bool_decide (cphase pc.2 = CTerminal)) &&
  negb (cancel_queued pc.2) && bool_decide (cstate pc.2 = id).

(** The data section of [request_cancel]. *)
Definition queue_cancels (id : SubId) : uprog ring unit :=
  s ← get;
  let targets := filter (fun pc => cancel_target id pc = true) (map_to_list (contexts (data s))) in
  let commands := map (fun pc => mkCancel pc.1 (index pc.2) (original_user_data pc.2) (cstate pc.2))
                    targets in
  _ ← modify (on_data (fun d => set_contexts
         (foldr (fun pc m => alter (set_cancel_queued true) pc.1 m) (contexts d) targets) d));
  _ ← modify (on_data (fun d => set_cancel_queue (cancel_queue d ++ commands) d));
  if bool_decide (length commands = 0)%nat then mret tt else
  modify (on_sub id (fun u => set_cancels (cancels u + Z.of_nat (length commands)) u)).

(** [request_cancel] up to its final [notify]. *)
Definition request_cancel (id : SubId) (dl : Delivery) : uprog ring unit :=
  _ ← close_delivery id dl;
  queue_cancels id.

Definition owned_target (ctl : OpId) (pc : Z * OwnedCqeContext T) : bool :=
  bool_decide (o_control pc.2 = ctl) && negb (bool_decide (o_phase pc.2 = CTerminal)) &&
  negb (o_cancel_queued pc.2).

(** [request_owned_cancel] up to its final [notify]. *)
Definition request_owned_cancel (ctl : OpId) : uprog ring unit :=
  s ← get;
  match head (filter (fun pc => owned_target ctl pc = true) (map_to_list (owned_contexts (data s)))) with
  | None => mret tt
  | Some (tg, _) =>
      _ ← modify (on_data (fun d => set_owned_contexts (alter (fun c =>
            mkOwned (o_phase c) (o_control c) (handler c) true (o_cancel_seen c)) tg
            (owned_contexts d)) d));
      modify (on_data (fun d => set_owned_cancel_queue (owned_cancel_queue d ++ [tg]) d))
  end.

(** ** Staging *)

(** [stage_cancellations]: the loop over the commands popped from the queue. *)
Fixpoint stage_commands (q : list CancelCommand) : uprog ring unit :=
  match q with
  | [] => mret tt
  | command :: q' =>
      _ ← modify (on_data (set_cancel_queue q'));
      pointer ← alloc;
      s ← get;
      if bool_decide (pointer ∈ dom (contexts (data s))) then abort "reused live cancel pointer" else
      pushed ← sq_push (sqe_set_user_data pointer (async_cancel (cc_target command)));
      if negb pushed then modify (on_data (set_cancel_queue (command :: q'))) else
      _ ← modify (on_data (fun d => set_contexts (<[ pointer :=
             mkContext Cancel Staged (cc_index command) (cc_user_data command) (cc_state command)
               (Some (cc_target command)) false false ]> (contexts d)) d));
      _ ← modify (on_data (fun d => set_staged (staged d ++ [SRaw pointer]) d));
      stage_commands q'
  end.

Definition stage_cancellations : uprog ring unit :=
  s ← get; stage_commands (cancel_queue (data s)).

Fixpoint stage_owned_commands (q : list Z) : uprog ring unit :=
  match q with
  | [] => mret tt
  | tg :: q' =>
      _ ← modify (on_data (set_owned_cancel_queue q'));
      pointer ← alloc;
      s ← get;
      if context_pointer_in_use (data s) pointer
      then abort "reused live owned cancellation pointer" else
      pushed ← sq_push (sqe_set_user_data pointer (async_cancel tg));
      if negb pushed then modify (on_data (set_owned_cancel_queue (tg :: q'))) else
      _ ← modify (on_data (fun d => set_owned_cancel_contexts
             (<[ pointer := mkOwnedCancel Staged tg ]> (owned_cancel_contexts d)) d));
      _ ← modify (on_data (fun d => set_staged (staged d ++ [SOwnedCancel pointer]) d));
      stage_owned_commands q'
  end.

Definition stage_owned_cancellations : uprog ring unit :=
  s ← get; stage_owned_commands (owned_cancel_queue (data s)).

(** [data.owned_pending.pop_front().or_else(|| queue.pop())]. *)
Definition pop_owned : uprog ring (option (OwnedHandler T)) :=
  s ← get;
  match owned_pending (data s), owned_queue s with
  | op :: rest, _ => _ ← modify (on_data (set_owned_pending rest)); mret (Some op)
  | [], op :: rest => _ ← modify (set_owned_queue rest); mret (Some op)
  | [], [] => mret None
  end.

Definition is_cancelled (s : ring) (ctl : OpId) : bool :=
  match controls s !! ctl with Some c => op_cancelled c | None => false end.

(** [stage_owned]: at most [budget] records; the failed ones in order. *)
Fixpoint stage_owned (supported : Z -> bool) (budget : nat)
    : uprog ring (list (OwnedHandler T * OwnedFailure)) :=
  match budget with
  | O => mret []
  | S budget' =>
      operation ← pop_owned;
      match operation with
      | None => mret []
      | Some op =>
          s ← get;
          let failed f := rest ← stage_owned supported budget'; mret ((op, f) :: rest) in
          if dshutdown (data s) then failed FClosed else
          if is_cancelled s (h_control op) then failed FCancelled else
          if negb (supported (h_opcode op)) then failed FUnsupported else
          pointer ← alloc;
          if context_pointer_in_use (data s) pointer
          then abort "reused live owned context pointer" else
          pushed ← sq_push (sqe_set_user_data pointer (h_entry op));
          if negb pushed then
            _ ← modify (on_data (fun d => set_owned_pending (op :: owned_pending d) d));
            mret []
          else
            _ ← modify (on_data (fun d => set_owned_contexts (<[ pointer :=
                   mkOwned Staged (h_control op) (Some op) false false ]> (owned_contexts d)) d));
            _ ← modify (on_data (fun d => set_staged (staged d ++ [SOwned pointer]) d));
            stage_owned supported budget'
      end
  end.

(** ** Submission *)

(** One accepted entry of [submit_staged]: the wakers it collects. *)
Definition accept_one : uprog ring (list Waker) :=
  s ← get;
  match staged (data s) with
  | [] => panic "validated staged prefix"
  | st :: rest =>
      _ ← modify (on_data (set_staged rest));
      match st with
      | SRaw p =>
          match contexts (data s) !! p with
          | None => abort "staged raw context disappeared"
          | Some c =>
              if negb (bool_decide (cphase c = Staged)) then abort "raw context submitted twice" else
              _ ← modify (on_data (fun d => set_contexts (<[ p := set_cphase Submitted c ]> (contexts d)) d));
              match kind c with
              | Original =>
                  u ← get_sub (cstate c);
                  _ ← put_sub (cstate c) (set_admission_waker None (set_accepted (accepted u + 1) u));
                  mret (opt_list (admission_waker u))
              | Cancel => mret []
              end
          end
      | SOwned p =>
          match owned_contexts (data s) !! p with
          | None => abort "staged owned context disappeared"
          | Some c =>
              if negb (bool_decide (o_phase c = Staged)) then abort "owned context submitted twice" else
              _ ← modify (on_data (fun d => set_owned_contexts (<[ p :=
                     mkOwned Submitted (o_control c) (handler c) (o_cancel_queued c) (o_cancel_seen c) ]>
                     (owned_contexts d)) d));
              mret []
          end
      | SOwnedCancel p =>
          match owned_cancel_contexts (data s) !! p with
          | None => abort "staged owned cancellation disappeared"
          | Some c =>
              if negb (bool_decide (oc_phase c = Staged))
              then abort "owned cancellation submitted twice" else
              _ ← modify (on_data (fun d => set_owned_cancel_contexts
                     (<[ p := mkOwnedCancel Submitted (oc_target c) ]> (owned_cancel_contexts d)) d));
              mret []
          end
      end
  end.

Fixpoint accept_prefix (count : nat) : uprog ring (list Waker) :=
  match count with
  | O => mret []
  | S count' => ws ← accept_one; ws' ← accept_prefix count'; mret (ws ++ ws')
  end.

Definition submit_staged : uprog ring (list Waker) :=
  r ← ring_submit;
  match r with
  | Ok count =>
      s ← get;
      if Z.of_nat (length (staged (data s))) <? count then abort "kernel accepted unstaged SQEs"
      else accept_prefix (Z.to_nat count)
  | Err errno =>
      if is_retryable errno then mret [] else abort "unrecoverable submit error"
  end.

(** ** Admission *)

(** What an admission future still holds. *)
Record Admission : Type := mkAdmission {
  iterator : list sqe;
  pending : option (Z * sqe);
  next_index : Z
}.

(** Stages one original entry; [false] when the SQ is full. *)
Definition stage_original (id : SubId) (idx : Z) (entry : sqe) : uprog ring bool :=
  pointer ← alloc;
  s ← get;
  if bool_decide (pointer ∈ dom (contexts (data s)))
  then abort "allocator reused a live context pointer" else
  pushed ← sq_push (sqe_set_user_data pointer entry);
  if negb pushed then mret false else
  _ ← modify (on_data (fun d => set_contexts (<[ pointer :=
         mkContext Original Staged idx (sqe_user_data entry) id None false false ]> (contexts d)) d));
  _ ← modify (on_data (fun d => set_staged (staged d ++ [SRaw pointer]) d));
  _ ← modify (on_sub id (fun u => set_originals (originals u + 1) u));
  mret true.

(** The loop of [driver_admit] once no entry is pending: the remaining admission, the
    wakers, and whether something was staged. *)
Fixpoint admit_entries (id : SubId) (it : list sqe) (next : Z) (staged_any : bool)
    : uprog ring (Admission * list Waker * bool) :=
  match it with
  | [] =>
      u ← get_sub id;
      _ ← put_sub id (set_admission_waker None (set_iterator_finished true u));
      mret (mkAdmission [] None next, opt_list (admission_waker u), staged_any)
  | entry :: it' =>
      if next =? u64_max then abort "SQE index exhausted" else
      pushed ← stage_original id next entry;
      if (pushed : bool) then admit_entries id it' (next + 1) true
      else mret (mkAdmission it' (Some (next, entry)) (next + 1), [], staged_any)
  end.

Definition admit_loop (id : SubId) (a : Admission) : uprog ring (Admission * list Waker * bool) :=
  match pending a with
  | None => admit_entries id (iterator a) (next_index a) false
  | Some (idx, entry) =>
      pushed ← stage_original id idx entry;
      if (pushed : bool) then admit_entries id (iterator a) (next_index a) true
      else mret (a, [], false)
  end.

(** The data section of [driver_admit] when admission is open: its wakers, and whether
    [notify] follows. *)
Definition admit_section (id : SubId) (a : Admission) : uprog ring (Admission * list Waker * bool) :=
  s ← get;
  if negb (ring_open s) then abort "ring missing during admission" else
  _ ← stage_cancellations;
  '(a', ws, staged_any) ← admit_loop id a;
  ws' ← submit_staged;
  mret (a', ws ++ ws', staged_any || match pending a' with Some _ => true | None => false end).

(** [driver_admit]; the flag says whether [notify] is due after the wakes. *)
Definition driver_admit (id : SubId) (a : Admission) : uprog ring (Admission * list Waker * bool) :=
  s ← get;
  if negb (accepting (data s)) then
    _ ← request_cancel id Cancelling;
    mret (a, [], true)
  else if negb (is_empty (owned_pending (data s))) || negb (is_empty (owned_cancel_queue (data s)))
          || negb (is_empty (owned_queue s))
  then mret (a, [], true)
  else admit_section id a.

(** ** Completion dispatch *)

(** The submission part of an original CQE: the state, the wakers, and whether
    delivery overflowed for the first time. *)
Definition deliver_original (u : SubmissionInner) (c : Completion) (more : bool)
    : SubmissionInner * list Waker * bool :=
  let '(u, ws0) :=
    if negb (iterator_finished u) then (set_admission_waker None u, opt_list (admission_waker u))
    else (u, []) in
  let '(u, ws1, over) :=
    match delivery u with
    | Open =>
        let '(u, over) :=
          if Z.of_nat (length (normal u)) <? limit u then (set_normal (normal u ++ [c]) u, false)
          else if negb (normal_overflow u)
               then (set_delivery Overflow (set_normal_overflow true u), true)
               else (u, false) in
        (set_normal_waker None u, opt_list (normal_waker u), over)
    | _ => (u, [], false)
    end in
  if more then (u, ws0 ++ ws1, over) else
  let u := set_original_terminal (original_terminal u + 1) u in
  let '(u, ws2) :=
    if original_terminal u =? originals u then (set_normal_waker None u, opt_list (normal_waker u))
    else (u, []) in
  let '(u, ws3) := wake_drain u in
  (u, ws0 ++ ws1 ++ ws2 ++ ws3, over).

(** The submission part of a cancellation CQE. *)
Definition deliver_cancel (u : SubmissionInner) (c : Completion) : SubmissionInner * list Waker :=
  let '(u, ws1) :=
    match delivery u with
    | Detached => (u, [])
    | _ =>
        let u := if Z.of_nat (length (cancellations u)) <? limit u
                 then set_cancellations (cancellations u ++ [c]) u
                 else set_cancel_overflow true u in
        (set_cancel_waker None u, opt_list (cancel_waker u))
    end in
  let u := set_cancel_terminal (cancel_terminal u + 1) u in
  let '(u, ws2) :=
    if cancel_terminal u =? cancels u then (set_cancel_waker None u, opt_list (cancel_waker u))
    else (u, []) in
  let '(u, ws3) := wake_drain u in
  (u, ws1 ++ ws2 ++ ws3).

(** [dispatch_raw]: the wakers, and the submission whose delivery overflowed. *)
Definition dispatch_raw (c : cqe) : uprog ring (list Waker * option SubId) :=
  let pointer := cqe_user_data c in
  if pointer =? 0 then abort "null CQE context pointer" else
  let more := cqe_more c in
  s ← get;
  match contexts (data s) !! pointer with
  | None => abort "unknown or duplicate CQE pointer"
  | Some ctx =>
      _ ← modify (on_data (fun d => set_contexts (delete pointer (contexts d)) d));
      if negb (bool_decide (cphase ctx = Submitted)) then abort "CQE for unsubmitted context" else
      let completion := mkCompletion (index ctx) (cqe_set_user_data (original_user_data ctx) c) in
      match kind ctx with
      | Original =>
          u ← get_sub (cstate ctx);
          let '(u', ws, over) := deliver_original u completion more in
          _ ← put_sub (cstate ctx) u';
          let ctx' := if more then ctx else set_cphase CTerminal ctx in
          _ ← (if more || (cancel_queued ctx && negb (cancel_seen ctx))
               then modify (on_data (fun d => set_contexts (<[ pointer := ctx' ]> (contexts d)) d))
               else mret tt);
          mret (ws, if over then Some (cstate ctx) else None)
      | Cancel =>
          if more then abort "multishot cancellation CQE" else
          match target ctx with
          | None => abort "cancel context without target"
          | Some tg =>
              u ← get_sub (cstate ctx);
              let '(u', ws) := deliver_cancel u completion in
              _ ← put_sub (cstate ctx) u';
              s ← get;
              match contexts (data s) !! tg with
              | None => abort "cancel target disappeared"
              | Some original =>
                  _ ← modify (on_data (fun d => set_contexts
                         (if bool_decide (cphase original = CTerminal) then delete tg (contexts d)
                          else <[ tg := set_cancel_seen true original ]> (contexts d)) d));
                  mret (ws, None)
              end
          end
      end
  end.

(** [OwnedHandler::complete] and [fail]: the result is stored, completion is
    published, and the waker is taken. *)
Definition finish_handler (hd : OwnedHandler T) (value : T) : uprog ring (list Waker) :=
  s ← get;
  match controls s !! h_control hd with
  | None => panic "unreachable control"
  | Some c =>
      _ ← modify (fun s => set_controls (<[ h_control hd :=
             mkControl (op_cancelled c) true None (Some value) ]> (controls s)) s);
      mret (opt_list (op_waker c))
  end.

(** [dispatch_owned]. *)
Definition dispatch_owned (c : cqe) : uprog ring (list Waker) :=
  let pointer := cqe_user_data c in
  if pointer =? 0 then abort "null owned CQE context pointer" else
  let more := cqe_more c in
  s ← get;
  match owned_contexts (data s) !! pointer, owned_cancel_contexts (data s) !! pointer with
  | Some ctx, _ =>
      _ ← modify (on_data (fun d => set_owned_contexts (delete pointer (owned_contexts d)) d));
      if negb (bool_decide (o_phase ctx = Submitted)) then abort "CQE for unsubmitted owned context" else
      if more then abort "multishot completion-native CQE" else
      match handler ctx with
      | None => abort "owned handler completed twice"
      | Some hd =>
          _ ← (if o_cancel_queued ctx && negb (o_cancel_seen ctx)
               then modify (on_data (fun d => set_owned_contexts (<[ pointer :=
                      mkOwned CTerminal (o_control ctx) None (o_cancel_queued ctx) (o_cancel_seen ctx) ]>
                      (owned_contexts d)) d))
               else mret tt);
          finish_handler hd (h_complete hd (cqe_result c))
      end
  | None, Some ctx =>
      _ ← modify (on_data (fun d => set_owned_cancel_contexts
             (delete pointer (owned_cancel_contexts d)) d));
      if negb (bool_decide (oc_phase ctx = Submitted))
      then abort "CQE for unsubmitted owned cancellation" else
      if more then abort "multishot owned cancellation CQE" else
      match owned_contexts (data s) !! oc_target ctx with
      | None => abort "owned cancel target disappeared"
      | Some original =>
          _ ← modify (on_data (fun d => set_owned_contexts
                 (if bool_decide (o_phase original = CTerminal)
                  then delete (oc_target ctx) (owned_contexts d)
                  else <[ oc_target ctx := mkOwned (o_phase original) (o_control original)
                            (handler original) (o_cancel_queued original) true ]>
                         (owned_contexts d)) d));
          mret []
      end
  | None, None => abort "unknown or duplicate owned CQE pointer"
  end.

Definition dispatch (c : cqe) : uprog ring (list Waker * option SubId) :=
  s ← get;
  if bool_decide (cqe_user_data c ∈ dom (contexts (data s))) then dispatch_raw c
  else ws ← dispatch_owned c; mret (ws, None).

(** ** A pass of the driver *)

Definition failure_error (f : OwnedFailure) : IoError :=
  match f with
  | FClosed => runtime_closed_error
  | FCancelled => RawOs ECANCELED
  | FUnsupported => unsupported_opcode_error
  end.

(** [fail_owned]. *)
Fixpoint fail_owned (failed : list (OwnedHandler T * OwnedFailure)) : uprog ring (list Waker) :=
  match failed with
  | [] => mret []
  | (hd, reason) :: failed' =>
      ws ← finish_handler hd (h_fail hd (failure_error reason));
      ws' ← fail_owned failed';
      mret (ws ++ ws')
  end.

(** The admission wakers taken at the end of a pass without owned backlog. *)
Fixpoint wake_admissions (ids : list SubId) (m : gmap SubId SubmissionInner)
    : gmap SubId SubmissionInner * list Waker :=
  match ids with
  | [] => (m, [])
  | id :: ids' =>
      match m !! id with
      | Some u =>
          if iterator_finished u then wake_admissions ids' m
          else
            let '(m', ws) := wake_admissions ids' (<[ id := set_admission_waker None u ]> m) in
            (m', opt_list (admission_waker u) ++ ws)
      | None => wake_admissions ids' m
      end
  end.

(** The data section of [pass]. *)
Definition pass_submit (supported : Z -> bool) (budget : nat)
    : uprog ring (list (OwnedHandler T * OwnedFailure) * list Waker) :=
  s ← get;
  if negb (ring_open s) then abort "ring missing during submit" else
  _ ← stage_cancellations;
  _ ← stage_owned_cancellations;
  failed ← stage_owned supported budget;
  ws ← submit_staged;
  s ← get;
  if is_empty (owned_pending (data s)) && is_empty (owned_cancel_queue (data s))
     && is_empty (owned_queue s)
  then
    let '(m, ws') := wake_admissions (filter (fun i => strong s i = true) (submissions (data s))) (subs s) in
    _ ← modify (set_subs m);
    mret (failed, ws ++ ws')
  else mret (failed, ws).

(** The reap: at most [reap] CQEs, and whether the queue may hold more. *)
Definition reap_cqes (reap : nat) : uprog ring (list cqe * bool) :=
  s ← get;
  if negb (ring_open s) then abort "ring missing during reap" else
  let values := take reap (cq s) in
  _ ← modify (set_cq (drop reap (cq s)));
  mret (values, bool_decide (length values = reap) || negb (is_empty (drop reap (cq s)))).

Fixpoint dispatch_all (cqes : list cqe) : uprog ring (list Waker * list SubId) :=
  match cqes with
  | [] => mret ([], [])
  | c :: cqes' =>
      '(ws, over) ← dispatch c;
      '(ws', overs) ← dispatch_all cqes';
      mret (ws ++ ws', opt_list over ++ overs)
  end.

(** [pass]: its wakers and whether a CQ backlog may remain. *)
Definition pass (supported : Z -> bool) (cfg : IoUringConfig) : uprog ring (list Waker * bool) :=
  '(failed, ws1) ← pass_submit supported (Z.to_nat (entries cfg));
  ws2 ← fail_owned failed;
  '(cqes, backlog) ← reap_cqes (Z.to_nat (reap_size cfg));
  '(ws3, overs) ← dispatch_all cqes;
  _ ← for_each (fun id => request_cancel id Overflow) overs;
  mret (ws1 ++ ws2 ++ ws3, backlog).

(** [drop(lock(&self.ring).take())] of a stopping [run]. *)
Definition take_ring : uprog ring unit := modify (set_ring_open false).

(** ** The scheduling decision *)

Inductive RunDecision : Type := DStop | DYield | DWait | DPause.

Definition active (d : DriverData T) (owned_queue_empty : bool) : bool :=
  negb (bool_decide (contexts d = ∅)) || negb (is_empty (staged d)) || negb (is_empty (cancel_queue d))
  || negb (bool_decide (dom (owned_contexts d) = ∅))
  || negb (bool_decide (dom (owned_cancel_contexts d) = ∅))
  || negb (is_empty (owned_pending d)) || negb (is_empty (owned_cancel_queue d))
  || negb owned_queue_empty.

Definition decide_run (d : DriverData T) (backlog owned_queue_empty : bool) : RunDecision :=
  if dshutdown d && negb (active d owned_queue_empty) then DStop else
  if backlog || negb (is_empty (staged d)) || negb (is_empty (cancel_queue d))
     || negb (is_empty (owned_pending d)) || negb (is_empty (owned_cancel_queue d))
     || negb owned_queue_empty
  then DYield
  else if active d owned_queue_empty then DWait
  else DPause.
End Ops.
