(* ===== verification/RingFutures.v ===== *)
(** * RingFutures: the futures over one submission ([src/src/io_uring.rs], [src/src/io.rs])

    [SubmitEntries], [CompletionStream], [NextCompletion], [Cancellation],
    [NextCancellation] and [WaitDrained], the shutdown request, and the owned
    operation [OwnedOp] with its queue.  A program that must still call [notify]
    returns, or is named after, the section before that call. *)

From Stdlib Require Import ZArith Lia.
From stdpp Require Import base gmap sets list strings.
From S2P Require Import Prelude Errors Ffi Ring RingOps.

Open Scope Z_scope.

Section Futures.
Context `{U : Uring} {T : Type}.
Context (new_box : history ucall uresp -> gset Z -> Z).

Notation uprog := (prog ucall uresp).
Notation ring := (Ring T).

(** ** [SubmitEntries] *)

Record SubmitEntries : Type := mkSubmit {
  admission : Admission;
  se_state : SubId;
  se_closed : bool;
  se_done : bool
}.

(** [IoUringHandle::submit_entries]; [closed] is the answer of [ensure_running]. *)
Definition submit_entries (lim : Z) (id : SubId) (closed : bool) (es : list sqe) : uprog ring SubmitEntries :=
  _ ← register_submission lim id;
  _ ← (if closed then modify (on_sub id (set_delivery Cancelling)) else mret tt);
  mret (mkSubmit (mkAdmission es None 0) id closed false).

(** The admission part of [poll], and whether its [notify] is due. *)
Definition submit_admit (se : SubmitEntries) : uprog ring (SubmitEntries * list Waker * bool) :=
  if se_done se then panic "SubmitEntries polled after completion" else
  if se_closed se then mret (se, [], false) else
  '(a, ws, due) ← driver_admit new_box (se_state se) (admission se);
  mret (mkSubmit a (se_state se) (se_closed se) false, ws, due).

(** The submission section of [poll]: failed, admitted, or waiting. *)
Definition submit_check (cx : Waker) (se : SubmitEntries)
    : uprog ring (option (result SubmissionErrorKind unit)) :=
  u ← get_sub (se_state se);
  let failure :=
    match delivery u with
    | Overflow => Some KCompletionBufferOverflow
    | Cancelling | Detached => Some KRuntimeClosed
    | Open => if se_closed se then Some KRuntimeClosed else None
    end in
  match failure with
  | Some kind => mret (Some (Err kind))
  | None =>
      if iterator_finished u && (accepted u =? originals u) then mret (Some (Ok tt)) else
      _ ← put_sub (se_state se) (set_admission_waker (replace_waker (admission_waker u) cx) u);
      mret None
  end.

(** [poll], whose pending and failing answers are followed by [notify]. *)
Definition submit_poll (cx : Waker) (se : SubmitEntries)
    : uprog ring (option (result SubmissionErrorKind unit) * SubmitEntries * list Waker) :=
  '(se', ws, _) ← submit_admit se;
  r ← submit_check cx se';
  match r with
  | Some (Err kind) =>
      _ ← request_cancel (se_state se') Cancelling;
      mret (r, mkSubmit (admission se') (se_state se') (se_closed se') true, ws)
  | Some (Ok _) => mret (r, mkSubmit (admission se') (se_state se') (se_closed se') true, ws)
  | None => mret (r, se', ws)
  end.

Definition submit_drop (se : SubmitEntries) : uprog ring unit :=
  if se_done se then mret tt else request_cancel (se_state se) Detached.

(** ** [CompletionStream] and [Cancellation] *)

(** [NextCompletion::poll]: [None] is [Pending]. *)
Definition next_completion (id : SubId) (cx : Waker)
    : uprog ring (option (option (result CompletionError Completion))) :=
  u ← get_sub id;
  match normal u with
  | c :: rest => _ ← put_sub id (set_normal rest u); mret (Some (Some (Ok c)))
  | [] =>
      if normal_overflow u then
        _ ← put_sub id (set_normal_overflow false u); mret (Some (Some (Err BufferOverflow)))
      else if negb (bool_decide (delivery u = Open))
              || (iterator_finished u && (original_terminal u =? originals u))
      then mret (Some None)
      else
        _ ← put_sub id (set_normal_waker (replace_waker (normal_waker u) cx) u);
        mret None
  end.

Definition stream_cancel (id : SubId) : uprog ring unit := request_cancel id Cancelling.
Definition stream_drop (id : SubId) (active : bool) : uprog ring unit :=
  if active then request_cancel id Detached else mret tt.

(** [NextCancellation::poll]. *)
Definition next_cancellation (id : SubId) (cx : Waker)
    : uprog ring (option (option (result CompletionError Completion))) :=
  u ← get_sub id;
  match cancellations u with
  | c :: rest => _ ← put_sub id (set_cancellations rest u); mret (Some (Some (Ok c)))
  | [] =>
      if cancel_overflow u then
        _ ← put_sub id (set_cancel_overflow false u); mret (Some (Some (Err BufferOverflow)))
      else if cancel_terminal u =? cancels u then mret (Some None)
      else
        _ ← put_sub id (set_cancel_waker (replace_waker (cancel_waker u) cx) u);
        mret None
  end.

(** [WaitDrained::poll]: whether it is ready. *)
Definition wait_drained (id : SubId) (cx : Waker) : uprog ring bool :=
  u ← get_sub id;
  if drained u then mret true
  else
    _ ← put_sub id (set_drain_waker (replace_waker (drain_waker u) cx) u);
    mret false.

Definition cancellation_drop (id : SubId) (active : bool) : uprog ring unit :=
  if active then modify (on_sub id detach) else mret tt.

(** ** Shutdown *)

(** The data section of [shutdown_and_wait]: what it will cancel. *)
Definition shutdown_section : uprog ring (list SubId * list OpId) :=
  _ ← modify (on_data set_closed);
  s ← get;
  mret (filter (fun i => strong s i = true) (submissions (data s)),
        map (fun pc => o_control pc.2)
          (filter (fun pc => o_phase pc.2 <> CTerminal) (map_to_list (owned_contexts (data s))))).

(** [shutdown_and_wait] up to its final [notify] and wait. *)
Definition ring_shutdown : uprog ring unit :=
  _ ← modify (set_owned_admission false);
  '(ids, owned) ← shutdown_section;
  _ ← for_each (fun id => request_cancel id Detached) ids;
  for_each request_owned_cancel owned.

(** ** Owned operations *)

(** [enqueue]: the operation comes back after closure. *)
Definition enqueue (op : OwnedHandler T) : uprog ring (result (OwnedHandler T) unit) :=
  s ← get;
  if negb (owned_admission s) then mret (Err op) else
  _ ← modify (set_owned_queue (owned_queue s ++ [op]));
  mret (Ok tt).

Definition enqueue_batch (ops : list (OwnedHandler T)) : uprog ring (result (list (OwnedHandler T)) unit) :=
  s ← get;
  if negb (owned_admission s) then mret (Err ops) else
  _ ← modify (set_owned_queue (owned_queue s ++ ops));
  mret (Ok tt).

(** [OwnedOp]. *)
Record OwnedOp : Type := mkOwnedOp {
  oo_control : OpId;
  oo_handler : option (OwnedHandler T);
  oo_queued : bool;
  oo_done : bool
}.

(** [OwnedOp::new]: a control block nobody else knows yet. *)
Definition owned_new (ctl : OpId) (hd : OwnedHandler T) : uprog ring OwnedOp :=
  _ ← modify (fun s => set_controls (<[ ctl := mkControl false false None None ]> (controls s)) s);
  mret (mkOwnedOp ctl (Some hd) false false).

(** The submission part of [OwnedOp::poll]; [open] is the answer of [ensure_running]. *)
Definition owned_submit (open : bool) (op : OwnedOp) : uprog ring (OwnedOp * list Waker) :=
  if oo_queued op then mret (op, []) else
  match oo_handler op with
  | None => panic "unsubmitted owned handler"
  | Some hd =>
      let op' := mkOwnedOp (oo_control op) None (oo_queued op) (oo_done op) in
      if negb open then
        ws ← finish_handler hd (h_fail hd runtime_closed_error); mret (op', ws)
      else
        r ← enqueue hd;
        match r with
        | Ok _ => mret (mkOwnedOp (oo_control op) None true (oo_done op), [])
        | Err hd' =>
            ws ← finish_handler hd' (h_fail hd' runtime_closed_error); mret (op', ws)
        end
  end.

(** One check of [completed]; on success the result is taken. *)
Definition owned_take (op : OwnedOp) : uprog ring (option T * OwnedOp) :=
  s ← get;
  match controls s !! oo_control op with
  | None => panic "unreachable control"
  | Some c =>
      if op_completed c then
        match op_result c with
        | None => panic "published owned result missing"
        | Some v =>
            _ ← modify (fun s => set_controls (<[ oo_control op :=
                   mkControl (op_cancelled c) true (op_waker c) None ]> (controls s)) s);
            mret (Some v, mkOwnedOp (oo_control op) (oo_handler op) (oo_queued op) true)
        end
      else mret (None, op)
  end.

Definition owned_register (cx : Waker) (op : OwnedOp) : uprog ring unit :=
  modify (fun s => set_controls (alter (fun c =>
    mkControl (op_cancelled c) (op_completed c) (replace_waker (op_waker c) cx) (op_result c))
    (oo_control op) (controls s)) s).

(** [OwnedOp::poll]. *)
Definition owned_poll (open : bool) (cx : Waker) (op : OwnedOp) : uprog ring (option T * OwnedOp) :=
  if oo_done op then panic "owned I/O operation polled after completion" else
  '(op, _) ← owned_submit open op;
  '(r, op) ← owned_take op;
  match r with
  | Some v => mret (Some v, op)
  | None => _ ← owned_register cx op; owned_take op
  end.

(** [Drop for OwnedOp]. *)
Definition owned_drop (op : OwnedOp) : uprog ring unit :=
  if oo_queued op && negb (oo_done op) then
    _ ← modify (fun s => set_controls (alter (fun c =>
          mkControl true (op_completed c) (op_waker c) (op_result c)) (oo_control op) (controls s)) s);
    request_owned_cancel (oo_control op)
  else mret tt.
End Futures.
Arguments SubmitEntries {U}.
Arguments OwnedOp {U} T.

(** [io::result]. *)
Definition io_result (r : Z) : result IoError Z := if r <? 0 then Err (RawOs (- r)) else Ok r.
