(* ===== verification/RingInv.v ===== *)
(** * RingInv: the invariant of the io_uring driver

    What ties the userspace queues to the pointers the kernel holds, to the pending
    cancellations, to the counters of the submissions and to the handlers of owned
    operations; and how each primitive change of the state keeps it. *)

From Stdlib Require Import ZArith Lia.
From stdpp Require Import base gmap sets list strings.
From S2P Require Import Prelude Errors Ffi Ring RingOps.

Open Scope Z_scope.

Section Inv.
Context `{U : Uring} {T : Type}.
Notation data_t := (DriverData T).
Notation ring := (Ring T).
Implicit Types (d : data_t) (s : ring) (p t : Z) (id : SubId) (u : SubmissionInner).

(** ** What a pointer is *)

(** The phase of the context at an address, in whichever registry holds it. *)
Definition phase_at d p : option ContextPhase :=
  match contexts d !! p with
  | Some c => Some (cphase c)
  | None =>
      match owned_contexts d !! p with
      | Some c => Some (o_phase c)
      | None => oc_phase <$> owned_cancel_contexts d !! p
      end
  end.

Definition in_phase (ph : ContextPhase) d p : nat := Nat.b2n (bool_decide (phase_at d p = Some ph)).

Definition staged_in d (st : StagedContext) : Prop :=
  match st with
  | SRaw p => p ∈ dom (contexts d)
  | SOwned p => p ∈ dom (owned_contexts d)
  | SOwnedCancel p => p ∈ dom (owned_cancel_contexts d)
  end.

(** The pointers whose terminal CQE is posted. *)
Definition terminals (l : list cqe) : list Z :=
  map cqe_user_data (filter (fun c => cqe_more c = false) l).

(** A CQE with more to come belongs to an original whose terminal CQE is still to
    come; after a terminal CQE no other follows. *)
Fixpoint posted_ok d (fl : list Z) (l : list cqe) : Prop :=
  match l with
  | [] => True
  | c :: l' =>
      (if cqe_more c
       then (cqe_user_data c ∈ fl \/ cqe_user_data c ∈ terminals l') /\
            exists ctx, contexts d !! cqe_user_data c = Some ctx /\ kind ctx = Original
       else cqe_user_data c ∉ map cqe_user_data l') /\
      posted_ok d fl l'
  end.

(** The kernel's queues and the registries agree. *)
Record kernel_inv s (batch : list cqe) : Prop := mkKernelInv {
  ki_sq : sq s = map staged_pointer (staged (data s));
  ki_kind : Forall (staged_in (data s)) (staged (data s));
  ki_raw_owned : dom (contexts (data s)) ## dom (owned_contexts (data s));
  ki_raw_cancel : dom (contexts (data s)) ## dom (owned_cancel_contexts (data s));
  ki_owned_cancel : dom (owned_contexts (data s)) ## dom (owned_cancel_contexts (data s));
  ki_null : 0 ∉ boxes (data s);
  ki_staged p : occ p (sq s) = in_phase Staged (data s) p;
  ki_flight p :
    (occ p (flight s) + occ p (terminals (batch ++ cq s)))%nat = in_phase Submitted (data s) p;
  ki_posted : posted_ok (data s) (flight s) (batch ++ cq s)
}.

(** ** Cancellation *)

(** An original whose cancellation was requested and has not been answered. *)
Definition awaiting (c : CqeContext) : bool :=
  match kind c with Original => cancel_queued c && negb (cancel_seen c) | Cancel => false end.
Definition awaits d p : nat :=
  match contexts d !! p with Some c => Nat.b2n (awaiting c) | None => 0 end.
Definition targets p (c : CqeContext) : nat :=
  match kind c, target c with Cancel, Some t => Nat.b2n (bool_decide (t = p)) | _, _ => 0 end.

Definition owned_awaiting (c : OwnedCqeContext T) : bool := o_cancel_queued c && negb (o_cancel_seen c).
Definition owned_awaits d p : nat :=
  match owned_contexts d !! p with Some c => Nat.b2n (owned_awaiting c) | None => 0 end.
Definition owned_targets p (c : OwnedCancelContext) : nat := Nat.b2n (bool_decide (oc_target c = p)).

Definition context_wf (c : CqeContext) : Prop :=
  match kind c with
  | Original => (cancel_seen c = true -> cancel_queued c = true) /\
                (cphase c = CTerminal -> cancel_queued c = true /\ cancel_seen c = false)
  | Cancel => cphase c <> CTerminal /\ is_Some (target c)
  end.

Definition owned_wf (c : OwnedCqeContext T) : Prop :=
  match handler c with
  | Some hd => o_phase c <> CTerminal /\ h_control hd = o_control c
  | None => o_phase c = CTerminal /\ o_cancel_queued c = true /\ o_cancel_seen c = false
  end /\ (o_cancel_seen c = true -> o_cancel_queued c = true).

(** Every unanswered cancellation is exactly one command or one cancel entry. *)
Record cancel_inv d : Prop := mkCancelInv {
  ci_wf p c : contexts d !! p = Some c -> context_wf c;
  ci_owned_wf p c : owned_contexts d !! p = Some c -> owned_wf c;
  ci_live p c : owned_cancel_contexts d !! p = Some c -> oc_phase c <> CTerminal;
  ci_pending p :
    (occ p (map cc_target (cancel_queue d)) + total (targets p) (contexts d))%nat = awaits d p;
  ci_owned_pending p :
    (occ p (owned_cancel_queue d) + total (owned_targets p) (owned_cancel_contexts d))%nat =
    owned_awaits d p
}.

(** ** Counters *)

Definition live_original id (c : CqeContext) : nat :=
  match kind c, cphase c with
  | Original, Staged | Original, Submitted => Nat.b2n (bool_decide (cstate c = id))
  | _, _ => 0
  end.
Definition staged_original id (c : CqeContext) : nat :=
  match kind c, cphase c with
  | Original, Staged => Nat.b2n (bool_decide (cstate c = id))
  | _, _ => 0
  end.
Definition live_cancel id (c : CqeContext) : nat :=
  match kind c with Original => 0 | Cancel => Nat.b2n (bool_decide (cstate c = id)) end.
Definition commands id (q : list CancelCommand) : nat :=
  length (filter (fun c => cc_state c = id) q).

(** The counters of a submission count its live contexts and commands. *)
Definition counted d id u : Prop :=
  originals u = original_terminal u + Z.of_nat (total (live_original id) (contexts d)) /\
  originals u = accepted u + Z.of_nat (total (staged_original id) (contexts d)) /\
  cancels u = cancel_terminal u +
    Z.of_nat (total (live_cancel id) (contexts d) + commands id (cancel_queue d)).

Record count_inv s : Prop := mkCountInv {
  ni_counted id u : subs s !! id = Some u -> counted (data s) id u;
  ni_state p c : contexts (data s) !! p = Some c -> is_Some (subs s !! cstate c);
  ni_command c : c ∈ cancel_queue (data s) -> is_Some (subs s !! cc_state c)
}.

(** ** Handlers *)

Definition id_of (ctl : OpId) : Z := Z.of_N ctl.
Definition handles_op (ctl : OpId) (c : OwnedCqeContext T) : nat :=
  match handler c with Some hd => Nat.b2n (bool_decide (h_control hd = ctl)) | None => 0 end.
Definition handlers_in (ctl : OpId) (l : list (OwnedHandler T)) : nat :=
  occ (id_of ctl) (map (fun hd => id_of (h_control hd)) l).
Definition open_op (ctl : OpId) (m : gmap OpId (Control T)) : nat :=
  match m !! ctl with Some c => Nat.b2n (negb (op_completed c)) | None => 0 end.

(** Every incomplete operation has its one handler: still with its future, in the
    queue, set aside, about to fail, or in its staged or submitted context. *)
Definition handler_inv s (unqueued : gset OpId) (failing : list (OwnedHandler T)) : Prop :=
  forall ctl,
    (handlers_in ctl (owned_queue s ++ owned_pending (data s) ++ failing) +
     total (handles_op ctl) (owned_contexts (data s)) +
     Nat.b2n (bool_decide (ctl ∈ unqueued)))%nat = open_op ctl (controls s).

Record core s (batch : list cqe) (unqueued : gset OpId) (failing : list (OwnedHandler T)) : Prop := mkCore {
  core_kernel : kernel_inv s batch;
  core_cancel : cancel_inv (data s);
  core_count : count_inv s;
  core_handler : handler_inv s unqueued failing
}.

(** ** Facts about phases *)

Lemma phase_at_boxes d p : is_Some (phase_at d p) <-> p ∈ boxes d.
Proof.
  unfold phase_at, boxes. rewrite !elem_of_union, !elem_of_dom.
  destruct (contexts d !! p) eqn:E1; [naive_solver|].
  destruct (owned_contexts d !! p) eqn:E2; [naive_solver|].
  destruct (owned_cancel_contexts d !! p) eqn:E3; cbn; naive_solver.
Qed.

Lemma in_phase_1 ph d p : in_phase ph d p = 1%nat <-> phase_at d p = Some ph.
Proof. unfold in_phase. case_bool_decide; cbn; naive_solver. Qed.

Lemma in_phase_0 ph d p : in_phase ph d p = 0%nat <-> phase_at d p <> Some ph.
Proof. unfold in_phase. case_bool_decide; cbn; naive_solver. Qed.

Lemma in_phase_ext ph d d' p : phase_at d' p = phase_at d p -> in_phase ph d' p = in_phase ph d p.
Proof. unfold in_phase. by intros ->. Qed.

Lemma in_phase_le ph d p : (in_phase ph d p <= 1)%nat.
Proof. unfold in_phase. case_bool_decide; cbn; lia. Qed.

Lemma terminals_app l1 l2 : terminals (l1 ++ l2) = terminals l1 ++ terminals l2.
Proof. unfold terminals. by rewrite filter_app, map_app. Qed.

Lemma terminals_cons c l :
  terminals (c :: l) = if cqe_more c then terminals l else cqe_user_data c :: terminals l.
Proof. unfold terminals. rewrite filter_cons. by destruct (cqe_more c). Qed.

Lemma terminals_sub p l : p ∈ terminals l -> p ∈ map cqe_user_data l.
Proof.
  induction l as [|c l IH]; [done|]. rewrite terminals_cons. cbn.
  destruct (cqe_more c); rewrite ?elem_of_cons; naive_solver.
Qed.

(** Posted CQEs stay in order when the originals they belong to stay originals. *)
Lemma posted_ok_mono d d' fl fl' l :
  (forall p c, p ∈ fl \/ p ∈ terminals l -> contexts d !! p = Some c -> kind c = Original ->
     exists c', contexts d' !! p = Some c' /\ kind c' = Original) ->
  posted_ok d fl l -> fl ⊆ fl' -> posted_ok d' fl' l.
Proof.
  intros Hk Hl Hfl. induction l as [|c l IH]; [done|]. cbn [posted_ok] in *. destruct Hl as [Hc Hl].
  split.
  - destruct (cqe_more c) eqn:Em; [|done]. destruct Hc as [Hin (ctx & Hctx & Ho)].
    split; [destruct Hin; [left; auto|by right]|].
    apply (Hk _ ctx); [|done..]. rewrite terminals_cons, Em. done.
  - apply IH; [|done]. intros p c' Hp. apply Hk. destruct Hp as [Hp|Hp]; [by left|right].
    rewrite terminals_cons. destruct (cqe_more c); [done|by right].
Qed.
End Inv.
#[global] Arguments terminals {U} l : simpl never.
#[global] Arguments handlers_in {U T} ctl l : simpl never.
