(* ===== verification/RingPrim.v ===== *)
(** * RingPrim: primitive changes that keep the ring invariant

    One lemma per kind of change: an entry is staged, accepted, cancelled, completed
    or answered.  [RingStep] composes them along the operations. *)

From Stdlib Require Import ZArith Lia.
From stdpp Require Import base gmap sets list strings.
From S2P Require Import Prelude Errors Ffi Ring RingOps RingInv.

Open Scope Z_scope.

Section Kernel.
Context `{U : Uring} {T : Type}.
Notation data_t := (DriverData T).
Notation ring := (Ring T).
Implicit Types (d : data_t) (s : ring) (p q : Z) (batch : list cqe).

(** ** The kernel's part *)

Definition same_kernel s s' : Prop :=
  sq s' = sq s /\ flight s' = flight s /\ cq s' = cq s /\ staged (data s') = staged (data s).

(** The registries only lose entries, and what is staged stays where it is. *)
Definition shrinks d d' : Prop :=
  dom (contexts d') ⊆ dom (contexts d) /\ dom (owned_contexts d') ⊆ dom (owned_contexts d) /\
  dom (owned_cancel_contexts d') ⊆ dom (owned_cancel_contexts d) /\
  forall p, phase_at d p = Some Staged -> phase_at d' p = Some Staged.

Lemma phase_at_raw d p c : contexts d !! p = Some c -> phase_at d p = Some (cphase c).
Proof. unfold phase_at. by intros ->. Qed.

Lemma staged_in_shrinks d d' st :
  dom (contexts d) ## dom (owned_contexts d) -> dom (contexts d) ## dom (owned_cancel_contexts d) ->
  dom (owned_contexts d) ## dom (owned_cancel_contexts d) ->
  shrinks d d' -> phase_at d (staged_pointer st) = Some Staged -> staged_in d st -> staged_in d' st.
Proof.
  intros D1 D2 D3 (S1 & S2 & S3 & Hst) Hp. apply Hst in Hp.
  assert (staged_pointer st ∈ boxes d') as Hb by (apply phase_at_boxes; rewrite Hp; eauto).
  unfold boxes in Hb. destruct st; cbn in *; clear - Hb D1 D2 D3 S1 S2 S3; set_solver.
Qed.

(** A change of contexts and posted CQEs that only finishes pointers. *)
Lemma kernel_shrink s s' batch batch' :
  kernel_inv s batch -> same_kernel s s' -> shrinks (data s) (data s') ->
  (forall p, in_phase Staged (data s') p = in_phase Staged (data s) p) ->
  (forall p, (occ p (flight s) + occ p (terminals (batch' ++ cq s)))%nat = in_phase Submitted (data s') p) ->
  posted_ok (data s') (flight s) (batch' ++ cq s) ->
  kernel_inv s' batch'.
Proof.
  intros [Hsq Hk D1 D2 D3 H0 Hs Hf Hp] (Esq & Efl & Ecq & Est) Hsh Hst Hsub Hok.
  assert (Forall (staged_in (data s')) (staged (data s))) as Hk'.
  { apply Forall_forall. intros st Hin. rewrite Forall_forall in Hk.
    apply (staged_in_shrinks (data s)); auto. apply in_phase_1. rewrite <- Hs, Hsq.
    assert (0 < occ (staged_pointer st) (map staged_pointer (staged (data s))))%nat as Ho.
    { apply occ_pos. by apply list_elem_of_fmap_2. }
    pose proof (in_phase_le Staged (data s) (staged_pointer st)) as Hle.
    rewrite <- Hs, Hsq in Hle. lia. }
  destruct Hsh as (S1 & S2 & S3 & _).
  assert (boxes (data s') ⊆ boxes (data s)) as Sb by (clear - S1 S2 S3; unfold boxes; set_solver).
  constructor; rewrite ?Esq, ?Efl, ?Ecq, ?Est; try done.
  - clear - D1 S1 S2. set_solver.
  - clear - D2 S1 S3. set_solver.
  - clear - D3 S2 S3. set_solver.
  - clear - H0 Sb. set_solver.
  - intros p. by rewrite Hst.
Qed.

(** Contexts change without changing phase or kind. *)
Lemma kernel_same s s' batch :
  kernel_inv s batch -> same_kernel s s' ->
  dom (contexts (data s')) = dom (contexts (data s)) ->
  dom (owned_contexts (data s')) = dom (owned_contexts (data s)) ->
  dom (owned_cancel_contexts (data s')) = dom (owned_cancel_contexts (data s)) ->
  (forall p, phase_at (data s') p = phase_at (data s) p) ->
  (forall p c, contexts (data s) !! p = Some c -> kind c = Original ->
     exists c', contexts (data s') !! p = Some c' /\ kind c' = Original) ->
  kernel_inv s' batch.
Proof.
  intros Hi Hsame E1 E2 E3 Hph Hk. eapply kernel_shrink; [done..| | | |].
  - split_and!; [by rewrite ?E1, ?E2, ?E3..|]. intros p. by rewrite Hph.
  - intros p. by apply in_phase_ext.
  - intros p. rewrite (ki_flight _ _ Hi). symmetry. by apply in_phase_ext.
  - eapply posted_ok_mono; [|apply (ki_posted _ _ Hi)|done]. intros p c _. apply Hk.
Qed.

(** Staging a fresh pointer. *)
Lemma kernel_stage s s' st batch :
  let p := staged_pointer st in
  kernel_inv s batch -> p ∉ boxes (data s) -> p <> 0 ->
  (forall q, phase_at (data s') q = if decide (q = p) then Some Staged else phase_at (data s) q) ->
  dom (contexts (data s')) ## dom (owned_contexts (data s')) ->
  dom (contexts (data s')) ## dom (owned_cancel_contexts (data s')) ->
  dom (owned_contexts (data s')) ## dom (owned_cancel_contexts (data s')) ->
  (forall st', staged_in (data s) st' -> staged_in (data s') st') -> staged_in (data s') st ->
  (forall q c, contexts (data s) !! q = Some c -> contexts (data s') !! q = Some c) ->
  sq s' = sq s ++ [p] -> staged (data s') = staged (data s) ++ [st] ->
  flight s' = flight s -> cq s' = cq s ->
  kernel_inv s' batch.
Proof.
  intros p [Hsq Hk D1 D2 D3 H0 Hs Hf Hp] Hfresh Hp0 Hph D1' D2' D3' Hin Hst Hctx Esq Est Efl Ecq.
  assert (phase_at (data s) p = None) as Hnone.
  { apply eq_None_not_Some. by rewrite phase_at_boxes. }
  constructor; rewrite ?Esq, ?Est, ?Efl, ?Ecq; try done.
  - by rewrite map_app, Hsq.
  - apply Forall_app. split; [|by repeat constructor]. eapply Forall_impl; [exact Hk|done].
  - rewrite <- phase_at_boxes, Hph. destruct (decide _) as [E|_]; [congruence|]. by rewrite phase_at_boxes.
  - intros q. rewrite occ_app, Hs. unfold in_phase. rewrite Hph. cbn.
    destruct (decide (q = p)) as [->|Hne].
    + rewrite Hnone. rewrite (bool_decide_true (p = p)) by done. done.
    + rewrite (bool_decide_false (p = q)) by congruence. cbn. lia.
  - intros q. rewrite Hf. unfold in_phase. rewrite Hph.
    destruct (decide (q = p)) as [->|Hne]; [by rewrite Hnone|done].
  - eapply posted_ok_mono; [|exact Hp|done]. eauto.
Qed.

(** The kernel takes the oldest staged entry. *)
Lemma kernel_accept s s' st rest batch :
  let p := staged_pointer st in
  kernel_inv s batch -> staged (data s) = st :: rest ->
  (forall q, phase_at (data s') q = if decide (q = p) then Some Submitted else phase_at (data s) q) ->
  dom (contexts (data s')) = dom (contexts (data s)) ->
  dom (owned_contexts (data s')) = dom (owned_contexts (data s)) ->
  dom (owned_cancel_contexts (data s')) = dom (owned_cancel_contexts (data s)) ->
  (forall q c, contexts (data s) !! q = Some c -> kind c = Original ->
     exists c', contexts (data s') !! q = Some c' /\ kind c' = Original) ->
  sq s' = drop 1 (sq s) -> staged (data s') = rest ->
  flight s' = flight s ++ [p] -> cq s' = cq s ->
  kernel_inv s' batch.
Proof.
  intros p [Hsq Hk D1 D2 D3 H0 Hs Hf Hp] Hst Hph E1 E2 E3 Hctx Esq Est Efl Ecq.
  rewrite Hst in Hsq, Hk. cbn in Hsq. fold p in Hsq.
  assert (in_phase Staged (data s) p = 1%nat) as Hps.
  { pose proof (in_phase_le Staged (data s) p) as Hle. revert Hle. rewrite <- Hs, Hsq. cbn.
    rewrite bool_decide_true by done. cbn. lia. }
  pose proof (proj1 (in_phase_1 _ _ _) Hps) as Hpp.
  constructor; rewrite ?Esq, ?Est, ?Efl, ?Ecq, ?Hsq; try done; try (by rewrite ?E1, ?E2, ?E3).
  - apply Forall_cons in Hk as [_ Hk]. eapply Forall_impl; [exact Hk|].
    intros [r|r|r]; cbn; by rewrite ?E1, ?E2, ?E3.
  - unfold boxes. by rewrite E1, E2, E3.
  - intros q. cbn [drop]. rewrite drop_0. specialize (Hs q). rewrite Hsq in Hs. cbn in *.
    destruct (decide (q = p)) as [->|Hne].
    + rewrite (bool_decide_true (p = p)) in Hs by done. rewrite Hps in Hs. cbn in Hs.
      unfold in_phase. rewrite Hph, decide_True by done. rewrite (bool_decide_false (Some Submitted = _)) by done. cbn. lia.
    + rewrite (bool_decide_false (p = q)) in Hs by congruence. cbn in Hs. rewrite Hs.
      unfold in_phase. by rewrite Hph, decide_False.
  - intros q. rewrite occ_app. specialize (Hf q). cbn. unfold in_phase in *.
    rewrite Hph. destruct (decide (q = p)) as [->|Hne].
    + rewrite Hpp in Hf. rewrite (bool_decide_true (p = p)) by done.
      rewrite bool_decide_true by done. rewrite bool_decide_false in Hf by done. cbn in *. lia.
    + rewrite (bool_decide_false (p = q)) by congruence. cbn. rewrite <- Hf. lia.
  - eapply posted_ok_mono; [|exact Hp|set_solver]. intros q c _. apply Hctx.
Qed.

(** A CQE with more to come leaves its context as it was. *)
Lemma kernel_pop_more s s' c batch :
  kernel_inv s (c :: batch) -> cqe_more c = true -> same_kernel s s' -> data s' = data s ->
  kernel_inv s' batch.
Proof.
  intros Hi Hm Hsame Hd. eapply kernel_shrink; [done..| | | |]; rewrite ?Hd.
  - repeat split; set_solver.
  - done.
  - intros p. rewrite <- (ki_flight _ _ Hi). cbn. by rewrite terminals_cons, Hm.
  - apply (ki_posted _ _ Hi).
Qed.

(** The pointer of the CQE at hand is submitted, and of no other when it is terminal. *)
Lemma popped_submitted s c batch :
  kernel_inv s (c :: batch) -> phase_at (data s) (cqe_user_data c) = Some Submitted.
Proof.
  intros Hi. apply in_phase_1. pose proof (in_phase_le Submitted (data s) (cqe_user_data c)) as Hle.
  rewrite <- (ki_flight _ _ Hi) in Hle |- *. pose proof (ki_posted _ _ Hi) as [Hc _].
  cbn in *. rewrite terminals_cons in *. destruct (cqe_more c).
  - destruct Hc as [[Hin|Hin] _]; apply occ_pos in Hin; lia.
  - cbn in *. rewrite bool_decide_true in * by done. cbn in *. lia.
Qed.

Lemma popped_terminal s c batch :
  kernel_inv s (c :: batch) -> cqe_more c = false ->
  cqe_user_data c ∉ flight s /\ cqe_user_data c ∉ map cqe_user_data (batch ++ cq s).
Proof.
  intros Hi Hm. pose proof (in_phase_le Submitted (data s) (cqe_user_data c)) as Hle.
  rewrite <- (ki_flight _ _ Hi) in Hle. pose proof (ki_posted _ _ Hi) as [Hc _].
  cbn in *. rewrite terminals_cons, Hm in *. cbn in Hle. rewrite bool_decide_true in Hle by done.
  cbn in Hle. split; [|done]. rewrite occ_zero. lia.
Qed.

(** A terminal CQE: its pointer is no longer submitted, and at most one retired
    context disappears with it. *)
Lemma kernel_pop_terminal s s' c batch :
  let p := cqe_user_data c in
  kernel_inv s (c :: batch) -> cqe_more c = false -> same_kernel s s' ->
  dom (contexts (data s')) ⊆ dom (contexts (data s)) ->
  dom (owned_contexts (data s')) ⊆ dom (owned_contexts (data s)) ->
  dom (owned_cancel_contexts (data s')) ⊆ dom (owned_cancel_contexts (data s)) ->
  (phase_at (data s') p = None \/ phase_at (data s') p = Some CTerminal) ->
  (forall q, q <> p -> phase_at (data s') q = phase_at (data s) q \/
     phase_at (data s) q = Some CTerminal /\ phase_at (data s') q = None) ->
  (forall q x, q <> p -> phase_at (data s) q <> Some CTerminal ->
     contexts (data s) !! q = Some x -> kind x = Original ->
     exists x', contexts (data s') !! q = Some x' /\ kind x' = Original) ->
  kernel_inv s' batch.
Proof.
  intros p Hi Hm Hsame S1 S2 S3 Hp Hph Hctx.
  pose proof (popped_submitted _ _ _ Hi) as Hsub. fold p in Hsub.
  destruct (popped_terminal _ _ _ Hi Hm) as [Hnf Hnl]. fold p in Hnf, Hnl.
  assert (forall q, in_phase Staged (data s') q = in_phase Staged (data s) q) as Hst.
  { intros q. unfold in_phase. destruct (decide (q = p)) as [->|Hne].
    - rewrite Hsub. by destruct Hp as [-> | ->].
    - destruct (Hph q Hne) as [->|[-> ->]]; done. }
  eapply kernel_shrink; [exact Hi|done| |exact Hst| |].
  - split_and!; [done..|]. intros q Hq. apply in_phase_1. rewrite Hst. by apply in_phase_1.
  - intros q. pose proof (ki_flight _ _ Hi q) as Hf. cbn in Hf. rewrite terminals_cons, Hm in Hf. cbn in Hf.
    fold p in Hf. destruct (decide (q = p)) as [->|Hne].
    + apply occ_zero in Hnf. rewrite Hnf.
      assert (occ p (terminals (batch ++ cq s)) = 0%nat) as Hz.
      { apply occ_zero. contradict Hnl. by apply terminals_sub. }
      rewrite Hz. symmetry. apply in_phase_0. destruct Hp as [-> | ->]; done.
    + rewrite bool_decide_false in Hf by congruence. cbn in Hf. rewrite Hf.
      unfold in_phase. destruct (Hph q Hne) as [->|[-> ->]]; done.
  - pose proof (ki_posted _ _ Hi) as [_ Hok]. fold (batch ++ cq s) in Hok.
    eapply posted_ok_mono; [|exact Hok|done]. intros q x Hq.
    assert (q <> p) as Hne.
    { intros ->. destruct Hq as [Hq|Hq]; [done|]. by apply terminals_sub in Hq. }
    apply Hctx; [done|].
    assert (phase_at (data s) q = Some Submitted) as ->; [|done].
    apply in_phase_1. pose proof (in_phase_le Submitted (data s) q) as Hle. revert Hle.
    rewrite <- (ki_flight _ _ Hi). cbn. rewrite terminals_cons, Hm. cbn.
    destruct Hq as [Hq|Hq]; apply occ_pos in Hq; lia.
Qed.
End Kernel.

Section Raw.
Context `{U : Uring} {T : Type}.
Notation data_t := (DriverData T).
Notation ring := (Ring T).
Implicit Types (d : data_t) (s : ring) (p q : Z) (id : SubId) (c : CqeContext).

(** ** The raw contexts' part *)

(** What the raw half of the cancellation invariant speaks about. *)
Definition raw_inv (m : gmap Z CqeContext) (q : list CancelCommand) : Prop :=
  (forall p c, m !! p = Some c -> context_wf c) /\
  forall p, (occ p (map cc_target q) + total (targets p) m)%nat =
    match m !! p with Some c => Nat.b2n (awaiting c) | None => 0%nat end.

Definition owned_inv (m : gmap Z (OwnedCqeContext T)) (cm : gmap Z OwnedCancelContext) (q : list Z) : Prop :=
  (forall p x, m !! p = Some x -> owned_wf x) /\
  (forall p x, cm !! p = Some x -> oc_phase x <> CTerminal) /\
  forall p, (occ p q + total (owned_targets p) cm)%nat =
    match m !! p with Some x => Nat.b2n (owned_awaiting x) | None => 0%nat end.

Lemma cancel_inv_split d :
  cancel_inv d <-> raw_inv (contexts d) (cancel_queue d) /\
                   owned_inv (owned_contexts d) (owned_cancel_contexts d) (owned_cancel_queue d).
Proof.
  split.
  - intros [H1 H2 H3 H4 H5]. exact (conj (conj H1 H4) (conj H2 (conj H3 H5))).
  - intros [[H1 H4] (H2 & H3 & H5)]. exact (mkCancelInv _ H1 H2 H3 H4 H5).
Qed.

Implicit Types (m : gmap Z CqeContext) (cq : list CancelCommand).

(** A context that is no cancellation and awaits none changes no tally. *)
Lemma targets_original p c : kind c = Original -> targets p c = 0%nat.
Proof. unfold targets. by intros ->. Qed.

Lemma awaiting_cancel c : kind c = Cancel -> awaiting c = false.
Proof. unfold awaiting. by intros ->. Qed.

Lemma raw_insert_original m cq p c :
  raw_inv m cq -> m !! p = None -> kind c = Original -> context_wf c -> cancel_queued c = false ->
  raw_inv (<[ p := c ]> m) cq.
Proof.
  intros [Hw Hp] Hn Hk Hc Hq. split.
  - intros q c'. destruct (decide (q = p)) as [->|Hne].
    + rewrite lookup_insert_eq. by intros [= <-].
    + rewrite lookup_insert_ne by done. apply Hw.
  - intros q. rewrite total_insert, targets_original, Hp by done.
    destruct (decide (q = p)) as [->|Hne].
    + rewrite lookup_insert_eq, Hn. unfold awaiting. by rewrite Hk, Hq.
    + by rewrite lookup_insert_ne.
Qed.

Lemma raw_insert_cancel m cmd cq p c :
  raw_inv m (cmd :: cq) -> m !! p = None -> kind c = Cancel -> cphase c <> CTerminal ->
  target c = Some (cc_target cmd) -> raw_inv (<[ p := c ]> m) cq.
Proof.
  intros [Hw Hp] Hn Hk Hph Ht. split.
  - intros q c'. destruct (decide (q = p)) as [->|Hne].
    + rewrite lookup_insert_eq. intros [= <-]. unfold context_wf. rewrite Hk, Ht. eauto.
    + rewrite lookup_insert_ne by done. apply Hw.
  - intros q. rewrite total_insert by done. unfold targets at 1. rewrite Hk, Ht.
    specialize (Hp q). cbn in Hp.
    destruct (decide (q = p)) as [->|Hne].
    + rewrite lookup_insert_eq, awaiting_cancel by done. rewrite Hn in Hp. cbn. lia.
    + rewrite lookup_insert_ne by done. rewrite <- Hp. lia.
Qed.

(** A context changes without its kind, target and cancellation flags. *)
Lemma raw_rephase m cq p c c' :
  raw_inv m cq -> m !! p = Some c -> kind c' = kind c -> target c' = target c ->
  cancel_queued c' = cancel_queued c -> cancel_seen c' = cancel_seen c -> context_wf c' ->
  raw_inv (<[ p := c' ]> m) cq.
Proof.
  intros [Hw Hp] Hm Hk Ht Hq Hs Hc. split.
  - intros q x. destruct (decide (q = p)) as [->|Hne].
    + rewrite lookup_insert_eq. by intros [= <-].
    + rewrite lookup_insert_ne by done. apply Hw.
  - intros q. pose proof (total_update (targets q) m p c c' Hm) as Hu.
    assert (targets q c' = targets q c) as E by (unfold targets; by rewrite Hk, Ht).
    specialize (Hp q). destruct (decide (q = p)) as [->|Hne].
    + rewrite lookup_insert_eq. rewrite Hm in Hp. unfold awaiting in *. rewrite Hk, Hq, Hs. lia.
    + rewrite lookup_insert_ne by done. lia.
Qed.

(** A live original gets its one cancellation command. *)
Lemma raw_mark m cq cmd c :
  let p := cc_target cmd in
  raw_inv m cq -> m !! p = Some c -> kind c = Original -> cphase c <> CTerminal ->
  cancel_queued c = false -> raw_inv (<[ p := set_cancel_queued true c ]> m) (cq ++ [cmd]).
Proof.
  intros p [Hw Hp] Hm Hk Hph Hq. pose proof (Hw p c Hm) as Hc. unfold context_wf in Hc. rewrite Hk in Hc.
  assert (cancel_seen c = false) as Hs by (destruct (cancel_seen c); [naive_solver congruence|done]).
  split.
  - intros q x. destruct (decide (q = p)) as [->|Hne].
    + rewrite lookup_insert_eq. intros [= <-]. unfold context_wf. cbn. rewrite Hk. done.
    + rewrite lookup_insert_ne by done. apply Hw.
  - intros q. pose proof (total_update (targets q) m p c (set_cancel_queued true c) Hm) as Hu.
    rewrite (targets_original q (set_cancel_queued true c)), (targets_original q c) in Hu by done.
    rewrite map_app, occ_app. specialize (Hp q). cbn [map occ Nat.add]. fold p. destruct (decide (q = p)) as [->|Hne].
    + rewrite lookup_insert_eq, (bool_decide_true (p = p)) by done. rewrite Hm in Hp.
      unfold awaiting in *. cbn [kind cancel_queued cancel_seen set_cancel_queued]. rewrite Hk, Hq, Hs in *. cbn in *. lia.
    + rewrite lookup_insert_ne, (bool_decide_false (p = q)) by congruence. cbn [Nat.b2n]. lia.
Qed.

(** A retired original that awaits no cancellation disappears. *)
Lemma raw_delete_original m cq p c :
  raw_inv m cq -> m !! p = Some c -> kind c = Original -> awaiting c = false ->
  raw_inv (delete p m) cq.
Proof.
  intros [Hw Hp] Hm Hk Ha. split.
  - intros q x Hx. apply lookup_delete_Some in Hx as [_ Hx]. by eapply Hw.
  - intros q. specialize (Hp q). rewrite (total_delete _ m p c Hm), targets_original in Hp by done.
    destruct (decide (q = p)) as [->|Hne].
    + rewrite lookup_delete_eq. rewrite Hm, Ha in Hp. exact Hp.
    + by rewrite lookup_delete_ne.
Qed.

(** A cancellation CQE finds the original it cancels, still awaiting. *)
Lemma cancel_target_found m cq p c t :
  raw_inv m cq -> m !! p = Some c -> kind c = Cancel -> target c = Some t ->
  exists o, m !! t = Some o /\ awaiting o = true /\ t <> p.
Proof.
  intros [Hw Hp] Hm Hk Ht. specialize (Hp t).
  pose proof (total_ge (targets t) m p c Hm) as Hge. unfold targets in Hge at 1.
  rewrite Hk, Ht, bool_decide_true in Hge by done. cbn in Hge.
  destruct (m !! t) as [o|] eqn:Ho; [|lia]. exists o.
  destruct (awaiting o) eqn:Ea; [|cbn in Hp; lia]. split; [done|]. split; [done|].
  intros ->. rewrite Hm in Ho. injection Ho as <-. by rewrite awaiting_cancel in Ea.
Qed.

(** Retiring a cancellation marks its original, or drops it when it is terminal. *)
Lemma raw_answer m cq p c t o m' :
  raw_inv m cq -> m !! p = Some c -> kind c = Cancel -> target c = Some t ->
  m !! t = Some o -> awaiting o = true ->
  m' = (if bool_decide (cphase o = CTerminal) then delete t (delete p m)
        else <[ t := set_cancel_seen true o ]> (delete p m)) ->
  raw_inv m' cq.
Proof.
  intros [Hw Hp] Hm Hk Ht Ho Ha ->.
  assert (t <> p) as Hne by (intros ->; rewrite Hm in Ho; injection Ho as <-; by rewrite awaiting_cancel in Ha).
  assert (kind o = Original) as Hko by (unfold awaiting in Ha; by destruct (kind o)).
  assert (delete p m !! t = Some o) as Hdo by (by rewrite lookup_delete_ne).
  pose proof (Hw t o Ho) as Hwo. unfold context_wf in Hwo. rewrite Hko in Hwo.
  case_bool_decide as Hph.
  - split.
    + intros q x Hx. apply lookup_delete_Some in Hx as [_ Hx]. apply lookup_delete_Some in Hx as [_ Hx].
      by eapply Hw.
    + intros q. specialize (Hp q). rewrite (total_delete _ m p c Hm) in Hp.
      rewrite (total_delete _ (delete p m) t o Hdo), (targets_original q o) in Hp by done.
      unfold targets at 1 in Hp. rewrite Hk, Ht in Hp. destruct (decide (q = t)) as [->|Hq].
      * rewrite lookup_delete_eq. rewrite Ho, Ha, bool_decide_true in Hp by done. cbn in Hp. lia.
      * rewrite lookup_delete_ne by done. rewrite bool_decide_false in Hp by congruence. cbn in Hp.
        destruct (decide (q = p)) as [->|Hqp].
        -- rewrite lookup_delete_eq. rewrite Hm, awaiting_cancel in Hp by done. cbn in Hp. lia.
        -- rewrite lookup_delete_ne by done. rewrite <- Hp. lia.
  - split.
    + intros q x. destruct (decide (q = t)) as [->|Hq].
      * rewrite lookup_insert_eq. intros [= <-]. unfold context_wf. cbn. rewrite Hko.
        unfold awaiting in Ha. rewrite Hko in Ha. by destruct (cancel_queued o).
      * rewrite lookup_insert_ne by done. intros Hx. apply lookup_delete_Some in Hx as [_ Hx]. by eapply Hw.
    + intros q. specialize (Hp q). rewrite (total_delete _ m p c Hm) in Hp.
      pose proof (total_update (targets q) (delete p m) t o (set_cancel_seen true o) Hdo) as Hu.
      rewrite (targets_original q (set_cancel_seen true o)), (targets_original q o) in Hu by done.
      unfold targets at 1 in Hp. rewrite Hk, Ht in Hp. destruct (decide (q = t)) as [->|Hq].
      * rewrite lookup_insert_eq. rewrite Ho, Ha, bool_decide_true in Hp by done.
        unfold awaiting. cbn in *. rewrite Hko, andb_false_r. cbn. lia.
      * rewrite lookup_insert_ne by done. rewrite bool_decide_false in Hp by congruence. cbn in Hp.
        destruct (decide (q = p)) as [->|Hqp].
        -- rewrite lookup_delete_eq. rewrite Hm, awaiting_cancel in Hp by done. cbn in Hp. lia.
        -- rewrite lookup_delete_ne by done. rewrite <- Hp. lia.
Qed.
End Raw.
