(* ===== verification/RingCount.v ===== *)
(** * RingCount: the counters, the owned contexts and the handlers

    How the primitive changes keep the counters of the submissions, the
    cancellations of owned operations, and the single handler of each of them. *)

From Stdlib Require Import ZArith Lia.
From stdpp Require Import base gmap sets list strings.
From S2P Require Import Prelude Errors Ffi Ring RingOps RingInv RingPrim.

Open Scope Z_scope.

Lemma alter_Some `{Countable K} {A} (f : A -> A) (m : gmap K A) k a :
  m !! k = Some a -> alter f k m = <[ k := f a ]> m.
Proof.
  intros Hk. apply map_eq. intros j. destruct (decide (j = k)) as [->|Hne].
  - by rewrite lookup_alter_eq, lookup_insert_eq, Hk.
  - by rewrite lookup_alter_ne, lookup_insert_ne.
Qed.

Section Counters.
Context `{U : Uring} {T : Type}.
Notation ring := (Ring T).
Implicit Types (s : ring) (p : Z) (id i : SubId) (u : SubmissionInner).
Implicit Types (m : gmap Z CqeContext) (q : list CancelCommand).

Definition counted_in m q id u : Prop :=
  originals u = original_terminal u + Z.of_nat (total (live_original id) m) /\
  originals u = accepted u + Z.of_nat (total (staged_original id) m) /\
  cancels u = cancel_terminal u + Z.of_nat (total (live_cancel id) m + commands id q).

(** The rest of a submission's state does not matter. *)
Definition counters u := (originals u, accepted u, original_terminal u, cancels u, cancel_terminal u).

Lemma counted_ext m q id u u' : counters u' = counters u -> counted_in m q id u -> counted_in m q id u'.
Proof. unfold counters, counted_in. intros [= -> -> -> -> ->]. done. Qed.

Lemma count_inv_update s s' i (f : SubmissionInner -> SubmissionInner) :
  count_inv s -> subs s' = alter f i (subs s) ->
  (forall id u, counted_in (contexts (data s)) (cancel_queue (data s)) id u ->
     counted_in (contexts (data s')) (cancel_queue (data s')) id (if decide (id = i) then f u else u)) ->
  (forall p c, contexts (data s') !! p = Some c -> is_Some (subs s !! cstate c)) ->
  (forall cmd, cmd ∈ cancel_queue (data s') -> is_Some (subs s !! cc_state cmd)) ->
  count_inv s'.
Proof.
  intros [Hc _ _] Hs Hu H1 H2. constructor; rewrite ?Hs.
  - intros id u. destruct (decide (id = i)) as [->|Hne].
    + rewrite lookup_alter_eq. intros (v & Hv & ->)%fmap_Some.
      specialize (Hu i v (Hc i v Hv)). by rewrite decide_True in Hu by done.
    + rewrite lookup_alter_ne by done. intros Hv.
      specialize (Hu id u (Hc id u Hv)). by rewrite decide_False in Hu by done.
  - intros p c Hp. specialize (H1 p c Hp). destruct (decide (i = cstate c)) as [->|Hne].
    + rewrite lookup_alter_eq. by rewrite fmap_is_Some.
    + by rewrite lookup_alter_ne.
  - intros c Hp. specialize (H2 c Hp). destruct (decide (i = cc_state c)) as [->|Hne].
    + rewrite lookup_alter_eq. by rewrite fmap_is_Some.
    + by rewrite lookup_alter_ne.
Qed.

Lemma commands_app id q1 q2 : commands id (q1 ++ q2) = (commands id q1 + commands id q2)%nat.
Proof. unfold commands. by rewrite filter_app, length_app. Qed.

Lemma commands_cons id c q :
  commands id (c :: q) = (Nat.b2n (bool_decide (cc_state c = id)) + commands id q)%nat.
Proof. unfold commands. rewrite filter_cons. case_decide; case_bool_decide; cbn; congruence. Qed.

Ltac tally := repeat case_bool_decide; simplify_eq; cbn in *; lia.

Lemma counted_stage_original m q p (c : CqeContext) id u :
  counted_in m q id u -> m !! p = None -> kind c = Original -> cphase c = Staged ->
  counted_in (<[ p := c ]> m) q id
    (if decide (id = cstate c) then set_originals (originals u + 1) u else u).
Proof.
  intros (H1 & H2 & H3) Hn Hk Hp. unfold counted_in. rewrite !total_insert by done.
  unfold live_original at 1, staged_original at 1, live_cancel at 1. rewrite Hk, Hp.
  destruct (decide (id = cstate c)); tally.
Qed.

Lemma counted_stage_cancel m q cmd p (c : CqeContext) id u :
  counted_in m (cmd :: q) id u -> m !! p = None -> kind c = Cancel -> cstate c = cc_state cmd ->
  counted_in (<[ p := c ]> m) q id u.
Proof.
  intros (H1 & H2 & H3) Hn Hk Hs. rewrite commands_cons in H3. unfold counted_in.
  rewrite !total_insert by done.
  unfold live_original at 1, staged_original at 1, live_cancel at 1. rewrite Hk, Hs. lia.
Qed.

Lemma counted_mark m q p (c : CqeContext) cmd id u :
  counted_in m q id u -> m !! p = Some c -> cc_state cmd = cstate c ->
  counted_in (<[ p := set_cancel_queued true c ]> m) (q ++ [cmd]) id
    (if decide (id = cstate c) then set_cancels (cancels u + 1) u else u).
Proof.
  intros (H1 & H2 & H3) Hm Hs. unfold counted_in.
  pose proof (total_update (live_original id) m p c (set_cancel_queued true c) Hm) as E1.
  pose proof (total_update (staged_original id) m p c (set_cancel_queued true c) Hm) as E2.
  pose proof (total_update (live_cancel id) m p c (set_cancel_queued true c) Hm) as E3.
  assert (live_original id (set_cancel_queued true c) = live_original id c) as F1 by done.
  assert (staged_original id (set_cancel_queued true c) = staged_original id c) as F2 by done.
  assert (live_cancel id (set_cancel_queued true c) = live_cancel id c) as F3 by done.
  rewrite commands_app, commands_cons, Hs. cbn [commands]. change (commands id []) with 0%nat.
  case_decide.
  - rewrite bool_decide_true by done. cbn [originals accepted original_terminal cancels cancel_terminal set_cancels Nat.b2n]. lia.
  - rewrite bool_decide_false by done. cbn [Nat.b2n]. lia.
Qed.

Lemma counted_accept m q p (c : CqeContext) id u :
  counted_in m q id u -> m !! p = Some c -> cphase c = Staged ->
  counted_in (<[ p := set_cphase Submitted c ]> m) q id
    (match kind c with
     | Original => if decide (id = cstate c) then set_admission_waker None (set_accepted (accepted u + 1) u) else u
     | Cancel => u
     end).
Proof.
  intros (H1 & H2 & H3) Hm Hp.
  pose proof (total_update (live_original id) m p c (set_cphase Submitted c) Hm) as E1.
  pose proof (total_update (staged_original id) m p c (set_cphase Submitted c) Hm) as E2.
  pose proof (total_update (live_cancel id) m p c (set_cphase Submitted c) Hm) as E3.
  unfold live_original at 2 4 in E1. unfold staged_original at 2 4 in E2. unfold live_cancel at 2 4 in E3.
  unfold counted_in.
  cbn [kind cphase cstate set_cphase] in E1, E2, E3. rewrite Hp in E1, E2.
  destruct (kind c) eqn:Hk; [destruct (decide (id = cstate c))|]; rewrite ?Hk in E1, E2, E3; tally.
Qed.

(** The original's terminal CQE: its context leaves or stays as a terminal one. *)
Lemma counted_terminal m q p (c : CqeContext) id u m' :
  counted_in m q id u -> m !! p = Some c -> kind c = Original -> cphase c = Submitted ->
  m' = delete p m \/ m' = <[ p := set_cphase CTerminal c ]> m ->
  counted_in m' q id
    (if decide (id = cstate c) then set_original_terminal (original_terminal u + 1) u else u).
Proof.
  intros (H1 & H2 & H3) Hm Hk Hp Hm'. unfold counted_in.
  assert (total (live_original id) m' + live_original id c = total (live_original id) m /\
    total (staged_original id) m' + staged_original id c = total (staged_original id) m /\
    total (live_cancel id) m' + live_cancel id c = total (live_cancel id) m)%nat as (E1 & E2 & E3).
  { destruct Hm' as [-> | ->].
    - rewrite (total_delete (live_original id) m p c Hm), (total_delete (staged_original id) m p c Hm),
        (total_delete (live_cancel id) m p c Hm). lia.
    - pose proof (total_update (live_original id) m p c (set_cphase CTerminal c) Hm) as E1.
      pose proof (total_update (staged_original id) m p c (set_cphase CTerminal c) Hm) as E2.
      pose proof (total_update (live_cancel id) m p c (set_cphase CTerminal c) Hm) as E3.
      unfold live_original at 4 in E1. unfold staged_original at 4 in E2. unfold live_cancel at 4 in E3.
      cbn [kind cphase set_cphase] in *. rewrite Hk in E1, E2, E3. lia. }
  unfold live_original at 2 in E1. unfold staged_original at 2 in E2. unfold live_cancel at 2 in E3.
  rewrite Hk, Hp in E1. rewrite Hk, Hp in E2. rewrite Hk in E3. destruct (decide (id = cstate c)); tally.
Qed.

(** The cancellation's CQE: its context leaves, its original too when retired. *)
Lemma counted_answer m q p (c : CqeContext) t o id u m' :
  counted_in m q id u -> m !! p = Some c -> kind c = Cancel ->
  m !! t = Some o -> t <> p -> kind o = Original ->
  m' = (if bool_decide (cphase o = CTerminal) then delete t (delete p m)
        else <[ t := set_cancel_seen true o ]> (delete p m)) ->
  counted_in m' q id (if decide (id = cstate c) then set_cancel_terminal (cancel_terminal u + 1) u else u).
Proof.
  intros (H1 & H2 & H3) Hm Hk Ho Hne Hko ->. unfold counted_in.
  assert (delete p m !! t = Some o) as Hdo by (by rewrite lookup_delete_ne).
  set (m' := if bool_decide _ then _ else _).
  assert (forall f : CqeContext -> nat,
    (cphase o = CTerminal -> f o = 0%nat) -> f (set_cancel_seen true o) = f o ->
    total f m = (f c + total f m')%nat) as E.
  { intros f Hf0 Hf1. rewrite (total_delete f m p c Hm). unfold m'. case_bool_decide as Hph.
    - rewrite (total_delete f (delete p m) t o Hdo), Hf0 by done. lia.
    - pose proof (total_update f (delete p m) t o (set_cancel_seen true o) Hdo). lia. }
  rewrite (E (live_original id)) in H1 by (unfold live_original; cbn; rewrite ?Hko; first [done | by intros ->]).
  rewrite (E (staged_original id)) in H2 by (unfold staged_original; cbn; rewrite ?Hko; first [done | by intros ->]).
  rewrite (E (live_cancel id)) in H3 by (unfold live_cancel; cbn; by rewrite ?Hko).
  unfold live_original at 1 in H1. unfold staged_original at 1 in H2. unfold live_cancel at 1 in H3.
  rewrite Hk in *. destruct (decide (id = cstate c)); tally.
Qed.
End Counters.

Section Owned.
Context `{U : Uring} {T : Type}.
Notation ring := (Ring T).
Notation owned := (OwnedCqeContext T).
Implicit Types (m : gmap Z owned) (cm : gmap Z OwnedCancelContext) (q : list Z) (p t : Z).

(** ** The owned contexts *)

Lemma owned_insert m cm q p (x : owned) :
  owned_inv m cm q -> m !! p = None -> owned_wf x -> o_cancel_queued x = false ->
  owned_inv (<[ p := x ]> m) cm q.
Proof.
  intros (Hw & Hl & Hp) Hn Hx Hq. split_and!; [|done|].
  - intros r y. destruct (decide (r = p)) as [->|Hne].
    + rewrite lookup_insert_eq. by intros [= <-].
    + rewrite lookup_insert_ne by done. apply Hw.
  - intros r. rewrite Hp. destruct (decide (r = p)) as [->|Hne].
    + rewrite lookup_insert_eq, Hn. unfold owned_awaiting. by rewrite Hq.
    + by rewrite lookup_insert_ne.
Qed.

Lemma owned_insert_cancel m cm t q p x :
  owned_inv m cm (t :: q) -> cm !! p = None -> oc_target x = t -> oc_phase x <> CTerminal ->
  owned_inv m (<[ p := x ]> cm) q.
Proof.
  intros (Hw & Hl & Hp) Hn <- Hx. split_and!; [done| |].
  - intros r y. destruct (decide (r = p)) as [->|Hne].
    + rewrite lookup_insert_eq. by intros [= <-].
    + rewrite lookup_insert_ne by done. apply Hl.
  - intros r. rewrite <- Hp, total_insert by done. unfold owned_targets at 1. cbn. lia.
Qed.

(** An owned context changes without its cancellation flags. *)
Lemma owned_rephase m cm q p (x x' : owned) :
  owned_inv m cm q -> m !! p = Some x -> owned_awaiting x' = owned_awaiting x -> owned_wf x' ->
  owned_inv (<[ p := x' ]> m) cm q.
Proof.
  intros (Hw & Hl & Hp) Hm Ha Hx. split_and!; [|done|].
  - intros r y. destruct (decide (r = p)) as [->|Hne].
    + rewrite lookup_insert_eq. by intros [= <-].
    + rewrite lookup_insert_ne by done. apply Hw.
  - intros r. rewrite Hp. destruct (decide (r = p)) as [->|Hne].
    + by rewrite lookup_insert_eq, Hm, Ha.
    + by rewrite lookup_insert_ne.
Qed.

Lemma owned_cancel_rephase m cm q p x x' :
  owned_inv m cm q -> cm !! p = Some x -> oc_target x' = oc_target x -> oc_phase x' <> CTerminal ->
  owned_inv m (<[ p := x' ]> cm) q.
Proof.
  intros (Hw & Hl & Hp) Hm Ht Hx. split_and!; [done| |].
  - intros r y. destruct (decide (r = p)) as [->|Hne].
    + rewrite lookup_insert_eq. by intros [= <-].
    + rewrite lookup_insert_ne by done. apply Hl.
  - intros r. rewrite <- Hp. pose proof (total_update (owned_targets r) cm p x x' Hm) as E.
    assert (owned_targets r x' = owned_targets r x) as F by (unfold owned_targets; by rewrite Ht). lia.
Qed.

Lemma owned_mark m cm q t (x : owned) :
  owned_inv m cm q -> m !! t = Some x -> o_phase x <> CTerminal -> o_cancel_queued x = false ->
  owned_inv (<[ t := mkOwned (o_phase x) (o_control x) (handler x) true (o_cancel_seen x) ]> m) cm (q ++ [t]).
Proof.
  intros (Hw & Hl & Hp) Hm Hph Hq. destruct (Hw t x Hm) as [Hx Hsq].
  assert (o_cancel_seen x = false) as Hs by (destruct (o_cancel_seen x); [naive_solver congruence|done]).
  split_and!; [|done|].
  - intros r y. destruct (decide (r = t)) as [->|Hne].
    + rewrite lookup_insert_eq. intros [= <-]. split; cbn; [|done].
      destruct (handler x); [done|]. by destruct Hx.
    + rewrite lookup_insert_ne by done. apply Hw.
  - intros r. specialize (Hp r). rewrite occ_app. cbn [occ]. destruct (decide (r = t)) as [->|Hne].
    + rewrite lookup_insert_eq, bool_decide_true by done. rewrite Hm in Hp.
      unfold owned_awaiting in *. cbn in *. rewrite Hq in Hp. rewrite Hs. cbn in *. lia.
    + rewrite lookup_insert_ne, bool_decide_false by congruence. cbn. lia.
Qed.

Lemma owned_delete m cm q p (x : owned) :
  owned_inv m cm q -> m !! p = Some x -> owned_awaiting x = false -> owned_inv (delete p m) cm q.
Proof.
  intros (Hw & Hl & Hp) Hm Ha. split_and!; [|done|].
  - intros r y Hy. apply lookup_delete_Some in Hy as [_ Hy]. by eapply Hw.
  - intros r. rewrite Hp. destruct (decide (r = p)) as [->|Hne].
    + by rewrite lookup_delete_eq, Hm, Ha.
    + by rewrite lookup_delete_ne.
Qed.

Lemma owned_target_found m cm q p x :
  owned_inv m cm q -> cm !! p = Some x ->
  exists y, m !! oc_target x = Some y /\ owned_awaiting y = true.
Proof.
  intros (Hw & Hl & Hp) Hm. specialize (Hp (oc_target x)).
  pose proof (total_ge (owned_targets (oc_target x)) cm p x Hm) as Hge.
  unfold owned_targets in Hge at 1. rewrite bool_decide_true in Hge by done. cbn in Hge.
  destruct (m !! oc_target x) as [y|]; [|lia]. exists y. split; [done|].
  destruct (owned_awaiting y); [done|]. cbn in Hp. lia.
Qed.

Lemma owned_answer m cm q p x y m' :
  owned_inv m cm q -> cm !! p = Some x -> m !! oc_target x = Some y -> owned_awaiting y = true ->
  m' = (if bool_decide (o_phase y = CTerminal) then delete (oc_target x) m
        else <[ oc_target x := mkOwned (o_phase y) (o_control y) (handler y) (o_cancel_queued y) true ]> m) ->
  owned_inv m' (delete p cm) q.
Proof.
  intros (Hw & Hl & Hp) Hm Hy Ha ->.
  assert (forall r, (occ r q + total (owned_targets r) (delete p cm) +
            Nat.b2n (bool_decide (oc_target x = r)))%nat =
            match m !! r with Some z => Nat.b2n (owned_awaiting z) | None => 0%nat end) as Hd.
  { intros r. rewrite <- Hp, (total_delete _ cm p x Hm). unfold owned_targets at 2. lia. }
  assert (forall m'', (forall r, r <> oc_target x -> m'' !! r = m !! r) ->
            match m'' !! oc_target x with Some z => owned_awaiting z = false /\ owned_wf z | None => True end ->
            owned_inv m'' (delete p cm) q) as Hfin.
  { intros m'' Hother Ht. split_and!.
    - intros r z Hz. destruct (decide (r = oc_target x)) as [->|Hne].
      + rewrite Hz in Ht. tauto.
      + rewrite Hother in Hz by done. by eapply Hw.
    - intros r z Hz. apply lookup_delete_Some in Hz as [_ Hz]. by eapply Hl.
    - intros r. specialize (Hd r). destruct (decide (r = oc_target x)) as [->|Hne].
      + rewrite bool_decide_true, Hy, Ha in Hd by done. cbn in Hd.
        destruct (m'' !! oc_target x) as [z|]; [destruct Ht as [-> _]; cbn|]; lia.
      + rewrite bool_decide_false in Hd by congruence. rewrite Hother by done. cbn in Hd. lia. }
  apply Hfin; case_bool_decide as Hph.
  - intros r Hr. by rewrite lookup_delete_ne.
  - intros r Hr. by rewrite lookup_insert_ne.
  - by rewrite lookup_delete_eq.
  - rewrite lookup_insert_eq. destruct (Hw _ y Hy) as [Hx _]. unfold owned_awaiting in *. cbn.
    rewrite andb_false_r. split; [done|]. split; cbn; [|by destruct (o_cancel_queued y)].
    destruct (handler y); [done|]. by destruct Hx.
Qed.

(** ** Handlers *)

Implicit Types (l : list (OwnedHandler T)) (ctl : OpId).

Lemma handlers_in_app ctl l1 l2 :
  handlers_in ctl (l1 ++ l2) = (handlers_in ctl l1 + handlers_in ctl l2)%nat.
Proof. unfold handlers_in. by rewrite map_app, occ_app. Qed.

Lemma handlers_in_cons ctl hd l :
  handlers_in ctl (hd :: l) = (Nat.b2n (bool_decide (h_control hd = ctl)) + handlers_in ctl l)%nat.
Proof.
  unfold handlers_in, id_of. cbn. f_equal. f_equal. apply bool_decide_ext. lia.
Qed.

(** The handler of an open operation names a live control. *)
Lemma open_op_control ctl (ctls : gmap OpId (Control T)) :
  (0 < open_op ctl ctls)%nat -> exists c, ctls !! ctl = Some c /\ op_completed c = false.
Proof.
  unfold open_op. destruct (ctls !! ctl) as [c|]; [|lia]. intros H. exists c.
  by destruct (op_completed c); [cbn in H; lia|].
Qed.
End Owned.
