(* ===== verification/RingStep.v ===== *)
(** * RingStep: the sections of the driver keep the invariant

    Under the contract of the kernel and of the allocator every critical section of
    the driver, run on a state with the invariant, ends without abort or panic and
    re-establishes it. *)

From Stdlib Require Import ZArith Lia.
From stdpp Require Import base gmap sets list strings.
From S2P Require Import Prelude Errors Ffi Ring RingOps RingInv RingPrim RingCount.

Open Scope Z_scope.

Section Steps.
Context `{U : Uring, !UringLaws} {T : Type}.
Notation ring := (Ring T).
Notation uprog := (prog ucall uresp).
Notation uhist := (history ucall uresp).
Notation uoracle := (oracle ucall uresp).
Implicit Types (s : ring) (h : uhist) (p : Z) (batch : list cqe) (un : gset OpId).
Implicit Types (fl : list (OwnedHandler T)).

(** ** The environment's contract *)

(** How many entries the userspace SQ holds, from the answers so far. *)
Fixpoint queued_sqes h : Z :=
  match h with
  | [] => 0
  | (UPush _, r) :: h' => queued_sqes h' + (if rroom r then 1 else 0)
  | (USubmit, r) :: h' => queued_sqes h' - (if rcount r <? 0 then 0 else rcount r)
  end.

(** The kernel consumes no more entries than there are. *)
Definition kernel_bounded (o : uoracle) : Prop := forall h, rcount (o h USubmit) <= queued_sqes h.

(** [Box::new] returns a non-null address no live box has. *)
Definition allocator_fresh (new_box : uhist -> gset Z -> Z) : Prop :=
  forall h bs, new_box h bs ∉ bs /\ new_box h bs <> 0.

(** Submissions that must stay registered along the section. *)
Variable known : gset SubId.

Definition tied s h : Prop := Z.of_nat (length (sq s)) = queued_sqes h /\ known ⊆ dom (subs s).
Definition good s batch un fl h : Prop := core s batch un fl /\ tied s h.

(** The aborts the code keeps for what it cannot handle: a submission error it does
    not know how to retry, and an iterator of [usize::MAX] entries. *)
Definition external_abort (msg : string) : Prop :=
  msg = "unrecoverable submit error"%string \/ msg = "SQE index exhausted"%string.

(** The section ends in a good state, or in one of those aborts. *)
Definition keeps {A} batch un fl : outcome A -> ring -> uhist -> Prop :=
  fun r s h =>
    match r with
    | Done _ => good s batch un fl h
    | Aborted msg => external_abort msg
    | Panicked _ | Blocked _ => False
    end.

Lemma keeps_ret {A} (a : A) o s h batch un fl :
  good s batch un fl h -> run_post (prog_ret a) o s h (keeps batch un fl).
Proof. done. Qed.

Lemma keeps_bind {A B} (m : uprog ring A) (k : A -> uprog ring B) o s h batch un fl batch' un' fl' :
  run_post m o s h (keeps batch un fl) ->
  (forall a s' h', good s' batch un fl h' -> run_post (k a) o s' h' (keeps batch' un' fl')) ->
  run_post (prog_bind m k) o s h (keeps batch' un' fl').
Proof.
  intros Hm Hk. apply run_post_bind. eapply run_post_mono; [exact Hm|].
  intros [a|e|e|e] s' h' Hg; cbn in *; [by apply Hk|done..].
Qed.

Variable new_box : uhist -> gset Z -> Z.
Hypothesis Hbox : allocator_fresh new_box.
Variable o : uoracle.
Hypothesis Hkernel : kernel_bounded o.

Lemma alloc_post s h (Q : outcome Z -> ring -> uhist -> Prop) :
  (forall p, p ∉ boxes (data s) -> p <> 0 -> Q (Done p) s h) -> run_post (alloc new_box) o s h Q.
Proof. intros HQ. unfold run_post. cbn. apply HQ; apply Hbox. Qed.

Lemma sq_push_post e s h (Q : outcome bool -> ring -> uhist -> Prop) :
  tied s h ->
  (forall h', tied s h' -> Q (Done false) s h') ->
  (forall h' s', s' = set_kernel (sq s ++ [sqe_user_data e]) (flight s) s -> tied s' h' ->
     Q (Done true) s' h') ->
  run_post (sq_push e) o s h Q.
Proof.
  intros Ht Hf Htrue. apply run_post_bind, run_post_call. cbn [then_post].
  destruct (rroom (o h (UPush e))) eqn:Er.
  - eapply run_post_bind_eq; [reflexivity|]. apply run_post_ret, Htrue; [done|].
    destruct Ht as [Ht Hkn]. split; [|exact Hkn]. cbn. rewrite length_app, Er. cbn. lia.
  - apply run_post_ret, Hf. destruct Ht as [Ht Hkn]. split; [|exact Hkn]. cbn. rewrite Er. lia.
Qed.

(** ** Staging *)

(** The parts of [core] that staging a raw context does not concern. *)
Lemma raw_stage_kernel s s' p c batch :
  kernel_inv s batch -> p ∉ boxes (data s) -> p <> 0 -> cphase c = Staged ->
  contexts (data s') = <[ p := c ]> (contexts (data s)) ->
  owned_contexts (data s') = owned_contexts (data s) ->
  owned_cancel_contexts (data s') = owned_cancel_contexts (data s) ->
  sq s' = sq s ++ [p] -> staged (data s') = staged (data s) ++ [SRaw p] ->
  flight s' = flight s -> cq s' = cq s ->
  kernel_inv s' batch.
Proof.
  intros Hi Hp Hp0 Hc E1 E2 E3 Esq Est Efl Ecq.
  assert (contexts (data s) !! p = None /\ p ∉ dom (owned_contexts (data s)) /\
          p ∉ dom (owned_cancel_contexts (data s))) as (N1 & N2 & N3).
  { unfold boxes in Hp. rewrite <- not_elem_of_dom. clear - Hp. set_solver. }
  destruct Hi as [? ? D1 D2 D3 ? ? ? ?] eqn:Ei.
  eapply (kernel_stage s s' (SRaw p)); [exact Hi|exact Hp|exact Hp0| | | | | | | |exact Esq|exact Est|exact Efl|exact Ecq];
    rewrite ?E1, ?E2, ?E3, ?dom_insert_L.
  - intros q. unfold phase_at. rewrite E1, E2, E3. cbn. case_decide as Hq.
    + subst q. by rewrite lookup_insert_eq, Hc.
    + by rewrite lookup_insert_ne.
  - clear - D1 N2. set_solver.
  - clear - D2 N3. set_solver.
  - done.
  - intros [q|q|q]; cbn; rewrite ?E1, ?E2, ?E3, ?dom_insert_L; clear; set_solver.
  - cbn. rewrite E1, dom_insert_L. clear. set_solver.
  - intros q x Hq. rewrite lookup_insert_ne; [done|]. intros ->. congruence.
Qed.

Lemma core_stage_cancel s p cmd q batch un fl :
  core s batch un fl -> cancel_queue (data s) = cmd :: q -> p ∉ boxes (data s) -> p <> 0 ->
  core (on_data (fun d => set_staged (staged d ++ [SRaw p]) d)
         (on_data (fun d => set_contexts (<[ p :=
             mkContext Cancel Staged (cc_index cmd) (cc_user_data cmd) (cc_state cmd)
               (Some (cc_target cmd)) false false ]> (contexts d)) d)
           (set_kernel (sq s ++ [p]) (flight s) (on_data (set_cancel_queue q) s)))) batch un fl.
Proof.
  intros [Hk Hc Hn Hh] Hq Hp Hp0.
  assert (contexts (data s) !! p = None) as Hnone.
  { apply not_elem_of_dom. unfold boxes in Hp. clear - Hp. set_solver. }
  apply cancel_inv_split in Hc as [Hr Ho]. rewrite Hq in Hr. destruct Hn as [Hn1 Hn2 Hn3].
  constructor.
  - eapply raw_stage_kernel; [exact Hk|exact Hp|exact Hp0| |reflexivity..]; reflexivity.
  - apply cancel_inv_split. split; [|exact Ho]. by eapply raw_insert_cancel.
  - constructor; cbn.
    + intros id u Hu. specialize (Hn1 id u Hu). unfold counted in Hn1. rewrite Hq in Hn1.
      by eapply counted_stage_cancel.
    + intros r c. destruct (decide (r = p)) as [->|Hne].
      * rewrite lookup_insert_eq. intros [= <-]. cbn. apply Hn3. rewrite Hq. by left.
      * rewrite lookup_insert_ne by done. apply Hn2.
    + intros c Hin. apply Hn3. rewrite Hq. by right.
  - exact Hh.
Qed.

Lemma stage_commands_keeps batch un fl : forall q s h,
  good s batch un fl h -> cancel_queue (data s) = q ->
  run_post (stage_commands new_box q) o s h (keeps batch un fl).
Proof.
  induction q as [|cmd q IH]; intros s h [Hc Ht] Hq; [by apply keeps_ret|].
  eapply run_post_bind_eq; [reflexivity|]. apply run_post_bind, alloc_post. intros p Hp Hp0.
  cbn [then_post]. eapply run_post_bind_eq; [reflexivity|].
  rewrite bool_decide_false by (revert Hp; clear; unfold boxes; cbn; set_solver).
  apply run_post_bind, sq_push_post; [exact Ht| |].
  - intros h' Ht'. cbn. split; [|exact Ht'].
    destruct s as [[] ? ? ? ? ? ? ? ?]. cbn in *. by subst.
  - intros h' s' -> Ht'. cbn [then_post negb]. eapply run_post_bind_eq; [reflexivity|].
    eapply run_post_bind_eq; [reflexivity|]. rewrite sqe_set_get. apply IH; [|done].
    rewrite sqe_set_get in Ht'. split; [|exact Ht']. exact (core_stage_cancel s p cmd q batch un fl Hc Hq Hp Hp0).
Qed.

Lemma stage_cancellations_keeps batch un fl s h :
  good s batch un fl h -> run_post (stage_cancellations new_box) o s h (keeps batch un fl).
Proof. intros Hg. eapply run_post_bind_eq; [reflexivity|]. by apply stage_commands_keeps. Qed.

Lemma core_stage_original s p id idx ud batch un fl :
  core s batch un fl -> is_Some (subs s !! id) -> p ∉ boxes (data s) -> p <> 0 ->
  core (on_sub id (fun u => set_originals (originals u + 1) u)
         (on_data (fun d => set_staged (staged d ++ [SRaw p]) d)
           (on_data (fun d => set_contexts (<[ p :=
               mkContext Original Staged idx ud id None false false ]> (contexts d)) d)
             (set_kernel (sq s ++ [p]) (flight s) s)))) batch un fl.
Proof.
  intros [Hk Hc Hn Hh] Hid Hp Hp0.
  assert (contexts (data s) !! p = None) as Hnone.
  { apply not_elem_of_dom. unfold boxes in Hp. clear - Hp. set_solver. }
  apply cancel_inv_split in Hc as [Hr Ho].
  constructor.
  - eapply raw_stage_kernel; [exact Hk|exact Hp|exact Hp0| |reflexivity..]; reflexivity.
  - apply cancel_inv_split. split; [|exact Ho]. by apply raw_insert_original.
  - eapply (count_inv_update s); [exact Hn|reflexivity|..]; cbn.
    + intros j u Hu. by apply (counted_stage_original _ _ p
        (mkContext Original Staged idx ud id None false false)).
    + intros r c. destruct (decide (r = p)) as [->|Hne].
      * rewrite lookup_insert_eq. by intros [= <-].
      * rewrite lookup_insert_ne by done. apply (ni_state _ Hn).
    + apply (ni_command _ Hn).
  - exact Hh.
Qed.

Lemma raw_cancel_stage_kernel s s' p x batch :
  kernel_inv s batch -> p ∉ boxes (data s) -> p <> 0 -> oc_phase x = Staged ->
  contexts (data s') = contexts (data s) ->
  owned_contexts (data s') = owned_contexts (data s) ->
  owned_cancel_contexts (data s') = <[ p := x ]> (owned_cancel_contexts (data s)) ->
  sq s' = sq s ++ [p] -> staged (data s') = staged (data s) ++ [SOwnedCancel p] ->
  flight s' = flight s -> cq s' = cq s ->
  kernel_inv s' batch.
Proof.
  intros Hi Hp Hp0 Hc E1 E2 E3 Esq Est Efl Ecq.
  assert (contexts (data s) !! p = None /\ owned_contexts (data s) !! p = None) as (N1 & N2).
  { unfold boxes in Hp. rewrite <- !not_elem_of_dom. clear - Hp. set_solver. }
  destruct Hi as [? ? D1 D2 D3 ? ? ? ?] eqn:Ei.
  eapply (kernel_stage s s' (SOwnedCancel p)); [exact Hi|exact Hp|exact Hp0| | | | | | | |exact Esq|exact Est|exact Efl|exact Ecq];
    rewrite ?E1, ?E2, ?E3, ?dom_insert_L.
  - intros q. unfold phase_at. rewrite E1, E2, E3. cbn. case_decide as Hq.
    + subst q. by rewrite N1, N2, lookup_insert_eq; cbn; rewrite Hc.
    + by rewrite lookup_insert_ne.
  - done.
  - apply not_elem_of_dom in N1. clear - D2 N1. set_solver.
  - apply not_elem_of_dom in N2. clear - D3 N2. set_solver.
  - intros [q|q|q]; cbn; rewrite ?E1, ?E2, ?E3, ?dom_insert_L; clear; set_solver.
  - cbn. rewrite E3, dom_insert_L. clear. set_solver.
  - done.
Qed.

Lemma owned_stage_kernel s s' p x batch :
  kernel_inv s batch -> p ∉ boxes (data s) -> p <> 0 -> o_phase x = Staged ->
  contexts (data s') = contexts (data s) ->
  owned_contexts (data s') = <[ p := x ]> (owned_contexts (data s)) ->
  owned_cancel_contexts (data s') = owned_cancel_contexts (data s) ->
  sq s' = sq s ++ [p] -> staged (data s') = staged (data s) ++ [SOwned p] ->
  flight s' = flight s -> cq s' = cq s ->
  kernel_inv s' batch.
Proof.
  intros Hi Hp Hp0 Hc E1 E2 E3 Esq Est Efl Ecq.
  assert (contexts (data s) !! p = None /\ p ∉ dom (owned_cancel_contexts (data s))) as (N1 & N2).
  { unfold boxes in Hp. rewrite <- !not_elem_of_dom. clear - Hp. set_solver. }
  destruct Hi as [? ? D1 D2 D3 ? ? ? ?] eqn:Ei.
  eapply (kernel_stage s s' (SOwned p)); [exact Hi|exact Hp|exact Hp0| | | | | | | |exact Esq|exact Est|exact Efl|exact Ecq];
    rewrite ?E1, ?E2, ?E3, ?dom_insert_L.
  - intros q. unfold phase_at. rewrite E1, E2, E3. cbn. case_decide as Hq.
    + subst q. by rewrite N1, lookup_insert_eq, Hc.
    + by rewrite lookup_insert_ne.
  - apply not_elem_of_dom in N1. clear - D1 N1. set_solver.
  - done.
  - clear - D3 N2. set_solver.
  - intros [q|q|q]; cbn; rewrite ?E1, ?E2, ?E3, ?dom_insert_L; clear; set_solver.
  - cbn. rewrite E2, dom_insert_L. clear. set_solver.
  - done.
Qed.

Lemma core_stage_owned_cancel s p tg q batch un fl :
  core s batch un fl -> owned_cancel_queue (data s) = tg :: q -> p ∉ boxes (data s) -> p <> 0 ->
  core (on_data (fun d => set_staged (staged d ++ [SOwnedCancel p]) d)
         (on_data (fun d => set_owned_cancel_contexts
             (<[ p := mkOwnedCancel Staged tg ]> (owned_cancel_contexts d)) d)
           (set_kernel (sq s ++ [p]) (flight s) (on_data (set_owned_cancel_queue q) s)))) batch un fl.
Proof.
  intros [Hk Hc Hn Hh] Hq Hp Hp0.
  apply cancel_inv_split in Hc as [Hr Ho]. rewrite Hq in Ho.
  assert (owned_cancel_contexts (data s) !! p = None) as Hnone.
  { apply not_elem_of_dom. unfold boxes in Hp. clear - Hp. set_solver. }
  constructor.
  - eapply raw_cancel_stage_kernel; [exact Hk|exact Hp|exact Hp0| |reflexivity..]; reflexivity.
  - apply cancel_inv_split. split; [exact Hr|]. by eapply owned_insert_cancel.
  - destruct Hn. by constructor.
  - exact Hh.
Qed.

Lemma stage_owned_commands_keeps batch un fl : forall q s h,
  good s batch un fl h -> owned_cancel_queue (data s) = q ->
  run_post (stage_owned_commands new_box q) o s h (keeps batch un fl).
Proof.
  induction q as [|tg q IH]; intros s h [Hc Ht] Hq; [by apply keeps_ret|].
  eapply run_post_bind_eq; [reflexivity|]. apply run_post_bind, alloc_post. intros p Hp Hp0.
  cbn [then_post]. eapply run_post_bind_eq; [reflexivity|].
  unfold context_pointer_in_use. rewrite bool_decide_false by exact Hp.
  apply run_post_bind, sq_push_post; [exact Ht| |].
  - intros h' Ht'. cbn. split; [|exact Ht'].
    destruct s as [[] ? ? ? ? ? ? ? ?]. cbn in *. by subst.
  - intros h' s' -> Ht'. cbn [then_post negb]. eapply run_post_bind_eq; [reflexivity|].
    eapply run_post_bind_eq; [reflexivity|]. rewrite sqe_set_get. apply IH; [|done].
    rewrite sqe_set_get in Ht'. split; [|exact Ht'].
    exact (core_stage_owned_cancel s p tg q batch un fl Hc Hq Hp Hp0).
Qed.

Lemma stage_owned_cancellations_keeps batch un fl s h :
  good s batch un fl h -> run_post (stage_owned_cancellations new_box) o s h (keeps batch un fl).
Proof. intros Hg. eapply run_post_bind_eq; [reflexivity|]. by apply stage_owned_commands_keeps. Qed.

(** ** Owned operations on their way *)

Lemma handlers_in_nil ctl : handlers_in ctl ([] : list (OwnedHandler T)) = 0%nat.
Proof. done. Qed.

Ltac handlers :=
  cbn [app]; repeat rewrite ?handlers_in_app, ?handlers_in_cons, ?handlers_in_nil; lia.

(** Moving handlers between the queue, the set-aside list and the failing ones. *)
Lemma core_move_handlers s s' batch un fl fl' :
  core s batch un fl ->
  same_kernel s s' -> subs s' = subs s -> controls s' = controls s ->
  contexts (data s') = contexts (data s) -> cancel_queue (data s') = cancel_queue (data s) ->
  owned_contexts (data s') = owned_contexts (data s) ->
  owned_cancel_contexts (data s') = owned_cancel_contexts (data s) ->
  owned_cancel_queue (data s') = owned_cancel_queue (data s) ->
  (forall ctl, handlers_in ctl (owned_queue s' ++ owned_pending (data s') ++ fl') =
               handlers_in ctl (owned_queue s ++ owned_pending (data s) ++ fl)) ->
  core s' batch un fl'.
Proof.
  intros [Hk Hc Hn Hh] Hsame Es Ec E1 E2 E3 E4 E5 Hm. constructor.
  - assert (forall p, phase_at (data s') p = phase_at (data s) p) as Hph
      by (intros p; unfold phase_at; by rewrite E1, E3, E4).
    eapply kernel_same; [exact Hk|done|by rewrite ?E1, ?E3, ?E4..|exact Hph|].
    rewrite E1. eauto.
  - destruct Hc. constructor; unfold awaits, owned_awaits; by rewrite ?E1, ?E2, ?E3, ?E4, ?E5.
  - destruct Hn. constructor; unfold counted in *; by rewrite ?Es, ?E1, ?E2.
  - intros ctl. by rewrite Hm, Ec, E3.
Qed.

Lemma pop_owned_post batch un fl s h :
  good s batch un fl h ->
  run_post pop_owned o s h (fun r s' h' =>
    (exists op, r = Done (Some op) /\ good s' batch un (fl ++ [op]) h') \/
    r = Done None /\ good s' batch un fl h').
Proof.
  intros [Hc Ht]. eapply run_post_bind_eq; [reflexivity|].
  destruct (owned_pending (data s)) as [|op rest] eqn:Ep.
  - destruct (owned_queue s) as [|op rest] eqn:Eq.
    + apply run_post_ret. right. done.
    + eapply run_post_bind_eq; [reflexivity|]. apply run_post_ret. left. exists op. split; [done|].
      split; [|exact Ht]. eapply core_move_handlers; [exact Hc|by repeat split|reflexivity..|].
      intros ctl. cbn. rewrite Ep, Eq. handlers.
  - eapply run_post_bind_eq; [reflexivity|]. apply run_post_ret. left. exists op. split; [done|].
    split; [|exact Ht]. eapply core_move_handlers; [exact Hc|by repeat split|reflexivity..|].
    intros ctl. cbn. rewrite Ep. handlers.
Qed.

Lemma core_stage_owned s p op batch un fl :
  core s batch un (fl ++ [op]) -> p ∉ boxes (data s) -> p <> 0 ->
  core (on_data (fun d => set_staged (staged d ++ [SOwned p]) d)
         (on_data (fun d => set_owned_contexts (<[ p :=
             mkOwned Staged (h_control op) (Some op) false false ]> (owned_contexts d)) d)
           (set_kernel (sq s ++ [p]) (flight s) s))) batch un fl.
Proof.
  intros [Hk Hc Hn Hh] Hp Hp0. apply cancel_inv_split in Hc as [Hr Ho].
  assert (owned_contexts (data s) !! p = None) as Hnone.
  { apply not_elem_of_dom. unfold boxes in Hp. clear - Hp. set_solver. }
  constructor.
  - eapply owned_stage_kernel; [exact Hk|exact Hp|exact Hp0| |reflexivity..]; reflexivity.
  - apply cancel_inv_split. split; [exact Hr|]. by apply owned_insert.
  - destruct Hn. by constructor.
  - intros ctl. specialize (Hh ctl). cbn. rewrite total_insert by done.
    rewrite !handlers_in_app, handlers_in_cons in Hh. change (handlers_in ctl []) with 0%nat in Hh.
    rewrite !handlers_in_app. unfold handles_op at 1. cbn. lia.
Qed.

Lemma stage_owned_post supported batch un : forall budget fl s h,
  good s batch un fl h ->
  run_post (stage_owned new_box supported budget) o s h (fun r s' h' =>
    exists l, r = Done l /\ good s' batch un (fl ++ map fst l) h').
Proof.
  induction budget as [|budget IH]; intros fl s h Hg.
  { apply run_post_ret. exists []. by rewrite app_nil_r. }
  apply run_post_bind. eapply run_post_mono; [by eapply pop_owned_post|].
  intros r s1 h1 [(op & -> & Hg1)|[-> Hg1]]; cbn [then_post].
  2: { apply run_post_ret. exists []. by rewrite app_nil_r. }
  eapply run_post_bind_eq; [reflexivity|].
  assert (forall f, run_post (rest ← stage_owned new_box supported budget; mret ((op, f) :: rest))
    o s1 h1 (fun r s' h' => exists l, r = Done l /\ good s' batch un (fl ++ map fst l) h')) as Hfail.
  { intros f. apply run_post_bind. eapply run_post_mono; [by apply IH|].
    intros r s' h' (l & -> & Hl). apply run_post_ret. exists ((op, f) :: l). split; [done|].
    by rewrite <- app_assoc in Hl. }
  destruct (dshutdown (data s1)); [apply Hfail|]. destruct (is_cancelled s1 (h_control op)); [apply Hfail|].
  destruct (supported (h_opcode op)); [|apply Hfail]. cbn [negb]. destruct Hg1 as [Hc Ht].
  apply run_post_bind, alloc_post. intros p Hp Hp0. cbn [then_post].
  unfold context_pointer_in_use. rewrite bool_decide_false by exact Hp.
  apply run_post_bind, sq_push_post; [exact Ht| |].
  - intros h' Ht'. cbn [then_post negb]. eapply run_post_bind_eq; [reflexivity|]. apply run_post_ret.
    exists []. rewrite app_nil_r. split; [done|]. split; [|exact Ht'].
    eapply core_move_handlers; [exact Hc|by repeat split|reflexivity..|].
    intros ctl. cbn. handlers.
  - intros h' s' -> Ht'. cbn [then_post negb]. eapply run_post_bind_eq; [reflexivity|].
    eapply run_post_bind_eq; [reflexivity|]. rewrite sqe_set_get in *. apply IH.
    split; [|exact Ht']. exact (core_stage_owned s1 p op batch un fl Hc Hp Hp0).
Qed.

(** ** Submission *)

Lemma get_sub_post id u s h (Q : outcome SubmissionInner -> ring -> uhist -> Prop) :
  subs s !! id = Some u -> Q (Done u) s h -> run_post (get_sub id) o s h Q.
Proof. intros Hu HQ. unfold run_post, get_sub. by rewrite Hu. Qed.

Lemma put_sub_alter s id u (f : SubmissionInner -> SubmissionInner) :
  subs s !! id = Some u -> <[ id := f u ]> (subs s) = alter f id (subs s).
Proof. intros Hu. by rewrite (alter_Some _ _ _ _ Hu). Qed.

(** The state as it was before the kernel took [xs] from the SQ. *)
Definition rewound (xs : list Z) (q f : list Z) s : ring := set_kernel (xs ++ q) f s.

Lemma core_accept_raw s st p c rest batch un fl :
  core s batch un fl -> st = SRaw p -> staged (data s) = st :: rest ->
  contexts (data s) !! p = Some c ->
  core (set_kernel (drop 1 (sq s)) (flight s ++ [p])
         (set_subs (match kind c with
                    | Original => alter (fun u => set_admission_waker None (set_accepted (accepted u + 1) u))
                                    (cstate c) (subs s)
                    | Cancel => subs s end)
           (on_data (fun d => set_contexts (<[ p := set_cphase Submitted c ]> (contexts d)) d)
             (on_data (set_staged rest) s)))) batch un fl.
Proof.
  intros [Hk Hc Hn Hh] -> Hst Hp. apply cancel_inv_split in Hc as [Hr Ho].
  assert (cphase c = Staged) as Hph.
  { apply phase_at_raw in Hp. pose proof (ki_staged _ _ Hk p) as Hs.
    rewrite (ki_sq _ _ Hk), Hst in Hs. cbn in Hs. rewrite bool_decide_true in Hs by done.
    pose proof (in_phase_le Staged (data s) p).
    assert (in_phase Staged (data s) p = 1%nat) as H1 by (cbn in Hs; lia).
    apply in_phase_1 in H1. congruence. }
  constructor.
  - eapply (kernel_accept s _ (SRaw p) rest); [exact Hk|exact Hst|..]; try reflexivity; cbn.
    + intros q. unfold phase_at. cbn. case_decide as Hq.
      * subst q. by rewrite lookup_insert_eq.
      * by rewrite lookup_insert_ne.
    + rewrite dom_insert_lookup_L; [done|by eexists].
    + intros q x Hx Ho'. destruct (decide (q = p)) as [->|Hne].
      * rewrite lookup_insert_eq. eexists. split; [done|]. cbn. congruence.
      * rewrite lookup_insert_ne by done. eauto.
  - apply cancel_inv_split. split; [|exact Ho]. eapply raw_rephase; [exact Hr|exact Hp|done..|].
    pose proof (proj1 Hr p c Hp) as Hw. unfold context_wf in *. cbn. destruct (kind c); naive_solver.
  - eapply (count_inv_update s _ (cstate c) (fun u => match kind c with
      | Original => set_admission_waker None (set_accepted (accepted u + 1) u) | Cancel => u end));
      [exact Hn|cbn; destruct (kind c); [done|]|..]; cbn.
    + apply map_eq. intros j. destruct (decide (j = cstate c)) as [->|Hne].
      * rewrite lookup_alter_eq. by destruct (subs s !! cstate c).
      * by rewrite lookup_alter_ne.
    + intros j u Hu. apply (counted_accept _ _ p c j u) in Hu; [|done..].
      destruct (kind c); [done|]. by case_decide.
    + intros r x. destruct (decide (r = p)) as [->|Hne].
      * rewrite lookup_insert_eq. intros [= <-]. cbn. by eapply (ni_state _ Hn).
      * rewrite lookup_insert_ne by done. apply (ni_state _ Hn).
    + apply (ni_command _ Hn).
  - exact Hh.
Qed.

Lemma core_accept_owned s p x rest batch un fl :
  core s batch un fl -> staged (data s) = SOwned p :: rest -> owned_contexts (data s) !! p = Some x ->
  o_phase x = Staged /\
  core (set_kernel (drop 1 (sq s)) (flight s ++ [p])
         (on_data (fun d => set_owned_contexts (<[ p :=
             mkOwned Submitted (o_control x) (handler x) (o_cancel_queued x) (o_cancel_seen x) ]>
             (owned_contexts d)) d) (on_data (set_staged rest) s))) batch un fl.
Proof.
  intros [Hk Hc Hn Hh] Hst Hp. apply cancel_inv_split in Hc as [Hr Ho].
  assert (contexts (data s) !! p = None) as Hraw.
  { apply not_elem_of_dom. apply elem_of_dom_2 in Hp. pose proof (ki_raw_owned _ _ Hk) as D. clear - Hp D. set_solver. }
  assert (o_phase x = Staged) as Hph.
  { pose proof (ki_staged _ _ Hk p) as Hs. rewrite (ki_sq _ _ Hk), Hst in Hs. cbn in Hs.
    rewrite bool_decide_true in Hs by done. pose proof (in_phase_le Staged (data s) p).
    assert (in_phase Staged (data s) p = 1%nat) as H1 by (cbn in Hs; lia).
    apply in_phase_1 in H1. unfold phase_at in H1. rewrite Hraw, Hp in H1. congruence. }
  split; [done|]. constructor.
  - eapply (kernel_accept s _ (SOwned p) rest); [exact Hk|exact Hst|..]; try reflexivity; cbn.
    + intros q. unfold phase_at. cbn. case_decide as Hq.
      * subst q. by rewrite Hraw, lookup_insert_eq.
      * by rewrite lookup_insert_ne.
    + rewrite dom_insert_lookup_L; [done|by eexists].
    + eauto.
  - apply cancel_inv_split. split; [exact Hr|]. eapply owned_rephase; [exact Ho|exact Hp|done|].
    destruct (proj1 Ho p x Hp) as [Hx Hs]. split; cbn; [|done]. destruct (handler x); [naive_solver|].
    destruct Hx as [Hx _]. congruence.
  - destruct Hn. by constructor.
  - intros ctl. specialize (Hh ctl). cbn.
    pose proof (total_update (handles_op ctl) (owned_contexts (data s)) p x
      (mkOwned Submitted (o_control x) (handler x) (o_cancel_queued x) (o_cancel_seen x)) Hp) as E.
    assert (forall y, handles_op ctl (mkOwned Submitted (o_control x) (handler x) y (o_cancel_seen x)) = handles_op ctl x)
      as F by done. rewrite F in E. lia.
Qed.

Lemma core_accept_owned_cancel s p x rest batch un fl :
  core s batch un fl -> staged (data s) = SOwnedCancel p :: rest ->
  owned_cancel_contexts (data s) !! p = Some x ->
  oc_phase x = Staged /\
  core (set_kernel (drop 1 (sq s)) (flight s ++ [p])
         (on_data (fun d => set_owned_cancel_contexts (<[ p := mkOwnedCancel Submitted (oc_target x) ]>
             (owned_cancel_contexts d)) d) (on_data (set_staged rest) s))) batch un fl.
Proof.
  intros [Hk Hc Hn Hh] Hst Hp. apply cancel_inv_split in Hc as [Hr Ho].
  assert (contexts (data s) !! p = None /\ owned_contexts (data s) !! p = None) as [N1 N2].
  { rewrite <- !not_elem_of_dom. apply elem_of_dom_2 in Hp.
    pose proof (ki_raw_cancel _ _ Hk) as D1. pose proof (ki_owned_cancel _ _ Hk) as D2.
    clear - Hp D1 D2. set_solver. }
  assert (oc_phase x = Staged) as Hph.
  { pose proof (ki_staged _ _ Hk p) as Hs. rewrite (ki_sq _ _ Hk), Hst in Hs. cbn in Hs.
    rewrite bool_decide_true in Hs by done. pose proof (in_phase_le Staged (data s) p).
    assert (in_phase Staged (data s) p = 1%nat) as H1 by (cbn in Hs; lia).
    apply in_phase_1 in H1. unfold phase_at in H1. rewrite N1, N2, Hp in H1. cbn in H1. congruence. }
  split; [done|]. constructor.
  - eapply (kernel_accept s _ (SOwnedCancel p) rest); [exact Hk|exact Hst|..]; try reflexivity; cbn.
    + intros q. unfold phase_at. cbn. case_decide as Hq.
      * subst q. by rewrite N1, N2, lookup_insert_eq.
      * by rewrite lookup_insert_ne.
    + rewrite dom_insert_lookup_L; [done|by eexists].
    + eauto.
  - apply cancel_inv_split. split; [exact Hr|]. by eapply owned_cancel_rephase.
  - destruct Hn. by constructor.
  - exact Hh.
Qed.

Lemma accept_one_post batch un fl x xs f s h :
  core (rewound (x :: xs) (sq s) f s) batch un fl ->
  run_post accept_one o s h (fun r s' h' =>
    (exists ws, r = Done ws) /\ core (rewound xs (sq s) (f ++ [x]) s') batch un fl /\
    sq s' = sq s /\ flight s' = flight s /\ dom (subs s') = dom (subs s) /\ h' = h).
Proof.
  intros Hc. pose proof (ki_sq _ _ (core_kernel _ _ _ _ Hc)) as Hsq. cbn in Hsq.
  pose proof (ki_kind _ _ (core_kernel _ _ _ _ Hc)) as Hkind. cbn in Hkind.
  destruct (staged (data s)) as [|st rest] eqn:Est; [done|]. cbn in Hsq. injection Hsq as -> Hsq.
  apply Forall_cons in Hkind as [Hin _].
  eapply run_post_bind_eq; [reflexivity|]. rewrite Est. eapply run_post_bind_eq; [reflexivity|].
  destruct st as [p|p|p]; cbn in Hin; apply elem_of_dom in Hin as [c Hp]; rewrite Hp.
  - pose proof (core_accept_raw _ _ p c rest _ _ _ Hc eq_refl Est Hp) as Hc'.
    assert (cphase c = Staged) as Hph.
    { pose proof (ki_staged _ _ (core_kernel _ _ _ _ Hc) p) as Hs. cbn in Hs.
      rewrite bool_decide_true in Hs by done. pose proof (in_phase_le Staged (data s) p).
      assert (in_phase Staged (data s) p = 1%nat) as H1 by (unfold rewound in Hs; cbn in Hs; lia).
      apply in_phase_1 in H1. apply phase_at_raw in Hp. congruence. }
    rewrite bool_decide_true by done. cbn [negb]. eapply run_post_bind_eq; [reflexivity|].
    pose proof (ni_state _ (core_count _ _ _ _ Hc) p c Hp) as [u Hu]. cbn in Hu.
    destruct (kind c).
    + apply run_post_bind. eapply get_sub_post; [exact Hu|]. cbn [then_post].
      eapply run_post_bind_eq; [reflexivity|]. apply run_post_ret. split; [by eexists|].
      split; [|split_and!; [done..|cbn; by rewrite dom_insert_lookup_L by eauto|done]]. cbn. rewrite (put_sub_alter s _ u (fun u => set_admission_waker None (set_accepted (accepted u + 1) u)))
        by done. exact Hc'.
    + apply run_post_ret. split; [by eexists|]. split; [exact Hc'|done].
  - destruct (core_accept_owned _ p c rest _ _ _ Hc Est Hp) as [-> Hc'].
    rewrite bool_decide_true by done. cbn [negb]. eapply run_post_bind_eq; [reflexivity|].
    apply run_post_ret. split; [by eexists|]. split; [exact Hc'|done].
  - destruct (core_accept_owned_cancel _ p c rest _ _ _ Hc Est Hp) as [-> Hc'].
    rewrite bool_decide_true by done. cbn [negb]. eapply run_post_bind_eq; [reflexivity|].
    apply run_post_ret. split; [by eexists|]. split; [exact Hc'|done].
Qed.

Lemma accept_prefix_post batch un fl : forall xs f s h,
  core (rewound xs (sq s) f s) batch un fl -> flight s = f ++ xs ->
  run_post (accept_prefix (length xs)) o s h (fun r s' h' =>
    (exists ws, r = Done ws) /\ core s' batch un fl /\ sq s' = sq s /\
    dom (subs s') = dom (subs s) /\ h' = h).
Proof.
  induction xs as [|x xs IH]; intros f s h Hc Hf; cbn [length accept_prefix].
  - apply run_post_ret. split; [by eexists|]. split; [|done]. rewrite app_nil_r in Hf.
    unfold rewound in Hc. rewrite <- Hf in Hc. cbn in Hc. by destruct s.
  - apply run_post_bind. eapply run_post_mono; [by apply accept_one_post|].
    intros r s1 h1 ([ws ->] & Hc1 & Esq & Efl & Ed & ->). cbn [then_post]. rewrite <- Esq in Hc1.
    apply run_post_bind. eapply run_post_mono; [apply (IH (f ++ [x])); [exact Hc1|]|].
    + by rewrite Efl, Hf, <- app_assoc.
    + intros r s2 h2 ([ws' ->] & Hc2 & Esq2 & Ed2 & ->). apply run_post_ret. split; [by eexists|].
      split; [done|]. by rewrite Esq2, Ed2.
Qed.

Lemma submit_staged_keeps batch un fl s h :
  good s batch un fl h -> run_post submit_staged o s h (keeps batch un fl).
Proof.
  intros [Hc Ht]. apply run_post_bind, run_post_bind, run_post_call. cbn [then_post].
  pose proof (Hkernel h) as Hb. set (n := rcount (o h USubmit)) in *. destruct (n <? 0) eqn:En.
  - apply run_post_ret. cbn [then_post]. destruct (is_retryable _).
    + apply run_post_ret. split; [exact Hc|]. destruct Ht as [Ht Hkn]. split; [|exact Hkn].
      cbn. fold n. rewrite En. lia.
    + left. done.
  - eapply run_post_bind_eq; [reflexivity|]. apply run_post_ret. cbn [then_post].
    eapply run_post_bind_eq; [reflexivity|].
    assert (length (staged (data s)) = length (sq s)) as Hlen
      by (by rewrite (ki_sq _ _ (core_kernel _ _ _ _ Hc)), length_map).
    apply Z.ltb_ge in En. destruct Ht as [Ht Hkn].
    cbn [data set_kernel]. assert (Z.of_nat (length (staged (data s))) <? n = false) as -> by (apply Z.ltb_ge; lia).
    set (xs := take (Z.to_nat n) (sq s)).
    assert (Z.to_nat n = length xs) as Hn by (unfold xs; rewrite length_take; lia).
    replace (accept_prefix (Z.to_nat n)) with (@accept_prefix _ T (length xs)) by (by rewrite <- Hn).
    eapply run_post_mono; [apply (accept_prefix_post batch un fl xs (flight s))|].
    + unfold rewound, xs. cbn. rewrite take_drop. by destruct s.
    + done.
    + intros r s' h' ([ws ->] & Hc' & Esq & Ed & ->). split; [done|]. split; [|by rewrite Ed].
      rewrite Esq. cbn.
      fold n. rewrite length_drop. assert (n <? 0 = false) as -> by (apply Z.ltb_ge; lia). lia.
Qed.
End Steps.
