(* ===== verification/RingSect.v ===== *)
(** * RingSect: admission, passes, cancellation and dispatch keep the invariant *)

From Stdlib Require Import ZArith Lia.
From stdpp Require Import base gmap sets list strings.
From S2P Require Import Prelude Errors Ffi Ring RingOps RingFutures RingInv RingPrim RingCount RingStep.

Open Scope Z_scope.

Section Sections.
Context `{U : Uring, !UringLaws} {T : Type}.
Notation ring := (Ring T).
Notation uprog := (prog ucall uresp).
Notation uhist := (history ucall uresp).
Notation uoracle := (oracle ucall uresp).
Implicit Types (s : ring) (h : uhist) (p : Z) (batch : list cqe) (un : gset OpId) (id : SubId).
Implicit Types (fl : list (OwnedHandler T)) (u : SubmissionInner).

Variable new_box : uhist -> gset Z -> Z.
Hypothesis Hbox : allocator_fresh new_box.
Variable o : uoracle.
Hypothesis Hkernel : kernel_bounded o.
Variable known : gset SubId.
Notation good := (good known).
Notation keeps := (keeps known).

(** ** Changes of delivery, buffers and wakers *)

Lemma core_subs s s' batch un fl :
  core s batch un fl -> data s' = data s -> sq s' = sq s -> flight s' = flight s -> cq s' = cq s ->
  owned_queue s' = owned_queue s -> controls s' = controls s ->
  (forall id, counters <$> subs s' !! id = counters <$> subs s !! id) ->
  core s' batch un fl.
Proof.
  intros [Hk Hc Hn Hh] Ed Esq Efl Ecq Eq Ect Es.
  assert (forall id, is_Some (subs s !! id) -> is_Some (subs s' !! id)) as Hsome.
  { intros id. rewrite <- !(fmap_is_Some counters), Es. done. }
  constructor; [|by rewrite Ed| |].
  - destruct Hk. constructor; by rewrite ?Ed, ?Esq, ?Efl, ?Ecq.
  - destruct Hn as [H1 H2 H3]. constructor; rewrite ?Ed; [|eauto..].
    intros id u Hu. specialize (Es id). rewrite Hu in Es. cbn in Es.
    destruct (subs s !! id) as [u0|] eqn:E; [|done]. injection Es as Es.
    eapply (counted_ext _ _ _ u0); [|by apply H1]. unfold counters. congruence.
  - intros ctl. by rewrite Eq, Ect, Ed.
Qed.

Lemma good_subs s s' batch un fl h :
  good s batch un fl h -> data s' = data s -> sq s' = sq s -> flight s' = flight s -> cq s' = cq s ->
  owned_queue s' = owned_queue s -> controls s' = controls s ->
  (forall id, counters <$> subs s' !! id = counters <$> subs s !! id) ->
  good s' batch un fl h.
Proof.
  intros [Hc [Ht Hkn]] Ed Esq Efl Ecq Eq Ect Es. split; [by eapply core_subs|]. split; [by rewrite Esq|].
  intros id Hid. apply Hkn in Hid. rewrite elem_of_dom in *.
  rewrite <- (fmap_is_Some counters), Es. by rewrite fmap_is_Some.
Qed.

Lemma counters_alter (f : SubmissionInner -> SubmissionInner) (m : gmap SubId SubmissionInner) i :
  (forall u, counters (f u) = counters u) ->
  forall id, counters <$> alter f i m !! id = counters <$> m !! id.
Proof.
  intros Hf id. destruct (decide (id = i)) as [->|Hne].
  - rewrite lookup_alter_eq. destruct (m !! i); cbn; [by rewrite Hf|done].
  - by rewrite lookup_alter_ne.
Qed.

Lemma counters_insert (m : gmap SubId SubmissionInner) i u u' :
  m !! i = Some u -> counters u' = counters u ->
  forall id, counters <$> <[ i := u' ]> m !! id = counters <$> m !! id.
Proof.
  intros Hu Hc id. destruct (decide (id = i)) as [->|Hne].
  - rewrite lookup_insert_eq, Hu. cbn. by rewrite Hc.
  - by rewrite lookup_insert_ne.
Qed.

Lemma good_on_sub s batch un fl h i f :
  good s batch un fl h -> (forall u, counters (f u) = counters u) -> good (on_sub i f s) batch un fl h.
Proof. intros Hg Hf. eapply good_subs; [exact Hg|done..|]. by apply counters_alter. Qed.

Lemma good_put s batch un fl h i u u' :
  good s batch un fl h -> subs s !! i = Some u -> counters u' = counters u ->
  good (set_subs (<[ i := u' ]> (subs s)) s) batch un fl h.
Proof. intros Hg Hu Hc. eapply good_subs; [exact Hg|done..|]. by eapply counters_insert. Qed.

Lemma known_sub s batch un fl h id : good s batch un fl h -> id ∈ known -> exists u, subs s !! id = Some u.
Proof. intros [_ [_ Hkn]] Hid. apply Hkn, elem_of_dom in Hid. exact Hid. Qed.

(** ** Admission *)

Lemma stage_original_keeps id idx e batch un fl s h :
  good s batch un fl h -> id ∈ known ->
  run_post (stage_original new_box id idx e) o s h (keeps batch un fl).
Proof.
  intros Hg Hid. destruct (known_sub _ _ _ _ _ _ Hg Hid) as [u Hu]. destruct Hg as [Hc Ht].
  apply run_post_bind, alloc_post; [done|]. intros p Hp Hp0. cbn [then_post].
  eapply run_post_bind_eq; [reflexivity|].
  rewrite bool_decide_false by (revert Hp; clear; unfold boxes; set_solver).
  apply run_post_bind. eapply sq_push_post; [exact Ht| |].
  - intros h' Ht'. cbn. split; [exact Hc|exact Ht'].
  - intros h' s' -> Ht'. cbn [then_post negb]. eapply run_post_bind_eq; [reflexivity|].
    eapply run_post_bind_eq; [reflexivity|]. eapply run_post_bind_eq; [reflexivity|].
    apply run_post_ret. rewrite sqe_set_get in *. split.
    + by apply (core_stage_original s p id idx (sqe_user_data e)).
    + destruct Ht' as [Ht' Hkn]. split; [exact Ht'|]. cbn. rewrite dom_alter_L. exact Hkn.
Qed.

Lemma admit_entries_keeps id batch un fl : forall it next any s h,
  good s batch un fl h -> id ∈ known ->
  run_post (admit_entries new_box id it next any) o s h (keeps batch un fl).
Proof.
  induction it as [|e it IH]; intros next any s h Hg Hid; cbn [admit_entries].
  - destruct (known_sub _ _ _ _ _ _ Hg Hid) as [u Hu].
    apply run_post_bind. eapply get_sub_post; [exact Hu|]. cbn [then_post].
    eapply run_post_bind_eq; [reflexivity|]. apply run_post_ret. by eapply good_put.
  - destruct (next =? u64_max); [by right|].
    eapply keeps_bind; [by apply stage_original_keeps|]. intros [] s' h' Hg'; [by apply IH|].
    by apply keeps_ret.
Qed.

Lemma admit_loop_keeps id a batch un fl s h :
  good s batch un fl h -> id ∈ known ->
  run_post (admit_loop new_box id a) o s h (keeps batch un fl).
Proof.
  intros Hg Hid. unfold admit_loop. destruct (pending a) as [[idx e]|]; [|by apply admit_entries_keeps].
  eapply keeps_bind; [by apply stage_original_keeps|].
  intros [] s' h' Hg'; [by apply admit_entries_keeps|]. by apply keeps_ret.
Qed.

Lemma admit_section_keeps id a batch un fl s h :
  good s batch un fl h -> id ∈ known -> ring_open s = true ->
  run_post (admit_section new_box id a) o s h (keeps batch un fl).
Proof.
  intros Hg Hid Ho. eapply run_post_bind_eq; [reflexivity|]. rewrite Ho. cbn [negb].
  eapply keeps_bind; [by apply stage_cancellations_keeps|]. intros _ s1 h1 Hg1.
  eapply keeps_bind; [by apply admit_loop_keeps|]. intros [[a' ws] any] s2 h2 Hg2.
  eapply keeps_bind; [by apply submit_staged_keeps|]. intros ws' s3 h3 Hg3. by apply keeps_ret.
Qed.

(** ** Cancellation *)

Lemma close_delivery_keeps id dl batch un fl s h :
  good s batch un fl h -> run_post (close_delivery id dl) o s h (keeps batch un fl).
Proof.
  intros Hg. apply run_post_modify. apply good_on_sub; [done|].
  intros u. by destruct dl, (delivery u).
Qed.

Definition cancel_command (pc : Z * CqeContext) : CancelCommand :=
  mkCancel pc.1 (index pc.2) (original_user_data pc.2) (cstate pc.2).
Definition mark_all (l : list (Z * CqeContext)) (m : gmap Z CqeContext) : gmap Z CqeContext :=
  foldr (fun pc m => alter (set_cancel_queued true) pc.1 m) m l.

Lemma mark_all_other l m p : p ∉ map fst l -> mark_all l m !! p = m !! p.
Proof.
  induction l as [|[q c] l IH]; [done|]. cbn. intros Hp. apply not_elem_of_cons in Hp as [Hne Hp].
  rewrite lookup_alter_ne by done. by apply IH.
Qed.

Lemma raw_inv_perm m q q' : q ≡ₚ q' -> raw_inv m q -> raw_inv m q'.
Proof.
  intros Hp [H1 H2]. split; [done|]. intros p. rewrite <- H2. f_equal.
  apply occ_perm. by rewrite Hp.
Qed.

Lemma mark_all_raw id l m q :
  raw_inv m q -> NoDup (map fst l) ->
  (forall pc, pc ∈ l -> m !! pc.1 = Some pc.2 /\ cancel_target id pc = true) ->
  raw_inv (mark_all l m) (q ++ map cancel_command l).
Proof.
  intros Hr. induction l as [|[p c] l IH]; intros Hnd Hl; cbn; [by rewrite app_nil_r|].
  apply NoDup_cons in Hnd as [Hp Hnd]. cbn in Hp.
  destruct (Hl (p, c)) as [Hm Hc]; [by left|]. cbn in Hm. unfold cancel_target in Hc. cbn in Hc.
  apply andb_prop in Hc as [Hc _]. apply andb_prop in Hc as [Hc Hq]. apply andb_prop in Hc as [Hk Hph].
  apply bool_decide_eq_true in Hk.
  assert (mark_all l m !! p = Some c) as Hpm by (by rewrite mark_all_other).
  eapply (raw_inv_perm _ ((q ++ map cancel_command l) ++ [cancel_command (p, c)])).
  { rewrite <- app_assoc. apply Permutation_app_head. by rewrite Permutation_app_comm. }
  fold (mark_all l m). rewrite (alter_Some _ _ _ _ Hpm).
  apply (raw_mark _ _ (cancel_command (p, c)) c); [|exact Hpm|done| |by destruct (cancel_queued c)].
  - apply IH; [done|]. intros pc Hpc. apply Hl. by right.
  - intros Ht. rewrite Ht in Hph. by rewrite bool_decide_true in Hph.
Qed.

Lemma mark_all_counted id l m q j u :
  counted_in m q j u -> NoDup (map fst l) ->
  (forall pc, pc ∈ l -> m !! pc.1 = Some pc.2 /\ cancel_target id pc = true) ->
  counted_in (mark_all l m) (q ++ map cancel_command l) j
    (if decide (j = id) then set_cancels (cancels u + Z.of_nat (length l)) u else u).
Proof.
  intros Hr. induction l as [|[p c] l IH]; intros Hnd Hl; cbn [mark_all foldr map length].
  { rewrite app_nil_r. eapply counted_ext; [|exact Hr]. case_decide; [|done].
    unfold counters. cbn. by rewrite Z.add_0_r. }
  apply NoDup_cons in Hnd as [Hp Hnd]. cbn in Hp.
  destruct (Hl (p, c)) as [Hm Hc]; [by left|]. cbn in Hm. unfold cancel_target in Hc. cbn in Hc.
  apply andb_prop in Hc as [_ Hid]. apply bool_decide_eq_true in Hid.
  assert (mark_all l m !! p = Some c) as Hpm by (by rewrite mark_all_other).
  assert (forall q', q' ≡ₚ q ++ map cancel_command ((p, c) :: l) -> forall u', counted_in
            (mark_all ((p, c) :: l) m) q' j u' ->
            counted_in (mark_all ((p, c) :: l) m) (q ++ map cancel_command ((p, c) :: l)) j u') as Hperm.
  { intros q' Hq u' (H1 & H2 & H3). split_and!; [done..|]. rewrite H3. unfold commands. by rewrite Hq. }
  eapply (Hperm ((q ++ map cancel_command l) ++ [cancel_command (p, c)])).
  { rewrite <- app_assoc. apply Permutation_app_head. by rewrite Permutation_app_comm. }
  cbn [mark_all foldr fst]. fold (mark_all l m). rewrite (alter_Some _ _ _ _ Hpm).
  specialize (IH Hnd ltac:(intros; apply Hl; by right)).
  apply (counted_mark _ _ p c (cancel_command (p, c))) in IH; [|done..]. rewrite Hid in IH. eapply counted_ext; [|exact IH]. case_decide; [|done].
  unfold counters. cbn. f_equal. f_equal. lia.
Qed.

Lemma mark_all_phases l (m : gmap Z CqeContext) p :
  (forall c, m !! p = Some c -> exists c', mark_all l m !! p = Some c' /\ cphase c' = cphase c /\
     kind c' = kind c /\ cstate c' = cstate c) /\
  (m !! p = None -> mark_all l m !! p = None).
Proof.
  induction l as [|[q x] l [IH1 IH2]]; cbn; [split; eauto|]. fold (mark_all l m).
  destruct (decide (p = q)) as [->|Hne].
  - rewrite lookup_alter_eq. split.
    + intros c Hc. destruct (IH1 c Hc) as (c' & -> & Hx). eexists. split; [done|]. exact Hx.
    + intros Hn. by rewrite IH2.
  - rewrite lookup_alter_ne by done. done.
Qed.

(** [request_cancel]'s data section adds one command per live original it marks. *)
Lemma core_queue_cancels id l s batch un fl :
  core s batch un fl -> NoDup (map fst l) ->
  (forall pc, pc ∈ l -> contexts (data s) !! pc.1 = Some pc.2 /\ cancel_target id pc = true) ->
  core (on_sub id (fun u => set_cancels (cancels u + Z.of_nat (length l)) u)
         (on_data (fun d => set_cancel_queue (cancel_queue d ++ map cancel_command l) d)
           (on_data (fun d => set_contexts (mark_all l (contexts d)) d) s))) batch un fl.
Proof.
  intros [Hk Hc Hn Hh] Hnd Hl. apply cancel_inv_split in Hc as [Hr Ho].
  pose proof (mark_all_phases l (contexts (data s))) as Hph.
  assert (dom (mark_all l (contexts (data s))) = dom (contexts (data s))) as Hdom.
  { apply set_eq. intros p. rewrite !elem_of_dom. destruct (Hph p) as [H1 H2].
    destruct (contexts (data s) !! p) as [c|].
    - destruct (H1 c eq_refl) as (c' & -> & _). split; eauto.
    - by rewrite H2. }
  constructor.
  - eapply kernel_same; [exact Hk|done|exact Hdom|done|done| |].
    + intros p. unfold phase_at. cbn. destruct (Hph p) as [H1 H2].
      destruct (contexts (data s) !! p) as [c|].
      * destruct (H1 c eq_refl) as (c' & -> & -> & _). done.
      * by rewrite H2.
    + intros p c Hp Hko. destruct (Hph p) as [H1 _]. destruct (H1 c Hp) as (c' & Hc' & _ & Hk' & _).
      exists c'. split; [exact Hc'|congruence].
  - apply cancel_inv_split. split; [|exact Ho]. by eapply mark_all_raw.
  - eapply (count_inv_update s); [exact Hn|reflexivity|..]; cbn.
    + intros j u Hu. by apply mark_all_counted.
    + intros p c Hp. destruct (Hph p) as [H1 H2]. destruct (contexts (data s) !! p) as [c0|] eqn:E.
      * destruct (H1 c0 eq_refl) as (c' & Hc' & _ & _ & Hs). rewrite Hc' in Hp. injection Hp as <-.
        rewrite Hs. by eapply (ni_state _ Hn).
      * rewrite H2 in Hp by done. done.
    + intros cmd Hin. apply elem_of_app in Hin as [Hin|Hin]; [by apply (ni_command _ Hn)|].
      apply list_elem_of_fmap in Hin as (pc & -> & Hin). destruct (Hl pc Hin) as [Hp _]. cbn.
      by eapply (ni_state _ Hn).
  - exact Hh.
Qed.

Lemma on_sub_zero s id : subs (on_sub id (fun u => set_cancels (cancels u + 0) u) s) = subs s.
Proof.
  cbn. apply map_eq. intros j. destruct (decide (j = id)) as [->|Hne].
  - rewrite lookup_alter_eq. destruct (subs s !! id) as [u|]; [|done]. cbn.
    rewrite Z.add_0_r. by destruct u.
  - by rewrite lookup_alter_ne.
Qed.

Definition cancel_targets id (d : DriverData T) : list (Z * CqeContext) :=
  filter (fun pc => cancel_target id pc = true) (map_to_list (contexts d)).

Lemma cancel_targets_spec id (d : DriverData T) :
  NoDup (map fst (cancel_targets id d)) /\
  forall pc, pc ∈ cancel_targets id d <-> contexts d !! pc.1 = Some pc.2 /\ cancel_target id pc = true.
Proof.
  split.
  - pose proof (NoDup_fst_map_to_list (contexts d)) as Hnd. unfold cancel_targets.
    induction (map_to_list (contexts d)) as [|pc l IH]; [constructor|].
    cbn in Hnd. apply NoDup_cons in Hnd as [Hin Hnd]. rewrite filter_cons. case_decide; [|by apply IH].
    cbn. apply NoDup_cons. split; [|by apply IH]. contradict Hin.
    apply list_elem_of_fmap in Hin as (pc' & Heq & Hin'). apply list_elem_of_filter in Hin' as [_ Hin'].
    apply list_elem_of_fmap. by exists pc'.
  - intros [p c]. unfold cancel_targets. rewrite list_elem_of_filter, elem_of_map_to_list. cbn. tauto.
Qed.

Lemma queue_cancels_keeps id batch un fl s h :
  good s batch un fl h -> run_post (queue_cancels id) o s h (keeps batch un fl).
Proof.
  intros [Hc [Ht Hkn]]. destruct (cancel_targets_spec id (data s)) as [Hnd Hl].
  eapply run_post_bind_eq; [reflexivity|]. eapply run_post_bind_eq; [reflexivity|].
  eapply run_post_bind_eq; [reflexivity|].
  pose proof (core_queue_cancels id (cancel_targets id (data s)) s batch un fl Hc Hnd
    (fun pc Hpc => proj1 (Hl pc) Hpc)) as Hc'.
  assert (length (map cancel_command (cancel_targets id (data s))) = length (cancel_targets id (data s)))
    as Hlen by apply length_map.
  unfold cancel_command, cancel_targets in Hlen. case_bool_decide as Hz.
  - apply run_post_ret. split; [|split; [exact Ht|exact Hkn]].
    rewrite Hlen in Hz. unfold cancel_targets in Hc'. rewrite Hz in Hc'. cbn in Hc'.
    eapply core_subs; [exact Hc'|done..|]. intros j. by rewrite on_sub_zero.
  - apply run_post_modify. split; [|split; [exact Ht|cbn; by rewrite dom_alter_L]].
    rewrite Hlen. exact Hc'.
Qed.

Lemma request_cancel_keeps id dl batch un fl s h :
  good s batch un fl h -> run_post (request_cancel id dl) o s h (keeps batch un fl).
Proof.
  intros Hg. eapply keeps_bind; [by apply close_delivery_keeps|]. intros _ s' h' Hg'.
  by apply queue_cancels_keeps.
Qed.

(** [request_owned_cancel] marks one live owned context. *)
Lemma core_mark_owned s p x batch un fl :
  core s batch un fl -> owned_contexts (data s) !! p = Some x -> o_phase x <> CTerminal ->
  o_cancel_queued x = false ->
  core (on_data (fun d => set_owned_cancel_queue (owned_cancel_queue d ++ [p]) d)
         (on_data (fun d => set_owned_contexts (alter (fun c =>
            mkOwned (o_phase c) (o_control c) (handler c) true (o_cancel_seen c)) p
            (owned_contexts d)) d) s)) batch un fl.
Proof.
  intros [Hk Hc Hn Hh] Hp Hph Hq. apply cancel_inv_split in Hc as [Hr Ho]. constructor.
  - eapply kernel_same; [exact Hk|done|done|cbn; by rewrite dom_alter_L|done| |eauto].
    intros q. unfold phase_at. cbn. destruct (decide (q = p)) as [->|Hne].
    + rewrite lookup_alter_eq, Hp. cbn. by destruct (contexts (data s) !! p).
    + by rewrite lookup_alter_ne.
  - apply cancel_inv_split. split; [exact Hr|]. cbn. rewrite (alter_Some _ _ _ _ Hp). by apply owned_mark.
  - destruct Hn. by constructor.
  - intros ctl. specialize (Hh ctl). cbn. rewrite (alter_Some _ _ _ _ Hp).
    pose proof (total_update (handles_op ctl) (owned_contexts (data s)) p x
      (mkOwned (o_phase x) (o_control x) (handler x) true (o_cancel_seen x)) Hp) as E.
    assert (handles_op ctl (mkOwned (o_phase x) (o_control x) (handler x) true (o_cancel_seen x)) =
            handles_op ctl x) as F by done. rewrite F in E. lia.
Qed.

Lemma request_owned_cancel_keeps ctl batch un fl s h :
  good s batch un fl h -> run_post (request_owned_cancel ctl) o s h (keeps batch un fl).
Proof.
  intros [Hc Ht]. eapply run_post_bind_eq; [reflexivity|].
  destruct (head _) as [[p x]|] eqn:Eh; [|by apply run_post_ret].
  apply head_Some_elem_of in Eh. apply list_elem_of_filter in Eh as [Htgt Hin].
  apply elem_of_map_to_list in Hin. unfold owned_target in Htgt. cbn in Htgt.
  apply andb_prop in Htgt as [Htgt Hq]. apply andb_prop in Htgt as [_ Hph].
  eapply run_post_bind_eq; [reflexivity|]. apply run_post_modify. split; [|exact Ht].
  apply (core_mark_owned s p x); [done..| |by destruct (o_cancel_queued x)].
  intros E. rewrite E in Hph. by rewrite bool_decide_true in Hph.
Qed.
End Sections.
