(* ===== verification/RingDrive.v ===== *)
(** * RingDrive: completion dispatch and the passes keep the invariant *)

From Stdlib Require Import ZArith Lia.
From stdpp Require Import base gmap sets list strings.
From S2P Require Import Prelude Errors Ffi Ring RingOps RingFutures RingInv RingPrim RingCount RingStep RingSect.

Open Scope Z_scope.

Section Drive.
Context `{U : Uring, !UringLaws} {T : Type}.
Notation ring := (Ring T).
Notation uprog := (prog ucall uresp).
Notation uhist := (history ucall uresp).
Notation uoracle := (oracle ucall uresp).
Implicit Types (s : ring) (h : uhist) (p : Z) (batch : list cqe) (un : gset OpId) (id : SubId).
Implicit Types (fl : list (OwnedHandler T)) (u : SubmissionInner).

Variable new_box : uhist -> gset Z -> Z.
Hypothesis Hbox : allocator_fresh new_box.
Variable o : uoracle.
Hypothesis Hkernel : kernel_bounded o.
Variable known : gset SubId.
Notation good := (good known).
Notation keeps := (keeps known).

(** ** Completing owned operations *)

Lemma core_complete s hd c batch un fl v :
  core s batch un (hd :: fl) -> controls s !! h_control hd = Some c ->
  core (set_controls (<[ h_control hd := mkControl (op_cancelled c) true None (Some v) ]> (controls s)) s)
    batch un fl.
Proof.
  intros [Hk Hc Hn Hh] Hctl. constructor; [| done| |].
  - destruct Hk. by constructor.
  - destruct Hn. by constructor.
  - intros ctl. specialize (Hh ctl). cbn. unfold open_op in *.
    repeat rewrite ?handlers_in_app, ?handlers_in_cons in Hh. rewrite !handlers_in_app.
    destruct (decide (ctl = h_control hd)) as [->|Hne].
    + rewrite lookup_insert_eq. cbn. rewrite Hctl, bool_decide_true in Hh by done.
      destruct (op_completed c); cbn in Hh; lia.
    + rewrite lookup_insert_ne by done. rewrite bool_decide_false in Hh by congruence. cbn in Hh. lia.
Qed.

Lemma core_failing_control s hd batch un fl :
  core s batch un (hd :: fl) -> exists c, controls s !! h_control hd = Some c /\ op_completed c = false.
Proof.
  intros [_ _ _ Hh]. specialize (Hh (h_control hd)).
  repeat rewrite ?handlers_in_app, ?handlers_in_cons in Hh. rewrite bool_decide_true in Hh by done.
  destruct (open_op_control (h_control hd) (controls s)) as (c & H1 & H2); [cbn in *; lia|]. eauto.
Qed.

Lemma finish_handler_keeps hd v batch un fl s h :
  good s batch un (hd :: fl) h -> run_post (finish_handler hd v) o s h (keeps batch un fl).
Proof.
  intros [Hc Ht]. destruct (core_failing_control _ _ _ _ _ Hc) as (c & Hctl & _).
  eapply run_post_bind_eq; [reflexivity|]. rewrite Hctl. eapply run_post_bind_eq; [reflexivity|].
  apply run_post_ret. split; [|exact Ht]. by apply core_complete.
Qed.

Lemma fail_owned_keeps batch un fl : forall l s h,
  good s batch un (map fst l ++ fl) h -> run_post (fail_owned l) o s h (keeps batch un fl).
Proof.
  induction l as [|[hd f] l IH]; intros s h Hg; [by apply keeps_ret|].
  eapply keeps_bind; [by apply (finish_handler_keeps _ _ _ _ (map fst l ++ fl))|]. intros ws s1 h1 Hg1.
  eapply keeps_bind; [by apply IH|]. intros ws' s2 h2 Hg2. by apply keeps_ret.
Qed.

(** ** Raw completions *)

Lemma popped_context s c batch ctx :
  kernel_inv s (c :: batch) -> contexts (data s) !! cqe_user_data c = Some ctx -> cphase ctx = Submitted.
Proof.
  intros Hk Hp. pose proof (popped_submitted _ _ _ Hk) as Hs. apply phase_at_raw in Hp. congruence.
Qed.

Lemma core_pop_more s c batch un fl :
  core s (c :: batch) un fl -> cqe_more c = true -> core s batch un fl.
Proof.
  intros [Hk Hc Hn Hh] Hm. constructor; [|done..]. eapply kernel_pop_more; [exact Hk|done..].
Qed.

(** An original's terminal CQE. *)
Lemma core_original_terminal s c batch un fl ctx m' :
  let p := cqe_user_data c in
  core s (c :: batch) un fl -> cqe_more c = false -> contexts (data s) !! p = Some ctx ->
  kind ctx = Original ->
  m' = (if cancel_queued ctx && negb (cancel_seen ctx) then <[ p := set_cphase CTerminal ctx ]> (contexts (data s))
        else delete p (contexts (data s))) ->
  core (on_sub (cstate ctx) (fun u => set_original_terminal (original_terminal u + 1) u)
         (on_data (set_contexts m') s)) batch un fl.
Proof.
  intros p [Hk Hc Hn Hh] Hm Hp Hko Em'. pose proof (popped_context _ _ _ _ Hk Hp) as Hph.
  destruct (popped_terminal _ _ _ Hk Hm) as [Hnf Hnl].
  apply cancel_inv_split in Hc as [Hr Ho].
  assert (owned_contexts (data s) !! p = None /\ owned_cancel_contexts (data s) !! p = None) as [N1 N2].
  { rewrite <- !not_elem_of_dom. apply elem_of_dom_2 in Hp.
    pose proof (ki_raw_owned _ _ Hk) as D1. pose proof (ki_raw_cancel _ _ Hk) as D2.
    clear - Hp D1 D2. set_solver. }
  assert (m' = delete p (contexts (data s)) \/ m' = <[ p := set_cphase CTerminal ctx ]> (contexts (data s))) as Hm'
    by (rewrite Em'; destruct (_ && _); auto).
  assert (forall q, q <> p -> m' !! q = contexts (data s) !! q) as Hother.
  { intros q Hq. destruct Hm' as [-> | ->]; [by rewrite lookup_delete_ne|by rewrite lookup_insert_ne]. }
  constructor.
  - eapply kernel_pop_terminal; [exact Hk|exact Hm|done| |done|done| | |].
    + cbn. destruct Hm' as [-> | ->]; [rewrite dom_delete_L; set_solver|].
      rewrite dom_insert_lookup_L; [done|by eexists].
    + unfold phase_at. cbn. fold p. rewrite N1, N2. destruct Hm' as [-> | ->].
      * rewrite lookup_delete_eq. by left.
      * rewrite lookup_insert_eq. by right.
    + intros q Hq. left. unfold phase_at. cbn. by rewrite Hother.
    + intros q x Hq _ Hx Hkx. cbn. rewrite Hother by done. eauto.
  - apply cancel_inv_split. split; [|exact Ho]. cbn. rewrite Em'.
    pose proof (proj1 Hr p ctx Hp) as Hw. unfold context_wf in Hw. rewrite Hko in Hw.
    destruct (cancel_queued ctx && negb (cancel_seen ctx)) eqn:Ea.
    + eapply raw_rephase; [exact Hr|exact Hp|done..|]. unfold context_wf. cbn. rewrite Hko.
      split; [tauto|]. intros _. apply andb_prop in Ea as [Eq Es]. by destruct (cancel_seen ctx).
    + eapply raw_delete_original; [exact Hr|exact Hp|done|]. unfold awaiting. by rewrite Hko.
  - eapply (count_inv_update s); [exact Hn|reflexivity|..]; cbn.
    + intros j u Hu. by eapply counted_terminal.
    + intros q x Hx. destruct (decide (q = p)) as [->|Hq].
      * destruct Hm' as [E|E]; rewrite E in Hx; [by rewrite lookup_delete_eq in Hx|].
        rewrite lookup_insert_eq in Hx. injection Hx as <-. exact (ni_state _ Hn p ctx Hp).
      * rewrite Hother in Hx by done. by eapply (ni_state _ Hn).
    + apply (ni_command _ Hn).
  - exact Hh.
Qed.

(** A cancellation's CQE. *)
Lemma core_answer s c batch un fl ctx t orig m' :
  let p := cqe_user_data c in
  core s (c :: batch) un fl -> cqe_more c = false -> contexts (data s) !! p = Some ctx ->
  kind ctx = Cancel -> target ctx = Some t ->
  contexts (data s) !! t = Some orig -> awaiting orig = true -> t <> p ->
  m' = (if bool_decide (cphase orig = CTerminal) then delete t (delete p (contexts (data s)))
        else <[ t := set_cancel_seen true orig ]> (delete p (contexts (data s)))) ->
  core (on_sub (cstate ctx) (fun u => set_cancel_terminal (cancel_terminal u + 1) u)
         (on_data (set_contexts m') s)) batch un fl.
Proof.
  intros p [Hk Hc Hn Hh] Hm Hp Hkc Ht Ho Ha Hne Em'.
  apply cancel_inv_split in Hc as [Hr How].
  assert (kind orig = Original) as Hko by (unfold awaiting in Ha; by destruct (kind orig)).
  assert (owned_contexts (data s) !! p = None /\ owned_cancel_contexts (data s) !! p = None /\
          owned_contexts (data s) !! t = None /\ owned_cancel_contexts (data s) !! t = None) as (N1 & N2 & N3 & N4).
  { rewrite <- !not_elem_of_dom. apply elem_of_dom_2 in Hp. apply elem_of_dom_2 in Ho.
    pose proof (ki_raw_owned _ _ Hk) as D1. pose proof (ki_raw_cancel _ _ Hk) as D2.
    clear - Hp Ho D1 D2. set_solver. }
  assert (m' !! p = None) as Hmp.
  { rewrite Em'. case_bool_decide.
    - rewrite lookup_delete_ne, lookup_delete_eq; done.
    - rewrite lookup_insert_ne, lookup_delete_eq; done. }
  assert (forall q, q <> p -> q <> t -> m' !! q = contexts (data s) !! q) as Hother.
  { intros q Hq Hqt. rewrite Em'. case_bool_decide.
    - by rewrite !lookup_delete_ne.
    - by rewrite lookup_insert_ne, lookup_delete_ne. }
  assert (cphase orig = CTerminal /\ m' !! t = None \/
          cphase orig <> CTerminal /\ m' !! t = Some (set_cancel_seen true orig)) as Hmt.
  { rewrite Em'. case_bool_decide; [left|right]; (split; [done|]).
    - apply lookup_delete_eq.
    - apply lookup_insert_eq. }
  constructor.
  - eapply kernel_pop_terminal; [exact Hk|exact Hm|done| |done|done| | |].
    + cbn. intros q. rewrite !elem_of_dom. destruct (decide (q = p)) as [->|Hq]; [rewrite Hmp; by intros []|].
      destruct (decide (q = t)) as [->|Hqt]; [by eexists|]. by rewrite Hother.
    + unfold phase_at. cbn. fold p. rewrite Hmp, N1, N2. by left.
    + intros q Hq. unfold phase_at. cbn. destruct (decide (q = t)) as [->|Hqt]; [|left; by rewrite Hother].
      rewrite Ho. destruct Hmt as [[Hph ->]|[Hph ->]]; [right|by left].
      by rewrite N3, N4, Hph.
    + intros q x Hq Hph Hx Hkx. cbn. destruct (decide (q = t)) as [->|Hqt]; [|rewrite Hother by done; eauto].
      destruct Hmt as [[Hpt _]|[_ ->]]; [|eexists; split; [done|exact Hko]].
      apply phase_at_raw in Ho. congruence.
  - apply cancel_inv_split. split; [|exact How]. cbn. eapply raw_answer; [exact Hr|exact Hp|exact Hkc|exact Ht|exact Ho|exact Ha|exact Em'].
  - eapply (count_inv_update s); [exact Hn|reflexivity|..]; cbn.
    + intros j u Hu. by eapply counted_answer.
    + intros q x Hx. destruct (decide (q = p)) as [->|Hq]; [congruence|].
      destruct (decide (q = t)) as [->|Hqt]; [|rewrite Hother in Hx by done; exact (ni_state _ Hn q x Hx)].
      destruct Hmt as [[_ E]|[_ E]]; rewrite E in Hx; [done|]. injection Hx as <-. exact (ni_state _ Hn t orig Ho).
    + apply (ni_command _ Hn).
  - exact Hh.
Qed.

Definition step_counters (more : bool) u : SubmissionInner :=
  if more then u else set_original_terminal (original_terminal u + 1) u.

Lemma wake_drain_counters u : counters (wake_drain u).1 = counters u.
Proof. unfold wake_drain. by destruct (drained u). Qed.

Lemma deliver_original_counters u c more :
  counters (deliver_original u c more).1.1 = counters (step_counters more u).
Proof.
  unfold deliver_original, step_counters.
  assert (forall v : SubmissionInner, counters v = counters u ->
    counters (set_original_terminal (original_terminal v + 1) v) =
    counters (set_original_terminal (original_terminal u + 1) u)) as Hv.
  { intros v. unfold counters. cbn. intros [= -> -> -> -> ->]. done. }
  assert (forall (v : SubmissionInner) b, counters
    (let '(w, _) := if b : bool then (set_normal_waker None v, opt_list (normal_waker v)) else (v, []) in w)
      = counters v) as Hw by (intros v []; done).
  destruct (negb (iterator_finished u)); cbn;
    (destruct (delivery u); cbn; [destruct (_ <? _); [|destruct (normal_overflow u)]; cbn|..]);
    destruct more; try done; cbn;
    (destruct (_ =? _) eqn:?; cbn; rewrite (surjective_pairing (wake_drain _)); cbn;
     rewrite wake_drain_counters; done).
Qed.

Lemma deliver_cancel_counters u c :
  counters (deliver_cancel u c).1 = counters (set_cancel_terminal (cancel_terminal u + 1) u).
Proof.
  unfold deliver_cancel.
  destruct (delivery u); cbn; (try destruct (_ <? _)); cbn;
    (destruct (_ =? _) eqn:?; cbn; rewrite (surjective_pairing (wake_drain _)); cbn;
     rewrite wake_drain_counters; done).
Qed.

Lemma counters_put_alter (m : gmap SubId SubmissionInner) i u u' (f : SubmissionInner -> SubmissionInner) :
  m !! i = Some u -> counters u' = counters (f u) ->
  forall id, counters <$> <[ i := u' ]> m !! id = counters <$> alter f i m !! id.
Proof.
  intros Hu Hc id. destruct (decide (id = i)) as [->|Hne].
  - rewrite lookup_insert_eq, lookup_alter_eq, Hu. cbn. by rewrite Hc.
  - by rewrite lookup_insert_ne, lookup_alter_ne.
Qed.

Lemma dispatch_raw_keeps c batch un fl s h :
  good s (c :: batch) un fl h -> cqe_user_data c ∈ dom (contexts (data s)) ->
  run_post (dispatch_raw c) o s h (keeps batch un fl).
Proof.
  intros [Hc [Ht Hkn]] Hdom. set (p := cqe_user_data c) in *.
  apply elem_of_dom in Hdom as [ctx Hp].
  pose proof (popped_context _ _ _ _ (core_kernel _ _ _ _ Hc) Hp) as Hph.
  assert (p <> 0) as Hp0.
  { intros E. apply (ki_null _ _ (core_kernel _ _ _ _ Hc)). rewrite <- E. unfold boxes.
    apply elem_of_dom_2 in Hp. clear - Hp. set_solver. }
  unfold dispatch_raw. fold p. rewrite (proj2 (Z.eqb_neq p 0) Hp0).
  eapply run_post_bind_eq; [reflexivity|]. rewrite Hp. eapply run_post_bind_eq; [reflexivity|].
  rewrite Hph, bool_decide_true by done. cbn [negb].
  destruct (ni_state _ (core_count _ _ _ _ Hc) p ctx Hp) as [u Hu].
  destruct (kind ctx) eqn:Hk.
  - apply run_post_bind. eapply get_sub_post; [exact Hu|]. cbn [then_post].
    pose proof (deliver_original_counters u
      (mkCompletion (index ctx) (cqe_set_user_data (original_user_data ctx) c)) (cqe_more c)) as Hcnt.
    destruct (deliver_original _ _ _) as [[u' ws] over]. cbn [fst] in Hcnt.
    eapply run_post_bind_eq; [reflexivity|].
    assert (known ⊆ dom (<[cstate ctx := u']> (subs s))) as Hkn' by (rewrite dom_insert_L; set_solver).
    destruct (cqe_more c) eqn:Hm; cbn [orb].
    + eapply run_post_bind_eq; [reflexivity|]. apply run_post_ret.
      split; [|split; [exact Ht|exact Hkn']].
      eapply core_subs; [by eapply core_pop_more; [exact Hc|]|..]; try reflexivity.
      * cbn. rewrite insert_delete_eq, insert_id by done. by destruct (data s).
      * cbn. by eapply counters_insert.
    + pose proof (core_original_terminal s c batch un fl ctx _ Hc Hm Hp Hk eq_refl) as Hc'.
      fold p in Hc'. destruct (cancel_queued ctx && negb (cancel_seen ctx)).
      * eapply run_post_bind_eq; [reflexivity|]. apply run_post_ret.
        split; [|split; [exact Ht|exact Hkn']]. eapply core_subs; [exact Hc'|..]; try reflexivity.
        -- cbn. by rewrite insert_delete_eq.
        -- cbn. by eapply counters_put_alter.
      * eapply run_post_bind_eq; [reflexivity|]. apply run_post_ret.
        split; [|split; [exact Ht|exact Hkn']]. eapply core_subs; [exact Hc'|..]; try reflexivity.
        cbn. by eapply counters_put_alter.
  - destruct (cqe_more c) eqn:Hm.
    { pose proof (ki_posted _ _ (core_kernel _ _ _ _ Hc)) as [Hpost _]. rewrite Hm in Hpost.
      destruct Hpost as [_ (x & Hx & Hkx)]. fold p in Hx. congruence. }
    pose proof (core_cancel _ _ _ _ Hc) as Hci. apply cancel_inv_split in Hci as [Hr _].
    pose proof (proj1 Hr p ctx Hp) as Hw. unfold context_wf in Hw. rewrite Hk in Hw.
    destruct Hw as [_ [t Htg]]. rewrite Htg.
    destruct (cancel_target_found _ _ p ctx t Hr Hp Hk Htg) as (orig & Ho & Ha & Hne).
    apply run_post_bind. eapply get_sub_post; [exact Hu|]. cbn [then_post].
    pose proof (deliver_cancel_counters u
      (mkCompletion (index ctx) (cqe_set_user_data (original_user_data ctx) c))) as Hcnt.
    destruct (deliver_cancel _ _) as [u' ws]. cbn [fst] in Hcnt.
    eapply run_post_bind_eq; [reflexivity|]. eapply run_post_bind_eq; [reflexivity|].
    cbn [data set_subs on_data set_data contexts set_contexts].
    rewrite lookup_delete_ne, Ho by done. eapply run_post_bind_eq; [reflexivity|]. apply run_post_ret.
    split; [|split; [exact Ht|cbn; rewrite dom_insert_L; set_solver]].
    eapply core_subs; [exact (core_answer s c batch un fl ctx t orig _ Hc Hm Hp Hk Htg Ho Ha Hne eq_refl)|..];
      try reflexivity.
    cbn. by eapply counters_put_alter.
Qed.

(** ** Owned completions *)

Lemma core_owned_terminal s c batch un fl x hd m' :
  let p := cqe_user_data c in
  core s (c :: batch) un fl -> cqe_more c = false -> owned_contexts (data s) !! p = Some x ->
  handler x = Some hd ->
  m' = (if o_cancel_queued x && negb (o_cancel_seen x)
        then <[ p := mkOwned CTerminal (o_control x) None (o_cancel_queued x) (o_cancel_seen x) ]> (owned_contexts (data s))
        else delete p (owned_contexts (data s))) ->
  core (on_data (set_owned_contexts m') s) batch un (hd :: fl).
Proof.
  intros p [Hk Hc Hn Hh] Hm Hp Hhd Em'. apply cancel_inv_split in Hc as [Hr Ho].
  assert (contexts (data s) !! p = None /\ owned_cancel_contexts (data s) !! p = None) as [N1 N2].
  { rewrite <- !not_elem_of_dom. apply elem_of_dom_2 in Hp.
    pose proof (ki_raw_owned _ _ Hk) as D1. pose proof (ki_owned_cancel _ _ Hk) as D2.
    clear - Hp D1 D2. set_solver. }
  set (x' := mkOwned CTerminal (o_control x) None (o_cancel_queued x) (o_cancel_seen x)) in *.
  assert (m' = delete p (owned_contexts (data s)) \/ m' = <[ p := x' ]> (owned_contexts (data s))) as Hm'
    by (rewrite Em'; destruct (_ && _); auto).
  constructor.
  - eapply kernel_pop_terminal; [exact Hk|exact Hm|done|done| |done| | |].
    + cbn. destruct Hm' as [-> | ->]; [rewrite dom_delete_L; set_solver|].
      rewrite dom_insert_lookup_L; [done|by eexists].
    + unfold phase_at. cbn. fold p. rewrite N1, N2. destruct Hm' as [-> | ->].
      * rewrite lookup_delete_eq. by left.
      * rewrite lookup_insert_eq. by right.
    + intros q Hq. left. unfold phase_at. cbn.
      destruct Hm' as [-> | ->]; [by rewrite lookup_delete_ne|by rewrite lookup_insert_ne].
    + eauto.
  - apply cancel_inv_split. split; [exact Hr|]. cbn. rewrite Em'. destruct (_ && _) eqn:Ea.
    + eapply owned_rephase; [exact Ho|exact Hp|done|]. apply andb_prop in Ea as [Eq Es].
      split; cbn; [|done]. split_and!; [done|done|]. by destruct (o_cancel_seen x).
    + eapply owned_delete; [exact Ho|exact Hp|done].
  - destruct Hn. by constructor.
  - intros ctl. specialize (Hh ctl). cbn.
    assert (total (handles_op ctl) m' + Nat.b2n (bool_decide (h_control hd = ctl)) =
            total (handles_op ctl) (owned_contexts (data s)))%nat as E.
    { assert (handles_op ctl x = Nat.b2n (bool_decide (h_control hd = ctl))) as <- by (unfold handles_op; by rewrite Hhd).
      destruct Hm' as [-> | ->].
      - rewrite (total_delete (handles_op ctl) _ p x Hp). lia.
      - pose proof (total_update (handles_op ctl) _ p x x' Hp) as E.
        change (handles_op ctl x') with 0%nat in E. lia. }
    repeat rewrite ?handlers_in_app, ?handlers_in_cons. rewrite !handlers_in_app in Hh. lia.
Qed.

Lemma core_owned_answer s c batch un fl x y m' :
  let p := cqe_user_data c in
  core s (c :: batch) un fl -> cqe_more c = false -> owned_cancel_contexts (data s) !! p = Some x ->
  owned_contexts (data s) !! oc_target x = Some y -> owned_awaiting y = true ->
  m' = (if bool_decide (o_phase y = CTerminal) then delete (oc_target x) (owned_contexts (data s))
        else <[ oc_target x := mkOwned (o_phase y) (o_control y) (handler y) (o_cancel_queued y) true ]>
               (owned_contexts (data s))) ->
  core (on_data (set_owned_contexts m')
         (on_data (set_owned_cancel_contexts (delete p (owned_cancel_contexts (data s)))) s)) batch un fl.
Proof.
  intros p [Hk Hc Hn Hh] Hm Hp Hy Ha Em'. apply cancel_inv_split in Hc as [Hr Ho].
  set (t := oc_target x) in *.
  assert (contexts (data s) !! p = None /\ owned_contexts (data s) !! p = None /\
          contexts (data s) !! t = None /\ owned_cancel_contexts (data s) !! t = None) as (N1 & N2 & N3 & N4).
  { rewrite <- !not_elem_of_dom. apply elem_of_dom_2 in Hp. apply elem_of_dom_2 in Hy.
    pose proof (ki_raw_owned _ _ Hk) as D1. pose proof (ki_owned_cancel _ _ Hk) as D2.
    pose proof (ki_raw_cancel _ _ Hk) as D3. clear - Hp Hy D1 D2 D3. set_solver. }
  assert (t <> p) as Hne by congruence.
  set (y' := mkOwned (o_phase y) (o_control y) (handler y) (o_cancel_queued y) true) in *.
  assert (o_phase y = CTerminal /\ m' = delete t (owned_contexts (data s)) \/
          m' = <[ t := y' ]> (owned_contexts (data s))) as Hm'
    by (rewrite Em'; case_bool_decide; auto).
  constructor.
  - eapply kernel_pop_terminal; [exact Hk|exact Hm|done|done| | | | |].
    + cbn. destruct Hm' as [[_ ->] | ->]; [rewrite dom_delete_L; set_solver|].
      rewrite dom_insert_lookup_L; [done|by eexists].
    + cbn. rewrite dom_delete_L. clear. set_solver.
    + left. unfold phase_at. cbn. fold p. rewrite N1, lookup_delete_eq.
      destruct Hm' as [[_ ->] | ->]; [rewrite lookup_delete_ne|rewrite lookup_insert_ne]; by rewrite ?N2.
    + intros q Hq. unfold phase_at. cbn. fold p. rewrite (lookup_delete_ne _ p q) by done.
      destruct Hm' as [[Hpt ->] | ->]; (destruct (decide (q = t)) as [->|Hqt]).
      * right. rewrite N3, N4, lookup_delete_eq, Hy, Hpt. done.
      * left. by rewrite lookup_delete_ne.
      * left. rewrite N3, lookup_insert_eq, Hy. done.
      * left. by rewrite lookup_insert_ne.
    + eauto.
  - apply cancel_inv_split. split; [exact Hr|]. cbn. eapply owned_answer; [exact Ho|exact Hp|exact Hy|exact Ha|exact Em'].
  - destruct Hn. by constructor.
  - intros ctl. specialize (Hh ctl). cbn.
    assert (total (handles_op ctl) m' = total (handles_op ctl) (owned_contexts (data s)))%nat as ->; [|exact Hh].
    destruct Hm' as [[Hpt ->] | ->].
    + rewrite (total_delete (handles_op ctl) (owned_contexts (data s)) t y Hy).
      destruct (proj1 Ho t y Hy) as [Hw _]. unfold handles_op at 2. destruct (handler y); [naive_solver|done].
    + pose proof (total_update (handles_op ctl) _ t y y' Hy) as E.
      assert (handles_op ctl y' = handles_op ctl y) as F by done. lia.
Qed.

Lemma dispatch_owned_keeps c batch un fl s h :
  good s (c :: batch) un fl h -> cqe_user_data c ∉ dom (contexts (data s)) ->
  run_post (dispatch_owned c) o s h (keeps batch un fl).
Proof.
  intros [Hc Ht] Hdom. set (p := cqe_user_data c) in *. pose proof (core_kernel _ _ _ _ Hc) as Hk.
  pose proof (popped_submitted _ _ _ Hk) as Hsub. fold p in Hsub.
  pose proof (core_cancel _ _ _ _ Hc) as Hci. apply cancel_inv_split in Hci as [_ Ho].
  apply not_elem_of_dom in Hdom. unfold phase_at in Hsub. rewrite Hdom in Hsub.
  assert (p <> 0) as Hp0.
  { intros E. apply (ki_null _ _ Hk). rewrite <- E. apply phase_at_boxes. unfold phase_at. rewrite Hdom, Hsub. eauto. }
  assert (cqe_more c = false) as Hm.
  { destruct (cqe_more c) eqn:Hm; [|done]. pose proof (ki_posted _ _ Hk) as [Hpost _]. rewrite Hm in Hpost.
    destruct Hpost as [_ (x & Hx & _)]. fold p in Hx. congruence. }
  unfold dispatch_owned. fold p. rewrite (proj2 (Z.eqb_neq p 0) Hp0), Hm.
  eapply run_post_bind_eq; [reflexivity|].
  destruct (owned_contexts (data s) !! p) as [x|] eqn:Hp.
  - injection Hsub as Hph. eapply run_post_bind_eq; [reflexivity|]. rewrite Hph, bool_decide_true by done. cbn [negb].
    destruct (proj1 Ho p x Hp) as [Hw _]. destruct (handler x) as [hd|] eqn:Hhd; [|destruct Hw; congruence].
    pose proof (core_owned_terminal s c batch un fl x hd _ Hc Hm Hp Hhd eq_refl) as Hc'. fold p in Hc'.
    destruct (o_cancel_queued x && negb (o_cancel_seen x));
      (eapply run_post_bind_eq; [reflexivity|]; apply (finish_handler_keeps _ _ batch un fl);
       split; [|exact Ht]; eapply core_subs; [exact Hc'|..]; try reflexivity).
    cbn. by rewrite insert_delete_eq.
  - destruct (owned_cancel_contexts (data s) !! p) as [x|] eqn:Hq; [|done]. injection Hsub as Hph.
    eapply run_post_bind_eq; [reflexivity|]. rewrite Hph, bool_decide_true by done. cbn [negb].
    destruct (owned_target_found _ _ _ p x Ho Hq) as (y & Hy & Ha). rewrite Hy.
    eapply run_post_bind_eq; [reflexivity|]. apply run_post_ret. split; [|exact Ht].
    exact (core_owned_answer s c batch un fl x y _ Hc Hm Hq Hy Ha eq_refl).
Qed.

Lemma dispatch_keeps c batch un fl s h :
  good s (c :: batch) un fl h -> run_post (dispatch c) o s h (keeps batch un fl).
Proof.
  intros Hg. eapply run_post_bind_eq; [reflexivity|]. case_bool_decide.
  - by apply dispatch_raw_keeps.
  - eapply keeps_bind; [by apply dispatch_owned_keeps|]. intros ws s' h' Hg'. by apply keeps_ret.
Qed.
End Drive.
