(* ===== verification/RingOpen.v ===== *)
(** * RingOpen: who takes the ring

    [IoUringDriver] keeps its ring in [ring: Mutex<Option<IoUring>>]; only a stopping
    [run] takes it, and admission, submission and reaping abort without it.  No section
    of the driver or of its clients touches the ring's presence, nor the flags that
    close it ([accepting], [shutdown]): only [shutdown_and_wait] closes admission, and
    only a stopping [run] takes the ring. *)

From Stdlib Require Import ZArith Lia.
From stdpp Require Import base gmap sets list strings.
From S2P Require Import Prelude Errors Ffi Ring RingOps RingFutures.

Open Scope Z_scope.

Section Open.
Context `{U : Uring} {T : Type}.
Notation ring := (Ring T).
Notation uprog := (prog ucall uresp).
Implicit Types (s : ring).

(** Whether the ring is there, and the two flags of its closure. *)
Definition closure s : bool * bool * bool := (ring_open s, dshutdown (data s), accepting (data s)).

Notation still := (preserves closure).

Ltac still_auto := preserves_auto; try done.

Lemma get_sub_still id : still (get_sub (T := T) id).
Proof. intros o s h. unfold run_post, get_sub. by destruct (subs s !! id). Qed.

Lemma put_sub_still id u : still (put_sub (T := T) id u).
Proof. unfold put_sub. still_auto. Qed.

Lemma sq_push_still e : still (sq_push (T := T) e).
Proof. unfold sq_push. still_auto. Qed.

Lemma ring_submit_still : still (ring_submit (T := T)).
Proof. unfold ring_submit. still_auto. Qed.

#[local] Hint Resolve get_sub_still put_sub_still sq_push_still ring_submit_still : nosv.

(** ** Submission and cancellation *)

Lemma pop_owned_still : still (pop_owned (T := T)).
Proof. unfold pop_owned. still_auto. Qed.

Lemma accept_one_still : still (accept_one (T := T)).
Proof. unfold accept_one. still_auto. Qed.

#[local] Hint Resolve pop_owned_still accept_one_still : nosv.

Lemma accept_prefix_still n : still (accept_prefix (T := T) n).
Proof. induction n as [|n IH]; cbn [accept_prefix]; still_auto. Qed.

#[local] Hint Resolve accept_prefix_still : nosv.

Lemma submit_staged_still : still (submit_staged (T := T)).
Proof. unfold submit_staged. still_auto. Qed.

Lemma close_delivery_still id dl : still (close_delivery (T := T) id dl).
Proof. unfold close_delivery. still_auto. Qed.

Lemma queue_cancels_still id : still (queue_cancels (T := T) id).
Proof. unfold queue_cancels. still_auto. Qed.

#[local] Hint Resolve submit_staged_still close_delivery_still queue_cancels_still : nosv.

Lemma request_cancel_still id dl : still (request_cancel (T := T) id dl).
Proof. unfold request_cancel. still_auto. Qed.

Lemma reap_still n : still (reap_cqes (T := T) n).
Proof. unfold reap_cqes. still_auto. Qed.

(** ** Completion *)

Lemma finish_handler_still hd v : still (finish_handler (T := T) hd v).
Proof. unfold finish_handler. still_auto. Qed.

#[local] Hint Resolve finish_handler_still : nosv.

Lemma fail_owned_still l : still (fail_owned (T := T) l).
Proof. induction l as [|[hd f] l IH]; cbn [fail_owned]; still_auto. Qed.

Lemma dispatch_still c : still (dispatch (T := T) c).
Proof. unfold dispatch, dispatch_raw, dispatch_owned. still_auto. Qed.

(** ** Futures and owned operations *)

Lemma submit_entries_still lim id closed es : still (submit_entries (T := T) lim id closed es).
Proof. unfold submit_entries, register_submission. still_auto. Qed.

Lemma submit_check_still cx se : still (submit_check (T := T) cx se).
Proof. unfold submit_check. still_auto. Qed.

Lemma next_completion_still id cx : still (next_completion (T := T) id cx).
Proof. unfold next_completion. still_auto. Qed.

Lemma next_cancellation_still id cx : still (next_cancellation (T := T) id cx).
Proof. unfold next_cancellation. still_auto. Qed.

Lemma wait_drained_still id cx : still (wait_drained (T := T) id cx).
Proof. unfold wait_drained. still_auto. Qed.

Lemma owned_submit_still open op : still (owned_submit (T := T) open op).
Proof. unfold owned_submit, enqueue. still_auto. Qed.

Lemma owned_take_still op : still (owned_take (T := T) op).
Proof. unfold owned_take. still_auto. Qed.

Lemma request_owned_cancel_still ctl : still (request_owned_cancel (T := T) ctl).
Proof. unfold request_owned_cancel. still_auto. Qed.
End Open.

#[export] Hint Resolve get_sub_still put_sub_still sq_push_still ring_submit_still pop_owned_still accept_one_still
  accept_prefix_still submit_staged_still close_delivery_still queue_cancels_still
  request_cancel_still reap_still finish_handler_still fail_owned_still dispatch_still
  submit_entries_still submit_check_still next_completion_still next_cancellation_still
  wait_drained_still owned_submit_still owned_take_still request_owned_cancel_still : nosv.

Section Passes.
Context `{U : Uring} {T : Type}.
Variable new_box : history ucall uresp -> gset Z -> Z.
Notation still := (preserves closure).

Ltac still_auto := preserves_auto; try done.

Lemma alloc_still : still (alloc (T := T) new_box).
Proof. intros o s h. done. Qed.

#[local] Hint Resolve alloc_still : nosv.

(** ** Staging, submission and admission *)

Lemma stage_commands_still q : still (stage_commands (T := T) new_box q).
Proof. induction q as [|c q IH]; cbn [stage_commands]; still_auto. Qed.
#[local] Hint Resolve stage_commands_still : nosv.

Lemma stage_owned_commands_still q : still (stage_owned_commands (T := T) new_box q).
Proof. induction q as [|c q IH]; cbn [stage_owned_commands]; still_auto. Qed.
#[local] Hint Resolve stage_owned_commands_still : nosv.

Lemma stage_owned_still supported n : still (stage_owned (T := T) new_box supported n).
Proof. induction n as [|n IH]; cbn [stage_owned]; still_auto. Qed.
#[local] Hint Resolve stage_owned_still : nosv.

Lemma stage_original_still id i e : still (stage_original (T := T) new_box id i e).
Proof. unfold stage_original. still_auto. Qed.
#[local] Hint Resolve stage_original_still : nosv.

Lemma admit_entries_still id it : forall next any, still (admit_entries (T := T) new_box id it next any).
Proof. induction it as [|e it IH]; intros; cbn [admit_entries]; still_auto. Qed.
#[local] Hint Resolve admit_entries_still : nosv.

Lemma driver_admit_still id a : still (driver_admit (T := T) new_box id a).
Proof.
  unfold driver_admit, admit_section, admit_loop, stage_cancellations.
  still_auto.
Qed.

Lemma pass_submit_still supported n : still (pass_submit (T := T) new_box supported n).
Proof. unfold pass_submit, stage_cancellations, stage_owned_cancellations. still_auto. Qed.
End Passes.

#[export] Hint Resolve pass_submit_still driver_admit_still : nosv.
