(* ===== verification/RingSys.v ===== *)
(** * RingSys: the io_uring driver as a step relation

    Any number of submission futures, completion streams, cancellation handles and
    owned operations on any threads, the owner's shutdown, the driver's task and the
    kernel, interleaved at the granularity of the driver's critical sections.  Every
    reachable state has the invariant of [RingInv]. *)

From Stdlib Require Import ZArith Lia.
From stdpp Require Import base gmap sets list strings.
From S2P Require Import Prelude Errors Ffi Ring RingOps RingFutures RingInv RingPrim RingCount RingStep RingSect RingDrive RingOpen.

Open Scope Z_scope.

Section System.
Context `{U : Uring, !UringLaws} {T : Type}.
Notation ring := (Ring T).
Notation uprog := (prog ucall uresp).
Notation uhist := (history ucall uresp).
Notation uoracle := (oracle ucall uresp).

(** Where the driver's task is: looping through its passes, told to stop by [decide] and
    about to take the ring, or past it. *)
Inductive DriverLoop : Type := Looping | Stopping | Stopped.

(** The driver's state and history; what its task holds between two sections: CQEs
    it reaped, operations it must fail, submissions that overflowed; the operations
    no poll has queued yet; where its loop is; and how the process aborted. *)
Record RSys : Type := mkRSys {
  r : ring;
  rh : uhist;
  batch : list cqe;
  failing : list (OwnedHandler T * OwnedFailure);
  overs : list SubId;
  unqueued : gset OpId;
  loop : DriverLoop;
  crash : option string
}.

Definition set_r s h x := mkRSys s h (batch x) (failing x) (overs x) (unqueued x) (loop x) (crash x).
Definition set_batch b x := mkRSys (r x) (rh x) b (failing x) (overs x) (unqueued x) (loop x) (crash x).
Definition set_failing f x := mkRSys (r x) (rh x) (batch x) f (overs x) (unqueued x) (loop x) (crash x).
Definition set_overs v x := mkRSys (r x) (rh x) (batch x) (failing x) v (unqueued x) (loop x) (crash x).
Definition set_unqueued n x := mkRSys (r x) (rh x) (batch x) (failing x) (overs x) n (loop x) (crash x).
Definition set_loop l x := mkRSys (r x) (rh x) (batch x) (failing x) (overs x) (unqueued x) l (crash x).
Definition set_crash m x := mkRSys (r x) (rh x) (batch x) (failing x) (overs x) (unqueued x) (loop x) (Some m).

Variable new_box : uhist -> gset Z -> Z.
Variable o : uoracle.
Variable supported : Z -> bool.
Variable cfg : IoUringConfig.

(** Runs a section; an abort ends the process. *)
Definition exec {A} (m : uprog ring A) (x : RSys) (k : A -> RSys -> RSys) : RSys :=
  match m o (r x) (rh x) with
  | (Done a, s, h) => k a (set_r s h x)
  | (Panicked e, s, h) => set_crash e (set_r s h x)
  | (Aborted e, s, h) => set_crash e (set_r s h x)
  | (Blocked e, s, h) => set_crash e (set_r s h x)
  end.
Definition exec_ {A} (m : uprog ring A) (x : RSys) : RSys := exec m x (fun _ x => x).

(** The submissions a thread can name: registered ones. *)
Definition registered (x : RSys) : gset SubId := dom (subs (r x)).

(** The kernel posts a CQE for an entry it holds.  The entry is gone unless the CQE
    says that more follow, which happens only to caller-provided operations. *)
Definition kernel_posts (c : cqe) (x : RSys) : Prop :=
  cqe_user_data c ∈ flight (r x) /\
  (cqe_more c = true -> exists ctx, contexts (data (r x)) !! cqe_user_data c = Some ctx /\ kind ctx = Original).

Fixpoint remove_one (p : Z) (l : list Z) : list Z :=
  match l with [] => [] | q :: l' => if decide (q = p) then l' else q :: remove_one p l' end.

Definition post_cqe (c : cqe) (s : ring) : ring :=
  set_cq (cq s ++ [c])
    (set_kernel (sq s) (if cqe_more c then flight s else remove_one (cqe_user_data c) (flight s)) s).

Inductive rstep : RSys -> RSys -> Prop :=
(* futures and handles *)
| rs_submit x id closed es :
    id ∉ registered x ->
    rstep x (exec_ (submit_entries (max_buffered_completions cfg) id closed es) x)
| rs_admit x id a : id ∈ registered x -> rstep x (exec_ (driver_admit new_box id a) x)
| rs_check x se cx : se_state se ∈ registered x -> rstep x (exec_ (submit_check cx se) x)
| rs_close x id dl : id ∈ registered x -> rstep x (exec_ (close_delivery id dl) x)
| rs_queue x id : id ∈ registered x -> rstep x (exec_ (queue_cancels id) x)
| rs_next x id cx : id ∈ registered x -> rstep x (exec_ (next_completion id cx) x)
| rs_next_cancel x id cx : id ∈ registered x -> rstep x (exec_ (next_cancellation id cx) x)
| rs_drain x id cx : id ∈ registered x -> rstep x (exec_ (wait_drained id cx) x)
| rs_detach x id : id ∈ registered x -> rstep x (exec_ (cancellation_drop id true) x)
| rs_release x id : rstep x (exec_ (modify (fun s => set_handles (handles s ∖ {[ id ]}) s)) x)
(* owned operations *)
| rs_owned_new x ctl hd :
    controls (r x) !! ctl = None ->
    rstep x (exec (owned_new ctl hd) x (fun _ x => set_unqueued (unqueued x ∪ {[ ctl ]}) x))
| rs_owned_submit x open op hd :
    oo_queued op = false -> oo_handler op = Some hd -> h_control hd ∈ unqueued x ->
    rstep x (exec (owned_submit open op) x
               (fun _ x => set_unqueued (unqueued x ∖ {[ h_control hd ]}) x))
| rs_owned_register x cx op : rstep x (exec_ (owned_register cx op) x)
| rs_owned_take x op c v :
    controls (r x) !! oo_control op = Some c -> op_completed c = false \/ op_result c = Some v ->
    rstep x (exec_ (owned_take op) x)
| rs_owned_flag x ctl :
    rstep x (exec_ (modify (fun s => set_controls (alter (fun c =>
      mkControl true (op_completed c) (op_waker c) (op_result c)) ctl (controls s)) s)) x)
| rs_owned_cancel x ctl : rstep x (exec_ (request_owned_cancel ctl) x)
(* the owner's shutdown *)
| rs_close_owned x : rstep x (exec_ (modify (set_owned_admission false)) x)
| rs_shutdown x : rstep x (exec_ shutdown_section x)
(* the driver's task *)
| rs_pass x :
    loop x = Looping -> failing x = [] -> batch x = [] -> overs x = [] ->
    rstep x (exec (pass_submit new_box supported (Z.to_nat (entries cfg))) x
               (fun '(failed, _) x => set_failing failed x))
| rs_fail x f rest :
    failing x = f :: rest ->
    rstep x (exec (fail_owned [f]) x (fun _ x => set_failing rest x))
| rs_reap x :
    loop x = Looping -> failing x = [] -> batch x = [] -> overs x = [] ->
    rstep x (exec (reap_cqes (Z.to_nat (reap_size cfg))) x (fun '(l, _) x => set_batch l x))
| rs_dispatch x c rest :
    batch x = c :: rest ->
    rstep x (exec (dispatch c) x (fun '(_, over) x => set_overs (overs x ++ opt_list over) (set_batch rest x)))
| rs_over x id rest :
    batch x = [] -> overs x = id :: rest -> rstep x (set_overs rest (exec_ (request_cancel id Overflow) x))
| rs_decide x backlog :
    loop x = Looping -> failing x = [] -> batch x = [] -> overs x = [] ->
    decide_run (data (r x)) backlog (is_empty (owned_queue (r x))) = DStop ->
    rstep x (set_loop Stopping x)
| rs_take x :
    loop x = Stopping -> rstep x (exec take_ring x (fun _ x => set_loop Stopped x))
(* the kernel *)
| rs_kernel x c :
    kernel_posts c x -> rstep x (set_r (post_cqe c (r x)) (rh x) x).

(** A process runs until it aborts. *)
Definition sys_step (x y : RSys) : Prop := crash x = None /\ rstep x y.

Definition sys_init (x : RSys) : Prop :=
  r x = ring_new /\ rh x = [] /\ batch x = [] /\ failing x = [] /\ overs x = [] /\ unqueued x = ∅ /\
  loop x = Looping /\ crash x = None.

(** ** The invariant of the system *)

Definition sys_good (x : RSys) : Prop :=
  good (registered x) (r x) (batch x) (unqueued x) (map fst (failing x)) (rh x).

Definition sys_inv (x : RSys) : Prop :=
  match crash x with None => sys_good x | Some msg => external_abort msg end.

(** The ring is there as long as the driver's task loops, and the task takes it only after
    a shutdown, which closed admission. *)
Definition loop_inv (x : RSys) : Prop :=
  match loop x with
  | Looping => ring_open (r x) = true
  | Stopping => ring_open (r x) = true /\ dshutdown (data (r x)) = true
  | Stopped => ring_open (r x) = false /\ dshutdown (data (r x)) = true
  end /\
  (dshutdown (data (r x)) = true -> accepting (data (r x)) = false).

(** ** Every step keeps it *)

Hypothesis Hbox : allocator_fresh new_box.
Hypothesis Hkernel : kernel_bounded o.

Implicit Types (s : ring) (h : uhist) (x : RSys) (id : SubId) (un : gset OpId).

Lemma good_known k s b un fl h : good k s b un fl h -> good (dom (subs s)) s b un fl h.
Proof. intros [Hc [Ht _]]. split; [exact Hc|]. by split. Qed.

(** A section that keeps the invariant steps to a state with the invariant. *)
Lemma exec_inv {A} (m : uprog ring A) x (k : A -> RSys -> RSys) b un fl :
  run_post m o (r x) (rh x) (keeps (registered x) b un fl) ->
  (forall a s h, good (dom (subs s)) s b un fl h -> sys_inv (k a (set_r s h x))) ->
  sys_inv (exec m x k).
Proof.
  unfold run_post, exec. destruct (m o (r x) (rh x)) as [[[a|e|e|e] s] h]; cbn; [|done..].
  intros Hg Hk. apply Hk. by eapply good_known.
Qed.

Lemma exec_inv_ {A} (m : uprog ring A) x :
  crash x = None ->
  run_post m o (r x) (rh x) (keeps (registered x) (batch x) (unqueued x) (map fst (failing x))) ->
  sys_inv (exec_ m x).
Proof. intros Hx Hm. eapply exec_inv; [exact Hm|]. intros a s h Hg. unfold sys_inv. cbn. by rewrite Hx. Qed.

Lemma good_same s s' k b un fl h :
  good k s b un fl h -> same_kernel s s' -> subs s' = subs s -> controls s' = controls s ->
  contexts (data s') = contexts (data s) -> cancel_queue (data s') = cancel_queue (data s) ->
  owned_contexts (data s') = owned_contexts (data s) ->
  owned_cancel_contexts (data s') = owned_cancel_contexts (data s) ->
  owned_cancel_queue (data s') = owned_cancel_queue (data s) ->
  owned_queue s' = owned_queue s -> owned_pending (data s') = owned_pending (data s) ->
  good k s' b un fl h.
Proof.
  intros [Hc [Ht Hkn]] Hs Es E1 E2 E3 E4 E5 E6 E7 E8. split.
  - eapply core_move_handlers; [exact Hc|done..|]. intros ctl. by rewrite E7, E8.
  - split; [by rewrite (proj1 Hs)|by rewrite Es].
Qed.

(** *** Futures *)

Lemma core_register s b un fl id v :
  core s b un fl -> subs s !! id = None -> counters v = (0, 0, 0, 0, 0) ->
  core (set_subs (<[ id := v ]> (subs s)) s) b un fl.
Proof.
  intros [Hk Hc Hn Hh] Hid Hv. constructor; [by destruct Hk|done| |exact Hh].
  destruct Hn as [H1 H2 H3].
  assert (forall j, is_Some (subs s !! j) -> is_Some (<[ id := v ]> (subs s) !! j)) as Hs.
  { intros j Hj. destruct (decide (j = id)) as [->|Hne]; [rewrite lookup_insert_eq; eauto|].
    by rewrite lookup_insert_ne. }
  constructor; cbn; [|eauto..]. intros j u. destruct (decide (j = id)) as [->|Hne].
  - rewrite lookup_insert_eq. intros [= <-]. unfold counters in Hv. injection Hv as E1 E2 E3 E4 E5.
    assert (forall p c, contexts (data s) !! p = Some c -> cstate c <> id) as Hfresh.
    { intros p c Hp E. destruct (H2 p c Hp) as [w Hw]. congruence. }
    unfold counted. rewrite E1, E2, E3, E4, E5.
    rewrite !total_zero_intro by (intros p c Hp; specialize (Hfresh p c Hp);
      unfold live_original, staged_original, live_cancel; destruct (kind c), (cphase c);
      try done; by rewrite bool_decide_false).
    assert (commands id (cancel_queue (data s)) = 0%nat) as ->; [|done].
    unfold commands. induction (cancel_queue (data s)) as [|cmd q IH]; [done|].
    rewrite filter_cons, decide_False.
    + apply IH. intros c Hc'. apply H3. by right.
    + intros E. destruct (H3 cmd) as [w Hw]; [by left|]. congruence.
  - rewrite lookup_insert_ne by done. apply H1.
Qed.

Lemma submit_entries_keeps id closed es s b un fl h :
  good (dom (subs s)) s b un fl h -> id ∉ dom (subs s) ->
  run_post (submit_entries (max_buffered_completions cfg) id closed es) o s h
    (keeps (dom (subs s)) b un fl).
Proof.
  intros [Hc [Ht _]] Hid. apply not_elem_of_dom in Hid.
  assert (dom (subs s) ⊆ dom (<[ id := sub_new (max_buffered_completions cfg) ]> (subs s))) as Hdom
    by (rewrite dom_insert_L; clear; set_solver).
  pose proof (core_register _ _ _ _ id (sub_new (max_buffered_completions cfg)) Hc Hid eq_refl) as Hc1.
  eapply run_post_bind_eq; [reflexivity|].
  set (s1 := set_subs (<[ id := sub_new (max_buffered_completions cfg) ]> (subs s)) s) in *.
  assert (good (dom (subs s)) s1 b un fl h) as Hg1 by (split; [exact Hc1|split; [exact Ht|exact Hdom]]).
  destruct closed.
  - eapply run_post_bind_eq; [reflexivity|]. apply run_post_ret.
    apply good_on_sub; [|done]. eapply good_same; [exact Hg1|by repeat split|reflexivity..].
  - eapply run_post_bind_eq; [reflexivity|]. apply run_post_ret.
    eapply good_same; [exact Hg1|by repeat split|reflexivity..].
Qed.

Lemma driver_admit_keeps id a s b un fl h :
  good (dom (subs s)) s b un fl h -> id ∈ dom (subs s) ->
  (accepting (data s) = true -> ring_open s = true) ->
  run_post (driver_admit new_box id a) o s h (keeps (dom (subs s)) b un fl).
Proof.
  intros Hg Hid Ho. eapply run_post_bind_eq; [reflexivity|]. destruct (accepting (data s)); cbn [negb].
  2: {
    eapply keeps_bind; [by apply request_cancel_keeps|]. intros _ s' h' Hg'. by apply keeps_ret. }
  destruct (_ || _ || _); [by apply keeps_ret|]. apply admit_section_keeps; try done. by apply Ho.
Qed.

(** A section that reads one submission and updates anything but its counters. *)
Lemma sub_section_keeps {A} id (k : SubmissionInner -> uprog ring A) s b un fl h :
  good (dom (subs s)) s b un fl h -> id ∈ dom (subs s) ->
  (forall u, subs s !! id = Some u -> exists a u', counters u' = counters u /\
     run_post (k u) o s h (fun q s' h' =>
       q = Done a /\ h' = h /\ (s' = s \/ s' = set_subs (<[ id := u' ]> (subs s)) s))) ->
  run_post (prog_bind (get_sub id) k) o s h (keeps (dom (subs s)) b un fl).
Proof.
  intros Hg Hid Hk. apply elem_of_dom in Hid as [u Hu]. apply run_post_bind.
  eapply get_sub_post; [exact Hu|]. cbn [then_post]. destruct (Hk u Hu) as (a & u' & Hc & Hrun).
  eapply run_post_mono; [exact Hrun|]. intros q s' h' (-> & -> & [-> | ->]); [exact Hg|].
  by eapply good_put.
Qed.

Ltac sub_section := (do 2 eexists); (split; [|unfold run_post; cbn; eauto]); reflexivity.

Lemma submit_check_keeps se cx s b un fl h :
  good (dom (subs s)) s b un fl h -> se_state se ∈ dom (subs s) ->
  run_post (submit_check cx se) o s h (keeps (dom (subs s)) b un fl).
Proof.
  intros Hg Hid. apply sub_section_keeps; [done..|]. intros u Hu.
  destruct (delivery u); [destruct (se_closed se); [|destruct (_ && _)]|..]; sub_section.
Qed.

Lemma next_completion_keeps id cx s b un fl h :
  good (dom (subs s)) s b un fl h -> id ∈ dom (subs s) ->
  run_post (next_completion id cx) o s h (keeps (dom (subs s)) b un fl).
Proof.
  intros Hg Hid. apply sub_section_keeps; [done..|]. intros u Hu.
  destruct (normal u); [destruct (normal_overflow u); [|destruct (_ || _)]|]; sub_section.
Qed.

Lemma next_cancellation_keeps id cx s b un fl h :
  good (dom (subs s)) s b un fl h -> id ∈ dom (subs s) ->
  run_post (next_cancellation id cx) o s h (keeps (dom (subs s)) b un fl).
Proof.
  intros Hg Hid. apply sub_section_keeps; [done..|]. intros u Hu.
  destruct (cancellations u); [destruct (cancel_overflow u); [|destruct (_ =? _)]|]; sub_section.
Qed.

Lemma wait_drained_keeps id cx s b un fl h :
  good (dom (subs s)) s b un fl h -> id ∈ dom (subs s) ->
  run_post (wait_drained id cx) o s h (keeps (dom (subs s)) b un fl).
Proof.
  intros Hg Hid. apply sub_section_keeps; [done..|]. intros u Hu. destruct (drained u); sub_section.
Qed.

(** *** The driver's pass *)

Lemma wake_admissions_counters ids : forall m id,
  counters <$> (wake_admissions ids m).1 !! id = counters <$> m !! id.
Proof.
  induction ids as [|i ids IH]; intros m id; cbn; [done|].
  destruct (m !! i) as [u|] eqn:Hu; [|apply IH]. destruct (iterator_finished u); [apply IH|].
  destruct (wake_admissions ids _) as [m' ws] eqn:E. cbn.
  specialize (IH (<[i := set_admission_waker None u]> m) id). rewrite E in IH. cbn in IH. rewrite IH.
  by apply (counters_insert m i u).
Qed.

Lemma pass_submit_post budget s b un h :
  good (dom (subs s)) s b un [] h -> ring_open s = true ->
  run_post (pass_submit new_box supported budget) o s h (fun q s' h' =>
    match q with
    | Done (failed, _) => good (dom (subs s)) s' b un (map fst failed) h'
    | Aborted msg => external_abort msg
    | _ => False
    end).
Proof.
  intros Hg Ho. eapply run_post_bind_eq; [reflexivity|]. rewrite Ho. cbn [negb].
  apply run_post_bind. eapply run_post_mono; [by eapply stage_cancellations_keeps|].
  intros [a1|e|e|e] s1 h1 Hg1; cbn in *; [|done..].
  apply run_post_bind. eapply run_post_mono; [by eapply stage_owned_cancellations_keeps|].
  intros [a2|e|e|e] s2 h2 Hg2; cbn in *; [|done..].
  apply run_post_bind. eapply run_post_mono; [by eapply stage_owned_post|].
  intros q s3 h3 (l & -> & Hg3). cbn [then_post app] in *.
  apply run_post_bind. eapply run_post_mono; [by eapply submit_staged_keeps|].
  intros [ws|e|e|e] s4 h4 Hg4; cbn in *; [|done..].
  eapply run_post_bind_eq; [reflexivity|]. destruct (_ && _ && _); [|by apply run_post_ret].
  destruct (wake_admissions _ _) as [m ws'] eqn:E. eapply run_post_bind_eq; [reflexivity|].
  apply run_post_ret. eapply good_subs; [exact Hg4|reflexivity..|]. intros id. cbn.
  pose proof (wake_admissions_counters (filter (fun i => strong s4 i = true) (submissions (data s4))) (subs s4) id)
    as Hw. by rewrite E in Hw.
Qed.

Lemma core_batch s b b' l un fl :
  core s b un fl -> b ++ cq s = b' ++ l -> core (set_cq l s) b' un fl.
Proof.
  intros [Hk Hc Hn Hh] E. constructor; [|done|by destruct Hn|done].
  destruct Hk as [? ? ? ? ? ? ? Hf Hp]. constructor; try done; cbn; by rewrite <- E.
Qed.

Lemma good_batch k s b b' l un fl h :
  good k s b un fl h -> b ++ cq s = b' ++ l -> good k (set_cq l s) b' un fl h.
Proof. intros [Hc Ht] E. split; [by eapply core_batch|exact Ht]. Qed.

(** *** Owned operations *)

Lemma core_release s b un fl hd :
  core s b un fl -> h_control hd ∈ un -> core s b (un ∖ {[ h_control hd ]}) (hd :: fl).
Proof.
  intros [Hk Hc Hn Hh] Hin. constructor; [done..|]. intros ctl. specialize (Hh ctl).
  repeat rewrite ?handlers_in_app, ?handlers_in_cons. rewrite !handlers_in_app in Hh.
  destruct (decide (h_control hd = ctl)) as [<-|Hne].
  - rewrite bool_decide_true in Hh by done. rewrite bool_decide_true by done.
    rewrite bool_decide_false by set_solver. cbn in *. lia.
  - rewrite (bool_decide_false (h_control hd = ctl)) by done. cbn.
    rewrite (bool_decide_ext (ctl ∈ un ∖ {[h_control hd]}) (ctl ∈ un)) by set_solver. exact Hh.
Qed.

Lemma owned_submit_keeps open op hd k s b un fl h :
  good k s b un fl h -> oo_queued op = false -> oo_handler op = Some hd -> h_control hd ∈ un ->
  run_post (owned_submit open op) o s h (keeps k b (un ∖ {[ h_control hd ]}) fl).
Proof.
  intros [Hc Ht] Hq Hhd Hin. apply (core_release _ _ _ _ hd) in Hc; [|done].
  assert (good k s b (un ∖ {[ h_control hd ]}) (hd :: fl) h) as Hg by done.
  unfold owned_submit. rewrite Hq, Hhd. destruct open; cbn [negb].
  - unfold enqueue. apply run_post_bind. eapply run_post_bind_eq; [reflexivity|].
    destruct (owned_admission s); cbn [negb].
    + eapply run_post_bind_eq; [reflexivity|]. apply run_post_ret. cbn [then_post]. apply run_post_ret.
      split; [|exact Ht]. eapply core_move_handlers; [exact Hc|by repeat split|reflexivity..|].
      intros ctl. cbn. repeat rewrite ?handlers_in_app, ?handlers_in_cons.
      change (handlers_in ctl []) with 0%nat. lia.
    + apply run_post_ret. cbn [then_post]. eapply keeps_bind; [by apply finish_handler_keeps|].
      intros ws s' h' Hg'. by apply keeps_ret.
  - eapply keeps_bind; [by apply finish_handler_keeps|]. intros ws s' h' Hg'. by apply keeps_ret.
Qed.

(** Changes of controls that keep what is completed. *)
Lemma good_controls k s m b un fl h :
  good k s b un fl h ->
  (forall ctl, open_op ctl m = open_op ctl (controls s)) ->
  good k (set_controls m s) b un fl h.
Proof.
  intros [[Hk Hc Hn Hh] Ht] Hm. split; [|exact Ht].
  constructor; [by destruct Hk|done|by destruct Hn|]. intros ctl. cbn. rewrite Hm. apply Hh.
Qed.

Lemma open_op_alter (f : Control T -> Control T) ctl m i :
  (forall c, op_completed (f c) = op_completed c) -> open_op ctl (alter f i m) = open_op ctl m.
Proof.
  intros Hf. unfold open_op. destruct (decide (ctl = i)) as [->|Hne].
  - rewrite lookup_alter_eq. destruct (m !! i); cbn; [by rewrite Hf|done].
  - by rewrite lookup_alter_ne.
Qed.

Lemma good_new_control k s ctl b un fl h :
  good k s b un fl h -> controls s !! ctl = None ->
  good k (set_controls (<[ ctl := mkControl false false None None ]> (controls s)) s) b (un ∪ {[ ctl ]}) fl h.
Proof.
  intros [[Hk Hc Hn Hh] Ht] Hctl. split; [|exact Ht].
  constructor; [by destruct Hk|done|by destruct Hn|]. intros j. specialize (Hh j). cbn.
  unfold open_op in *. destruct (decide (j = ctl)) as [->|Hne].
  - rewrite lookup_insert_eq. rewrite Hctl in Hh. rewrite (bool_decide_true (ctl ∈ _ ∪ _)) by set_solver.
    destruct (bool_decide (ctl ∈ un)); cbn in *; lia.
  - rewrite lookup_insert_ne by done.
    rewrite (bool_decide_ext (j ∈ un ∪ {[ctl]}) (j ∈ un)) by set_solver. exact Hh.
Qed.

Lemma owned_take_keeps op c v k s b un fl h :
  good k s b un fl h -> controls s !! oo_control op = Some c ->
  op_completed c = false \/ op_result c = Some v ->
  run_post (owned_take op) o s h (keeps k b un fl).
Proof.
  intros Hg Hc Hv. eapply run_post_bind_eq; [reflexivity|]. rewrite Hc.
  destruct (op_completed c) eqn:Ec; [|by apply run_post_ret]. destruct Hv as [Hv|Hv]; [done|]. rewrite Hv.
  eapply run_post_bind_eq; [reflexivity|]. apply run_post_ret. apply good_controls; [done|].
  intros ctl. unfold open_op. destruct (decide (ctl = oo_control op)) as [->|Hne].
  - by rewrite lookup_insert_eq, Hc, Ec.
  - by rewrite lookup_insert_ne.
Qed.

(** *** The kernel *)

Lemma remove_one_occ p q l :
  p ∈ l -> (occ q (remove_one p l) + Nat.b2n (bool_decide (p = q)))%nat = occ q l.
Proof.
  induction l as [|a l IH]; [by intros ?%elem_of_nil|]. cbn. destruct (decide (a = p)) as [->|Hne].
  - intros _. lia.
  - intros Hin. apply elem_of_cons in Hin as [->|Hin]; [done|]. cbn. specialize (IH Hin). lia.
Qed.

Lemma remove_one_elem p q l : q ∈ l -> q <> p -> q ∈ remove_one p l.
Proof.
  intros Hq Hne. induction l as [|a l IH]; [by apply elem_of_nil in Hq|]. cbn.
  apply elem_of_cons in Hq as [->|Hq].
  - rewrite decide_False by done. by left.
  - case_decide; [done|]. right. by apply IH.
Qed.

(** Appending a CQE that the kernel may post keeps the order of the posted ones. *)
Lemma posted_ok_post (d : DriverData T) fl c : forall l,
  posted_ok d fl l -> cqe_user_data c ∈ fl ->
  (cqe_more c = true -> exists ctx, contexts d !! cqe_user_data c = Some ctx /\ kind ctx = Original) ->
  cqe_user_data c ∉ terminals l ->
  posted_ok d (if cqe_more c then fl else remove_one (cqe_user_data c) fl) (l ++ [c]).
Proof.
  induction l as [|a l IH]; intros Hok Hin Hmore Hterm; cbn [app posted_ok] in *.
  - destruct (cqe_more c); [|by split]. split; [|done]. split; [by left|by apply Hmore].
  - destruct Hok as [Ha Hok]. rewrite terminals_cons in Hterm.
    split; [|apply IH; try done; destruct (cqe_more a); [done|set_solver]].
    destruct (cqe_more a).
    + destruct Ha as [Ha Hctx]. split; [|done]. rewrite terminals_app, terminals_cons.
      change (terminals []) with (@nil Z). destruct (cqe_more c); [rewrite app_nil_r; exact Ha|].
      destruct Ha as [Ha|Ha]; [|right; apply elem_of_app; by left].
      destruct (decide (cqe_user_data a = cqe_user_data c)) as [E|Hne].
      * right. apply elem_of_app. right. rewrite E. by left.
      * left. by apply remove_one_elem.
    + rewrite map_app, elem_of_app. intros [Ha'|Ha']; [done|]. apply list_elem_of_singleton in Ha'.
      apply Hterm. rewrite <- Ha'. by left.
Qed.

Lemma good_post c k s b un fl h :
  good k s b un fl h -> cqe_user_data c ∈ flight s ->
  (cqe_more c = true -> exists ctx, contexts (data s) !! cqe_user_data c = Some ctx /\ kind ctx = Original) ->
  good k (post_cqe c s) b un fl h.
Proof.
  intros [[Hk Hc Hn Hh] Ht] Hin Hmore. split; [|exact Ht].
  constructor; [|exact Hc|by destruct Hn|exact Hh].
  destruct Hk as [? ? ? ? ? ? ? Hf Hp].
  assert (cqe_user_data c ∉ terminals (b ++ cq s)) as Hterm.
  { apply occ_zero. pose proof (in_phase_le Submitted (data s) (cqe_user_data c)) as Hle.
    rewrite <- Hf in Hle. apply occ_pos in Hin. lia. }
  constructor; try done; cbn.
  - intros p. rewrite <- Hf, app_assoc, terminals_app, occ_app, terminals_cons.
    change (terminals []) with (@nil Z). destruct (cqe_more c); cbn; [lia|].
    pose proof (remove_one_occ (cqe_user_data c) p (flight s) Hin). lia.
  - rewrite app_assoc. by apply posted_ok_post.
Qed.

(** *** All steps *)

Lemma same_data_keeps {A} (m : uprog ring A) a s' s b un fl h :
  m o s h = (Done a, s', h) -> good (dom (subs s)) s' b un fl h ->
  run_post m o s h (keeps (dom (subs s)) b un fl).
Proof. unfold run_post. by intros ->. Qed.

(** *** The ring's presence *)

Lemma admission_open x : loop_inv x -> accepting (data (r x)) = true -> ring_open (r x) = true.
Proof.
  intros [Hl Ha] Hacc. destruct (loop x); [done|by destruct Hl|]. destruct Hl as [_ Hs]. specialize (Ha Hs). congruence.
Qed.

(** A step between states with the same loop and the same closure. *)
Lemma loop_still x y : loop_inv x -> loop y = loop x -> closure (r y) = closure (r x) -> loop_inv y.
Proof. unfold loop_inv, closure. intros Hi -> [= -> -> ->]. exact Hi. Qed.

Lemma exec_loop {A} (m : uprog ring A) x (k : A -> RSys -> RSys) :
  loop_inv x -> preserves closure m -> (forall a z, loop (k a z) = loop z /\ r (k a z) = r z) -> loop_inv (exec m x k).
Proof.
  intros Hi Hm Hk. specialize (Hm o (r x) (rh x)). unfold run_post, exec in *.
  destruct (m o (r x) (rh x)) as [[[a|e|e|e] s] h]; apply (loop_still x); try done; by rewrite ?(proj1 (Hk a _)), ?(proj2 (Hk a _)).
Qed.

Lemma exec_loop_ {A} (m : uprog ring A) x : loop_inv x -> preserves closure m -> loop_inv (exec_ m x).
Proof. intros Hi Hm. by apply exec_loop. Qed.

Lemma stop_shutdown d backlog oq : decide_run (T := T) d backlog oq = DStop -> dshutdown d = true.
Proof. unfold decide_run. destruct (dshutdown d); [done|]. cbn. by repeat case_match. Qed.

Lemma rstep_loop x y : loop_inv x -> rstep x y -> loop_inv y.
Proof.
  intros Hi Hstep. destruct Hstep;
    try solve [apply exec_loop_; [done|eauto with nosv]
              |apply exec_loop; [done|eauto with nosv|by intros; repeat case_match]
              |apply exec_loop_; [done|by apply preserves_modify]].
  - destruct Hi as [Hi _]. unfold loop_inv. split; [|done]. change (loop (exec_ shutdown_section x)) with (loop x).
    destruct (loop x); [exact Hi|by split; [apply Hi|]..].
  - destruct Hi as [Hi Ha]. split; [|done]. cbn. match goal with E : loop x = _ |- _ => rewrite E in Hi end.
    split; [done|by eapply stop_shutdown].
  - destruct Hi as [Hi Ha]. match goal with E : loop x = _ |- _ => rewrite E in Hi end. by split; [split; [|apply Hi]|].
  - by apply (loop_still x).
Qed.

Lemma rstep_inv x y : sys_inv x -> loop_inv x -> crash x = None -> rstep x y -> sys_inv y.
Proof.
  intros Hi Hl Hx Hstep. unfold sys_inv in Hi. rewrite Hx in Hi. unfold sys_good, registered in Hi.
  destruct Hstep; unfold registered in *.
  - apply exec_inv_; [done|]. by apply submit_entries_keeps.
  - apply exec_inv_; [done|]. apply driver_admit_keeps; try done. by apply admission_open.
  - apply exec_inv_; [done|]. by apply submit_check_keeps.
  - apply exec_inv_; [done|]. by apply close_delivery_keeps.
  - apply exec_inv_; [done|]. by apply queue_cancels_keeps.
  - apply exec_inv_; [done|]. by apply next_completion_keeps.
  - apply exec_inv_; [done|]. by apply next_cancellation_keeps.
  - apply exec_inv_; [done|]. by apply wait_drained_keeps.
  - apply exec_inv_; [done|]. apply run_post_modify. by apply good_on_sub.
  - apply exec_inv_; [done|]. eapply same_data_keeps; [reflexivity|].
    eapply good_same; [exact Hi|by repeat split|reflexivity..].
  - eapply (exec_inv _ _ _ (batch x) (unqueued x ∪ {[ ctl ]}) (map fst (failing x))).
    + eapply run_post_bind_eq; [reflexivity|]. apply run_post_ret. by apply good_new_control.
    + intros a s h Hg. unfold sys_inv. cbn. by rewrite Hx.
  - eapply (exec_inv _ _ _ (batch x) (unqueued x ∖ {[ h_control hd ]}) (map fst (failing x))).
    + by apply owned_submit_keeps.
    + intros a s h Hg. unfold sys_inv. cbn. by rewrite Hx.
  - apply exec_inv_; [done|]. eapply same_data_keeps; [reflexivity|]. apply good_controls; [exact Hi|].
    intros ctl. by apply open_op_alter.
  - apply exec_inv_; [done|]. by eapply owned_take_keeps.
  - apply exec_inv_; [done|]. eapply same_data_keeps; [reflexivity|]. apply good_controls; [exact Hi|].
    intros j. by apply open_op_alter.
  - apply exec_inv_; [done|]. by apply request_owned_cancel_keeps.
  - apply exec_inv_; [done|]. eapply same_data_keeps; [reflexivity|].
    eapply good_same; [exact Hi|by repeat split|reflexivity..].
  - apply exec_inv_; [done|]. eapply same_data_keeps; [reflexivity|].
    eapply good_same; [exact Hi|by repeat split|reflexivity..].
  - match goal with E : failing x = _ |- _ => rewrite E in Hi end. cbn in Hi. destruct Hl as [Hl _]. match goal with E : loop x = _ |- _ => rewrite E in Hl end.
    pose proof (pass_submit_post (Z.to_nat (entries cfg)) _ _ _ _ Hi Hl) as Hp.
    unfold run_post, exec in *. destruct (pass_submit _ _ _ _ _ _) as [[[[failed ws]|e|e|e] s] h]; cbn in *; [|done..].
    unfold sys_inv. cbn. rewrite Hx. by eapply good_known.
  - match goal with E : failing x = _ |- _ => rewrite E in Hi end. destruct f as [hd f]. cbn in Hi.
    eapply (exec_inv _ _ _ (batch x) (unqueued x) (map fst rest)); [by apply fail_owned_keeps|].
    intros a s h Hg. unfold sys_inv. cbn. by rewrite Hx.
  - destruct Hl as [Hl _]. match goal with E : loop x = _ |- _ => rewrite E in Hl end.
    unfold exec, reap_cqes, mbind, prog_mbind, prog_bind, get. rewrite Hl. cbn [negb].
    match goal with |- sys_inv ?z => change (sys_inv (set_batch (take (Z.to_nat (reap_size cfg)) (Ring.cq (r x)))
      (set_r (set_cq (drop (Z.to_nat (reap_size cfg)) (Ring.cq (r x))) (r x)) (rh x) x))) end.
    unfold sys_inv. cbn. rewrite Hx. eapply good_batch; [exact Hi|].
    match goal with E : batch x = _ |- _ => rewrite E end. cbn. by rewrite take_drop.
  - match goal with E : batch x = _ |- _ => rewrite E in Hi end. eapply (exec_inv _ _ _ rest (unqueued x) (map fst (failing x))); [by eapply dispatch_keeps|].
    intros [ws over] s h Hg. unfold sys_inv. cbn. by rewrite Hx.
  - assert (sys_inv (exec_ (request_cancel id Overflow) x)) as Hy
      by (apply exec_inv_; [done|]; by apply request_cancel_keeps).
    exact Hy.
  - unfold sys_inv. cbn. by rewrite Hx.
  - unfold sys_inv. cbn. rewrite Hx. eapply good_same; [exact Hi|by repeat split|reflexivity..].
  - unfold sys_inv. cbn. rewrite Hx. match goal with E : kernel_posts _ _ |- _ => destruct E as [Hf Hm] end.
    pose proof (good_post c _ _ _ _ _ _ Hi Hf Hm) as Hg. by apply good_known in Hg.
Qed.

Lemma sys_init_inv x : sys_init x -> sys_inv x.
Proof.
  intros (E1 & E2 & E3 & E4 & E5 & E6 & _ & E7). unfold sys_inv, sys_good, registered.
  rewrite E1, E2, E3, E4, E6, E7. split; [|by split].
  constructor.
  - constructor; cbn; try done; try set_solver.
  - constructor; cbn; intros; try done; unfold awaits, owned_awaits; cbn; by rewrite total_empty.
  - constructor; cbn; try done. by intros c ?%elem_of_nil.
  - intros ctl. cbn. rewrite total_empty. unfold open_op. cbn.
    rewrite bool_decide_false by set_solver. done.
Qed.

Lemma sys_init_loop x : sys_init x -> loop_inv x.
Proof. intros (E1 & _ & _ & _ & _ & _ & E2 & _). unfold loop_inv. by rewrite E1, E2. Qed.

Lemma sys_reachable_inv x : reachable sys_init sys_step x -> sys_inv x /\ loop_inv x.
Proof.
  apply (reachable_invariant sys_init sys_step (fun x => sys_inv x /\ loop_inv x)).
  - intros a Ha. split; [by apply sys_init_inv|by apply sys_init_loop].
  - intros a b [Ha Hl] [Hc Hs]. split; [by eapply rstep_inv|by eapply rstep_loop].
Qed.
End System.
Arguments RSys {U} T.
