(* ===== verification/RingSpec.v ===== *)
(** * RingSpec: what the io_uring driver guarantees

    The properties of the driver under the contract of the kernel ([kernel_bounded],
    [kernel_posts]) and of the allocator ([allocator_fresh]), over every reachable
    state of [RingSys]; and what single sections do. *)

From Stdlib Require Import ZArith Lia.
From stdpp Require Import base gmap sets list strings.
From S2P Require Import Prelude Errors Ffi Ring RingOps RingFutures RingInv RingPrim RingCount RingStep RingSect RingDrive RingSys.

Open Scope Z_scope.

Section Consequences.
Context `{U : Uring, !UringLaws} {T : Type}.
Notation ring := (Ring T).
Implicit Types (s : ring) (p : Z) (id : SubId) (u : SubmissionInner).

(** ** Consequences of the invariant *)

(** What the kernel or the SQ holds is a live context. *)
Lemma held_phase s b p :
  kernel_inv s b -> p ∈ sq s ++ flight s ->
  phase_at (data s) p = Some Staged \/ phase_at (data s) p = Some Submitted.
Proof.
  intros Hk Hp. apply elem_of_app in Hp as [Hp|Hp]; apply occ_pos in Hp; [left|right]; apply in_phase_1.
  - pose proof (in_phase_le Staged (data s) p). rewrite <- (ki_staged _ _ Hk) in *. lia.
  - pose proof (in_phase_le Submitted (data s) p). rewrite <- (ki_flight _ _ Hk) in *. lia.
Qed.

(** No context of the submission is live, and no cancellation of it is queued. *)
Definition released (d : DriverData T) id : Prop :=
  (forall p c, contexts d !! p = Some c -> cstate c = id -> kind c = Original /\ cphase c = CTerminal) /\
  (forall c, c ∈ cancel_queue d -> cc_state c <> id).

Definition no_original (d : DriverData T) id : Prop :=
  forall p c, contexts d !! p = Some c -> cstate c = id -> kind c = Original -> cphase c = CTerminal.

Lemma live_original_zero id c :
  live_original id c = 0%nat <-> (cstate c = id -> kind c = Original -> cphase c = CTerminal).
Proof.
  unfold live_original. destruct (kind c), (cphase c); try (by split);
    case_bool_decide; cbn; naive_solver.
Qed.

Lemma no_original_total d id : no_original d id <-> total (live_original id) (contexts d) = 0%nat.
Proof.
  split.
  - intros Hn. apply total_zero_intro. intros p c Hp. apply live_original_zero. by apply (Hn p).
  - intros Ht p c Hp. apply live_original_zero. by eapply total_zero.
Qed.

Lemma commands_zero id q : commands id q = 0%nat <-> forall c, c ∈ q -> cc_state c <> id.
Proof.
  induction q as [|c q IH]; [split; [intros _ c ?%elem_of_nil; done|done]|].
  rewrite commands_cons. split.
  - intros Hz c' Hin. apply elem_of_cons in Hin as [->|Hin].
    + case_bool_decide; [cbn in Hz; lia|done].
    + apply IH; [lia|done].
  - intros Hall. rewrite bool_decide_false by (apply Hall; by left).
    apply IH. intros c' Hin. apply Hall. by right.
Qed.

Lemma released_total d id :
  released d id <->
  total (live_original id) (contexts d) = 0%nat /\
  (total (live_cancel id) (contexts d) + commands id (cancel_queue d))%nat = 0%nat.
Proof.
  split.
  - intros [H1 H2]. split.
    + apply no_original_total. intros p c Hp Hs _. by apply (H1 p c).
    + apply commands_zero in H2. rewrite H2, total_zero_intro; [done|]. intros p c Hp.
      unfold live_cancel. destruct (kind c) eqn:Hk; [done|]. rewrite bool_decide_false; [done|].
      intros Hs. destruct (H1 p c Hp Hs). congruence.
  - intros [H1 H2]. split; [|apply commands_zero; lia]. apply no_original_total in H1.
    intros p c Hp Hs. assert (kind c = Original) as Hk; [|split; [done|by eapply H1]].
    assert (total (live_cancel id) (contexts d) = 0%nat) as Hz by lia.
    pose proof (total_zero _ _ Hz p c Hp) as Hc. unfold live_cancel in Hc.
    destruct (kind c); [done|]. by rewrite bool_decide_true in Hc.
Qed.

Lemma drained_released d id u : counted d id u -> drained u = true <-> released d id.
Proof.
  intros (H1 & H2 & H3). rewrite released_total. unfold drained.
  rewrite andb_true_iff, !Z.eqb_eq. lia.
Qed.
(** The effect of [request_cancel] on the contexts and the delivery. *)
Lemma mark_all_lookup id (d : DriverData T) p :
  mark_all (cancel_targets id d) (contexts d) !! p =
  (fun c => if cancel_target id (p, c) then set_cancel_queued true c else c) <$> contexts d !! p.
Proof.
  destruct (cancel_targets_spec id d) as [Hnd Hl].
  assert (forall l, NoDup (map fst l) -> (forall pc, pc ∈ l -> contexts d !! pc.1 = Some pc.2) ->
    mark_all l (contexts d) !! p =
      if bool_decide (p ∈ map fst l) then set_cancel_queued true <$> contexts d !! p else contexts d !! p) as Hm.
  { induction l as [|[q c] l IH]; intros Hn Hin; [done|]. cbn in Hn |- *. apply NoDup_cons in Hn as [Hq Hn].
    fold (mark_all l (contexts d)). destruct (decide (p = q)) as [->|Hne].
    - rewrite lookup_alter_eq, mark_all_other by done. rewrite bool_decide_true; [done|by left].
    - rewrite lookup_alter_ne, IH by (try done; intros; apply Hin; by right).
      rewrite (bool_decide_ext (p ∈ q :: map fst l) (p ∈ map fst l)); [done|].
      rewrite elem_of_cons. naive_solver. }
  rewrite Hm by (try done; intros pc Hpc; by apply Hl). case_bool_decide as Hin.
  - apply list_elem_of_fmap in Hin as ([q c] & -> & Hin). apply Hl in Hin as [Hp Ht].
    cbn in Hp |- *. rewrite Hp. cbn. by rewrite Ht.
  - destruct (contexts d !! p) as [c|] eqn:Hp; [|done]. cbn. destruct (cancel_target id (p, c)) eqn:Ht; [|done].
    destruct Hin. apply list_elem_of_fmap. exists (p, c). split; [done|]. by apply Hl.
Qed.

Lemma request_cancel_effect (o : oracle ucall uresp) id dl u s (h : history ucall uresp) :
  subs s !! id = Some u -> dl <> Open ->
  exists s' h', request_cancel id dl o s h = (Done tt, s', h') /\
    (forall p, (forall c, contexts (data s') !! p = Some c -> kind c = Original -> cstate c = id ->
                  cphase c <> CTerminal -> cancel_queued c = true) /\
               (forall c, contexts (data s) !! p = Some c -> cstate c <> id ->
                  contexts (data s') !! p = Some c)) /\
    exists u', subs s' !! id = Some u' /\ delivery u' <> Open.
Proof.
  intros Hu Hdl.
  assert (exists s' h', request_cancel id dl o s h = (Done tt, s', h') /\
    contexts (data s') = mark_all (cancel_targets id (data s)) (contexts (data s)) /\
    exists u', subs s' !! id = Some u' /\ delivery u' <> Open) as (s' & h' & E & Hctx & Hdel).
  { unfold request_cancel, close_delivery, queue_cancels. run_unfold. unfold prog_bind. cbn.
    case_bool_decide; cbn; (do 2 eexists); (split; [reflexivity|]); cbn; (split; [reflexivity|]);
      rewrite ?lookup_alter_eq, Hu; cbn; (eexists; split; [reflexivity|]); cbn;
      by destruct dl, (delivery u) eqn:?; cbn; congruence. }
  exists s', h'. split; [done|]. split; [|done]. intros p. rewrite Hctx, mark_all_lookup. split.
  - intros c Hp Hk Hs Hph. apply fmap_Some in Hp as (c0 & Hp & ->).
    destruct (cancel_target id (p, c0)) eqn:Ht; [done|]. unfold cancel_target in Ht. cbn in *.
    rewrite (bool_decide_true (kind c0 = _)), (bool_decide_false (cphase c0 = _)), (bool_decide_true (cstate c0 = id)) in Ht by done.
    by destruct (cancel_queued c0).
  - intros c Hp Hs. rewrite Hp. cbn. unfold cancel_target. cbn.
    by rewrite (bool_decide_false (cstate c = id)), andb_false_r.
Qed.
End Consequences.

(** ** A sample driver *)
Module Sample.
(** Entries are their user data; CQEs carry it with a flag and a result. *)
#[export] Instance sample_uring : Uring := {|
  sqe := Z; cqe := Z * bool * Z;
  sqe_user_data e := e; sqe_set_user_data u _ := u; async_cancel t := t;
  cqe_user_data c := c.1.1; cqe_set_user_data u c := (u, c.1.2, c.2);
  cqe_flags c := if c.1.2 then 2 else 0; cqe_more c := c.1.2; cqe_result c := c.2 |}.
#[export] Instance sample_laws : UringLaws.
Proof. split; try done. by intros [[p []] res]. Qed.

Definition new_box (_ : history ucall uresp) (bs : gset Z) : Z := 1 + foldr Z.max 0 (elements bs).

Lemma foldr_max_ge l z : z ∈ l -> z <= foldr Z.max 0 l.
Proof.
  induction l as [|a l IH]; [by intros ?%elem_of_nil|].
  intros [->|Hz]%elem_of_cons; cbn; [lia|]. specialize (IH Hz). lia.
Qed.

Lemma foldr_max_pos l : 0 <= foldr Z.max 0 l.
Proof. induction l as [|a l IH]; cbn; lia. Qed.

Lemma new_box_fresh : allocator_fresh new_box.
Proof.
  intros h bs. unfold new_box. split.
  - intros Hin. apply elem_of_elements, foldr_max_ge in Hin. lia.
  - pose proof (foldr_max_pos (elements bs)). lia.
Qed.

(** A kernel with room that takes everything at once. *)
Definition kernel : oracle ucall uresp := fun h c =>
  match c with UPush _ => UResp true 0 | USubmit => UResp true (queued_sqes h) end.

Lemma kernel_ok : kernel_bounded kernel.
Proof. intros h. cbn. lia. Qed.

Definition all_supported (_ : Z) : bool := true.
Notation sys := (RSys Z).
Definition start : sys := mkRSys ring_new [] [] [] [] ∅ Looping None.
Definition step_reached : sys -> Prop :=
  reachable sys_init (sys_step new_box kernel all_supported config_default).

Lemma fresh_reached : step_reached start.
Proof. by apply reach_init. Qed.

(** One submission of two entries, admitted and accepted. *)
Definition registered_ : sys := exec_ kernel (submit_entries 65536 1%N false [70; 71]) start.
Definition admitted : sys := exec_ kernel (driver_admit new_box 1%N (mkAdmission [70; 71] None 0)) registered_.

Lemma admitted_reached : step_reached admitted.
Proof.
  apply (reach_step _ _ registered_); [apply (reach_step _ _ start); [apply fresh_reached|]|].
  - split; [done|]. apply (rs_submit new_box kernel all_supported config_default start). by apply not_elem_of_dom.
  - split; [by vm_compute|]. apply (rs_admit new_box kernel all_supported config_default).
    apply elem_of_dom. vm_compute. by eexists.
Qed.

(** The kernel completes both, and the driver dispatches them. *)
Definition posted (c : Z * bool * Z) (x : sys) : sys := set_r (post_cqe c (r x)) (rh x) x.
Definition reaped (x : sys) : sys :=
  exec kernel (reap_cqes (Z.to_nat (reap_size config_default))) x (fun '(l, _) x => set_batch l x).
Definition dispatched (c : Z * bool * Z) (rest : list (Z * bool * Z)) (x : sys) : sys :=
  exec kernel (dispatch c) x (fun '(_, over) x => set_overs (overs x ++ opt_list over) (set_batch rest x)).
Definition posted1 : sys := posted (1, false, 5) admitted.
Definition posted2 : sys := posted (2, false, 0) posted1.
Definition reaped2 : sys := reaped posted2.
Definition dispatched1 : sys := dispatched (1, false, 5) [(2, false, 0)] reaped2.
Definition completed : sys := dispatched (2, false, 0) [] dispatched1.

Lemma completed_reached : step_reached completed.
Proof.
  apply (reach_step _ _ dispatched1); [apply (reach_step _ _ reaped2); [apply (reach_step _ _ posted2);
    [apply (reach_step _ _ posted1); [apply (reach_step _ _ admitted); [apply admitted_reached|]|]|]|]|].
  - split; [by vm_compute|]. apply rs_kernel. split; [vm_compute; by left|by vm_compute].
  - split; [by vm_compute|]. apply rs_kernel. split; [vm_compute; by left|by vm_compute].
  - split; [by vm_compute|]. apply (rs_reap new_box kernel all_supported config_default posted2); by vm_compute.
  - split; [by vm_compute|]. apply (rs_dispatch new_box kernel all_supported config_default reaped2). by vm_compute.
  - split; [by vm_compute|]. apply (rs_dispatch new_box kernel all_supported config_default dispatched1). by vm_compute.
Qed.
End Sample.

(** ** The guarantees *)

Section Guarantees.
Context `{U : Uring, !UringLaws} {T : Type}.
Variable new_box : history ucall uresp -> gset Z -> Z.
Variable o : oracle ucall uresp.
Variable supported : Z -> bool.
Variable cfg : IoUringConfig.
Hypothesis Hbox : allocator_fresh new_box.
Hypothesis Hkernel : kernel_bounded o.
Notation rreach := (reachable sys_init (sys_step (T := T) new_box o supported cfg)).
Implicit Types (x : RSys T) (id : SubId) (p : Z).

Lemma reach_good x : rreach x -> crash x = None -> sys_good x.
Proof.
  intros Hr Hx. pose proof (sys_reachable_inv new_box o supported cfg Hbox Hkernel x Hr) as [Hi _].
  unfold sys_inv in Hi. by rewrite Hx in Hi.
Qed.

Lemma reach_loop x : rreach x -> loop_inv x.
Proof. intros Hr. apply (sys_reachable_inv new_box o supported cfg Hbox Hkernel x Hr). Qed.

(** C2. None of the driver's safety aborts can be reached: whatever submissions,
    polls, cancellations, drops, owned operations and the shutdown do on any
    threads, in any interleaving with the driver's task and the kernel, also after
    the stopping driver took the ring out of [IoUringDriver::ring], the process
    never aborts because the ring is missing during an admission, a submission or a
    reap, for a reused or unknown context pointer, a CQE of an unsubmitted context,
    a vanished cancellation target, a context submitted twice, an operation
    completed twice or unstaged entries accepted, nor panics in a section; only a
    submission error outside the retryable ones and an exhausted index abort it. *)
Theorem ring_never_aborts x (Hr : rreach x) :
  match crash x with
  | None => True
  | Some msg => msg = "unrecoverable submit error"%string \/ msg = "SQE index exhausted"%string
  end.
Proof.
  pose proof (sys_reachable_inv new_box o supported cfg Hbox Hkernel x Hr) as [Hi _].
  unfold sys_inv in Hi. by destruct (crash x).
Qed.

Lemma drained_retired x id u :
  sys_good x -> subs (r x) !! id = Some u -> drained u = true ->
  forall p c, p ∈ sq (r x) ++ flight (r x) -> contexts (data (r x)) !! p = Some c -> cstate c <> id.
Proof.
  intros [[Hk Hc Hn _] _] Hu Hd p c Hp Hctx Hs.
  destruct (proj1 (drained_released _ id u (ni_counted _ Hn id u Hu)) Hd) as [Hrel _].
  destruct (Hrel p c Hctx Hs) as [_ Hph]. destruct (held_phase _ _ _ Hk Hp) as [E|E]; apply phase_at_raw in Hctx; congruence.
Qed.

(** C3. [WaitDrained] certifies retirement and nothing less: in every reachable
    state it is ready exactly when no original of the submission is live and no
    cancellation of it is queued, staged or submitted; then no entry that the SQ or
    the kernel holds belongs to the submission, so its resources may be released. *)
Theorem drain_certifies_release x id cx (Hr : rreach x) (Hx : crash x = None)
    (Hid : id ∈ registered x) :
  run_post (wait_drained id cx) o (r x) (rh x) (fun a _ _ =>
    exists ready : bool, a = Done ready /\
    (ready = true <-> released (data (r x)) id) /\
    (ready = true -> forall p c, p ∈ sq (r x) ++ flight (r x) ->
       contexts (data (r x)) !! p = Some c -> cstate c <> id)).
Proof.
  pose proof (reach_good x Hr Hx) as Hg. pose proof Hg as [[Hk Hc Hn _] _].
  apply (elem_of_dom (subs (r x))) in Hid as [u Hu]. pose proof (drained_released _ id u (ni_counted _ Hn id u Hu)) as Hd.
  apply run_post_bind. eapply get_sub_post; [exact Hu|]. cbn [then_post].
  destruct (drained u) eqn:Ed.
  - apply run_post_ret. exists true. split; [done|]. split; [exact Hd|]. intros _. by apply (drained_retired x id u).
  - eapply run_post_bind_eq; [reflexivity|]. apply run_post_ret. exists false. by split.
Qed.

Lemma stream_ended x id cx u :
  sys_good x -> subs (r x) !! id = Some u -> delivery u = Open ->
  run_post (next_completion id cx) o (r x) (rh x) (fun a _ _ =>
    a = Done (Some None) ->
    iterator_finished u = true /\ normal u = [] /\ normal_overflow u = false /\
    no_original (data (r x)) id /\
    forall p c, p ∈ sq (r x) ++ flight (r x) -> contexts (data (r x)) !! p = Some c ->
      cstate c = id -> kind c = Cancel).
Proof.
  intros [[Hk Hc Hn _] _] Hu Hopen.
  pose proof (ni_counted _ Hn id u Hu) as (H1 & _ & _).
  apply run_post_bind. eapply get_sub_post; [exact Hu|]. cbn [then_post].
  destruct (normal u); [|eapply run_post_bind_eq; [reflexivity|]; by apply run_post_ret].
  destruct (normal_overflow u); [eapply run_post_bind_eq; [reflexivity|]; by apply run_post_ret|].
  rewrite Hopen, bool_decide_true by done. cbn [negb orb].
  destruct (iterator_finished u && (original_terminal u =? originals u)) eqn:E;
    [|eapply run_post_bind_eq; [reflexivity|]; by apply run_post_ret].
  apply run_post_ret. intros _. apply andb_prop in E as [Ei Et]. apply Z.eqb_eq in Et.
  assert (no_original (data (r x)) id) as Hno by (apply no_original_total; lia).
  split_and!; [done..|]. intros p c Hp Hctx Hs. destruct (kind c) eqn:Hkc; [|done].
  pose proof (Hno p c Hctx Hs Hkc) as Hph. apply phase_at_raw in Hctx.
  destruct (held_phase _ _ _ Hk Hp); congruence.
Qed.

(** The end of a completion stream certifies the originals: when
    [CompletionStream::next] ends with [None] while delivery was still open, every
    original of the submission is terminal, so none of them is in the SQ or with
    the kernel; nothing is buffered and no overflow is pending. *)
Theorem stream_end_certifies x id cx u (Hr : rreach x) (Hx : crash x = None)
    (Hu : subs (r x) !! id = Some u) (Hopen : delivery u = Open) :
  run_post (next_completion id cx) o (r x) (rh x) (fun a _ _ =>
    a = Done (Some None) ->
    iterator_finished u = true /\ normal u = [] /\ normal_overflow u = false /\
    no_original (data (r x)) id /\
    forall p c, p ∈ sq (r x) ++ flight (r x) -> contexts (data (r x)) !! p = Some c ->
      cstate c = id -> kind c = Cancel).
Proof. eapply stream_ended; [by apply reach_good|done..]. Qed.

(** How many cancellations of the original at an address are queued, staged or
    submitted. *)
Definition outstanding (d : DriverData T) p : nat :=
  (occ p (map cc_target (cancel_queue d)) + total (targets p) (contexts d))%nat.

(** C21. Cancellation reaches every live original exactly once: after
    [request_cancel], every non-terminal original of the submission is marked, and
    has exactly one cancellation outstanding unless that one was already answered;
    no context of another submission changed, delivery is closed, and no context
    ever has two cancellations outstanding. *)
Theorem cancel_reaches_all_once x id dl (Hr : rreach x) (Hx : crash x = None)
    (Hid : id ∈ registered x) (Hdl : dl <> Open) :
  run_post (request_cancel id dl) o (r x) (rh x) (fun a s' _ =>
    a = Done tt /\
    (forall p c, contexts (data s') !! p = Some c -> kind c = Original ->
       cstate c = id -> cphase c <> CTerminal ->
       cancel_queued c = true /\
       outstanding (data s') p = (if cancel_seen c then 0 else 1)%nat) /\
    (forall p, (outstanding (data s') p <= 1)%nat) /\
    (forall p c, contexts (data (r x)) !! p = Some c -> cstate c <> id ->
       contexts (data s') !! p = Some c) /\
    exists u, subs s' !! id = Some u /\ delivery u <> Open).
Proof.
  pose proof (reach_good x Hr Hx) as Hg.
  pose proof (request_cancel_keeps o (registered x) id dl _ _ _ _ _ Hg) as Hkeep.
  apply (elem_of_dom (subs (r x))) in Hid as [u Hu].
  destruct (request_cancel_effect o id dl u (r x) (rh x) Hu Hdl) as (s' & h' & E & Hctx & Hdel).
  unfold run_post in *. rewrite E in *. cbn in *. destruct Hkeep as [[_ Hc _ _] _].
  pose proof (ci_pending _ Hc) as Hpend. unfold outstanding, awaits in *.
  split_and!; [done| | | |exact Hdel].
  - intros p c Hp Hk Hs Hph. rewrite Hpend, Hp. unfold awaiting. rewrite Hk.
    assert (cancel_queued c = true) as ->; [|by destruct (cancel_seen c)].
    destruct (Hctx p) as [Hc1 _]. by eapply (Hc1 c).
  - intros p. rewrite Hpend. destruct (contexts (data s') !! p); [|lia]. by destruct (awaiting _); cbn; lia.
  - intros p c Hp Hne. destruct (Hctx p) as [_ Hc2]. by apply Hc2.
Qed.

(** What the invariant says of a driver that decides to stop. *)
Lemma stopped_clean x backlog :
  sys_good x -> batch x = [] -> failing x = [] ->
  decide_run (data (r x)) backlog (is_empty (owned_queue (r x))) = DStop ->
  dshutdown (data (r x)) = true /\ sq (r x) = [] /\ flight (r x) = [] /\ cq (r x) = [] /\
  (forall id u, subs (r x) !! id = Some u -> drained u = true) /\
  forall ctl c, controls (r x) !! ctl = Some c -> ctl ∉ unqueued x -> op_completed c = true.
Proof.
  intros [[Hk Hc Hn Hh] _] Hb Hf Hstop.
  unfold decide_run, active in Hstop. destruct (dshutdown (data (r x))); [cbn in Hstop|by destruct (_ || _), (_ || _)].
  destruct (bool_decide_reflect (contexts (data (r x)) = ∅)) as [E1|]; cbn in Hstop; [|by destruct (_ || _)].
  destruct (staged (data (r x))) eqn:E2; cbn in Hstop; [|by destruct backlog].
  destruct (cancel_queue (data (r x))) eqn:E3; cbn in Hstop; [|by destruct backlog].
  destruct (bool_decide_reflect (dom (owned_contexts (data (r x))) = ∅)) as [E4|]; cbn in Hstop; [|by destruct (_ || _)].
  destruct (bool_decide_reflect (dom (owned_cancel_contexts (data (r x))) = ∅)) as [E5|]; cbn in Hstop; [|by destruct (_ || _)].
  destruct (owned_pending (data (r x))) eqn:E6; cbn in Hstop; [|by destruct backlog].
  destruct (owned_cancel_queue (data (r x))); cbn in Hstop; [|by destruct backlog].
  destruct (owned_queue (r x)) eqn:E8; cbn in Hstop; [|by destruct backlog].
  apply dom_empty_inv_L in E4, E5.
  assert (forall p, phase_at (data (r x)) p = None) as Hnone.
  { intros p. unfold phase_at. by rewrite E1, E4, E5, !lookup_empty. }
  assert (forall l, (forall p, occ p l = 0%nat) -> l = []) as Hnil.
  { intros [|p l] Hz; [done|]. specialize (Hz p). cbn in Hz. rewrite bool_decide_true in Hz by done. cbn in Hz. lia. }
  assert (forall p, (occ p (flight (r x)) + occ p (terminals (cq (r x))))%nat = 0%nat) as Hz.
  { intros p. pose proof (ki_flight _ _ Hk p) as Hp. rewrite Hb in Hp. cbn in Hp. rewrite Hp.
    apply in_phase_0. by rewrite Hnone. }
  split_and!; [done| | | | |].
  - by rewrite (ki_sq _ _ Hk), E2.
  - apply Hnil. intros p. specialize (Hz p). lia.
  - destruct (cq (r x)) as [|c l] eqn:Ecq; [done|]. pose proof (ki_posted _ _ Hk) as Hp.
    rewrite Hb, Ecq in Hp. cbn in Hp. destruct Hp as [Hp _]. destruct (cqe_more c) eqn:Em.
    + destruct Hp as [_ (ctx & Hctx & _)]. by rewrite E1, lookup_empty in Hctx.
    + specialize (Hz (cqe_user_data c)). rewrite terminals_cons, Em in Hz. cbn in Hz.
      rewrite bool_decide_true in Hz by done. cbn in Hz. lia.
  - intros id u Hu. apply (drained_released _ id u (ni_counted _ Hn id u Hu)). split.
    + intros p c Hp. by rewrite E1, lookup_empty in Hp.
    + rewrite E3. by intros c ?%elem_of_nil.
  - intros ctl c Hctl Hun. specialize (Hh ctl). rewrite E8, E6, Hf, E4, total_empty in Hh. cbn in Hh.
    rewrite bool_decide_false in Hh by done. unfold open_op in Hh. rewrite Hctl in Hh.
    by destruct (op_completed c).
Qed.

(** The driver stops only when nothing is left: between two passes, when
    [decide] says stop, shutdown was requested, neither the SQ nor the kernel nor the
    completion queue holds anything, every submission is drained, and every
    operation handed to the driver has completed. *)
Theorem stop_is_clean x backlog (Hr : rreach x) (Hx : crash x = None) (Hb : batch x = [])
    (Hf : failing x = [])
    (Hstop : decide_run (data (r x)) backlog (is_empty (owned_queue (r x))) = DStop) :
  dshutdown (data (r x)) = true /\ sq (r x) = [] /\ flight (r x) = [] /\ cq (r x) = [] /\
  (forall id u, subs (r x) !! id = Some u -> drained u = true) /\
  forall ctl c, controls (r x) !! ctl = Some c -> ctl ∉ unqueued x -> op_completed c = true.
Proof. by eapply stopped_clean, Hstop; [apply (reach_good x Hr Hx)|..]. Qed.

(** Where the handler of an operation is. *)
Definition holders x (ctl : OpId) : nat :=
  (handlers_in ctl (owned_queue (r x) ++ owned_pending (data (r x)) ++ map fst (failing x)) +
   total (handles_op ctl) (owned_contexts (data (r x))))%nat.

(** C4. An owned operation completes exactly once and keeps its resources until
    then: in every reachable state an operation handed to the driver either is
    complete and its handler is gone, or is incomplete and its handler, which owns
    the buffers, is in exactly one place; and an owned entry in the SQ or with the
    kernel still has its handler, of an incomplete operation. *)
Theorem owned_exactly_once x (Hr : rreach x) (Hx : crash x = None) :
  (forall ctl c, controls (r x) !! ctl = Some c -> ctl ∉ unqueued x ->
     holders x ctl = if op_completed c then 0%nat else 1%nat) /\
  (forall p y, p ∈ sq (r x) ++ flight (r x) -> owned_contexts (data (r x)) !! p = Some y ->
     exists hd c, handler y = Some hd /\ controls (r x) !! h_control hd = Some c /\
       op_completed c = false /\ h_control hd = o_control y).
Proof.
  destruct (reach_good x Hr Hx) as [[Hk Hc _ Hh] _]. split.
  - intros ctl c Hctl Hun. specialize (Hh ctl). rewrite bool_decide_false in Hh by done.
    unfold open_op in Hh. rewrite Hctl in Hh. unfold holders. destruct (op_completed c); cbn in Hh; lia.
  - intros p y Hp Hy. pose proof (ci_owned_wf _ Hc p y Hy) as [Hw _].
    assert (phase_at (data (r x)) p = Some (o_phase y)) as Hph.
    { unfold phase_at. pose proof (ki_raw_owned _ _ Hk) as D. pose proof (elem_of_dom_2 _ _ _ Hy) as Hd.
      destruct (contexts (data (r x)) !! p) eqn:E; [|by rewrite Hy]. apply elem_of_dom_2 in E. set_solver. }
    destruct (handler y) as [hd|] eqn:Ehd.
    + destruct Hw as [_ Hctl]. specialize (Hh (h_control hd)).
      pose proof (total_ge (handles_op (h_control hd)) _ p y Hy) as Hge.
      unfold handles_op in Hge at 1. rewrite Ehd, bool_decide_true in Hge by done. cbn in Hge.
      destruct (open_op_control (h_control hd) (controls (r x))) as (c & H1 & H2); [lia|]. eauto 10.
    + destruct Hw as [Hw _]. destruct (held_phase _ _ _ Hk Hp); congruence.
Qed.
End Guarantees.

(** ** Single sections *)

Section Local.
Context `{U : Uring, !UringLaws} {T : Type}.
Implicit Types (u : SubmissionInner) (c : Completion) (w : Waker).

Lemma wake_drain_shape u :
  let '(v, ws) := wake_drain u in
  (v = u \/ v = set_drain_waker None u) /\
  (forall w, drained u = true -> drain_waker u = Some w -> w ∈ ws).
Proof.
  unfold wake_drain. destruct (drained u); split; auto; [|done].
  intros w _ ->. by left.
Qed.

(** No completion of a detached submission wakes a waiter of its stream. *)
Lemma detached_wakes u c more :
  normal_waker u = None -> delivery u = Detached ->
  (deliver_original u c more).1.2 ⊆ opt_list (admission_waker u) ++ opt_list (drain_waker u).
Proof.
  intros Hw Hd w. unfold deliver_original, wake_drain.
  destruct (iterator_finished u) eqn:E, more; cbn; rewrite ?Hd, ?E, ?Hw; cbn; rewrite ?Hw;
    try destruct (original_terminal u + 1 =? originals u); cbn -[drained]; rewrite ?Hw; try destruct (drained _);
    cbn; rewrite ?elem_of_app, ?elem_of_nil; tauto.
Qed.

(** Detaching a submission loses the waiter of its stream: a poll of
    [CompletionStream::next] that found nothing registered its waker; [request_cancel]
    with [Detached], which the shutdown makes for every live submission, discards the
    waker without waking it, although the stream would now end at the next poll; and no
    later completion wakes anyone but the admission and drain waiters
    ([detached_wakes]). *)
Lemma detach_loses_waiter id cx o (s : Ring T) h u :
  subs s !! id = Some u -> normal u = [] -> normal_overflow u = false -> delivery u = Open ->
  normal_waker u = None -> (iterator_finished u && (original_terminal u =? originals u)) = false ->
  let pending := set_subs (<[ id := set_normal_waker (Some cx) u ]> (subs s)) s in
  exists detached v, next_completion id cx o s h = (Done None, pending, h) /\
    close_delivery id Detached o pending h = (Done tt, detached, h) /\
    subs detached !! id = Some v /\ normal_waker v = None /\ delivery v = Detached /\
    next_completion id cx o detached h = (Done (Some None), detached, h).
Proof.
  intros Hu Hn Hov Hd Hw Hend pending.
  assert (subs pending !! id = Some (set_normal_waker (Some cx) u)) as Hp by apply lookup_insert_eq.
  eexists _, _. split; [|split; [reflexivity|split; [cbn [on_sub subs set_subs]; rewrite lookup_alter_eq, Hp; reflexivity|]]].
  - unfold next_completion, get_sub. run_unfold. by rewrite Hu, Hn, Hov, Hd, Hend, Hw.
  - cbn. rewrite Hd. split_and!; [done..|]. unfold next_completion, get_sub. run_unfold.
    rewrite lookup_alter_eq, lookup_insert_eq. cbn. rewrite Hd. cbn. by rewrite Hov.
Qed.

(** Original CQEs are buffered within the limit and never dropped silently: a
    CQE joins the buffer exactly when delivery is open and the buffer is below its
    limit; the first CQE an open delivery cannot take closes it, flags the overflow
    and asks the caller to request cancellation, which happens in no other case; a
    terminal CQE is counted in every case, and one with more to come never. *)
Theorem original_delivery u c more :
  let '(v, _, over) := deliver_original u c more in
  (normal v, delivery v, normal_overflow v, over) =
    (match delivery u with
     | Open =>
         if Z.of_nat (length (normal u)) <? limit u
         then (normal u ++ [c], Open, normal_overflow u, false)
         else if normal_overflow u then (normal u, Open, true, false)
              else (normal u, Overflow, true, true)
     | d => (normal u, d, normal_overflow u, false)
     end) /\
  limit v = limit u /\ (Z.of_nat (length (normal u)) <= limit u -> Z.of_nat (length (normal v)) <= limit v) /\
  original_terminal v = original_terminal u + (if more then 0 else 1).
Proof.
  unfold deliver_original.
  destruct (iterator_finished u); cbn;
    (destruct (delivery u) eqn:?; cbn;
      [destruct (Z.ltb_spec (Z.of_nat (length (normal u))) (limit u)); [|destruct (normal_overflow u) eqn:?]; cbn|..]);
    destruct more; cbn; try (destruct (_ =? _); cbn);
    try match goal with |- context [wake_drain ?v] =>
      pose proof (wake_drain_shape v) as Hs; destruct (wake_drain v) as [? ?];
      destruct Hs as [[-> | ->] _]; cbn end;
    rewrite ?length_app; cbn; (split_and!; [congruence|done|lia|lia]).
Qed.

(** Cancellation CQEs are buffered within the limit: unless the caller dropped
    its handle the CQE joins the buffer or flags the overflow, a dropped handle's
    buffer is left alone, and every such CQE is counted. *)
Theorem cancellation_delivery u c :
  let '(v, _) := deliver_cancel u c in
  (cancellations v, cancel_overflow v) =
    (match delivery u with
     | Detached => (cancellations u, cancel_overflow u)
     | _ => if Z.of_nat (length (cancellations u)) <? limit u
            then (cancellations u ++ [c], cancel_overflow u) else (cancellations u, true)
     end) /\
  limit v = limit u /\
  (Z.of_nat (length (cancellations u)) <= limit u -> Z.of_nat (length (cancellations v)) <= limit v) /\
  cancel_terminal v = cancel_terminal u + 1.
Proof.
  unfold deliver_cancel.
  destruct (delivery u); cbn;
    try (destruct (Z.ltb_spec (Z.of_nat (length (cancellations u))) (limit u)); cbn);
    (destruct (_ =? _); cbn);
    (match goal with |- context [wake_drain ?v] =>
      pose proof (wake_drain_shape v) as Hs; destruct (wake_drain v) as [? ?];
      destruct Hs as [[-> | ->] _]; cbn end);
    rewrite ?length_app; cbn; (split_and!; [congruence|done|lia|lia]).
Qed.


Lemma opt_list_in (slot : option Waker) w : slot = Some w -> w ∈ opt_list slot.
Proof. intros ->. by left. Qed.

(** The waker of a slot is in the list collected from it. *)
Ltac in_wakes :=
  match goal with
  | |- ?w ∈ ?a ++ ?b => apply elem_of_app; first [left; in_wakes | right; in_wakes]
  | |- _ => first [apply opt_list_in; assumption | assumption]
  end.

(** The cases of the drain waker. *)
Ltac drain_cases :=
  match goal with |- context [wake_drain ?x] =>
    let Hs := fresh "Hs" in
    pose proof (wake_drain_shape x) as Hs; destruct (wake_drain x) as [? ?];
    let Hv := fresh "Hv" in let Hw := fresh "Hw" in
    destruct Hs as [Hv Hw]; destruct Hv as [-> | ->]; cbn in *
  end.

Lemma original_wakes u c more w :
  let '(v, ws, _) := deliver_original u c more in
  (normal_waker u = Some w ->
     delivery u = Open \/ more = false /\ original_terminal v = originals v -> w ∈ ws) /\
  (iterator_finished u = false -> admission_waker u = Some w -> w ∈ ws) /\
  (drain_waker u = Some w -> more = false -> drained v = true -> w ∈ ws).
Proof.
  unfold deliver_original.
  destruct (iterator_finished u); cbn;
    (destruct (delivery u) eqn:Edl; cbn;
      [destruct (_ <? _); [|destruct (normal_overflow u)]; cbn|..]);
    (destruct more; cbn; [|destruct (Z.eqb_spec (original_terminal u + 1) (originals u)); cbn; drain_cases]);
    (split_and!; [intros Hn Ho; try (destruct Ho as [Ho|[Hm Ho]]; [|done || idtac]); try done; try in_wakes
                 |intros Hi Ha; try done; in_wakes
                 |intros Hd Hm Hdr; try done]).
  all: try (assert (Hin := Hw w Hdr Hd); in_wakes).
Qed.

Lemma cancellation_wakes u c w :
  let '(v, ws) := deliver_cancel u c in
  (cancel_waker u = Some w -> delivery u <> Detached -> w ∈ ws) /\
  (drain_waker u = Some w -> drained v = true -> w ∈ ws).
Proof.
  unfold deliver_cancel.
  destruct (delivery u); cbn; (try destruct (_ <? _)); cbn; (destruct (_ =? _); cbn); drain_cases;
    (split; [intros Hc Hd; try done; in_wakes|intros Hd Hdr; assert (Hin := Hw w Hdr Hd); in_wakes]).
Qed.

(** No waiter is lost: a CQE delivered to an open submission wakes the stream's
    waiter, the last terminal original wakes it in any delivery mode, the CQE of a
    cancellation wakes the waiter of the cancellation stream unless it was dropped,
    and the CQE that drains the submission wakes the drain waiter; an unfinished
    admission is woken by any original CQE. *)
Theorem completion_wakes u c more w :
  let '(v, ws, _) := deliver_original u c more in
  let '(v', ws') := deliver_cancel u c in
  (normal_waker u = Some w ->
     delivery u = Open \/ more = false /\ original_terminal v = originals v -> w ∈ ws) /\
  (iterator_finished u = false -> admission_waker u = Some w -> w ∈ ws) /\
  (drain_waker u = Some w -> more = false -> drained v = true -> w ∈ ws) /\
  (cancel_waker u = Some w -> delivery u <> Detached -> w ∈ ws') /\
  (drain_waker u = Some w -> drained v' = true -> w ∈ ws').
Proof.
  pose proof (original_wakes u c more w) as Ho. pose proof (cancellation_wakes u c w) as Hc.
  destruct (deliver_original u c more) as [[v ws] over]. destruct (deliver_cancel u c) as [v' ws']. tauto.
Qed.
End Local.

(** ** Admission, in order and complete *)

Section Admitting.
Context `{U : Uring, !UringLaws} {T : Type}.
Variable new_box : history ucall uresp -> gset Z -> Z.
Variable o : oracle ucall uresp.
Hypothesis Hbox : allocator_fresh new_box.
Notation ring := (Ring T).
Implicit Types (s : ring) (h : history ucall uresp) (id : SubId) (a : Admission).

Fixpoint numbered (i : Z) (l : list sqe) : list (Z * sqe) :=
  match l with [] => [] | e :: l' => (i, e) :: numbered (i + 1) l' end.

(** The entries an admission still has to stage, with their indices. *)
Definition todo a : list (Z * sqe) :=
  match pending a with Some ie => [ie] | None => [] end ++ numbered (next_index a) (iterator a).

(** The context an entry gets. *)
Definition staged_context id (ie : Z * sqe) : CqeContext :=
  mkContext Original Staged ie.1 (sqe_user_data ie.2) id None false false.

(** The entries staged between two states, in order, under the given pointers. *)
Record staged_between id (done : list (Z * sqe)) (ptrs : list Z) s s' : Prop := mkStagedBetween {
  sb_contexts : Forall2 (fun p ie => contexts (data s') !! p = Some (staged_context id ie)) ptrs done;
  sb_kept p c : contexts (data s) !! p = Some c -> contexts (data s') !! p = Some c;
  sb_sq : sq s' = sq s ++ ptrs;
  sb_staged : staged (data s') = staged (data s) ++ map SRaw ptrs;
  sb_subs u : subs s !! id = Some u -> exists u', subs s' !! id = Some u' /\
    originals u' = originals u + Z.of_nat (length done) /\ accepted u' = accepted u
}.

Lemma staged_between_refl id s : staged_between id [] [] s s.
Proof.
  split; [constructor|done|by rewrite app_nil_r|by rewrite app_nil_r|].
  intros u Hu. exists u. split_and!; [done|cbn; lia|done].
Qed.

Lemma staged_between_trans id d1 p1 d2 p2 s1 s2 s3 :
  staged_between id d1 p1 s1 s2 -> staged_between id d2 p2 s2 s3 ->
  staged_between id (d1 ++ d2) (p1 ++ p2) s1 s3.
Proof.
  intros [A1 B1 C1 D1 E1] [A2 B2 C2 D2 E2]. split.
  - apply Forall2_app; [|done]. eapply Forall2_impl; [exact A1|]. cbn. auto.
  - auto.
  - by rewrite C2, C1, app_assoc.
  - by rewrite D2, D1, map_app, app_assoc.
  - intros u Hu. destruct (E1 u Hu) as (u2 & Hu2 & H2 & H2'). destruct (E2 u2 Hu2) as (u3 & Hu3 & H3 & H3').
    exists u3. split_and!; [done|rewrite length_app; lia|lia].
Qed.

Lemma stage_original_run id i e s h :
  exists h', stage_original new_box id i e o s h = (Done false, s, h') \/
  exists p s', stage_original new_box id i e o s h = (Done true, s', h') /\
    staged_between id [(i, e)] [p] s s'.
Proof.
  unfold stage_original. set (p := new_box h (boxes (data s))).
  assert (p ∉ boxes (data s)) as Hp by apply Hbox.
  assert (p ∉ dom (contexts (data s))) as Hpc by (revert Hp; clear; unfold boxes; set_solver).
  run_unfold. unfold prog_bind, alloc, sq_push. cbn. fold p. rewrite bool_decide_false by done.
  run_unfold. unfold prog_bind. cbn. destruct (rroom _); cbn; eexists; [right|by left].
  exists p. eexists. split; [reflexivity|]. rewrite sqe_set_get. apply not_elem_of_dom in Hpc. split; cbn.
  - constructor; [by rewrite lookup_insert_eq|constructor].
  - intros q c Hq. rewrite lookup_insert_ne; [done|congruence].
  - done.
  - done.
  - intros u Hu. rewrite lookup_alter_eq, Hu. eexists. split_and!; [reflexivity|cbn; lia|done].
Qed.

(** What the loop of [admit] does with the entries it has left. *)
Definition loop_result id a s (out : outcome (Admission * list Waker * bool) * ring * history ucall uresp) : Prop :=
  match out with
  | (Done (a', _, _), s', _) =>
      exists done ptrs, todo a = done ++ todo a' /\ staged_between id done ptrs s s' /\
        (forall i e, pending a' = Some (i, e) -> next_index a' = i + 1) /\
        (todo a' = [] -> exists u', subs s' !! id = Some u' /\ iterator_finished u' = true) /\
        (todo a' <> [] -> exists ie, head (todo a') = Some ie /\ pending a' = Some ie)
  | (Aborted msg, _, _) => msg = "SQE index exhausted"%string
  | _ => False
  end.

Lemma loop_result_after id a a1 i e p s s1 out :
  staged_between id [(i, e)] [p] s s1 -> todo a = (i, e) :: todo a1 ->
  loop_result id a1 s1 out -> loop_result id a s out.
Proof.
  intros Hst Ha. unfold loop_result. destruct out as [[[[[a' ws] any]|m|m|m] s'] h']; try done.
  intros (done_ & ptrs & H1 & H2 & H3). exists ((i, e) :: done_), (p :: ptrs).
  split; [by rewrite Ha, H1|]. split; [|exact H3].
  by apply (staged_between_trans id [(i, e)] [p] done_ ptrs s s1 s').
Qed.

Lemma admit_entries_run id : forall it next any s h u,
  subs s !! id = Some u ->
  loop_result id (mkAdmission it None next) s (admit_entries new_box id it next any o s h).
Proof.
  induction it as [|e it IH]; intros next any s h u Hu.
  - cbn [admit_entries]. unfold get_sub. run_unfold. unfold prog_bind. cbn. rewrite Hu. cbn.
    exists [], []. split; [done|]. split; [|split_and!; [done| |done]].
    + split; [constructor|done|by rewrite app_nil_r|by rewrite app_nil_r|].
      intros v Hv. cbn. rewrite lookup_insert_eq. eexists. split; [done|]. cbn.
      rewrite Hu in Hv. injection Hv as <-. split; [lia|done].
    + intros _. cbn. rewrite lookup_insert_eq. by eexists.
  - cbn [admit_entries]. destruct (next =? u64_max); [done|].
    destruct (stage_original_run id next e s h) as [h' [E|(p & s' & E & Hst)]];
      unfold mbind, prog_mbind, prog_bind; rewrite E.
    + exists [], []. split; [done|]. split; [apply staged_between_refl|]. cbn.
      split_and!; [by intros ? ? [= <- <-]|done|by eexists].
    + destruct (sb_subs _ _ _ _ _ Hst u Hu) as (u' & Hu' & _).
      eapply loop_result_after; [exact Hst| |by eapply IH]. done.
Qed.

(** C22. Admission loses, repeats and reorders nothing.  The loop of [admit] stages a
    prefix of the entries that are left, the pending one first and the iterator's in
    order, one context per entry with its index in the iterator and the caller's
    user data, at the end of the SQ and in the same order; existing contexts stay;
    the originals counter grows by that prefix.  When entries remain the first one
    is kept as pending with its index, and when none remains the iterator is marked
    finished.  It can only abort by exhausting the index. *)
Theorem admission_prefix id a s h u (Hu : subs s !! id = Some u)
    (Hwf : forall i e, pending a = Some (i, e) -> next_index a = i + 1) :
  loop_result id a s (admit_loop new_box id a o s h).
Proof.
  unfold admit_loop. destruct a as [it [[i e]|] next]; cbn.
  - destruct (stage_original_run id i e s h) as [h' [E|(p & s' & E & Hst)]];
      unfold mbind, prog_mbind, prog_bind; rewrite E.
    + exists [], []. split; [done|]. split; [apply staged_between_refl|]. cbn.
      split_and!; [done|done|by eexists].
    + destruct (sb_subs _ _ _ _ _ Hst u Hu) as (u' & Hu' & _).
      eapply loop_result_after; [exact Hst| |by eapply admit_entries_run]. done.
  - by eapply admit_entries_run.
Qed.
End Admitting.

(** ** Completions carry the caller's identity *)

Section Identity.
Context `{U : Uring, !UringLaws} {T : Type}.
Variable new_box : history ucall uresp -> gset Z -> Z.
Variable o : oracle ucall uresp.
Variable supported : Z -> bool.
Variable cfg : IoUringConfig.
Hypothesis Hbox : allocator_fresh new_box.
Hypothesis Hkernel : kernel_bounded o.
Notation rreach := (reachable sys_init (sys_step (T := T) new_box o supported cfg)).

(** C23. Dispatch gives every CQE back its identity: in every reachable state the next CQE
    of a batch whose pointer is a raw original goes to that context's submission [u], which
    exists, and no other, as the completion [e] with the iterator's index and the kernel's CQE, whose
    user data alone is replaced, by the caller's: result and flags are the kernel's.  It
    joins the end of the buffer when the stream is open and the buffer below its limit;
    the first one that finds no room ends the stream with the overflow and is reported
    ([over]); a stream that was closed does not change.  The context is removed exactly
    when the CQE is terminal and no cancellation of it is unanswered, and no other context
    changes. *)
Theorem identity_restored (x : RSys T) c rest ctx
    (Hr : reachable sys_init (sys_step (T := T) new_box o supported cfg) x) (Hx : crash x = None)
    (Hb : batch x = c :: rest) (Hctx : contexts (data (r x)) !! cqe_user_data c = Some ctx)
    (Hk : kind ctx = Original) :
  exists u, subs (r x) !! cstate ctx = Some u /\
  run_post (dispatch c) o (r x) (rh x) (fun a s' _ =>
    (exists ws u' e over, a = Done (ws, if (over : bool) then Some (cstate ctx) else None) /\
       subs s' !! cstate ctx = Some u' /\
       c_index e = index ctx /\ c_cqe e = cqe_set_user_data (original_user_data ctx) c /\
       cqe_user_data (c_cqe e) = original_user_data ctx /\
       cqe_result (c_cqe e) = cqe_result c /\ cqe_flags (c_cqe e) = cqe_flags c /\
       (normal u', delivery u', normal_overflow u', over) =
         match delivery u with
         | Open =>
             if Z.of_nat (length (normal u)) <? limit u
             then (normal u ++ [e], Open, normal_overflow u, false)
             else if normal_overflow u then (normal u, Open, true, false)
                  else (normal u, Overflow, true, true)
         | d => (normal u, d, normal_overflow u, false)
         end) /\
    (forall id, id <> cstate ctx -> subs s' !! id = subs (r x) !! id) /\
    (contexts (data s') !! cqe_user_data c = None <-> cqe_more c = false /\ awaiting ctx = false) /\
    (forall p, p <> cqe_user_data c -> contexts (data s') !! p = contexts (data (r x)) !! p)).
Proof.
  pose proof (reach_good new_box o supported cfg Hbox Hkernel x Hr Hx) as [[Hki _ Hcount _] _]. rewrite Hb in Hki.
  destruct (ni_state _ Hcount _ _ Hctx) as [u Hu]. exists u. split; [exact Hu|].
  pose proof (popped_context _ _ _ _ Hki Hctx) as Hph.
  assert (cqe_user_data c <> 0) as Hp0.
  { intros E. apply (ki_null _ _ Hki). rewrite <- E. unfold boxes. apply elem_of_dom_2 in Hctx.
    clear - Hctx. set_solver. }
  eapply run_post_bind_eq; [reflexivity|]. rewrite bool_decide_true by (by eapply elem_of_dom_2).
  unfold dispatch_raw. rewrite (proj2 (Z.eqb_neq _ 0) Hp0).
  eapply run_post_bind_eq; [reflexivity|]. rewrite Hctx. eapply run_post_bind_eq; [reflexivity|].
  rewrite Hph, bool_decide_true by done. cbn [negb]. rewrite Hk.
  apply run_post_bind. eapply get_sub_post; [exact Hu|]. cbn [then_post].
  set (e := mkCompletion (index ctx) (cqe_set_user_data (original_user_data ctx) c)).
  pose proof (original_delivery u e (cqe_more c)) as Hd.
  destruct (deliver_original u e (cqe_more c)) as [[u' ws] over]. destruct Hd as [Hd _].
  eapply run_post_bind_eq; [reflexivity|].
  assert (awaiting ctx = cancel_queued ctx && negb (cancel_seen ctx)) as Ha by (unfold awaiting; by rewrite Hk).
  rewrite <- Ha.
  destruct (cqe_more c || awaiting ctx) eqn:Em; (eapply run_post_bind_eq; [reflexivity|]; apply run_post_ret; cbn;
    (split; [exists ws, u', e, over; rewrite lookup_insert_eq; unfold e; cbn;
      by rewrite cqe_set_get, cqe_set_result, cqe_set_flags|]);
    (split; [intros id Hne; by rewrite lookup_insert_ne|]); split).
  - rewrite lookup_insert_eq. apply orb_true_iff in Em. split; [done|]. intros [E1 E2]. destruct Em; congruence.
  - intros p Hp. by rewrite lookup_insert_ne, lookup_delete_ne.
  - rewrite lookup_delete_eq. apply orb_false_iff in Em. tauto.
  - intros p Hp. by rewrite lookup_delete_ne.
Qed.
End Identity.

(** ** Configuration *)

Lemma is_power_of_two_spec n : is_power_of_two n = true <-> exists k, 0 <= k /\ n = 2 ^ k.
Proof.
  unfold is_power_of_two. rewrite andb_true_iff, Z.ltb_lt, Z.eqb_eq. split.
  - intros [Hn Hl]. exists (Z.log2 n). split; [apply Z.log2_nonneg|].
    destruct (Z.log2_spec n Hn) as [H1 H2]. destruct (Z.eq_dec n (2 ^ Z.log2 n)) as [|Hne]; [done|exfalso].
    pose proof (Z.bit_log2 n Hn) as B1.
    assert (0 < n - 1) as Hn1 by (pose proof (Z.pow_pos_nonneg 2 (Z.log2 n) ltac:(lia) (Z.log2_nonneg n)); lia).
    assert (Z.log2 (n - 1) = Z.log2 n) as E.
    { apply Z.log2_unique; [apply Z.log2_nonneg|]. split; lia. }
    pose proof (Z.bit_log2 (n - 1) Hn1) as B2. rewrite E in B2.
    assert (Z.testbit (Z.land n (n - 1)) (Z.log2 n) = true) as B by (by rewrite Z.land_spec, B1, B2).
    by rewrite Hl, Z.bits_0 in B.
  - intros (k & Hk & ->). split; [apply Z.pow_pos_nonneg; lia|].
    replace (2 ^ k - 1) with (Z.ones k) by (rewrite Z.ones_equiv; lia).
    rewrite Z.land_ones by done. apply Z_mod_same_full.
Qed.

(** A ring configuration is accepted exactly when its depth is a power of two
    and no limit is zero; an accepted configuration comes back unchanged, and a
    refused one names the first field at fault. *)
Theorem validate_spec (c : IoUringConfig) :
  (forall c', validate c = Ok c' -> c' = c) /\
  (is_ok (validate c) = true <->
     (exists k, 0 <= k /\ entries c = 2 ^ k) /\ reap_size c <> 0 /\ poll_interval c <> 0 /\
     max_buffered_completions c <> 0) /\
  (validate c = Err ZeroEntries <-> entries c = 0) /\
  (validate c = Err EntriesNotPowerOfTwo <-> entries c <> 0 /\ ~ exists k, 0 <= k /\ entries c = 2 ^ k) /\
  ((exists k, 0 <= k /\ entries c = 2 ^ k) -> entries c <> 0 ->
     (validate c = Err ZeroReapSize <-> reap_size c = 0) /\
     (validate c = Err ZeroPollInterval <-> reap_size c <> 0 /\ poll_interval c = 0) /\
     (validate c = Err ZeroCompletionBuffer <->
        reap_size c <> 0 /\ poll_interval c <> 0 /\ max_buffered_completions c = 0)).
Proof.
  pose proof (is_power_of_two_spec (entries c)) as Hp. unfold validate.
  assert (entries c = 0 -> is_power_of_two (entries c) = false) as H0 by (by intros ->).
  destruct (Z.eqb_spec (entries c) 0); destruct (is_power_of_two (entries c)); cbn;
    destruct (Z.eqb_spec (reap_size c) 0), (Z.eqb_spec (poll_interval c) 0),
      (Z.eqb_spec (max_buffered_completions c) 0); cbn;
    (split; [naive_solver congruence|]); (split; [naive_solver|]); (split; [naive_solver|]);
    (split; [naive_solver|]); naive_solver.
Qed.

(** ** The guarantees on the sample driver *)

Module Runs.
Import Sample.
Definition fine : IoUringConfig := config_default.

(** The stream of the sample submission after both completions were read. *)
Definition read1 : sys := exec_ kernel (next_completion 1%N 9%N) completed.
Definition read2 : sys := exec_ kernel (next_completion 1%N 9%N) read1.

Lemma read2_reached : step_reached read2.
Proof.
  apply (reach_step _ _ read1); [apply (reach_step _ _ completed); [apply completed_reached|]|].
  - split; [by vm_compute|]. apply (rs_next new_box kernel all_supported fine completed).
    apply elem_of_dom. vm_compute. by eexists.
  - split; [by vm_compute|]. apply (rs_next new_box kernel all_supported fine read1).
    apply elem_of_dom. vm_compute. by eexists.
Qed.

(** An owned operation, queued and submitted. *)
Definition handler : OwnedHandler Z := mkHandler 4%N 22 0 (fun r => r) (fun _ => -1).
Definition op : OwnedOp Z := mkOwnedOp 4%N (Some handler) false false.
Definition op_new : sys := exec kernel (owned_new 4%N handler) start (fun _ x => set_unqueued (unqueued x ∪ {[ 4%N ]}) x).
Definition op_queued : sys :=
  exec kernel (owned_submit true op) op_new (fun _ x => set_unqueued (unqueued x ∖ {[ h_control handler ]}) x).
Definition op_staged : sys :=
  exec kernel (pass_submit new_box all_supported (Z.to_nat (entries fine))) op_queued
    (fun '(failed, _) x => set_failing failed x).

Lemma op_staged_reached : step_reached op_staged.
Proof.
  apply (reach_step _ _ op_queued); [apply (reach_step _ _ op_new); [apply (reach_step _ _ start);
    [apply fresh_reached|]|]|].
  - split; [done|]. by apply (rs_owned_new new_box kernel all_supported fine start 4%N handler).
  - split; [by vm_compute|]. apply (rs_owned_submit new_box kernel all_supported fine op_new true op handler); [done..|].
    assert (unqueued op_new = {[ 4%N ]}) as -> by (by vm_compute). by apply elem_of_singleton.
  - split; [by vm_compute|]. apply (rs_pass new_box kernel all_supported fine op_queued); by vm_compute.
Qed.

(** The owner's shutdown of an idle driver. *)
Definition closed : sys := exec_ kernel shutdown_section start.

Lemma closed_reached : step_reached closed.
Proof.
  apply (reach_step _ _ start); [apply fresh_reached|]. split; [done|].
  apply (rs_shutdown new_box kernel all_supported fine start).
Qed.

Lemma reaped2_reached : step_reached reaped2.
Proof.
  apply (reach_step _ _ posted2); [apply (reach_step _ _ posted1); [apply (reach_step _ _ admitted);
    [apply admitted_reached|]|]|].
  - split; [by vm_compute|]. apply rs_kernel. split; [vm_compute; by left|by vm_compute].
  - split; [by vm_compute|]. apply rs_kernel. split; [vm_compute; by left|by vm_compute].
  - split; [by vm_compute|]. apply (rs_reap new_box kernel all_supported fine posted2); by vm_compute.
Qed.
End Runs.

Import Sample.

Lemma ring_never_aborts_witness :
  match crash completed with
  | None => True
  | Some msg => msg = "unrecoverable submit error"%string \/ msg = "SQE index exhausted"%string
  end.
Proof.
  exact (ring_never_aborts new_box kernel all_supported config_default new_box_fresh kernel_ok
    completed completed_reached).
Defined.

Lemma drain_certifies_release_witness :
  outcome_of (wait_drained 1%N 9%N Sample.kernel (r Sample.completed) (rh Sample.completed)) = Done true /\
  released (data (r Sample.completed)) 1%N.
Proof.
  assert (1%N ∈ registered Sample.completed) as Hid by (apply elem_of_dom; vm_compute; by eexists).
  assert (outcome_of (wait_drained 1%N 9%N Sample.kernel (r Sample.completed) (rh Sample.completed)) = Done true)
    as E by (by vm_compute).
  assert (crash Sample.completed = None) as Hx by (by vm_compute).
  destruct (drain_certifies_release Sample.new_box Sample.kernel Sample.all_supported config_default
    Sample.new_box_fresh Sample.kernel_ok Sample.completed 1%N 9%N Sample.completed_reached Hx Hid)
    as (ready & Ha & Hr & _).
  split; [exact E|]. rewrite E in Ha. injection Ha as <-. by apply Hr.
Defined.

Lemma stream_end_certifies_witness : no_original (data (r Runs.read2)) 1%N.
Proof.
  assert (crash Runs.read2 = None) as Hx by (by vm_compute).
  destruct (subs (r Runs.read2) !! 1%N) as [u|] eqn:Hu; [|exfalso; revert Hu; vm_compute; discriminate].
  assert (delivery u = Open) as Ho by (revert Hu; vm_compute; intros [= <-]; reflexivity).
  pose proof (stream_end_certifies Sample.new_box Sample.kernel Sample.all_supported config_default
    Sample.new_box_fresh Sample.kernel_ok Runs.read2 1%N 9%N u Runs.read2_reached Hx Hu Ho) as H.
  destruct H as (_ & _ & _ & H & _); [by vm_compute|exact H].
Defined.

Lemma cancel_reaches_all_once_witness :
  map cc_target (cancel_queue (data (state_of (request_cancel 1%N Cancelling Sample.kernel
    (r Sample.admitted) (rh Sample.admitted))))) ≡ₚ [1; 2] /\
  forall p, (outstanding (data (state_of (request_cancel 1%N Cancelling Sample.kernel
    (r Sample.admitted) (rh Sample.admitted)))) p <= 1)%nat.
Proof.
  assert (1%N ∈ registered Sample.admitted) as Hid by (apply elem_of_dom; vm_compute; by eexists).
  assert (crash Sample.admitted = None) as Hx by (by vm_compute).
  assert (Cancelling <> Open) as Hd by done.
  destruct (cancel_reaches_all_once Sample.new_box Sample.kernel Sample.all_supported config_default
    Sample.new_box_fresh Sample.kernel_ok Sample.admitted 1%N Cancelling Sample.admitted_reached Hx Hid Hd)
    as (_ & _ & H & _).
  split; [|exact H]. vm_compute. first [reflexivity | apply Permutation_swap].
Defined.

Lemma stop_is_clean_witness : dshutdown (data (r Runs.closed)) = true /\ flight (r Runs.closed) = [].
Proof.
  assert (crash Runs.closed = None) as Hx by (by vm_compute).
  assert (batch Runs.closed = []) as Hb by (by vm_compute).
  assert (failing Runs.closed = []) as Hf by (by vm_compute).
  assert (decide_run (data (r Runs.closed)) false (is_empty (owned_queue (r Runs.closed))) = DStop) as Hs
    by (by vm_compute).
  destruct (stop_is_clean Sample.new_box Sample.kernel Sample.all_supported config_default
    Sample.new_box_fresh Sample.kernel_ok Runs.closed false Runs.closed_reached Hx Hb Hf Hs)
    as (H1 & _ & H2 & _). by split.
Defined.

Lemma owned_exactly_once_witness : holders Runs.op_staged 4%N = 1%nat.
Proof.
  assert (crash Runs.op_staged = None) as Hx by (by vm_compute).
  destruct (owned_exactly_once Sample.new_box Sample.kernel Sample.all_supported config_default
    Sample.new_box_fresh Sample.kernel_ok Runs.op_staged Runs.op_staged_reached Hx) as [H _].
  apply (H 4%N (mkControl false false None None)); [by vm_compute|].
  assert (unqueued Runs.op_staged = ∅) as -> by (by vm_compute). apply not_elem_of_empty.
Defined.

Lemma admission_prefix_witness :
  loop_result 1%N (mkAdmission [70; 71] None 0) (r Sample.registered_)
    (admit_loop Sample.new_box 1%N (mkAdmission [70; 71] None 0) Sample.kernel
       (r Sample.registered_) (rh Sample.registered_)).
Proof.
  destruct (subs (r Sample.registered_) !! 1%N) as [u|] eqn:Hu; [|exfalso; revert Hu; vm_compute; discriminate].
  apply (admission_prefix Sample.new_box Sample.kernel Sample.new_box_fresh 1%N _ _ _ u Hu). done.
Defined.

Lemma identity_restored_witness :
  exists u' e, subs (state_of (dispatch (1, false, 5) Sample.kernel (r Sample.reaped2) (rh Sample.reaped2))) !! 1%N =
    Some u' /\ normal u' = [e] /\ c_index e = 0 /\ cqe_user_data (c_cqe e) = 70 /\ cqe_result (c_cqe e) = 5.
Proof.
  assert (crash Sample.reaped2 = None) as Hx by (by vm_compute).
  assert (batch Sample.reaped2 = [(1, false, 5); (2, false, 0)]) as Hb by (by vm_compute).
  destruct (contexts (data (r Sample.reaped2)) !! 1) as [ctx|] eqn:Hctx;
    [|exfalso; revert Hctx; vm_compute; discriminate].
  assert (ctx = mkContext Original Submitted 0 70 1%N None false false) as Ec
    by (revert Hctx; vm_compute; by intros [= <-]).
  subst ctx. destruct (subs (r Sample.reaped2) !! 1%N) as [u|] eqn:Hu;
    [|exfalso; revert Hu; vm_compute; discriminate].
  assert (delivery u = Open /\ normal u = [] /\ limit u = 65536) as (Ho & Hn & Hl)
    by (revert Hu; vm_compute; by intros [= <-]).
  destruct (identity_restored Sample.new_box Sample.kernel Sample.all_supported config_default
    Sample.new_box_fresh Sample.kernel_ok Sample.reaped2 (1, false, 5) [(2, false, 0)] _
    Runs.reaped2_reached Hx Hb Hctx eq_refl) as (u1 & Hu1 & (ws & u' & e & over & _ & H1 & H3 & _ & H4 & H5 & _ & H2) & _).
  pose proof (eq_trans (eq_sym Hu1) Hu) as E. injection E as ->.
  rewrite Ho, Hn, Hl in H2. injection H2 as H2 _ _ _. exists u', e. done.
Defined.
