(* ===== verification/RingOrder.v ===== *)
(** * RingOrder: the order of a CQE and its cancellation does not matter

    The kernel may post the terminal CQE of an original and the CQE of its cancellation
    in either order.  Dispatching them in one order or the other gives the same state of
    the driver, the same overflow and, up to order, the same wake-ups. *)

From Stdlib Require Import ZArith Lia.
From stdpp Require Import base gmap sets list strings.
From S2P Require Import Prelude Errors Ffi Ring RingOps RingFutures RingInv RingPrim RingCount RingStep RingSect RingDrive RingSys RingSpec.

Open Scope Z_scope.

(** ** The submission *)

Section Submission.
Context `{U : Uring}.
Implicit Types (u v : SubmissionInner) (c : Completion).

(** What a CQE does before the drain is looked at. *)
Definition original_part u c : SubmissionInner * list Waker * bool :=
  let '(v, ws, over) := deliver_original u c true in
  let v := set_original_terminal (original_terminal v + 1) v in
  let '(v, ws') := if original_terminal v =? originals v then (set_normal_waker None v, opt_list (normal_waker v))
                   else (v, []) in
  (v, ws ++ ws', over).

Definition cancel_part u c : SubmissionInner * list Waker :=
  let '(v, ws) :=
    match delivery u with
    | Detached => (u, [])
    | _ => let v := if Z.of_nat (length (cancellations u)) <? limit u
                    then set_cancellations (cancellations u ++ [c]) u else set_cancel_overflow true u in
           (set_cancel_waker None v, opt_list (cancel_waker u))
    end in
  let v := set_cancel_terminal (cancel_terminal v + 1) v in
  let '(v, ws') := if cancel_terminal v =? cancels v then (set_cancel_waker None v, opt_list (cancel_waker v))
                   else (v, []) in
  (v, ws ++ ws').

Lemma deliver_original_parts u c :
  deliver_original u c false =
    (let '(v, ws, over) := original_part u c in let '(v, wd) := wake_drain v in (v, ws ++ wd, over)).
Proof.
  unfold original_part, deliver_original. destruct (if negb _ then _ else _) as [u0 ws0].
  destruct (match delivery u0 with Open => _ | _ => _ end) as [[u1 ws1] over].
  destruct (if _ =? _ then _ else _) as [u2 ws2]. destruct (wake_drain u2) as [u3 ws3]. by rewrite <- !app_assoc.
Qed.

Lemma deliver_cancel_parts u c :
  deliver_cancel u c = (let '(v, ws) := cancel_part u c in let '(v, wd) := wake_drain v in (v, ws ++ wd)).
Proof.
  unfold cancel_part, deliver_cancel.
  destruct (delivery u), (Z.of_nat (length (cancellations u)) <? limit u); cbn;
    (destruct (_ + 1 =? _); cbn; destruct (wake_drain _); by rewrite <- ?app_assoc).
Qed.

(** The fields of the cancellation side. *)
Definition set_side cl cov ct cw u : SubmissionInner :=
  mkSub (limit u) (delivery u) (normal u) cl (normal_overflow u) cov (iterator_finished u) (originals u) (accepted u)
    (original_terminal u) (cancels u) ct (admission_waker u) (normal_waker u) cw (drain_waker u).

(** Delivering an original does not look at them, ... *)
Lemma original_part_frame cl cov ct cw u c :
  original_part (set_side cl cov ct cw u) c =
    (let '(v, ws, over) := original_part u c in (set_side cl cov ct cw v, ws, over)).
Proof.
  unfold original_part, deliver_original. cbn.
  destruct (iterator_finished u); cbn; (destruct (delivery u); cbn;
    [destruct (Z.of_nat (length (normal u)) <? limit u); [|destruct (normal_overflow u)]; cbn|..]);
    destruct (_ + 1 =? _); reflexivity.
Qed.

(** ... leaves them alone, and detaches nothing. *)
Lemma original_part_keeps u c :
  let v := (original_part u c).1.1 in
  limit v = limit u /\ cancellations v = cancellations u /\ cancel_overflow v = cancel_overflow u /\
  cancel_terminal v = cancel_terminal u /\ cancels v = cancels u /\ cancel_waker v = cancel_waker u /\
  originals v = originals u /\ original_terminal v = original_terminal u + 1 /\
  (delivery v = Detached <-> delivery u = Detached).
Proof.
  unfold original_part, deliver_original.
  destruct (iterator_finished u); cbn; (destruct (delivery u) eqn:Hd; cbn;
    [destruct (Z.of_nat (length (normal u)) <? limit u); [|destruct (normal_overflow u)]; cbn|..]);
    destruct (_ + 1 =? _); cbn; rewrite ?Hd; by split_and!.
Qed.

(** Delivering a cancellation is a change of that side which depends on it alone. *)
Lemma cancel_part_side u c :
  exists cl cov cw ws, forall v,
    limit v = limit u -> cancellations v = cancellations u -> cancel_overflow v = cancel_overflow u ->
    cancel_terminal v = cancel_terminal u -> cancels v = cancels u -> cancel_waker v = cancel_waker u ->
    (delivery v = Detached <-> delivery u = Detached) ->
    cancel_part v c = (set_side cl cov (cancel_terminal u + 1) cw v, ws).
Proof.
  destruct (cancel_part u c) as [w ws] eqn:Hw. exists (cancellations w), (cancel_overflow w), (cancel_waker w), ws.
  intros v H1 H2 H3 H4 H5 H6 H7. revert Hw. unfold cancel_part. rewrite H1, H2, H6.
  destruct (bool_decide (delivery u = Detached)) eqn:Hd.
  - apply bool_decide_eq_true in Hd. rewrite (proj2 H7 Hd), Hd. cbn. rewrite H4, H5, H6.
    destruct (_ + 1 =? _); intros [= <- <-]; destruct v; cbn in *; by subst.
  - apply bool_decide_eq_false in Hd.
    destruct (Z.of_nat (length (cancellations u)) <? limit u);
      destruct (delivery u); try done; destruct (delivery v) eqn:Ev; try (exfalso; tauto); cbn; rewrite ?H4, ?H5;
      destruct (_ + 1 =? _); intros [= <- <-]; destruct v; cbn in *; by subst.
Qed.

Lemma wake_drain_original u : original_terminal u < originals u -> wake_drain u = (u, []).
Proof. intros H. unfold wake_drain, drained. by rewrite (proj2 (Z.eqb_neq _ _)) by lia. Qed.

Lemma wake_drain_cancel u : cancel_terminal u < cancels u -> wake_drain u = (u, []).
Proof. intros H. unfold wake_drain, drained. by rewrite (proj2 (Z.eqb_neq (cancel_terminal u) _)), andb_false_r by lia. Qed.

(** Delivering both to one submission: nothing is drained before the second. *)
Lemma deliver_commute u (c1 c2 : Completion) :
  original_terminal u < originals u -> cancel_terminal u < cancels u ->
  let '(u1, ws1, over) := deliver_original u c1 false in
  let '(u12, ws2) := deliver_cancel u1 c2 in
  let '(u2, ws2') := deliver_cancel u c2 in
  let '(u21, ws1', over') := deliver_original u2 c1 false in
  u12 = u21 /\ over = over' /\ ws1 ++ ws2 ≡ₚ ws2' ++ ws1'.
Proof.
  intros Ho Hc. rewrite deliver_original_parts, (deliver_cancel_parts u).
  destruct (cancel_part_side u c2) as (cl & cov & cw & ws2 & Hside).
  pose proof (original_part_keeps u c1) as Hkeep. pose proof (original_part_frame cl cov (cancel_terminal u + 1) cw u c1) as Hframe.
  destruct (original_part u c1) as [[v ws1] over]. cbn in Hkeep.
  destruct Hkeep as (K1 & K2 & K3 & K4 & K5 & K6 & K7 & K8 & K9).
  rewrite (wake_drain_cancel v) by lia. rewrite deliver_cancel_parts, (Hside v), (Hside u) by done.
  rewrite (wake_drain_original (set_side _ _ _ _ u)) by done.
  destruct (wake_drain (set_side cl cov (cancel_terminal u + 1) cw v)) as [w wd] eqn:Hw.
  rewrite deliver_original_parts, Hframe, Hw. split; [done|]. split; [done|].
  rewrite !app_nil_r. apply Permutation_app_swap_app.
Qed.
End Submission.

Section Order.
Context `{U : Uring, !UringLaws} {T : Type}.
Notation ring := (Ring T).
Implicit Types (s : ring) (h : history ucall uresp).
Variable o : oracle ucall uresp.

(** ** The driver *)

(** The completion a context makes of its CQE. *)
Definition restored (ctx : CqeContext) (c : cqe) : Completion :=
  mkCompletion (index ctx) (cqe_set_user_data (original_user_data ctx) c).

(** The state with other contexts and one other submission. *)
Definition delivered_to s (m : gmap Z CqeContext) (id : SubId) (u : SubmissionInner) : ring :=
  set_subs (<[ id := u ]> (subs s)) (on_data (set_contexts m) s).

Lemma dispatch_terminal c ctx u s h :
  cqe_user_data c <> 0 -> cqe_more c = false -> contexts (data s) !! cqe_user_data c = Some ctx ->
  kind ctx = Original -> cphase ctx = Submitted -> subs s !! cstate ctx = Some u ->
  let p := cqe_user_data c in
  let '(v, ws, over) := deliver_original u (restored ctx c) false in
  dispatch c o s h =
    (Done (ws, if over then Some (cstate ctx) else None),
     delivered_to s (if cancel_queued ctx && negb (cancel_seen ctx)
                     then <[ p := set_cphase CTerminal ctx ]> (contexts (data s)) else delete p (contexts (data s)))
       (cstate ctx) v, h).
Proof.
  intros H0 Hm Hctx Hk Hph Hu p. destruct (deliver_original u (restored ctx c) false) as [[v ws] over] eqn:Hd.
  assert (cqe_user_data c ∈ dom (contexts (data s))) as Hdom by (by apply elem_of_dom).
  unfold dispatch, dispatch_raw. run_unfold. rewrite bool_decide_true by done.
  rewrite (proj2 (Z.eqb_neq _ _) H0), Hctx, Hph, Hk, Hm. cbn. unfold get_sub, put_sub. run_unfold. cbn.
  rewrite bool_decide_true by done. cbn. rewrite Hu. cbn.
  unfold restored in Hd. rewrite Hd. cbn.
  destruct (cancel_queued ctx && negb (cancel_seen ctx)); cbn; unfold delivered_to, on_data; cbn;
    [by rewrite insert_delete_eq|done].
Qed.

Lemma dispatch_cancel_cqe c ctx tg octx u s h :
  cqe_user_data c <> 0 -> cqe_more c = false -> contexts (data s) !! cqe_user_data c = Some ctx ->
  kind ctx = Cancel -> cphase ctx = Submitted -> target ctx = Some tg -> subs s !! cstate ctx = Some u ->
  tg <> cqe_user_data c -> contexts (data s) !! tg = Some octx ->
  let '(v, ws) := deliver_cancel u (restored ctx c) in
  dispatch c o s h =
    (Done (ws, None),
     delivered_to s (if bool_decide (cphase octx = CTerminal) then delete tg (delete (cqe_user_data c) (contexts (data s)))
                     else <[ tg := set_cancel_seen true octx ]> (delete (cqe_user_data c) (contexts (data s))))
       (cstate ctx) v, h).
Proof.
  intros H0 Hm Hctx Hk Hph Ht Hu Hne Ho. destruct (deliver_cancel u (restored ctx c)) as [v ws] eqn:Hd.
  assert (cqe_user_data c ∈ dom (contexts (data s))) as Hdom by (by apply elem_of_dom).
  unfold dispatch, dispatch_raw. run_unfold. rewrite bool_decide_true by done.
  rewrite (proj2 (Z.eqb_neq _ _) H0), Hctx, Hph, Hk, Hm. cbn.
  rewrite bool_decide_true by done. cbn. rewrite Ht. unfold get_sub, put_sub. cbn. rewrite Hu. cbn.
  unfold restored in Hd. rewrite Hd. cbn. rewrite lookup_delete_ne, Ho by done. cbn.
  destruct (bool_decide (cphase octx = CTerminal)); reflexivity.
Qed.
Lemma delivered_contexts s m i u : contexts (data (delivered_to s m i u)) = m.
Proof. reflexivity. Qed.

Lemma delivered_twice s m1 m2 i j u v :
  delivered_to (delivered_to s m1 i u) m2 j v =
    set_subs (<[ j := v ]> (<[ i := u ]> (subs s))) (on_data (set_contexts m2) s).
Proof. reflexivity. Qed.

Lemma dispatch_all_two c c' s s1 s2 h ws ws' over over' :
  dispatch c o s h = (Done (ws, over), s1, h) -> dispatch c' o s1 h = (Done (ws', over'), s2, h) ->
  dispatch_all [c; c'] o s h = (Done (ws ++ ws', opt_list over ++ opt_list over'), s2, h).
Proof.
  intros H1 H2. cbn [dispatch_all]. unfold mbind, prog_mbind, prog_bind. rewrite H1, H2. cbn. by rewrite !app_nil_r.
Qed.

(** The two deliveries, to one submission or to two. *)
Lemma deliveries_commute (m : gmap SubId SubmissionInner) i j u v (c1 c2 : Completion) :
  m !! i = Some u -> m !! j = Some v ->
  original_terminal u < originals u -> cancel_terminal v < cancels v ->
  exists u1 ws1 over v1 ws2 v2 ws2' u2 ws1',
    deliver_original u c1 false = (u1, ws1, over) /\
    ((<[ i := u1 ]> m) !! j = Some (if decide (i = j) then u1 else v) /\
     deliver_cancel (if decide (i = j) then u1 else v) c2 = (v1, ws2)) /\
    deliver_cancel v c2 = (v2, ws2') /\
    ((<[ j := v2 ]> m) !! i = Some (if decide (i = j) then v2 else u) /\
     deliver_original (if decide (i = j) then v2 else u) c1 false = (u2, ws1', over)) /\
    <[ j := v1 ]> (<[ i := u1 ]> m) = <[ i := u2 ]> (<[ j := v2 ]> m) /\ ws1 ++ ws2 ≡ₚ ws2' ++ ws1'.
Proof.
  intros Hu Hv Ho Hc. destruct (decide (i = j)) as [<-|Hne].
  - assert (v = u) as -> by congruence. pose proof (deliver_commute u c1 c2 Ho Hc) as Hd.
    destruct (deliver_original u c1 false) as [[u1 ws1] over]. destruct (deliver_cancel u1 c2) as [v1 ws2] eqn:E1.
    destruct (deliver_cancel u c2) as [v2 ws2']. destruct (deliver_original v2 c1 false) as [[u2 ws1'] over'] eqn:E2.
    destruct Hd as (-> & -> & Hp). exists u1, ws1, over', u2, ws2, v2, ws2', u2, ws1'.
    rewrite !lookup_insert_eq, !insert_insert_eq. by split_and!.
  - destruct (deliver_original u c1 false) as [[u1 ws1] over]. destruct (deliver_cancel v c2) as [v1 ws2].
    exists u1, ws1, over, v1, ws2, v1, ws2, u1, ws1. rewrite !lookup_insert_ne by done.
    split_and!; [done..|by apply insert_insert_ne|apply Permutation_app_comm].
Qed.
End Order.

(** ** Reachable states *)

Section Reachable.
Context `{U : Uring, !UringLaws} {T : Type}.
Variable new_box : history ucall uresp -> gset Z -> Z.
Variable o : oracle ucall uresp.
Variable supported : Z -> bool.
Variable cfg : IoUringConfig.
Hypothesis Hbox : allocator_fresh new_box.
Hypothesis Hkernel : kernel_bounded o.
Implicit Types (s : Ring T).

(** What the invariant says of an original and its cancellation whose CQEs are next. *)
Lemma both_ready s c1 c2 rest un fl a b :
  core s (c1 :: c2 :: rest) un fl -> cqe_more c1 = false ->
  contexts (data s) !! cqe_user_data c1 = Some a -> kind a = Original ->
  contexts (data s) !! cqe_user_data c2 = Some b -> kind b = Cancel -> target b = Some (cqe_user_data c1) ->
  cphase a = Submitted /\ cphase b = Submitted /\ cqe_more c2 = false /\
    cancel_queued a = true /\ cancel_seen a = false /\
    cqe_user_data c1 <> 0 /\ cqe_user_data c2 <> 0 /\ cqe_user_data c1 <> cqe_user_data c2.
Proof.
  intros [Hk Hc _ _] Hm1 Ha Hka Hb Hkb Htb.
  assert (forall p c, contexts (data s) !! p = Some c -> p <> 0) as Hnull.
  { intros p c Hp ->. apply (ki_null _ _ Hk). unfold boxes. apply elem_of_dom_2 in Hp. clear - Hp. set_solver. }
  assert (cqe_more c2 = false) as Hm2.
  { pose proof (ki_posted _ _ Hk) as Hp. cbn in Hp. destruct Hp as (_ & Hp & _). destruct (cqe_more c2); [|done].
    destruct Hp as (_ & ctx & Hctx & Ho). congruence. }
  assert (cphase b = Submitted) as Hpb.
  { apply phase_at_raw in Hb. pose proof (ki_flight _ _ Hk (cqe_user_data c2)) as Hf.
    assert (cqe_user_data c2 ∈ terminals ((c1 :: c2 :: rest) ++ cq s)) as Hin%occ_pos
      by (cbn [app]; rewrite !terminals_cons, Hm1, Hm2; right; left).
    pose proof (in_phase_le Submitted (data s) (cqe_user_data c2)).
    assert (in_phase Submitted (data s) (cqe_user_data c2) = 1%nat) as E by lia. apply in_phase_1 in E. congruence. }
  pose proof (ci_pending _ Hc (cqe_user_data c1)) as Hp. unfold awaits in Hp. rewrite Ha in Hp.
  pose proof (total_ge (targets (cqe_user_data c1)) _ _ _ Hb) as Hge. unfold targets in Hge at 1.
  rewrite Hkb, Htb, bool_decide_true in Hge by done.
  assert (awaiting a = true) as Haw by (destruct (awaiting a); cbn in *; [done|lia]).
  unfold awaiting in Haw. rewrite Hka in Haw. apply andb_true_iff in Haw as [Hq Hs]. apply negb_true_iff in Hs.
  split_and!; [by eapply popped_context|done..|by eapply Hnull|by eapply Hnull|]. intros E. rewrite E in Ha. congruence.
Qed.

(** Neither counter of a submission with live contexts is complete. *)
Lemma originals_left s p a u :
  count_inv s -> contexts (data s) !! p = Some a -> kind a = Original -> cphase a = Submitted ->
  subs s !! cstate a = Some u -> original_terminal u < originals u.
Proof.
  intros Hn Ha Hk Hp Hu. destruct (ni_counted _ Hn _ _ Hu) as (-> & _).
  pose proof (total_ge (live_original (cstate a)) _ _ _ Ha) as Hge. unfold live_original in Hge at 1.
  rewrite Hk, Hp, bool_decide_true in Hge by done. cbn in Hge. lia.
Qed.

Lemma cancels_left s p b u :
  count_inv s -> contexts (data s) !! p = Some b -> kind b = Cancel -> subs s !! cstate b = Some u ->
  cancel_terminal u < cancels u.
Proof.
  intros Hn Hb Hk Hu. destruct (ni_counted _ Hn _ _ Hu) as (_ & _ & ->).
  pose proof (total_ge (live_cancel (cstate b)) _ _ _ Hb) as Hge. unfold live_cancel in Hge at 1.
  rewrite Hk, bool_decide_true in Hge by done. cbn in Hge. lia.
Qed.

(** C24. The order of an original and of its cancellation does not matter: in a
    reachable state whose next two CQEs are the terminal CQE of an original and the CQE
    of the cancellation that targets it, dispatching them in one order or in the other
    succeeds, leaves the same state of the driver and the same overflows to cancel, and
    wakes the same tasks; neither context is left, and the other contexts are untouched. *)
Theorem cancel_order_independent (x : RSys T) c1 c2 rest a b
    (Hr : reachable sys_init (sys_step (T := T) new_box o supported cfg) x) (Hx : crash x = None)
    (Hb : batch x = c1 :: c2 :: rest) (Hm : cqe_more c1 = false)
    (Ha : contexts (data (r x)) !! cqe_user_data c1 = Some a) (Hka : kind a = Original)
    (Hc : contexts (data (r x)) !! cqe_user_data c2 = Some b) (Hkb : kind b = Cancel)
    (Ht : target b = Some (cqe_user_data c1)) :
  exists s ws ws' over,
    dispatch_all [c1; c2] o (r x) (rh x) = (Done (ws, over), s, rh x) /\
    dispatch_all [c2; c1] o (r x) (rh x) = (Done (ws', over), s, rh x) /\ ws ≡ₚ ws' /\
    contexts (data s) = delete (cqe_user_data c1) (delete (cqe_user_data c2) (contexts (data (r x)))).
Proof.
  pose proof (reach_good new_box o supported cfg Hbox Hkernel x Hr Hx) as [Hcore _]. rewrite Hb in Hcore.
  destruct (both_ready _ _ _ _ _ _ _ _ Hcore Hm Ha Hka Hc Hkb Ht) as (Hpa & Hpb & Hm2 & Hq & Hs & N1 & N2 & Hne).
  pose proof (core_count _ _ _ _ Hcore) as Hn.
  destruct (ni_state _ Hn _ _ Ha) as [u Hu]. destruct (ni_state _ Hn _ _ Hc) as [v Hv].
  destruct (deliveries_commute (subs (r x)) _ _ u v (restored a c1) (restored b c2) Hu Hv
    (originals_left _ _ _ _ Hn Ha Hka Hpa Hu) (cancels_left _ _ _ _ Hn Hc Hkb Hv))
    as (u1 & ws1 & over & v1 & ws2 & v2 & ws2' & u2 & ws1' & D1 & [L1 D2] & D3 & [L2 D4] & Hsubs & Hws).
  pose proof (dispatch_terminal o c1 a u (r x) (rh x) N1 Hm Ha Hka Hpa Hu) as R1.
  cbv zeta in R1. rewrite D1, Hq, Hs in R1. cbn [andb negb] in R1.
  set (s1 := delivered_to (r x) (<[ cqe_user_data c1 := set_cphase CTerminal a ]> (contexts (data (r x)))) (cstate a) u1) in *.
  pose proof (dispatch_cancel_cqe o c2 b _ (set_cphase CTerminal a) _ s1 (rh x) N2 Hm2
    (eq_trans (lookup_insert_ne _ _ _ _ Hne) Hc) Hkb Hpb Ht L1 Hne (lookup_insert_eq _ _ _)) as R2. rewrite D2 in R2.
  pose proof (dispatch_cancel_cqe o c2 b _ a v (r x) (rh x) N2 Hm2 Hc Hkb Hpb Ht Hv Hne Ha) as R3.
  rewrite D3, bool_decide_false in R3 by congruence.
  set (s3 := delivered_to _ _ (cstate b) v2) in *.
  pose proof (dispatch_terminal o c1 (set_cancel_seen true a) _ s3 (rh x) N1 Hm (lookup_insert_eq _ _ _) Hka Hpa L2) as R4.
  change (restored (set_cancel_seen true a) c1) with (restored a c1) in R4.
  cbv zeta in R4. rewrite D4 in R4. cbn [cancel_queued cancel_seen set_cancel_seen] in R4. rewrite andb_false_r in R4.
  pose proof (dispatch_all_two o _ _ _ _ _ _ _ _ _ _ R1 R2) as F1. pose proof (dispatch_all_two o _ _ _ _ _ _ _ _ _ _ R3 R4) as F2.
  rewrite bool_decide_true in F1 by done. unfold s1, s3 in F1, F2.
  rewrite delivered_contexts, delivered_twice, Hsubs, delete_delete, delete_insert_eq, delete_delete in F1.
  rewrite delivered_contexts, delivered_twice, delete_insert_eq in F2.
  do 4 eexists. split; [exact F1|]. rewrite app_nil_r. split; [exact F2|]. done.
Qed.
End Reachable.

(** ** A run *)

Module OrderRun.
Import Sample.

(** The sample submission, its cancellation queued and staged. *)
Definition queued : sys := exec_ kernel (queue_cancels 1%N) admitted.
Definition staged_ : sys :=
  exec kernel (pass_submit new_box all_supported (Z.to_nat (entries config_default))) queued
    (fun '(failed, _) x => set_failing failed x).

(** The first entry completes with [ECANCELED] and its cancellation, at address 4, with 0. *)
Definition posted_first : sys := posted (1, false, -125) staged_.
Definition posted_both : sys := posted (4, false, 0) posted_first.
Definition both : sys := reaped posted_both.

Lemma both_reached : step_reached both.
Proof.
  apply (reach_step _ _ posted_both); [apply (reach_step _ _ posted_first); [apply (reach_step _ _ staged_);
    [apply (reach_step _ _ queued); [apply (reach_step _ _ admitted); [apply admitted_reached|]|]|]|]|].
  - split; [by vm_compute|]. apply (rs_queue new_box kernel all_supported config_default admitted).
    apply elem_of_dom. vm_compute. by eexists.
  - split; [by vm_compute|]. apply (rs_pass new_box kernel all_supported config_default queued); by vm_compute.
  - split; [by vm_compute|]. apply rs_kernel. split; [vm_compute; by left|by vm_compute].
  - split; [by vm_compute|]. apply rs_kernel. split; [vm_compute; by do 2 right; left|by vm_compute].
  - split; [by vm_compute|]. apply (rs_reap new_box kernel all_supported config_default posted_both); by vm_compute.
Qed.

Lemma cancel_order_independent_witness :
  exists s ws ws' over,
    dispatch_all (U := sample_uring) [(1, false, -125); (4, false, 0)] kernel (r both) (rh both) =
      (Done (ws, over), s, rh both) /\
    dispatch_all (U := sample_uring) [(4, false, 0); (1, false, -125)] kernel (r both) (rh both) =
      (Done (ws', over), s, rh both) /\ ws ≡ₚ ws' /\
    contexts (data s) = delete 1 (delete 4 (contexts (data (r both)))).
Proof.
  assert (crash both = None) as Hx by (by vm_compute).
  assert (batch both = [(1, false, -125); (4, false, 0)]) as Hb by (by vm_compute).
  apply (cancel_order_independent new_box kernel all_supported config_default
    new_box_fresh kernel_ok both (1, false, -125) (4, false, 0) []
    (mkContext Original Submitted 0 70 1%N None true false) (mkContext Cancel Submitted 0 70 1%N (Some 1) false false)
    both_reached Hx Hb); by vm_compute.
Defined.
End OrderRun.
