(* ===== verification/RingStop.v ===== *)
(** * RingStop: after a shutdown the driver can always finish

    From every reachable state of a driver that was told to shut down, its own task and
    a cooperative kernel, without any help from a future, reach a state in which the
    driver stops.  The file first says what the driver's sections do to its queues, then
    gives the schedule. *)

From Stdlib Require Import ZArith Lia.
From stdpp Require Import base gmap sets list strings.
From S2P Require Import Prelude Errors Ffi Ring RingOps RingFutures RingInv RingPrim RingCount RingStep RingSect RingDrive RingSys RingSpec.

Open Scope Z_scope.

(** ** What the sections do to the queues *)

(** The end of a section that is tame. *)
Ltac tame_end := repeat split; first [done | intros [?|?]; discriminate].

Section Effects.
Context `{U : Uring, !UringLaws} {T : Type}.
Notation ring := (Ring T).
Notation uprog := (prog ucall uresp).
Notation uhist := (history ucall uresp).
Notation uoracle := (oracle ucall uresp).
Implicit Types (s : ring) (h : uhist) (m : gmap SubId SubmissionInner) (id : SubId).

(** What is on its way to, at and from the kernel, and what waits for a pass. *)
Definition queues s :=
  (sq s, flight s, cq s, cancel_queue (data s), owned_cancel_queue (data s),
   owned_pending (data s), owned_queue s, dshutdown (data s)).

(** The submissions whose completions are still delivered; none is opened again. *)
Definition is_open m id : Prop := exists u, m !! id = Some u /\ delivery u = Open.
Definition calmer m m' : Prop := forall id, is_open m' id -> is_open m id.

#[export] Instance calmer_preorder : PreOrder calmer.
Proof. split; [by intros m id|]. intros a b c H1 H2 id Hi. auto. Qed.

Lemma calmer_insert m id u u' :
  m !! id = Some u -> (delivery u' = Open -> delivery u = Open) -> calmer m (<[ id := u' ]> m).
Proof.
  intros Hu Hd j (v & Hv & Ho). destruct (decide (id = j)) as [<-|Hne].
  - rewrite lookup_insert_eq in Hv. injection Hv as ->. exists u. auto.
  - rewrite lookup_insert_ne in Hv by done. by exists v.
Qed.

Lemma calmer_alter m id (f : SubmissionInner -> SubmissionInner) :
  (forall u, delivery (f u) = Open -> delivery u = Open) -> calmer m (alter f id m).
Proof.
  intros Hf j (v & Hv & Ho). destruct (decide (id = j)) as [<-|Hne].
  - rewrite lookup_alter_eq in Hv. apply fmap_Some in Hv as (u & Hu & ->). exists u. auto.
  - rewrite lookup_alter_ne in Hv by done. by exists v.
Qed.

(** Not one of the aborts that are left to the code. *)
Definition no_abort {A} (r : outcome A) : Prop := match r with Aborted m => ~ external_abort m | _ => True end.

(** The section leaves the queues of [s0] alone and opens nothing. *)
Definition tame s0 {A} : outcome A -> ring -> uhist -> Prop :=
  fun r s _ => no_abort r /\ queues s = queues s0 /\ calmer (subs s0) (subs s).


Lemma tame_bind {A B} s0 (m : uprog ring A) (k : A -> uprog ring B) o s h :
  run_post m o s h (tame s0) ->
  (forall a s h, queues s = queues s0 -> calmer (subs s0) (subs s) -> run_post (k a) o s h (tame s0)) ->
  run_post (prog_bind m k) o s h (tame s0).
Proof.
  intros Hm Hk. apply run_post_bind. eapply run_post_mono; [exact Hm|].
  intros [a|e|e|e] s' h' (Hn & Q & C); cbn; [by apply Hk|done..].
Qed.

Lemma tame_modify {A} s0 (f : ring -> ring) (k : uprog ring A) o s h :
  queues (f s) = queues s -> subs (f s) = subs s -> queues s = queues s0 -> calmer (subs s0) (subs s) ->
  (queues (f s) = queues s0 -> calmer (subs s0) (subs (f s)) -> run_post k o (f s) h (tame s0)) ->
  run_post (prog_bind (modify f) (fun _ => k)) o s h (tame s0).
Proof. intros Hq Hs E1 E2 Hk. eapply run_post_bind_eq; [reflexivity|]. apply Hk; [congruence|by rewrite Hs]. Qed.

Lemma finish_handler_tame o hd v s h : run_post (finish_handler hd v) o s h (tame s).
Proof.
  eapply run_post_bind_eq; [reflexivity|]. destruct (controls s !! h_control hd); [|tame_end].
  eapply run_post_bind_eq; [reflexivity|]. tame_end.
Qed.

Lemma fail_owned_tame o l s h : run_post (fail_owned l) o s h (tame s).
Proof.
  cut (forall s0, queues s = queues s0 -> calmer (subs s0) (subs s) -> run_post (fail_owned l) o s h (tame s0)).
  { intros Hcut. by apply Hcut. }
  revert s h. induction l as [|[hd f] l IH]; intros s h s0 E1 E2; [tame_end|]. cbn [fail_owned].
  assert (forall A (r : outcome A) s1 h1, tame s r s1 h1 -> tame s0 r s1 h1) as Hlift.
  { intros A r s1 h1 (N & Q & C). split; [done|]. split; [congruence|by etransitivity]. }
  apply tame_bind; [eapply run_post_mono; [apply finish_handler_tame|apply Hlift]|]. intros ws s1 h1 Q1 C1.
  apply tame_bind; [by apply IH|]. intros ws' s2 h2 Q2 C2. tame_end.
Qed.

(** A delivery closes a submission when it overflows, and opens none. *)
Lemma deliver_original_open u c more :
  let '(u', ws, over) := deliver_original u c more in
  (delivery u' = Open -> delivery u = Open) /\ (over = true -> delivery u = Open /\ delivery u' <> Open).
Proof.
  unfold deliver_original. destruct (iterator_finished u); cbn;
    (destruct (delivery u) eqn:Hd; cbn;
      [destruct (Z.of_nat (length (normal u)) <? limit u); [|destruct (normal_overflow u)]; cbn|..]);
    destruct more; cbn; try (by rewrite ?Hd);
    (destruct (_ + 1 =? _); cbn; unfold wake_drain; destruct (drained _); cbn; by rewrite ?Hd).
Qed.

Lemma deliver_cancel_open u c : delivery (deliver_cancel u c).1 = delivery u.
Proof.
  unfold deliver_cancel. destruct (delivery u) eqn:Hd; cbn; [destruct (_ <? _)..|]; cbn;
    destruct (_ + 1 =? _); cbn; unfold wake_drain; destruct (drained _); cbn; done.
Qed.

(** Dispatching a CQE is tame, and an overflow closes an open submission. *)
Definition dispatched_tame s0 (r : outcome (list Waker * option SubId)) (s : ring) (h : uhist) : Prop :=
  tame s0 r s h /\
  match r with Done (_, Some id) => is_open (subs s0) id /\ ~ is_open (subs s) id | _ => True end.

Lemma dispatch_owned_tame o c s h : run_post (dispatch_owned c) o s h (tame s).
Proof.
  unfold dispatch_owned. destruct (_ =? 0); [tame_end|]. eapply run_post_bind_eq; [reflexivity|].
  assert (forall (s1 : ring) hd v h1, queues s1 = queues s -> subs s1 = subs s ->
    run_post (finish_handler hd v) o s1 h1 (tame s)) as Hfin.
  { intros s1 hd v h1 Q E. eapply run_post_mono; [apply finish_handler_tame|]. intros r s2 h2 (N & Q2 & C2).
    rewrite E in C2. split; [done|]. split; [congruence|done]. }
  destruct (owned_contexts (data s) !! _) as [x|].
  - eapply run_post_bind_eq; [reflexivity|]. destruct (negb _); [tame_end|]. destruct (cqe_more c); [tame_end|].
    destruct (handler x); [|tame_end]. destruct (_ && _); (eapply run_post_bind_eq; [reflexivity|]); by apply Hfin.
  - destruct (owned_cancel_contexts (data s) !! _) as [x|]; [|tame_end].
    eapply run_post_bind_eq; [reflexivity|]. destruct (negb _); [tame_end|]. destruct (cqe_more c); [tame_end|].
    destruct (owned_contexts (data s) !! _); [|tame_end]. eapply run_post_bind_eq; [reflexivity|]. tame_end.
Qed.

Lemma dispatch_tame o c s h : run_post (dispatch c) o s h (dispatched_tame s).
Proof.
  eapply run_post_bind_eq; [reflexivity|]. destruct (bool_decide _).
  2: { apply run_post_bind. eapply run_post_mono; [apply dispatch_owned_tame|]. intros [ws|e|e|e] s' h' (N & Q & C); (split; [by split|done]). }
  unfold dispatch_raw. destruct (_ =? 0); [tame_end|]. eapply run_post_bind_eq; [reflexivity|].
  destruct (contexts (data s) !! _) as [ctx|]; [|tame_end]. eapply run_post_bind_eq; [reflexivity|].
  destruct (negb _); [tame_end|]. destruct (kind ctx).
  - destruct (subs s !! cstate ctx) as [u|] eqn:Hu.
    2: { apply run_post_bind. unfold get_sub, run_post. cbn. rewrite Hu. tame_end. }
    apply run_post_bind. eapply get_sub_post; [exact Hu|]. cbn [then_post].
    match goal with |- context [deliver_original u ?e (cqe_more c)] => pose proof (deliver_original_open u e (cqe_more c)) as Ho;
      destruct (deliver_original u e (cqe_more c)) as [[u' ws] over] end. destruct Ho as [Ho Hover].
    eapply run_post_bind_eq; [reflexivity|].
    assert (forall s1 h1, queues s1 = queues s -> subs s1 = <[ cstate ctx := u' ]> (subs s) ->
      dispatched_tame s (Done (ws, if over then Some (cstate ctx) else None)) s1 h1) as Hend.
    { intros s1 h1 Q E. split; [split; [done|]; split; [done|rewrite E; by apply (calmer_insert _ _ u)]|].
      destruct over; [|done]. destruct (Hover eq_refl) as [H1 H2]. split; [by exists u|]. rewrite E.
      intros (v & Hv & Hv'). rewrite lookup_insert_eq in Hv. injection Hv as ->. done. }
    destruct (cqe_more c || _); (eapply run_post_bind_eq; [reflexivity|]); by apply Hend.
  - destruct (cqe_more c); [tame_end|]. destruct (target ctx) as [tg|]; [|tame_end].
    destruct (subs s !! cstate ctx) as [u|] eqn:Hu.
    2: { apply run_post_bind. unfold get_sub, run_post. cbn. rewrite Hu. tame_end. }
    apply run_post_bind. eapply get_sub_post; [exact Hu|]. cbn [then_post].
    match goal with |- context [deliver_cancel u ?e] => pose proof (deliver_cancel_open u e) as Ho;
      destruct (deliver_cancel u e) as [u' ws] end. cbn [fst] in Ho.
    assert (calmer (subs s) (<[ cstate ctx := u' ]> (subs s))) as Hc by (apply (calmer_insert _ _ u); [done|by rewrite Ho]).
    eapply run_post_bind_eq; [reflexivity|]. eapply run_post_bind_eq; [reflexivity|].
    match goal with |- context [match ?x with Some _ => _ | None => _ end] => destruct x end; [|tame_end].
    eapply run_post_bind_eq; [reflexivity|]. tame_end.
Qed.

(** Requesting the cancellation of a submission only adds commands, and none when no
    context is left. *)
Lemma request_cancel_queues o id dl s h :
  dl <> Open ->
  run_post (request_cancel id dl) o s h (fun r s' _ => (exists a, r = Done a) /\
    (exists q, queues s' = (sq s, flight s, cq s, cancel_queue (data s) ++ q, owned_cancel_queue (data s),
       owned_pending (data s), owned_queue s, dshutdown (data s)) /\ (contexts (data s) = ∅ -> q = [])) /\
    calmer (subs s) (subs s')).
Proof.
  intros Hdl. unfold request_cancel, close_delivery. eapply run_post_bind_eq; [reflexivity|].
  set (s1 := on_sub id _ s). assert (calmer (subs s) (subs s1)) as Hc.
  { apply calmer_alter. intros u. destruct dl; try done; destruct (delivery u) eqn:E; cbn; by rewrite ?E. }
  unfold queue_cancels. eapply run_post_bind_eq; [reflexivity|].
  set (ts := filter (fun pc => cancel_target id pc = true) (map_to_list (contexts (data s1)))).
  eapply run_post_bind_eq; [reflexivity|]. eapply run_post_bind_eq; [reflexivity|].
  assert (contexts (data s) = ∅ -> map (fun pc : Z * CqeContext => mkCancel pc.1 (index pc.2) (original_user_data pc.2) (cstate pc.2)) ts = [])
    as Hnone.
  { intros E. unfold ts. change (contexts (data s1)) with (contexts (data s)). by rewrite E, map_to_list_empty. }
  case_bool_decide; (split; [by eexists|]); (split; [eexists; split; [reflexivity|exact Hnone]|]); [exact Hc|].
  etransitivity; [exact Hc|]. by apply calmer_alter.
Qed.
End Effects.

(** ** A pass under a cooperative kernel *)

Section Pass.
Context `{U : Uring, !UringLaws} {T : Type}.
Notation ring := (Ring T).
Notation uprog := (prog ucall uresp).
Notation uhist := (history ucall uresp).
Implicit Types (s : ring) (h : uhist).
Variable new_box : uhist -> gset Z -> Z.
Hypothesis Hbox : allocator_fresh new_box.
Variable o : oracle ucall uresp.
Variable depth : Z.

(** The submission queue has room for [depth] entries, and a submission takes them all. *)
Record cooperative : Prop := mkCooperative {
  co_room h e : queued_sqes h < depth -> rroom (o h (UPush e)) = true;
  co_submit h : rcount (o h USubmit) = queued_sqes h
}.
Hypothesis Hco : cooperative.
Hypothesis Hdepth : 0 < depth.

Lemma cooperative_bounded : kernel_bounded o.
Proof. intros h. rewrite co_submit by done. lia. Qed.

Notation tied := (tied ∅).

Lemma tied_sq s h : tied s h <-> Z.of_nat (length (sq s)) = queued_sqes h.
Proof. unfold RingStep.tied. split; [by intros []|]. intros Hl. split; [done|]. apply empty_subseteq. Qed.

Lemma push_effect e s h (Q : outcome bool -> ring -> uhist -> Prop) :
  tied s h ->
  (forall h', tied s h' -> depth <= Z.of_nat (length (sq s)) -> Q (Done false) s h') ->
  (forall h', let s' := set_kernel (sq s ++ [sqe_user_data e]) (flight s) s in tied s' h' -> Q (Done true) s' h') ->
  run_post (sq_push e) o s h Q.
Proof.
  intros Ht Hf Htrue. apply run_post_bind, run_post_call. cbn [then_post]. apply tied_sq in Ht.
  destruct (rroom (o h (UPush e))) eqn:Er.
  - eapply run_post_bind_eq; [reflexivity|]. apply run_post_ret, Htrue, tied_sq. cbn. rewrite length_app, Er. cbn. lia.
  - apply run_post_ret, Hf; [apply tied_sq; cbn; rewrite Er; lia|]. apply Z.le_ngt. intros Hlt.
    rewrite (co_room Hco) in Er by lia. done.
Qed.

(** What staging commands leaves alone, and what it does: entries move from a queue [q]
    to the submission queue, until one of them is at its end. *)
Definition staged_from s s' (q q' : nat) : Prop :=
  (length (sq s') + q' = length (sq s) + q)%nat /\ (q' <= q)%nat /\ (q' = 0%nat \/ depth <= Z.of_nat (length (sq s'))) /\
  flight s' = flight s /\ cq s' = cq s /\ owned_pending (data s') = owned_pending (data s) /\
  owned_queue s' = owned_queue s /\ dshutdown (data s') = dshutdown (data s) /\ subs s' = subs s.

Lemma stage_commands_effect : forall q s h, cancel_queue (data s) = q -> tied s h ->
  run_post (stage_commands new_box q) o s h (fun r s' h' => no_abort r /\ match r with Done _ =>
    tied s' h' /\ owned_cancel_queue (data s') = owned_cancel_queue (data s) /\
    staged_from s s' (length q) (length (cancel_queue (data s'))) | _ => True end).
Proof.
  induction q as [|c q IH]; intros s h Hq Ht; cbn [stage_commands].
  { apply run_post_ret. split; [done|]. rewrite Hq. split; [done|]. split; [done|]. split_and!; done || by left. }
  eapply run_post_bind_eq; [reflexivity|]. eapply run_post_bind_eq; [reflexivity|]. eapply run_post_bind_eq; [reflexivity|].
  destruct (bool_decide _); [split; [|done]; intros [?|?]; discriminate|].
  apply run_post_bind, push_effect; [exact Ht| |].
  - intros h' Ht' Hfull. cbn [then_post negb]. apply run_post_modify. split; [done|]. split; [exact Ht'|]. split; [done|].
    split_and!; done || by right.
  - intros h' s1 Ht'. cbn [then_post negb]. eapply run_post_bind_eq; [reflexivity|]. eapply run_post_bind_eq; [reflexivity|].
    eapply run_post_mono; [apply IH; [reflexivity|exact Ht']|]. intros r s' h'' [Hr He]. split; [done|].
    destruct r; [|done..]. destruct He as (E1 & E2 & E3 & E4 & E5). split; [done|]. split; [done|]. split; [|split; [cbn; lia|done]].
    subst s1. cbn in *. rewrite length_app in E3. cbn in *. lia.
Qed.

Lemma stage_owned_commands_effect : forall q s h, owned_cancel_queue (data s) = q -> tied s h ->
  run_post (stage_owned_commands new_box q) o s h (fun r s' h' => no_abort r /\ match r with Done _ =>
    tied s' h' /\ cancel_queue (data s') = cancel_queue (data s) /\
    staged_from s s' (length q) (length (owned_cancel_queue (data s'))) | _ => True end).
Proof.
  induction q as [|c q IH]; intros s h Hq Ht; cbn [stage_owned_commands].
  { apply run_post_ret. split; [done|]. rewrite Hq. split; [done|]. split; [done|]. split_and!; done || by left. }
  eapply run_post_bind_eq; [reflexivity|]. eapply run_post_bind_eq; [reflexivity|]. eapply run_post_bind_eq; [reflexivity|].
  destruct (context_pointer_in_use _ _); [split; [|done]; intros [?|?]; discriminate|].
  apply run_post_bind, push_effect; [exact Ht| |].
  - intros h' Ht' Hfull. cbn [then_post negb]. apply run_post_modify. split; [done|]. split; [exact Ht'|]. split; [done|].
    split_and!; done || by right.
  - intros h' s1 Ht'. cbn [then_post negb]. eapply run_post_bind_eq; [reflexivity|]. eapply run_post_bind_eq; [reflexivity|].
    eapply run_post_mono; [apply IH; [reflexivity|exact Ht']|]. intros r s' h'' [Hr He]. split; [done|].
    destruct r; [|done..]. destruct He as (E1 & E2 & E3 & E4 & E5). split; [done|]. split; [done|]. split; [|split; [cbn; lia|done]].
    subst s1. cbn in *. rewrite length_app in E3. cbn in *. lia.
Qed.

(** Owned operations waiting; after a shutdown a pass fails them, [budget] at a time. *)
Definition waiting s : nat := length (owned_pending (data s)) + length (owned_queue s).

Lemma stage_owned_effect supported budget : forall s h, dshutdown (data s) = true ->
  run_post (stage_owned new_box supported budget) o s h (fun r s' h' => (exists l, r = Done l) /\ h' = h /\
    (sq s', flight s', cq s', cancel_queue (data s'), owned_cancel_queue (data s'), dshutdown (data s'), subs s') =
    (sq s, flight s, cq s, cancel_queue (data s), owned_cancel_queue (data s), true, subs s) /\
    (waiting s' + Nat.min budget (waiting s) = waiting s)%nat).
Proof.
  induction budget as [|budget IH]; intros s h Hsh; cbn [stage_owned].
  { apply run_post_ret. split; [by eexists|]. split; [done|]. by rewrite Hsh. }
  assert (forall s1 op, dshutdown (data s1) = true -> waiting s = S (waiting s1) ->
    (sq s1, flight s1, cq s1, cancel_queue (data s1), owned_cancel_queue (data s1), subs s1) =
    (sq s, flight s, cq s, cancel_queue (data s), owned_cancel_queue (data s), subs s) ->
    run_post (rest ← stage_owned new_box supported budget; mret ((op, FClosed) :: rest)) o s1 h (fun r s' h' =>
      (exists l, r = Done l) /\ h' = h /\
      (sq s', flight s', cq s', cancel_queue (data s'), owned_cancel_queue (data s'), dshutdown (data s'), subs s') =
      (sq s, flight s, cq s, cancel_queue (data s), owned_cancel_queue (data s), true, subs s) /\
      (waiting s' + Nat.min (S budget) (waiting s) = waiting s)%nat)) as Hnext.
  { intros s1 op Hsh1 Hw E. apply run_post_bind. eapply run_post_mono; [by apply IH|].
    intros r s' h' ([l ->] & -> & E' & Hw'). apply run_post_ret. split; [by eexists|]. split; [done|].
    split; [rewrite E'; congruence|]. rewrite Hw. lia. }
  unfold pop_owned. apply run_post_bind. eapply run_post_bind_eq; [reflexivity|]. unfold waiting in *.
  destruct (owned_pending (data s)) as [|op rest] eqn:Ep; [destruct (owned_queue s) as [|op rest] eqn:Eq|].
  - apply run_post_ret. cbn [then_post]. apply run_post_ret. split; [by eexists|]. split; [done|]. rewrite Hsh, Ep, Eq. by cbn.
  - eapply run_post_bind_eq; [reflexivity|]. apply run_post_ret. cbn [then_post]. eapply run_post_bind_eq; [reflexivity|].
    cbn [data set_owned_queue]. rewrite Hsh. apply Hnext; [done| |done]. cbn. by rewrite Ep.
  - eapply run_post_bind_eq; [reflexivity|]. apply run_post_ret. cbn [then_post]. eapply run_post_bind_eq; [reflexivity|].
    cbn [data on_data set_data dshutdown set_owned_pending]. rewrite Hsh. by apply Hnext.
Qed.

Lemma accept_one_tame s h : run_post accept_one o s h (tame s).
Proof.
  eapply run_post_bind_eq; [reflexivity|]. destruct (staged (data s)) as [|st rest]; [tame_end|].
  eapply run_post_bind_eq; [reflexivity|]. destruct st as [p|p|p].
  - destruct (contexts (data s) !! p) as [c|]; [|tame_end]. destruct (negb _); [tame_end|].
    eapply run_post_bind_eq; [reflexivity|]. destruct (kind c); [|tame_end].
    destruct (subs s !! cstate c) as [u|] eqn:Hu.
    2: { apply run_post_bind. unfold get_sub, run_post. cbn. rewrite Hu. tame_end. }
    apply run_post_bind. eapply get_sub_post; [exact Hu|]. cbn [then_post]. eapply run_post_bind_eq; [reflexivity|].
    split; [done|]. split; [done|]. by apply (calmer_insert _ _ u).
  - destruct (owned_contexts (data s) !! p) as [c|]; [|tame_end]. destruct (negb _); [tame_end|].
    eapply run_post_bind_eq; [reflexivity|]. tame_end.
  - destruct (owned_cancel_contexts (data s) !! p) as [c|]; [|tame_end]. destruct (negb _); [tame_end|].
    eapply run_post_bind_eq; [reflexivity|]. tame_end.
Qed.

Lemma tame_trans s0 s1 {A} (r : outcome A) s h : queues s1 = queues s0 -> calmer (subs s0) (subs s1) -> tame s1 r s h -> tame s0 r s h.
Proof. intros Q C (N & Q' & C'). split; [done|]. split; [congruence|by etransitivity]. Qed.

Lemma accept_prefix_tame n : forall s h, run_post (accept_prefix n) o s h (tame s).
Proof.
  induction n as [|n IH]; intros s h; cbn [accept_prefix]; [tame_end|].
  apply tame_bind; [apply accept_one_tame|]. intros ws s1 h1 Q C.
  apply tame_bind; [eapply run_post_mono; [apply IH|]; intros r s' h'; by apply tame_trans|]. intros ws' s2 h2 Q2 C2. tame_end.
Qed.

(** A submission empties the queue into the kernel. *)
Lemma submit_staged_effect k batch un fl s h : good k s batch un fl h ->
  run_post submit_staged o s h (fun r s' _ => (exists ws, r = Done ws) /\
    queues s' = ([], flight s ++ sq s, cq s, cancel_queue (data s), owned_cancel_queue (data s),
                 owned_pending (data s), owned_queue s, dshutdown (data s)) /\ calmer (subs s) (subs s')).
Proof.
  intros [Hc [Ht _]]. apply run_post_bind, run_post_bind, run_post_call. cbn [then_post].
  rewrite (co_submit Hco h), <- Ht. destruct (Z.ltb_spec (Z.of_nat (length (sq s))) 0); [lia|].
  eapply run_post_bind_eq; [reflexivity|]. apply run_post_ret. cbn [then_post]. eapply run_post_bind_eq; [reflexivity|].
  assert (length (staged (data s)) = length (sq s)) as Hlen
    by (by rewrite (ki_sq _ _ (core_kernel _ _ _ _ Hc)), length_map).
  rewrite Nat2Z.id, drop_all, firstn_all. cbn [data set_kernel]. rewrite Hlen, Z.ltb_irrefl.
  eapply run_post_mono; [eapply run_post_and; [apply accept_prefix_tame|]|].
  - apply (accept_prefix_post o batch un fl (sq s) (flight s)); [|done]. unfold rewound. cbn. rewrite app_nil_r. by destruct s.
  - intros r s' h' [(_ & Q & C) (Hd & _)]. by split.
Qed.

Lemma wake_admissions_calmer ids : forall m, calmer m (wake_admissions ids m).1.
Proof.
  induction ids as [|i ids IH]; intros m; cbn; [done|]. destruct (m !! i) as [u|] eqn:Hu; [|apply IH].
  destruct (iterator_finished u); [apply IH|]. specialize (IH (<[ i := set_admission_waker None u ]> m)).
  destruct (wake_admissions ids _) as [m' ws]. cbn in *. etransitivity; [|exact IH]. by apply (calmer_insert _ _ u).
Qed.

(** Everything that waits for a pass. *)
Definition backlog s : nat := length (cancel_queue (data s)) + length (owned_cancel_queue (data s)) + waiting s.

(** A pass after a shutdown: it ends, hands the kernel everything it staged, and makes
    progress when it starts with an empty submission queue. *)
Lemma pass_effect supported budget un s h :
  good (dom (subs s)) s [] un [] h -> dshutdown (data s) = true -> ring_open s = true -> (0 < budget)%nat ->
  run_post (pass_submit new_box supported budget) o s h (fun r s' _ => (exists x, r = Done x) /\
    sq s' = [] /\ cq s' = cq s /\ dshutdown (data s') = true /\ calmer (subs s) (subs s') /\
    (backlog s' <= backlog s)%nat /\ (sq s = [] -> 0 < backlog s -> backlog s' < backlog s)%nat /\
    (length (flight s) + length (sq s) <= length (flight s'))%nat /\
    (length (flight s') + backlog s' <= length (flight s) + length (sq s) + backlog s)%nat).
Proof.
  intros Hg Hsh Ho Hb. pose proof cooperative_bounded as Hkb. assert (forall s h k b un fl, good k s b un fl h -> tied s h) as Hti
    by (intros ?????? [_ [? _]]; by apply tied_sq).
  unfold pass_submit. eapply run_post_bind_eq; [reflexivity|]. rewrite Ho. cbn [negb].
  apply run_post_bind. eapply run_post_mono.
  { apply run_post_and; [by eapply stage_cancellations_keeps|]. unfold stage_cancellations.
    eapply run_post_bind_eq; [reflexivity|]. apply stage_commands_effect; [done|by eapply Hti]. }
  intros [a1|e|e|e] s1 h1 [Hg1 [Hno He1]]; cbn in *; [|done..].
  destruct He1 as (_ & Eo1 & En1 & Eq1' & Ed1 & Ef1 & Ec1 & Ep1 & Eq1 & Es1 & Eu1).
  apply run_post_bind. eapply run_post_mono.
  { apply run_post_and; [by eapply stage_owned_cancellations_keeps|]. unfold stage_owned_cancellations.
    eapply run_post_bind_eq; [reflexivity|]. apply stage_owned_commands_effect; [done|by eapply Hti]. }
  intros [a2|e|e|e] s2 h2 [Hg2 [Hno2 He2]]; cbn in *; [|done..].
  destruct He2 as (_ & Eo2 & En2 & Eq2' & Ed2 & Ef2 & Ec2 & Ep2 & Eq2 & Es2 & Eu2).
  apply run_post_bind. eapply run_post_mono.
  { apply run_post_and; [by eapply stage_owned_post|]. apply stage_owned_effect. congruence. }
  intros q s3 h3 [(l & -> & Hg3) (_ & -> & E3 & Hw3)]. cbn [then_post app] in *. injection E3 as Eq3 Ef3 Ec3 Ecc3 Eoc3 Esh3 Eu3.
  apply run_post_bind. eapply run_post_mono; [by eapply submit_staged_effect|].
  intros r s4 h4 ([ws ->] & Eq4 & Ecalm4). cbn [then_post]. injection Eq4 as Q1 Q2 Q3 Q4 Q5 Q6 Q7 Q8.
  eapply run_post_bind_eq; [reflexivity|].
  assert (calmer (subs s) (subs s4)) as Hc4 by (rewrite Eu3, Eu2, Eu1 in Ecalm4; exact Ecalm4).
  assert (backlog s4 <= backlog s /\ (sq s = [] -> 0 < backlog s -> backlog s4 < backlog s) /\
    length (flight s) + length (sq s) <= length (flight s4) /\
    length (flight s4) + backlog s4 <= length (flight s) + length (sq s) + backlog s)%nat as Hback.
  { assert (length (flight s4) = length (flight s) + length (sq s2))%nat as Hfl
      by (rewrite Q2, length_app, Ef3, Ef2, Ef1, Eq3; done).
    unfold backlog, waiting in *. rewrite Q4, Q5, Q6, Q7, Ecc3, Eoc3. rewrite Ep2, Eq2, Ep1, Eq1 in Hw3.
    rewrite Eo2, Eo1 in *. split; [lia|]. split; [|lia]. intros E Hpos. rewrite E in En1. cbn in En1. lia. }
  assert (cq s4 = cq s /\ dshutdown (data s4) = true) as [Hcq4 Hsh4] by (split; congruence).
  destruct Hback as (Hb1 & Hb2 & Hb3 & Hb4).
  destruct (_ && _ && _); [|apply run_post_ret; split; [by eexists|]; by split_and!].
  match goal with |- context [wake_admissions ?ids ?m] => pose proof (wake_admissions_calmer ids m) as Hwc;
    destruct (wake_admissions ids m) as [m' ws'] end. eapply run_post_bind_eq; [reflexivity|].
  apply run_post_ret. split; [by eexists|]. cbn. split_and!; try done. by etransitivity.
Qed.
End Pass.

Section Rest.
Context `{U : Uring} {T : Type}.
Notation ring := (Ring T).

Lemma gmap_all_empty {A} (m : gmap Z A) : (forall p c, m !! p = Some c -> False) -> m = ∅.
Proof. intros Hm. apply map_empty. intros p. destruct (m !! p) eqn:E; [by exfalso; eapply Hm|done]. Qed.

(** A ring in order with nothing queued, in flight, posted or waiting has no context. *)
Lemma core_at_rest (s : ring) un fl :
  core s [] un fl -> sq s = [] -> flight s = [] -> cq s = [] -> backlog s = 0%nat ->
  contexts (data s) = ∅ /\ owned_contexts (data s) = ∅ /\ owned_cancel_contexts (data s) = ∅ /\ staged (data s) = [].
Proof.
  intros [Hk Hc _ _] E1 E2 E3 E5. set (d := data s) in *.
  unfold backlog, waiting in E5. fold d in E5.
  assert (cancel_queue d = []) as Q1 by (destruct (cancel_queue d); [done|cbn in E5; lia]).
  assert (owned_cancel_queue d = []) as Q2 by (destruct (owned_cancel_queue d); [done|cbn in E5; lia]).
  assert (forall p ph, phase_at d p = Some ph -> ph = CTerminal) as Hterm.
  { intros p ph Hp. pose proof (ki_staged _ _ Hk p) as H1. pose proof (ki_flight _ _ Hk p) as H2. fold d in H1, H2.
    rewrite E1 in H1. rewrite E2, E3 in H2. cbn in H1, H2. symmetry in H1, H2.
    apply in_phase_0 in H1, H2. destruct ph; [congruence..|done]. }
  assert (contexts d = ∅) as Hraw.
  { assert (forall p c, contexts d !! p = Some c -> kind c = Original) as Horig.
    { intros p c Hp. pose proof (Hterm _ _ (phase_at_raw _ _ _ Hp)) as Ht. pose proof (ci_wf _ Hc p c Hp) as Hw.
      unfold context_wf in Hw. destruct (kind c); [done|]. by destruct Hw. }
    apply gmap_all_empty. intros p c Hp. pose proof (ci_pending _ Hc p) as Hpend. fold d in Hpend.
    rewrite Q1 in Hpend. cbn [map occ] in Hpend. rewrite total_zero_intro in Hpend
      by (intros q c' Hq; by apply targets_original; eapply Horig).
    unfold awaits in Hpend. rewrite Hp in Hpend. pose proof (ci_wf _ Hc p c Hp) as Hw. unfold context_wf in Hw.
    rewrite (Horig _ _ Hp) in Hw. destruct Hw as [_ Hw].
    destruct Hw as [Hw1 Hw2]; [by apply (Hterm p), phase_at_raw|].
    unfold awaiting in Hpend. rewrite (Horig _ _ Hp), Hw1, Hw2 in Hpend. done. }
  assert (owned_cancel_contexts d = ∅) as Hcan.
  { apply gmap_all_empty. intros p c Hp. apply (ci_live _ Hc p c Hp).
    destruct (owned_contexts d !! p) eqn:Eo.
    - exfalso. apply elem_of_dom_2 in Hp, Eo. pose proof (ki_owned_cancel _ _ Hk) as Hdis. fold d in Hdis. set_solver.
    - apply (Hterm p). unfold phase_at. by rewrite Hraw, lookup_empty, Eo, Hp. }
  assert (owned_contexts d = ∅) as Hown.
  { apply gmap_all_empty. intros p c Hp. pose proof (ci_owned_pending _ Hc p) as Hpend. fold d in Hpend.
    rewrite Q2, Hcan, total_empty in Hpend. cbn in Hpend. unfold owned_awaits in Hpend. rewrite Hp in Hpend.
    assert (o_phase c = CTerminal) as Ht by (apply (Hterm p); unfold phase_at; by rewrite Hraw, lookup_empty, Hp).
    pose proof (ci_owned_wf _ Hc p c Hp) as [Hw _]. destruct (handler c); [by destruct Hw|].
    destruct Hw as (_ & Hw1 & Hw2). unfold owned_awaiting in Hpend. rewrite Hw1, Hw2 in Hpend. done. }
  split_and!; try done. pose proof (ki_sq _ _ Hk) as Hs. fold d in Hs. rewrite E1 in Hs. by destruct (staged d).
Qed.

End Rest.

(** ** The schedule *)

Section Stop.
Context `{U : Uring, !UringLaws} {T : Type}.
Notation ring := (Ring T).
Notation sys := (RSys T).
Variable new_box : history ucall uresp -> gset Z -> Z.
Variable o : oracle ucall uresp.
Variable supported : Z -> bool.
Variable cfg : IoUringConfig.
Hypothesis Hbox : allocator_fresh new_box.
Hypothesis Hco : cooperative o (entries cfg).
Hypothesis Hentries : 0 < entries cfg.
Hypothesis Hreap : 0 < reap_size cfg.
(** Some terminal CQE. *)
Variable terminal : cqe.
Hypothesis Hterminal : cqe_more terminal = false.
Implicit Types (x y z : sys).

(** The steps of the driver's own task and of the kernel. *)
Inductive moves : sys -> sys -> Prop :=
| move_pass x :
    loop x = Looping -> failing x = [] -> batch x = [] -> overs x = [] ->
    moves x (exec o (pass_submit new_box supported (Z.to_nat (entries cfg))) x (fun '(failed, _) x => set_failing failed x))
| move_fail x f rest :
    failing x = f :: rest -> moves x (exec o (fail_owned [f]) x (fun _ x => set_failing rest x))
| move_reap x :
    loop x = Looping -> failing x = [] -> batch x = [] -> overs x = [] ->
    moves x (exec o (reap_cqes (Z.to_nat (reap_size cfg))) x (fun '(l, _) x => set_batch l x))
| move_dispatch x c rest :
    batch x = c :: rest ->
    moves x (exec o (dispatch c) x (fun '(_, over) x => set_overs (overs x ++ opt_list over) (set_batch rest x)))
| move_over x id rest :
    batch x = [] -> overs x = id :: rest -> moves x (set_overs rest (exec_ o (request_cancel id Overflow) x))
| move_kernel x c :
    kernel_posts c x -> moves x (set_r (post_cqe c (r x)) (rh x) x).

Lemma move_rstep x y : moves x y -> rstep new_box o supported cfg x y.
Proof. destruct 1; by econstructor. Qed.

Lemma move_loop x y : moves x y -> loop y = loop x.
Proof.
  assert (forall A (m : prog ucall uresp ring A) x k, (forall a z, loop (k a z) = loop z) -> loop (exec o m x k) = loop x) as He.
  { intros A m z k Hk. unfold exec. destruct (m o (r z) (rh z)) as [[[a|e|e|e] s] h]; [by rewrite Hk|done..]. }
  destruct 1; [apply He; intros; by repeat case_match..| |done]. by apply (He _ _ _ (fun _ x => x)).
Qed.

(** A driver whose loop runs and is told to shut down, in good order. *)
Definition running_loop x : Prop := crash x = None /\ loop x = Looping /\ loop_inv x.
Definition closing x : Prop := running_loop x /\ sys_good x /\ dshutdown (data (r x)) = true.

Lemma closing_open x : closing x -> ring_open (r x) = true.
Proof. intros [(_ & E & [Hl _]) _]. by rewrite E in Hl. Qed.

Definition move_live x y : Prop := crash x = None /\ moves x y.

Lemma move_closing x y :
  closing x -> moves x y -> crash y = None -> dshutdown (data (r y)) = true -> closing y.
Proof.
  intros ((Hx & Hl & Hli) & Hg & _) Hd Hy Hs. pose proof (move_rstep x y Hd) as Hst. split; [|split; [|done]].
  { split; [done|]. split; [by rewrite (move_loop x y Hd)|by eapply rstep_loop]. }
  assert (sys_inv y) as Hi.
  { eapply rstep_inv; [done|eapply cooperative_bounded; exact Hco|unfold sys_inv; by rewrite Hx|done..]. }
  unfold sys_inv in Hi. by rewrite Hy in Hi.
Qed.

(** A section that ends is a step to another such state. *)
Lemma section_step {A} (m : prog ucall uresp ring A) x k (Q : A -> ring -> Prop) :
  closing x -> moves x (exec o m x k) ->
  run_post m o (r x) (rh x) (fun r s _ => exists a, r = Done a /\ Q a s) ->
  (forall a s h, Q a s -> crash (k a (set_r s h x)) = crash x /\ dshutdown (data (r (k a (set_r s h x)))) = true) ->
  exists a s h, moves x (k a (set_r s h x)) /\ closing (k a (set_r s h x)) /\ Q a s.
Proof.
  intros Hc Hd Hrun Hk. revert Hrun Hd. unfold run_post, exec, outcome_of, state_of.
  destruct (m o (r x) (rh x)) as [[? s] h]. cbn. intros (a & -> & HQ) Hd. exists a, s, h.
  destruct (Hk a s h HQ) as [Hx Hs]. split; [done|]. split; [|done].
  eapply move_closing; [exact Hc|exact Hd|by rewrite Hx; apply Hc|done].
Qed.

Lemma tame_done {A} (m : prog ucall uresp ring A) b un fl k s h :
  run_post m o s h (keeps k b un fl) -> run_post m o s h (tame s) ->
  run_post m o s h (fun r s' _ => exists a, r = Done a /\ queues s' = queues s /\ calmer (subs s) (subs s')).
Proof.
  intros Hk Ht. eapply run_post_mono; [apply run_post_and; [exact Hk|exact Ht]|].
  intros [a|e|e|e] s' h' [Hk' (Hn & Q & C)]; cbn in *; [by exists a|done..].
Qed.

(** What each kind of step can be used for. *)
Definition on_queues x y : Prop := queues (r y) = queues (r x) /\ calmer (subs (r x)) (subs (r y)).

Lemma step_fail x f rest :
  closing x -> failing x = f :: rest ->
  exists y, moves x y /\ closing y /\ on_queues x y /\ failing y = rest /\ batch y = batch x /\ overs y = overs x.
Proof.
  intros Hc Hf. pose proof Hc as (Hx & Hg & Hs). destruct f as [hd f]. unfold sys_good in Hg. rewrite Hf in Hg. cbn in Hg.
  destruct (section_step _ _ _ (fun _ s' => queues s' = queues (r x) /\ calmer (subs (r x)) (subs s'))
    Hc (move_fail x _ _ Hf)) as (a & s & h & Hd & Hy & Q & C).
  - apply (tame_done _ (batch x) (unqueued x) (map fst rest) (registered x)); [by apply fail_owned_keeps|apply fail_owned_tame].
  - intros a s h [Q _]. split; [done|]. cbn. by injection Q as _ _ _ _ _ _ _ ->.
  - eexists. by split_and!.
Qed.

Lemma step_dispatch x c rest :
  closing x -> batch x = c :: rest ->
  exists y, moves x y /\ closing y /\ on_queues x y /\ failing y = failing x /\ batch y = rest /\
    (overs y = overs x \/ exists id, overs y = overs x ++ [id] /\ is_open (subs (r x)) id /\ ~ is_open (subs (r y)) id).
Proof.
  intros Hc Hb. pose proof Hc as (Hx & Hg & Hs). unfold sys_good in Hg. rewrite Hb in Hg.
  destruct (section_step _ _ _ (fun a s' => queues s' = queues (r x) /\ calmer (subs (r x)) (subs s') /\
    match a with (_, Some id) => is_open (subs (r x)) id /\ ~ is_open (subs s') id | _ => True end)
    Hc (move_dispatch x _ _ Hb)) as ([ws over] & s & h & Hd & Hy & Q & C & Hov).
  - assert (run_post (dispatch c) o (r x) (rh x) (keeps (registered x) rest (unqueued x) (map fst (failing x)))) as Hkeep
      by (eapply dispatch_keeps; [exact Hbox|eapply cooperative_bounded; exact Hco|exact Hg]).
    eapply run_post_mono; [apply run_post_and; [exact Hkeep|apply dispatch_tame]|].
    intros [[ws over]|e|e|e] s' h' [Hk ((Hn & Q & C) & Ho)]; cbn in *; [by eexists|done..].
  - intros [ws over] s h [Q _]. split; [done|]. cbn. by injection Q as _ _ _ _ _ _ _ ->.
  - eexists. do 5 (split; [done|]). destruct over as [id|]; [right; by exists id|left; apply app_nil_r].
Qed.

Lemma step_over x id rest :
  closing x -> batch x = [] -> overs x = id :: rest ->
  exists y, moves x y /\ closing y /\ failing y = failing x /\ batch y = [] /\ overs y = rest /\
    calmer (subs (r x)) (subs (r y)) /\ cq (r y) = cq (r x) /\ sq (r y) = sq (r x) /\ flight (r y) = flight (r x) /\
    (contexts (data (r x)) = ∅ -> backlog (r y) = backlog (r x)).
Proof.
  intros Hc Hb Ho. pose proof (move_over x id rest Hb Ho) as Hd. unfold exec_ in Hd.
  pose proof (request_cancel_queues o id Overflow (r x) (rh x) ltac:(done)) as Hrun.
  revert Hrun Hd. unfold run_post, exec, outcome_of, state_of.
  destruct (request_cancel id Overflow o (r x) (rh x)) as [[? s] h]. cbn. intros ([a ->] & (q & Q & Hq) & C) Hd.
  injection Q as Q1 Q2 Q3 Q4 Q5 Q6 Q7 Q8. eexists. split; [exact Hd|]. split.
  - eapply move_closing; [exact Hc|exact Hd|apply Hc|cbn; rewrite Q8; apply Hc].
  - split_and!; try done. intros E. unfold backlog, waiting. cbn. rewrite Q4, Q5, Q6, Q7, (Hq E), app_nil_r. done.
Qed.

Lemma step_pass x :
  closing x -> failing x = [] -> batch x = [] -> overs x = [] ->
  exists y, moves x y /\ closing y /\ batch y = [] /\ overs y = [] /\ calmer (subs (r x)) (subs (r y)) /\
    sq (r y) = [] /\ cq (r y) = cq (r x) /\ (backlog (r y) <= backlog (r x))%nat /\
    (sq (r x) = [] -> 0 < backlog (r x) -> backlog (r y) < backlog (r x))%nat.
Proof.
  intros Hc Hf Hb Ho. pose proof Hc as (Hx & Hg & Hs). unfold sys_good in Hg. rewrite Hb, Hf in Hg. cbn in Hg.
  destruct (section_step _ _ _ (fun _ s' => sq s' = [] /\ cq s' = cq (r x) /\ dshutdown (data s') = true /\
      calmer (subs (r x)) (subs s') /\ (backlog s' <= backlog (r x))%nat /\
      (sq (r x) = [] -> 0 < backlog (r x) -> backlog s' < backlog (r x))%nat)
    Hc (move_pass x (proj1 (proj2 Hx)) Hf Hb Ho)) as ([failed ws] & s & h & Hd & Hy & E1 & E2 & E3 & E4 & E5 & E6).
  - eapply run_post_mono; [eapply pass_effect; try done; [by apply closing_open|lia]|]. intros r s' h' ([a ->] & He). exists a. tauto.
  - intros [failed ws] s h (_ & _ & E & _). by split.
  - eexists. by split_and!.
Qed.

(** ** The phases *)

Definition drives : sys -> sys -> Prop := rtc move_live.

Lemma drives_step x y z : closing x -> moves x y -> drives y z -> drives x z.
Proof. intros ((Hx & _) & _) Hd Hr. by eapply rtc_l. Qed.

(** The handlers that must fail are failed. *)
Lemma drain_failing x :
  closing x -> exists y, drives x y /\ closing y /\ on_queues x y /\ failing y = [] /\ batch y = batch x /\ overs y = overs x.
Proof.
  remember (failing x) as l eqn:Hl. revert x Hl. induction l as [|f l IH]; intros x Hl Hc.
  { exists x. split_and!; done || apply rtc_refl. }
  destruct (step_fail x f l Hc) as (y & Hd & Hy & [Q C] & Hf & Hb & Ho); [done|].
  destruct (IH y) as (z & Hdz & Hz & [Qz Cz] & Hfz & Hbz & Hoz); [done..|].
  exists z. split; [by eapply drives_step|]. split; [done|]. split; [split; [congruence|by etransitivity]|].
  split_and!; congruence.
Qed.

Lemma on_queues_trans x y z : on_queues x y -> on_queues y z -> on_queues x z.
Proof. intros [Q C] [Q' C']. split; [congruence|by etransitivity]. Qed.

(** The batch at hand is dispatched; whatever overflows was open before. *)
Lemma drain_batch x :
  closing x -> exists y, drives x y /\ closing y /\ on_queues x y /\ failing y = failing x /\ batch y = [] /\
    (overs y = overs x \/ exists id, is_open (subs (r x)) id /\ ~ is_open (subs (r y)) id).
Proof.
  remember (batch x) as l eqn:Hl. revert x Hl. induction l as [|c l IH]; intros x Hl Hc.
  { exists x. split_and!; first [done|by left]. }
  destruct (step_dispatch x c l Hc) as (y & Hd & Hy & Qy & Hf & Hb & Ho); [done|].
  destruct (IH y) as (z & Hdz & Hz & Qz & Hfz & Hbz & Hoz); [done..|].
  exists z. split; [by eapply drives_step|]. split; [done|]. split; [by eapply on_queues_trans|].
  split; [congruence|]. split; [done|]. destruct Qy as [_ Cy], Qz as [_ Cz].
  destruct Ho as [Ho|(id & _ & H1 & H2)]; [|right; exists id; split; [done|]; intros H3; by apply H2, Cz].
  destruct Hoz as [Hoz|(id & H1 & H2)]; [left; congruence|right; exists id; split; [by apply Cy|done]].
Qed.

(** With nothing queued, in flight, posted or waiting, no context is left. *)
Definition at_rest x : Prop :=
  sq (r x) = [] /\ flight (r x) = [] /\ cq (r x) = [] /\ batch x = [] /\ backlog (r x) = 0%nat.

Lemma at_rest_empty x :
  closing x -> at_rest x ->
  contexts (data (r x)) = ∅ /\ owned_contexts (data (r x)) = ∅ /\ owned_cancel_contexts (data (r x)) = ∅ /\
  staged (data (r x)) = [].
Proof.
  intros (_ & [Hc _] & _) (E1 & E2 & E3 & E4 & E5). rewrite E4 in Hc. by eapply core_at_rest.
Qed.

(** The task is between two passes. *)
Definition idle x : Prop := failing x = [] /\ batch x = [] /\ overs x = [].

(** The overflowed submissions are cancelled, which adds nothing when all is at rest. *)
Lemma drain_overs x :
  closing x -> failing x = [] -> batch x = [] ->
  exists y, drives x y /\ closing y /\ idle y /\ calmer (subs (r x)) (subs (r y)) /\ (at_rest x -> at_rest y).
Proof.
  remember (overs x) as l eqn:Hl. revert x Hl. induction l as [|id l IH]; intros x Hl Hc Hf Hb.
  { exists x. by split_and!. }
  destruct (step_over x id l Hc Hb) as (y & Hd & Hy & Hfy & Hby & Hoy & Cy & Ecq & Esq & Efl & Hback); [done|].
  destruct (IH y) as (z & Hdz & Hz & Hi & Cz & Hrest); [done|done|congruence|done|].
  exists z. split; [by eapply drives_step|]. split; [done|]. split; [done|]. split; [by etransitivity|].
  intros Hx. apply Hrest. destruct (at_rest_empty x Hc Hx) as (He & _). destruct Hx as (E1 & E2 & E3 & _ & E5).
  unfold at_rest. rewrite Esq, Efl, Ecq, (Hback He). by split_and!.
Qed.

(** A pass and its failures. *)
Lemma one_pass x :
  closing x -> idle x ->
  exists y, drives x y /\ closing y /\ idle y /\ calmer (subs (r x)) (subs (r y)) /\ sq (r y) = [] /\
    (backlog (r y) <= backlog (r x))%nat /\ (sq (r x) = [] -> 0 < backlog (r x) -> backlog (r y) < backlog (r x))%nat.
Proof.
  intros Hc (Hf & Hb & Ho). destruct (step_pass x Hc Hf Hb Ho) as (y & Hd & Hy & Hby & Hoy & Cy & Esq & _ & L1 & L2).
  destruct (drain_failing y Hy) as (z & Hdz & Hz & [Qz Cz] & Hfz & Hbz & Hoz). injection Qz as Q1 Q2 Q3 Q4 Q5 Q6 Q7 Q8.
  assert (backlog (r z) = backlog (r y)) as Eb by (unfold backlog, waiting; congruence).
  exists z. split; [by eapply drives_step|]. split; [done|]. split; [split_and!; congruence|].
  split; [by etransitivity|]. rewrite Eb. split; [congruence|]. by split.
Qed.

(** Passes until nothing waits for one. *)
Lemma passes x :
  closing x -> idle x ->
  exists y, drives x y /\ closing y /\ idle y /\ calmer (subs (r x)) (subs (r y)) /\ sq (r y) = [] /\ backlog (r y) = 0%nat.
Proof.
  intros Hc Hi. destruct (one_pass x Hc Hi) as (y & Hd & Hy & Hiy & Cy & Esq & _).
  enough (exists z, drives y z /\ closing z /\ idle z /\ calmer (subs (r y)) (subs (r z)) /\ sq (r z) = [] /\ backlog (r z) = 0%nat)
    as (z & Hdz & Hz & Hiz & Cz & Hrest).
  { exists z. split; [by etransitivity|]. split; [done|]. split; [done|]. split; [by etransitivity|done]. }
  clear x Hc Hi Hd Cy. remember (backlog (r y)) as n eqn:Hn. revert y Hn Hy Hiy Esq.
  induction (lt_wf n) as [n _ IH]. intros y Hn Hy Hiy Esq. destruct n as [|n]; [exists y; by split_and!|].
  destruct (one_pass y Hy Hiy) as (z & Hdz & Hz & Hiz & Cz & Esqz & _ & Hlt). specialize (Hlt Esq ltac:(lia)).
  destruct (IH (backlog (r z)) ltac:(lia) z eq_refl Hz Hiz Esqz) as (w & Hdw & Hw & Hiw & Cw & Hrest).
  exists w. split; [by etransitivity|]. split; [done|]. split; [done|]. split; [by etransitivity|done].
Qed.

(** The kernel posts a terminal CQE for everything in flight. *)
Lemma posts x :
  closing x -> idle x -> sq (r x) = [] -> backlog (r x) = 0%nat ->
  exists y, drives x y /\ closing y /\ idle y /\ calmer (subs (r x)) (subs (r y)) /\ sq (r y) = [] /\
    backlog (r y) = 0%nat /\ flight (r y) = [].
Proof.
  remember (flight (r x)) as l eqn:Hl. revert x Hl. induction l as [|p l IH]; intros x Hl Hc Hi Hs Hb.
  { exists x. by split_and!. }
  set (c := cqe_set_user_data p terminal).
  assert (kernel_posts c x) as Hp.
  { split; [unfold c; rewrite cqe_set_get, <- Hl; left|]. unfold c. by rewrite cqe_set_more, Hterminal. }
  pose proof (move_kernel x c Hp) as Hd. set (y := set_r (post_cqe c (r x)) (rh x) x) in *.
  assert (closing y) as Hy by (eapply move_closing; [exact Hc|exact Hd|apply Hc..]).
  destruct (IH y) as (z & Hdz & Hz & Hiz & Cz & Hrest); [|done..|].
  - unfold y, post_cqe, c. cbn. rewrite cqe_set_more, Hterminal, cqe_set_get, <- Hl. cbn. by rewrite decide_True.
  - exists z. split; [by eapply drives_step|]. do 3 (split; [done|]). exact Hrest.
Qed.

(** Some submission that was open no longer is. *)
Definition closed_one x y : Prop := exists id, is_open (subs (r x)) id /\ ~ is_open (subs (r y)) id.

Lemma closed_one_before x y z : calmer (subs (r x)) (subs (r y)) -> closed_one y z -> closed_one x z.
Proof. intros C (id & H1 & H2). exists id. auto. Qed.

Lemma closed_one_after x y z : closed_one x y -> calmer (subs (r y)) (subs (r z)) -> closed_one x z.
Proof. intros (id & H1 & H2) C. exists id. auto. Qed.

(** Everything posted is reaped and dispatched, unless a submission overflows. *)
Lemma reaps x :
  closing x -> idle x -> sq (r x) = [] -> backlog (r x) = 0%nat -> flight (r x) = [] ->
  exists y, drives x y /\ closing y /\ idle y /\ calmer (subs (r x)) (subs (r y)) /\ (closed_one x y \/ at_rest y).
Proof.
  remember (length (cq (r x))) as n eqn:Hn. revert x Hn. induction (lt_wf n) as [n _ IH]. intros x Hn Hc Hi Hs Hb Hf.
  destruct (decide (cq (r x) = [])) as [E|E].
  { exists x. split; [done|]. split; [done|]. split; [done|]. split; [done|]. right. destruct Hi as (_ & ? & _). by split_and!. }
  destruct Hi as (Hfx & Hbx & Hox). set (k := Z.to_nat (reap_size cfg)).
  pose proof (move_reap x (proj1 (proj2 (proj1 Hc))) Hfx Hbx Hox) as Hd.
  set (y := set_batch (take k (cq (r x))) (set_r (set_cq (drop k (cq (r x))) (r x)) (rh x) x)).
  pose proof (closing_open x Hc) as Hopen. unfold exec, reap_cqes, mbind, prog_mbind, prog_bind, get in Hd.
  rewrite Hopen in Hd. change (moves x y) in Hd. assert (closing y) as Hy by (eapply move_closing; [exact Hc|exact Hd|apply Hc..]).
  destruct (drain_batch y Hy) as (z & Hdz & Hz & [Qz Cz] & Hfz & Hbz & Hoz).
  change (failing z = failing x) in Hfz. rewrite Hfx in Hfz.
  destruct (drain_overs z Hz) as (w & Hdw & Hw & Hiw & Cw & _); [done..|].
  assert (calmer (subs (r x)) (subs (r z))) as Cxz by exact Cz.
  destruct Hoz as [Hoz|Hclosed].
  2: { exists w. split; [eapply drives_step; [exact Hc|exact Hd|by etransitivity]|]. split; [done|]. split; [done|].
       split; [by etransitivity|]. left. by apply (closed_one_after x z). }
  injection Qz as Q1 Q2 Q3 Q4 Q5 Q6 Q7 Q8. cbn in Q1, Q2, Q3, Q4, Q5, Q6, Q7.
  destruct (IH (length (cq (r z)))) with (x := z) as (v & Hdv & Hv & Hiv & Cv & Hend); try done.
  - rewrite Q3, length_drop, Hn. destruct (cq (r x)); [done|]. cbn. lia.
  - split_and!; [done|done|]. rewrite Hoz. exact Hox.
  - congruence.
  - unfold backlog, waiting in *. by rewrite Q4, Q5, Q6, Q7.
  - congruence.
  - exists v. split; [eapply drives_step; [exact Hc|exact Hd|by etransitivity]|]. split; [done|]. split; [done|].
    split; [by etransitivity|]. destruct Hend as [Hend|Hend]; [left|by right]. by apply (closed_one_before _ z).
Qed.

Definition opens (m : gmap SubId SubmissionInner) : gset SubId := dom (filter (fun p => delivery p.2 = Open) m).

Lemma elem_of_opens m id : id ∈ opens m <-> is_open m id.
Proof.
  unfold opens, is_open. rewrite elem_of_dom. split.
  - intros [u [Hu Ho]%map_lookup_filter_Some]. by exists u.
  - intros (u & Hu & Ho). exists u. by apply map_lookup_filter_Some.
Qed.

(** Round after round, until all is at rest. *)
Lemma reaches_rest x : closing x -> idle x -> exists y, drives x y /\ closing y /\ idle y /\ at_rest y.
Proof.
  remember (opens (subs (r x))) as os eqn:Hos. revert x Hos. induction (set_wf os) as [os _ IH]. intros x Hos Hc Hi.
  destruct (passes x Hc Hi) as (y & Hdy & Hy & Hiy & Cy & Sy & By).
  destruct (posts y Hy Hiy Sy By) as (z & Hdz & Hz & Hiz & Cz & Sz & Bz & Fz).
  destruct (reaps z Hz Hiz Sz Bz Fz) as (w & Hdw & Hw & Hiw & Cw & Hend).
  assert (drives x w) as Hxw by (by etransitivity; [|etransitivity]).
  destruct Hend as [Hclosed|Hrest]; [|by exists w].
  assert (calmer (subs (r x)) (subs (r z))) as Cxz by (by etransitivity).
  destruct (IH (opens (subs (r w)))) with (x := w) as (v & Hv & Hrest); [|done..|].
  - apply (closed_one_before x) in Hclosed as (id & H1 & H2); [|done]. subst os. split.
    + intros i. rewrite !elem_of_opens. intros Hi'. by apply Cxz, Cw.
    + intros Hsub. apply H2. apply elem_of_opens, Hsub, elem_of_opens. done.
  - exists v. split; [by etransitivity|done].
Qed.

Lemma becomes_idle x : closing x -> exists y, drives x y /\ closing y /\ idle y.
Proof.
  intros Hc. destruct (drain_failing x Hc) as (y & Hdy & Hy & _ & Hfy & _ & _).
  destruct (drain_batch y Hy) as (z & Hdz & Hz & _ & Hfz & Hbz & _).
  destruct (drain_overs z Hz) as (w & Hdw & Hw & Hiw & _); [congruence|done|].
  exists w. split; [by etransitivity; [|etransitivity]|by split].
Qed.

Lemma rest_drained x : closing x -> idle x -> at_rest x ->
  (forall id u, subs (r x) !! id = Some u -> drained u = true) /\
  (forall ctl c, controls (r x) !! ctl = Some c -> ctl ∉ unqueued x -> op_completed c = true).
Proof.
  clear Hterminal Hreap Hentries Hco Hbox terminal cfg supported o new_box.
  intros Hc Hi Hr. destruct (at_rest_empty x Hc Hr) as (E1 & E2 & _ & _).
  destruct Hc as (_ & [[_ _ Hn Hh] _] & _), Hi as (Hf & _ & _), Hr as (_ & _ & _ & _ & Hb). unfold backlog, waiting in Hb. split.
  - intros id u Hu. destruct (ni_counted _ Hn id u Hu) as (C1 & _ & C3). rewrite E1, total_empty in *.
    destruct (cancel_queue (data (r x))); [|cbn in Hb; lia]. cbn in *. unfold drained.
    apply andb_true_iff. split; apply Z.eqb_eq; lia.
  - intros ctl c Hctl Hq. specialize (Hh ctl). rewrite Hf, E2, total_empty, bool_decide_false in Hh by done.
    destruct (owned_queue (r x)); [|cbn in Hb; lia]. destruct (owned_pending (data (r x))); [|cbn in Hb; lia].
    unfold open_op in Hh. rewrite Hctl in Hh. destruct (op_completed c); [done|]. cbn in Hh. by rewrite handlers_in_nil in Hh.
Qed.

(** At rest the driver decides to stop. *)
Lemma rest_decides x more : closing x -> at_rest x ->
  decide_run (data (r x)) more (is_empty (owned_queue (r x))) = DStop.
Proof.
  clear Hterminal Hreap Hentries Hco Hbox terminal cfg supported o new_box.
  intros Hc Hrest. destruct (at_rest_empty x Hc Hrest) as (E1 & E2 & E3 & E4).
  destruct Hc as (_ & _ & Hs), Hrest as (_ & _ & _ & _ & Hb). unfold decide_run, active. rewrite Hs, E1, E2, E3, E4.
  unfold backlog, waiting in Hb. destruct (cancel_queue _); [|cbn in Hb; lia].
  destruct (owned_cancel_queue _); [|cbn in Hb; lia]. destruct (owned_pending _); [|cbn in Hb; lia].
  destruct (owned_queue _); [|cbn in Hb; lia]. by rewrite !bool_decide_true.
Qed.

(** A shutdown can always finish.  From every reachable state of a driver whose loop
    runs and that was told to shut down, whatever is queued, staged, in flight, posted or half dispatched,
    the driver's task and the kernel alone have a finite schedule, in which no future
    takes part and nothing aborts, to a state in which the driver decides to stop: no
    entry is in flight and no CQE unread, every submission is drained, and every
    operation that was enqueued is completed.  The kernel has to take the entries it is
    offered and to complete each of them once. *)
Theorem shutdown_can_finish x
    (Hr : reachable sys_init (sys_step new_box o supported cfg) x) (Hx : crash x = None)
    (Hl : loop x = Looping) (Hs : dshutdown (data (r x)) = true) :
  exists y, drives x y /\ crash y = None /\ batch y = [] /\ flight (r y) = [] /\ cq (r y) = [] /\
    (forall id u, subs (r y) !! id = Some u -> drained u = true) /\
    (forall ctl c, controls (r y) !! ctl = Some c -> ctl ∉ unqueued y -> op_completed c = true) /\
    forall more, decide_run (data (r y)) more (is_empty (owned_queue (r y))) = DStop.
Proof.
  assert (closing x) as Hc.
  { split; [split; [done|]; split; [done|]|split; [|done]].
    - eapply reach_loop; [exact Hbox|eapply cooperative_bounded; exact Hco|exact Hr].
    - eapply reach_good; [exact Hbox|eapply cooperative_bounded; exact Hco|exact Hr|done]. }
  destruct (becomes_idle x Hc) as (y & Hdy & Hy & Hiy). destruct (reaches_rest y Hy Hiy) as (z & Hdz & Hz & Hiz & Hrest).
  destruct (rest_drained z Hz Hiz Hrest) as [Hdr Hop]. exists z. split; [by etransitivity|].
  split; [apply Hz|]. split; [apply Hrest|]. split; [apply Hrest|]. split; [apply Hrest|]. do 2 (split; [done|]).
  intros more. by apply rest_decides.
Qed.
End Stop.

(** ** A run *)

Module StopRun.
Import Sample.

(** Two entries are in flight when the driver is told to shut down. *)
Definition busy : sys := exec_ kernel shutdown_section admitted.

Lemma busy_reached : step_reached busy.
Proof.
  apply (reach_step _ _ admitted); [apply admitted_reached|]. split; [by vm_compute|].
  apply (rs_shutdown new_box kernel all_supported config_default admitted).
Qed.

Lemma kernel_cooperates depth : cooperative kernel depth.
Proof. by split. Qed.

Lemma shutdown_can_finish_witness :
  flight (r busy) = [1; 2] /\
  exists y : sys, flight (r y) = [] /\ cq (r y) = [] /\ decide_run (data (r y)) false (is_empty (owned_queue (r y))) = DStop.
Proof.
  split; [by vm_compute|]. assert (crash busy = None) as Hx by (by vm_compute).
  assert (dshutdown (data (r busy)) = true) as Hs by (by vm_compute).
  assert (0 < entries config_default) as H1 by (by vm_compute).
  assert (0 < reap_size config_default) as H2 by (by vm_compute).
  destruct (shutdown_can_finish new_box kernel all_supported config_default new_box_fresh (kernel_cooperates _) H1 H2
    (0, false, 0) eq_refl busy busy_reached Hx eq_refl Hs) as (y & _ & _ & _ & Hf & Hc & _ & _ & Hd).
  exists y. exact (conj Hf (conj Hc (Hd false))).
Defined.
End StopRun.
