(* ===== verification/RingClient.v ===== *)
(** * RingClient: what holding a submission's capability means ([src/src/io_uring.rs])

    A submission is in the hands of one capability at a time: [SubmitEntries], then
    [CompletionStream], or the [Cancellation] of a [SubmissionError]; then
    [Cancellation].  The types allow less than the step relation of [RingSys]: here the
    clients follow them, and the file shows the safety contract that [submit_entries]
    documents for its callers, and where the code does not keep it. *)

From Stdlib Require Import ZArith Lia.
From stdpp Require Import base gmap sets list strings.
From S2P Require Import Prelude Errors Ffi Ring RingOps RingFutures RingInv RingPrim RingCount RingStep RingSect RingDrive RingSys RingSpec RingStop.

Open Scope Z_scope.

(** ** The capabilities *)

Section Capabilities.
Context `{U : Uring} {T : Type}.
Notation uprog := (prog ucall uresp).
Notation ring := (Ring T).
Variable new_box : history ucall uresp -> gset Z -> Z.

Record CompletionStream : Type := mkStream { st_state : SubId; st_active : bool }.
Record Cancellation : Type := mkCancellation { ca_state : SubId; ca_active : bool }.
Record SubmissionError : Type := mkSubmissionError {
  se_kind : SubmissionErrorKind;
  into_cancellation : Cancellation
}.

(** The typed result of a poll of [SubmitEntries], with the wakers of its admission. *)
Definition submit_output (id : SubId) (q : result SubmissionErrorKind unit)
    : result SubmissionError CompletionStream :=
  match q with
  | Ok _ => Ok (mkStream id true)
  | Err k => Err (mkSubmissionError k (mkCancellation id true))
  end.

Definition submit_poll_typed (cx : Waker) (se : SubmitEntries)
    : uprog ring (option (result SubmissionError CompletionStream) * SubmitEntries * list Waker) :=
  '(q, se', ws) ← submit_poll new_box cx se;
  mret (submit_output (se_state se') <$> q, se', ws).

(** [CompletionStream::next], [cancel] and its drop. *)
Definition stream_next (cx : Waker) (st : CompletionStream) : uprog ring (option (option (result CompletionError Completion))) :=
  next_completion (st_state st) cx.

Definition cancellation_new (id : SubId) : Cancellation := mkCancellation id true.

Definition stream_into_cancellation (st : CompletionStream) : uprog ring Cancellation :=
  _ ← stream_cancel (st_state st);
  mret (cancellation_new (st_state st)).

Definition stream_dropped (st : CompletionStream) : uprog ring unit := stream_drop (st_state st) (st_active st).

(** [Cancellation::next], [wait_drained] and its drop. *)
Definition cancellation_next (cx : Waker) (ca : Cancellation) : uprog ring (option (option (result CompletionError Completion))) :=
  next_cancellation (ca_state ca) cx.
Definition cancellation_wait_drained (cx : Waker) (ca : Cancellation) : uprog ring bool := wait_drained (ca_state ca) cx.
Definition cancellation_dropped (ca : Cancellation) : uprog ring unit := cancellation_drop (ca_state ca) (ca_active ca).
End Capabilities.

Definition display_submission (e : SubmissionError) : string := display_submission_error (se_kind e).

(** ** Clients that hold one capability per submission *)

(** What the client of a submission holds.  A stream remembers whether one of its
    [next] reported an error; [CapClosing] is a call of [request_cancel] under way. *)
Inductive Cap : Type :=
| CapSubmit (closed : bool)
| CapStream (saw_error : bool)
| CapClosing
| CapCancel.

Section Clients.
Context `{U : Uring, !UringLaws} {T : Type}.
Notation ring := (Ring T).
Notation sys := (RSys T).
Notation uprog := (prog ucall uresp).
Notation uhist := (history ucall uresp).
Variable new_box : uhist -> gset Z -> Z.
Variable o : oracle ucall uresp.
Variable supported : Z -> bool.
Variable cfg : IoUringConfig.
Implicit Types (x y : sys) (s : ring) (id : SubId) (u : SubmissionInner).

(** The steps that are no client's of a submission: owned operations, the owner, the
    driver's task and the kernel. *)
Inductive inner_step : sys -> sys -> Prop :=
| is_owned_new x ctl hd :
    controls (r x) !! ctl = None ->
    inner_step x (exec o (owned_new ctl hd) x (fun _ x => set_unqueued (unqueued x ∪ {[ ctl ]}) x))
| is_owned_submit x open op hd :
    oo_queued op = false -> oo_handler op = Some hd -> h_control hd ∈ unqueued x ->
    inner_step x (exec o (owned_submit open op) x (fun _ x => set_unqueued (unqueued x ∖ {[ h_control hd ]}) x))
| is_owned_register x cx op : inner_step x (exec_ o (owned_register cx op) x)
| is_owned_take x op c v :
    controls (r x) !! oo_control op = Some c -> op_completed c = false \/ op_result c = Some v ->
    inner_step x (exec_ o (owned_take op) x)
| is_owned_flag x ctl :
    inner_step x (exec_ o (modify (fun s => set_controls (alter (fun c =>
      mkControl true (op_completed c) (op_waker c) (op_result c)) ctl (controls s)) s)) x)
| is_owned_cancel x ctl : inner_step x (exec_ o (request_owned_cancel ctl) x)
| is_close_owned x : inner_step x (exec_ o (modify (set_owned_admission false)) x)
| is_shutdown x : inner_step x (exec_ o shutdown_section x)
| is_shutdown_close x id :
    dshutdown (data (r x)) = true -> id ∈ registered x -> inner_step x (exec_ o (close_delivery id Detached) x)
| is_queue x id : id ∈ registered x -> inner_step x (exec_ o (queue_cancels id) x)
| is_pass x :
    loop x = Looping -> failing x = [] -> batch x = [] -> overs x = [] ->
    inner_step x (exec o (pass_submit new_box supported (Z.to_nat (entries cfg))) x
               (fun '(failed, _) x => set_failing failed x))
| is_fail x f rest :
    failing x = f :: rest -> inner_step x (exec o (fail_owned [f]) x (fun _ x => set_failing rest x))
| is_reap x :
    loop x = Looping -> failing x = [] -> batch x = [] -> overs x = [] ->
    inner_step x (exec o (reap_cqes (Z.to_nat (reap_size cfg))) x (fun '(l, _) x => set_batch l x))
| is_dispatch x c rest :
    batch x = c :: rest ->
    inner_step x (exec o (dispatch c) x (fun '(_, over) x => set_overs (overs x ++ opt_list over) (set_batch rest x)))
| is_over x id rest :
    batch x = [] -> overs x = id :: rest -> inner_step x (set_overs rest (exec_ o (request_cancel id Overflow) x))
| is_decide x backlog :
    loop x = Looping -> failing x = [] -> batch x = [] -> overs x = [] ->
    decide_run (data (r x)) backlog (is_empty (owned_queue (r x))) = DStop -> inner_step x (set_loop Stopping x)
| is_take x : loop x = Stopping -> inner_step x (exec o take_ring x (fun _ x => set_loop Stopped x))
| is_kernel x c : kernel_posts c x -> inner_step x (set_r (post_cqe c (r x)) (rh x) x).

Lemma inner_rstep x y : inner_step x y -> rstep new_box o supported cfg x y.
Proof. destruct 1; (eapply rs_decide || econstructor); done. Qed.

(** The system, and the capability held of each submission. *)
Record CSys : Type := mkCSys { csys : sys; caps : gmap SubId Cap }.

Definition checked (q : option (result SubmissionErrorKind unit)) (id : SubId) (m : gmap SubId Cap) : gmap SubId Cap :=
  match q with
  | None => m
  | Some (Ok _) => <[ id := CapStream false ]> m
  | Some (Err _) => <[ id := CapClosing ]> m
  end.

Definition stepped (q : option (option (result CompletionError Completion))) (id : SubId) (m : gmap SubId Cap) : gmap SubId Cap :=
  match q with Some (Some (Err _)) => <[ id := CapStream true ]> m | _ => m end.

(** Runs a section of a client; [k] is its capability afterwards. *)
Definition cexec {A} (m : uprog ring A) (v : CSys) (k : A -> gmap SubId Cap -> gmap SubId Cap) : CSys :=
  match m o (r (csys v)) (rh (csys v)) with
  | (Done a, s, h) => mkCSys (set_r s h (csys v)) (k a (caps v))
  | _ => mkCSys (exec_ o m (csys v)) (caps v)
  end.

Inductive cstep : CSys -> CSys -> Prop :=
| cs_inner v y : inner_step (csys v) y -> cstep v (mkCSys y (caps v))
(* [SubmitEntries] *)
| cs_submit v id closed es :
    id ∉ registered (csys v) ->
    cstep v (cexec (submit_entries (max_buffered_completions cfg) id closed es) v (fun _ => insert id (CapSubmit closed)))
| cs_admit v id a :
    caps v !! id = Some (CapSubmit false) -> cstep v (cexec (driver_admit new_box id a) v (fun _ m => m))
| cs_check v id closed a cx :
    caps v !! id = Some (CapSubmit closed) ->
    cstep v (cexec (submit_check cx (mkSubmit a id closed false)) v (fun q => checked q id))
(* [CompletionStream] *)
| cs_next v id saw cx :
    caps v !! id = Some (CapStream saw) -> cstep v (cexec (next_completion id cx) v (fun q => stepped q id))
| cs_cancel v id saw :
    caps v !! id = Some (CapStream saw) -> cstep v (mkCSys (csys v) (<[ id := CapClosing ]> (caps v)))
(* [request_cancel] by the client, whose [queue_cancels] may come later *)
| cs_close v id :
    caps v !! id = Some CapClosing -> cstep v (cexec (close_delivery id Cancelling) v (fun _ => insert id CapCancel))
(* [Cancellation] *)
| cs_next_cancel v id cx :
    caps v !! id = Some CapCancel -> cstep v (cexec (next_cancellation id cx) v (fun _ m => m))
| cs_drain v id cx :
    caps v !! id = Some CapCancel -> cstep v (cexec (wait_drained id cx) v (fun _ m => m))
(* drops *)
| cs_abandon v id c :
    caps v !! id = Some c -> (exists b, c = CapSubmit b \/ c = CapStream b) ->
    cstep v (cexec (close_delivery id Detached) v (fun _ => delete id))
| cs_drop v id :
    caps v !! id = Some CapCancel -> cstep v (cexec (cancellation_drop id true) v (fun _ => delete id))
| cs_release v id :
    caps v !! id = None ->
    cstep v (cexec (modify (fun s => set_handles (handles s ∖ {[ id ]}) s)) v (fun _ m => m)).

(** A process runs until it aborts. *)
Definition client_step (v w : CSys) : Prop := crash (csys v) = None /\ cstep v w.
Definition client_init (v : CSys) : Prop := sys_init (csys v) /\ caps v = ∅.
End Clients.

(** ** How the state of a submission evolves in others' hands *)

Section Evolution.
Context `{U : Uring, !UringLaws} {T : Type}.
Notation ring := (Ring T).
Notation uprog := (prog ucall uresp).
Notation uhist := (history ucall uresp).
Variable new_box : uhist -> gset Z -> Z.
Implicit Types (s : ring) (id : SubId) (u : SubmissionInner) (skip : SubId -> Prop).

(** Admission stays finished; delivery closes only by an overflow, which is reported. *)
Definition grows u u' : Prop :=
  (iterator_finished u = true -> iterator_finished u' = true) /\
  (delivery u' = delivery u /\ (normal_overflow u = true -> normal_overflow u' = true) \/
   delivery u = Open /\ delivery u' = Overflow /\ normal_overflow u' = true).

(** Delivery is never opened again. *)
Definition closes u u' : Prop := delivery u <> Open -> delivery u' <> Open.

(** A shutdown is final, no submission goes away or is opened again, and all but the
    skipped ones grow. *)
Definition evolves skip s s' : Prop :=
  (dshutdown (data s) = true -> dshutdown (data s') = true) /\
  forall id u, subs s !! id = Some u ->
    exists u', subs s' !! id = Some u' /\ closes u u' /\ (~ skip id -> grows u u').

#[export] Instance grows_preorder : PreOrder grows.
Proof.
  split; [intros u; split; auto|]. intros a b c [H1 H2] [H3 H4]. split; [auto|].
  destruct H2 as [[E1 N1]|(E1 & E2 & N1)], H4 as [[E3 N2]|(E3 & E4 & N2)]; try congruence.
  - left. split; [congruence|auto].
  - right. split; [congruence|]. by split.
  - right. split; [done|]. split; [congruence|auto].
Qed.

#[export] Instance closes_preorder : PreOrder closes.
Proof. split; [by intros u Hd|]. intros a b c H1 H2 Hd. auto. Qed.

#[export] Instance evolves_preorder skip : PreOrder (evolves skip).
Proof.
  split.
  - intros s. split; [done|]. intros id u Hu. exists u. split; [done|]. by split.
  - intros a b c [D1 H1] [D2 H2]. split; [auto|]. intros id u Hu. destruct (H1 id u Hu) as (v & Hv & C1 & G1).
    destruct (H2 id v Hv) as (w & Hw & C2 & G2). exists w. split; [done|]. split; [intros Hd; auto|].
    intros Hs. etransitivity; auto.
Qed.

Lemma grows_closes u u' : grows u u' -> closes u u'.
Proof. intros [_ [[E _]|(E & _)]] Hd Hd'; congruence. Qed.

Notation respects skip := (Prelude.respects (evolves skip)).

Lemma evolves_same skip s s' : dshutdown (data s') = dshutdown (data s) -> subs s' = subs s -> evolves skip s s'.
Proof. intros Hd Hs. split; [by rewrite Hd|]. intros id u Hu. exists u. rewrite Hs. split; [done|]. by split. Qed.

Lemma evolves_sub skip s id u v :
  subs s !! id = Some u -> closes u v -> (~ skip id -> grows u v) -> evolves skip s (set_subs (<[ id := v ]> (subs s)) s).
Proof.
  intros Hu Hc Hg. split; [done|]. intros j w Hw. cbn. destruct (decide (j = id)) as [->|Hne].
  - rewrite lookup_insert_eq. exists v. split; [done|]. assert (w = u) as -> by congruence. by split.
  - rewrite lookup_insert_ne by done. exists w. split; [done|]. by split.
Qed.

Lemma on_sub_evolves skip s id (f : SubmissionInner -> SubmissionInner) :
  (forall u, closes u (f u)) -> (~ skip id -> forall u, grows u (f u)) -> evolves skip s (on_sub id f s).
Proof.
  intros Hc Hf. split; [done|]. intros j u Hu. cbn. destruct (decide (j = id)) as [->|Hne].
  - rewrite lookup_alter_eq, Hu. exists (f u). split; [done|]. auto.
  - rewrite lookup_alter_ne by done. exists u. split; [done|]. by split.
Qed.

Lemma on_sub_grows skip s id (f : SubmissionInner -> SubmissionInner) :
  (forall u, grows u (f u)) -> evolves skip s (on_sub id f s).
Proof. intros Hf. apply on_sub_evolves; [intros u; by apply grows_closes|auto]. Qed.

(** A section that reads a submission and puts it back changed, if at all. *)
Lemma sub_respects skip {A} id (body : SubmissionInner -> uprog ring A) :
  (forall u, respects skip (body u) \/
     exists v k, body u = prog_bind (put_sub id v) k /\ closes u v /\ (~ skip id -> grows u v) /\ forall a, respects skip (k a)) ->
  respects skip (prog_bind (get_sub id) body).
Proof.
  intros Hb o s h. apply run_post_bind. unfold get_sub, run_post. cbn. destruct (subs s !! id) as [u|] eqn:Hu; [|cbn; reflexivity].
  cbn. destruct (Hb u) as [Hr|(v & k & -> & Hc & Hg & Hk)]; [apply Hr|].
  eapply run_post_bind_eq; [reflexivity|]. eapply run_post_mono; [apply (Hk tt)|].
  intros q s' h' Hs. etransitivity; [apply (evolves_sub skip s id u v); [done|exact Hc|exact Hg]|exact Hs].
Qed.

Lemma sub_grows skip {A} id (body : SubmissionInner -> uprog ring A) :
  (forall u, respects skip (body u) \/
     exists v k, body u = prog_bind (put_sub id v) k /\ grows u v /\ forall a, respects skip (k a)) ->
  respects skip (prog_bind (get_sub id) body).
Proof.
  intros Hb. apply sub_respects. intros u. destruct (Hb u) as [Hr|(v & k & E & Hg & Hk)]; [by left|right].
  exists v, k. split; [done|]. split; [by apply grows_closes|]. by split.
Qed.
End Evolution.

#[export] Hint Resolve respects_ret respects_get respects_panic respects_abort respects_call : nosv.

(** Opens the head of a program; a change of the state is left when it is not one that
    keeps the submissions. *)
Ltac respects_auto :=
  intros; unfold mret, prog_mret, mbind, prog_mbind;
  repeat first
    [ progress intros
    | solve [eauto 3 with nosv typeclass_instances]
    | lazymatch goal with
      | |- respects _ (prog_bind (get_sub _) _) => fail
      | _ => apply respects_bind; [apply _| |intros]
      end
    | apply respects_for_each; [apply _|intros]
    | apply respects_modify; intros; apply evolves_same; reflexivity
    | match goal with
      | |- respects _ (match ?x with _ => _ end) => destruct x
      | |- respects _ (if ?x then _ else _) => destruct x
      | |- respects _ (let '_ := ?x in _) => destruct x
      end ].

Section Sections.
Context `{U : Uring, !UringLaws} {T : Type}.
Notation ring := (Ring T).
Notation uprog := (prog ucall uresp).
Notation uhist := (history ucall uresp).
Implicit Types (new_box : uhist -> gset Z -> Z) (s : ring) (id : SubId) (u : SubmissionInner) (skip : SubId -> Prop).
Notation respects skip := (Prelude.respects (evolves skip)).

Lemma alloc_respects new_box skip : respects skip (alloc (T := T) new_box).
Proof. intros o s h. unfold run_post. cbn. reflexivity. Qed.

Lemma sq_push_respects skip e : respects skip (sq_push (T := T) e).
Proof. unfold sq_push. respects_auto. Qed.
#[local] Hint Resolve alloc_respects sq_push_respects : nosv.

Lemma stage_commands_respects new_box skip q : respects skip (stage_commands (T := T) new_box q).
Proof. induction q as [|c q IH]; cbn [stage_commands]; respects_auto. Qed.

Lemma stage_owned_commands_respects new_box skip q : respects skip (stage_owned_commands (T := T) new_box q).
Proof. induction q as [|c q IH]; cbn [stage_owned_commands]; respects_auto. Qed.

Lemma pop_owned_respects skip : respects skip (pop_owned (T := T)).
Proof. unfold pop_owned. respects_auto. Qed.
#[local] Hint Resolve stage_commands_respects stage_owned_commands_respects pop_owned_respects : nosv.

Lemma stage_owned_respects new_box skip supported n : respects skip (stage_owned (T := T) new_box supported n).
Proof. induction n as [|n IH]; cbn [stage_owned]; respects_auto. Qed.

Lemma set_accepted_grows u a w : grows u (set_admission_waker w (set_accepted a u)).
Proof. split; [auto|]. by left. Qed.

Lemma accept_one_respects skip : respects skip (accept_one (T := T)).
Proof.
  unfold accept_one. respects_auto. apply sub_grows. intros u. right.
  do 2 eexists. split; [reflexivity|]. split; [apply set_accepted_grows|respects_auto].
Qed.
#[local] Hint Resolve stage_owned_respects accept_one_respects : nosv.

Lemma accept_prefix_respects skip n : respects skip (accept_prefix (T := T) n).
Proof. induction n as [|n IH]; cbn [accept_prefix]; respects_auto. Qed.
#[local] Hint Resolve accept_prefix_respects : nosv.

Lemma submit_staged_respects skip : respects skip (submit_staged (T := T)).
Proof. unfold submit_staged, ring_submit. respects_auto. Qed.
#[local] Hint Resolve submit_staged_respects : nosv.

Lemma queue_cancels_respects skip id : respects skip (queue_cancels (T := T) id).
Proof.
  unfold queue_cancels. respects_auto. apply respects_modify. intros s. apply on_sub_grows. intros u.
  split; [auto|]. by left.
Qed.

Lemma close_delivery_respects skip id dl : skip id -> dl <> Open -> respects skip (close_delivery (T := T) id dl).
Proof.
  intros Hs Hd. apply respects_modify. intros s. apply on_sub_evolves; [|done]. intros u Hu.
  by destruct dl; [done|..]; destruct (delivery u) eqn:E; cbn; rewrite ?E.
Qed.
#[local] Hint Resolve queue_cancels_respects close_delivery_respects : nosv.

Lemma request_cancel_respects skip id dl : skip id -> dl <> Open -> respects skip (request_cancel (T := T) id dl).
Proof. intros Hs Hd. unfold request_cancel. respects_auto. Qed.
#[local] Hint Resolve request_cancel_respects : nosv.

Lemma wake_admissions_grows ids : forall (m : gmap SubId SubmissionInner) id u,
  m !! id = Some u -> exists u', (wake_admissions ids m).1 !! id = Some u' /\ grows u u'.
Proof.
  induction ids as [|i ids IH]; intros m id u Hu; cbn; [by exists u|].
  destruct (m !! i) as [v|] eqn:Hv; [|by apply IH]. destruct (iterator_finished v); [by apply IH|].
  destruct (wake_admissions ids _) as [m' ws] eqn:E. cbn.
  destruct (decide (id = i)) as [->|Hne].
  - assert (v = u) as -> by congruence.
    destruct (IH (<[ i := set_admission_waker None u ]> m) i (set_admission_waker None u)) as (w & Hw & Hg);
      [by rewrite lookup_insert_eq|]. rewrite E in Hw. exists w. split; [done|].
    etransitivity; [|exact Hg]. split; [auto|]. by left.
  - destruct (IH (<[ i := set_admission_waker None v ]> m) id u) as (w & Hw & Hg); [by rewrite lookup_insert_ne|].
    rewrite E in Hw. by exists w.
Qed.

Lemma pass_submit_respects new_box skip supported n : respects skip (pass_submit (T := T) new_box supported n).
Proof.
  unfold pass_submit, stage_cancellations, stage_owned_cancellations. unfold mret, prog_mret, mbind, prog_mbind.
  apply respects_bind; [apply _|respects_auto|intros s0]. destruct (negb (ring_open s0)); [respects_auto|].
  do 4 (apply respects_bind; [apply _|respects_auto|intros ?]).
  intros o s h. eapply run_post_bind_eq; [reflexivity|]. destruct (_ && _ && _); [|apply run_post_ret; reflexivity].
  match goal with |- context [wake_admissions ?ids ?m] => pose proof (wake_admissions_grows ids m) as Hw;
    destruct (wake_admissions ids m) as [m' ws'] end.
  eapply run_post_bind_eq; [reflexivity|]. apply run_post_ret. split; [done|]. intros id u Hu. cbn.
  destruct (Hw id u Hu) as (u' & Hu' & Hg). exists u'. split; [done|]. split; [by apply grows_closes|done].
Qed.

Lemma wake_drain_grows u : grows u (wake_drain u).1.
Proof. unfold wake_drain. destruct (drained u); cbn; [|reflexivity]. split; [auto|]. by left. Qed.

(** Delivering a completion: delivery is as it was, or overflows. *)
Lemma deliver_original_grows u c more : grows u (deliver_original u c more).1.1.
Proof.
  unfold deliver_original. destruct (iterator_finished u) eqn:Ei; cbn; destruct (delivery u) eqn:Hd; cbn;
    try (destruct (_ <? _); cbn); try (destruct (normal_overflow u) eqn:Hn; cbn); destruct more; cbn;
    try (destruct (_ + 1 =? _); cbn); unfold wake_drain; try (destruct (drained _); cbn);
    (split; [cbn; by rewrite ?Ei|cbn; rewrite ?Hd; first [by left|right; by split_and!|left; split; [done|by rewrite ?Hn]]]).
Qed.

Lemma deliver_cancel_grows u c : grows u (deliver_cancel u c).1.
Proof.
  unfold deliver_cancel. destruct (delivery u) eqn:Hd; cbn; try (destruct (_ <? _); cbn); 
    destruct (_ + 1 =? _); cbn; unfold wake_drain; destruct (drained _); cbn; (split; [auto|]); left; by rewrite ?Hd.
Qed.

Lemma dispatch_raw_respects skip c : respects skip (dispatch_raw (T := T) c).
Proof.
  unfold dispatch_raw. respects_auto; apply sub_grows; intros u; right.
  - match goal with |- context [deliver_original u ?e ?m] => pose proof (deliver_original_grows u e m) as Hg;
      destruct (deliver_original u e m) as [[u' ws] over] end.
    do 2 eexists. split; [reflexivity|]. split; [exact Hg|]. respects_auto.
  - match goal with |- context [deliver_cancel u ?e] => pose proof (deliver_cancel_grows u e) as Hg;
      destruct (deliver_cancel u e) as [u' ws] end.
    do 2 eexists. split; [reflexivity|]. split; [exact Hg|]. respects_auto.
Qed.

Lemma finish_handler_respects skip hd v : respects skip (finish_handler (T := T) hd v).
Proof. unfold finish_handler. respects_auto. Qed.
#[local] Hint Resolve dispatch_raw_respects finish_handler_respects : nosv.

Lemma dispatch_owned_respects skip c : respects skip (dispatch_owned (T := T) c).
Proof. unfold dispatch_owned. respects_auto. Qed.
#[local] Hint Resolve dispatch_owned_respects : nosv.

Lemma dispatch_respects skip c : respects skip (dispatch (T := T) c).
Proof. unfold dispatch. respects_auto. Qed.

Lemma fail_owned_respects skip l : respects skip (fail_owned (T := T) l).
Proof. induction l as [|[hd f] l IH]; cbn [fail_owned]; respects_auto. Qed.

Lemma reap_respects skip n : respects skip (reap_cqes (T := T) n).
Proof. unfold reap_cqes. respects_auto. Qed.

Lemma stage_original_respects new_box skip id idx e : respects skip (stage_original (T := T) new_box id idx e).
Proof.
  unfold stage_original. respects_auto. apply respects_modify. intros s. apply on_sub_grows. intros u. split; [auto|]. by left.
Qed.
#[local] Hint Resolve stage_original_respects : nosv.

Lemma admit_entries_respects new_box skip id it : forall next any, respects skip (admit_entries (T := T) new_box id it next any).
Proof.
  induction it as [|e it IH]; intros next any; cbn [admit_entries]; respects_auto.
  apply sub_grows. intros u. right. do 2 eexists. split; [reflexivity|]. split; [split; [done|by left]|]. respects_auto.
Qed.
#[local] Hint Resolve admit_entries_respects : nosv.

Lemma driver_admit_respects new_box skip id a : skip id -> respects skip (driver_admit (T := T) new_box id a).
Proof.
  intros Hs. unfold driver_admit, admit_section, admit_loop, stage_cancellations. respects_auto.
Qed.

Lemma submit_check_respects skip cx se : respects skip (submit_check (T := T) cx se).
Proof.
  unfold submit_check. apply sub_grows. intros u.
  match goal with |- context [match ?f with Some _ => _ | None => _ end] => destruct f end; [left; respects_auto|].
  destruct (_ && _); [left; respects_auto|]. right. do 2 eexists. split; [reflexivity|]. split; [|respects_auto].
  split; [auto|]. by left.
Qed.

Lemma next_cancellation_respects skip id cx : respects skip (next_cancellation (T := T) id cx).
Proof.
  unfold next_cancellation. apply sub_grows. intros u.
  destruct (cancellations u); [destruct (cancel_overflow u); [|destruct (_ =? _); [left; respects_auto|]]|];
    right; (do 2 eexists); (split; [reflexivity|]); (split; [split; [auto|by left]|respects_auto]).
Qed.

Lemma wait_drained_respects skip id cx : respects skip (wait_drained (T := T) id cx).
Proof.
  unfold wait_drained. apply sub_grows. intros u. destruct (drained u); [left; respects_auto|].
  right. do 2 eexists. split; [reflexivity|]. split; [split; [auto|by left]|respects_auto].
Qed.

Lemma next_completion_respects skip id cx : skip id -> respects skip (next_completion (T := T) id cx).
Proof.
  intros Hs. unfold next_completion. apply sub_respects. intros u.
  destruct (normal u); [destruct (normal_overflow u); [|destruct (_ || _); [left; respects_auto|]]|];
    right; (do 2 eexists); (split; [reflexivity|]); (split; [by intros Hd|]); (split; [done|respects_auto]).
Qed.

Lemma submit_entries_respects skip lim id closed es : skip id -> forall o s h, subs s !! id = None ->
  run_post (submit_entries (T := T) lim id closed es) o s h (fun _ s' _ => evolves skip s s').
Proof.
  intros Hs o s h Hid. eapply run_post_bind_eq; [reflexivity|].
  match goal with |- run_post _ o ?t h _ => assert (evolves skip s t) as H1 end.
  { split; [done|]. intros j u Hu. cbn. exists u. rewrite lookup_insert_ne by congruence. split; [done|]. by split. }
  eapply run_post_mono; [|intros q s' h' H2; etransitivity; [exact H1|exact H2]].
  cut (respects skip (_ ← (if closed then modify (on_sub id (set_delivery Cancelling)) else mret tt);
         mret (mkSubmit (mkAdmission es None 0) id closed false) : uprog ring SubmitEntries)); [intros Hr; apply Hr|].
  respects_auto. apply respects_modify. intros t. by apply on_sub_evolves.
Qed.
End Sections.

(** ** The safety contract *)

Section Contract.
Context `{U : Uring, !UringLaws} {T : Type}.
Notation ring := (Ring T).
Notation sys := (RSys T).
Notation csys_t := (CSys (T := T)).
Notation uprog := (prog ucall uresp).
Notation uhist := (history ucall uresp).
Variable new_box : uhist -> gset Z -> Z.
Variable o : oracle ucall uresp.
Variable supported : Z -> bool.
Variable cfg : IoUringConfig.
Hypothesis Hbox : allocator_fresh new_box.
Hypothesis Hkernel : kernel_bounded o.
Implicit Types (x y : sys) (id : SubId) (u : SubmissionInner) (v w : csys_t) (skip : SubId -> Prop).
Notation cstep := (cstep new_box o supported cfg).
Notation creach := (reachable client_init (client_step new_box o supported cfg)).

(** What a stream in hand says of its submission. *)
Definition streaming (saw : bool) u : Prop :=
  iterator_finished u = true /\
  (delivery u = Open \/ delivery u = Overflow /\ (normal_overflow u = true \/ saw = true)).

Record contract (m : gmap SubId Cap) x : Prop := mkContract {
  co_known id c : m !! id = Some c -> is_Some (subs (r x) !! id);
  co_stream id saw : m !! id = Some (CapStream saw) ->
    dshutdown (data (r x)) = true \/ exists u, subs (r x) !! id = Some u /\ streaming saw u;
  co_overs id : id ∈ overs x -> exists u, subs (r x) !! id = Some u /\ delivery u <> Open
}.

Lemma streaming_grows saw u u' : grows u u' -> streaming saw u -> streaming saw u'.
Proof.
  intros [Hi Hd] [Hf Ho]. split; [auto|]. destruct Hd as [[E N]|(E1 & E2 & N)]; [|right; auto].
  rewrite E. destruct Ho as [Ho|[Ho Hn]]; [by left|right]. split; [done|]. destruct Hn; auto.
Qed.

(** A step that evolves the ring keeps the contract of the capabilities it does not skip. *)
Lemma contract_evolves skip m x y :
  contract m x -> evolves skip (r x) (r y) -> (forall id, id ∈ overs y -> id ∈ overs x) ->
  (forall id saw, m !! id = Some (CapStream saw) -> skip id -> dshutdown (data (r x)) = true) ->
  contract m y.
Proof.
  intros [Hk Hs Hov] [Hd He] Hsub Hskip. split.
  - intros id c Hm. destruct (Hk id c Hm) as [u Hu]. destruct (He id u Hu) as (u' & Hu' & _). by exists u'.
  - intros id saw Hm. destruct (dshutdown (data (r x))) eqn:Esh; [left; auto|].
    destruct (Hs id saw Hm) as [|(u & Hu & Hst)]; [done|]. destruct (He id u Hu) as (u' & Hu' & _ & Hg).
    right. exists u'. split; [done|]. eapply streaming_grows; [apply Hg|done]. intros Hsk. specialize (Hskip id saw Hm Hsk). done.
  - intros id Hin. destruct (Hov id (Hsub id Hin)) as (u & Hu & Hn). destruct (He id u Hu) as (u' & Hu' & Hc & _). eauto.
Qed.

Lemma contract_forget m m' x : contract m x -> (forall id c, m' !! id = Some c -> m !! id = Some c \/
    is_Some (subs (r x) !! id) /\ forall saw, c <> CapStream saw) -> contract m' x.
Proof.
  intros [Hk Hs Hov] Hm. split; [| |done].
  - intros id c Hc. destruct (Hm id c Hc) as [Hin|[Hin _]]; eauto.
  - intros id saw Hc. destruct (Hm id _ Hc) as [Hin|[_ Hin]]; [eauto|by destruct (Hin saw)].
Qed.

(** Runs of sections, at the level of the system. *)
Lemma exec_evolves {A} (m : uprog ring A) x (k : A -> sys -> sys) skip :
  run_post m o (r x) (rh x) (fun _ s' _ => evolves skip (r x) s') -> (forall a y, r (k a y) = r y) ->
  evolves skip (r x) (r (exec o m x k)).
Proof.
  unfold run_post, exec. intros Hm Hk. destruct (m o (r x) (rh x)) as [[[a|e|e|e] s] h]; [rewrite Hk|..]; exact Hm.
Qed.

Lemma exec_overs {A} (m : uprog ring A) x (k : A -> sys -> sys) :
  (forall a y, overs (k a y) = overs y) -> overs (exec o m x k) = overs x.
Proof. intros Hk. unfold exec. destruct (m o (r x) (rh x)) as [[[a|e|e|e] s] h]; [by rewrite Hk|done..]. Qed.

Notation nobody := (fun _ : SubId => False).

Lemma contract_section {A} (p : uprog ring A) m x (k : A -> sys -> sys) :
  contract m x -> respects (evolves nobody) p -> (forall a y, r (k a y) = r y) -> (forall a y, overs (k a y) = overs y) ->
  contract m (exec o p x k).
Proof.
  intros Hc Hp Hr Ho. eapply (contract_evolves nobody); [exact Hc|by apply exec_evolves| |done].
  intros id. by rewrite exec_overs.
Qed.

(** Cancelling what overflowed changes no delivery. *)
Lemma over_evolves x id : (exists u, subs (r x) !! id = Some u /\ delivery u <> Open) ->
  evolves nobody (r x) (r (exec_ o (request_cancel id Overflow) x)).
Proof.
  intros (u & Hu & Hn). apply exec_evolves; [|done]. eapply run_post_bind_eq; [reflexivity|].
  match goal with |- run_post _ o ?t _ _ => assert (evolves nobody (r x) t) as H1 end.
  { split; [done|]. intros j w Hw. cbn. destruct (decide (j = id)) as [->|Hne].
    - rewrite lookup_alter_eq, Hu. cbn. exists u. assert (w = u) as -> by congruence.
      destruct (delivery u); [done|..]; (split; [done|]); by split.
    - rewrite lookup_alter_ne by done. exists w. split; [done|]. by split. }
  eapply run_post_mono; [apply (queue_cancels_respects nobody id)|]. intros q s' h' H2. etransitivity; [exact H1|exact H2].
Qed.

Lemma dispatch_contract m x c rest :
  contract m x -> batch x = c :: rest ->
  contract m (exec o (dispatch c) x (fun '(_, over) x => set_overs (overs x ++ opt_list over) (set_batch rest x))).
Proof.
  intros Hc Hb. pose proof (dispatch_tame o c (r x) (rh x)) as Ht. pose proof (dispatch_respects nobody c o (r x) (rh x)) as He.
  unfold exec, run_post in *. destruct (dispatch c o (r x) (rh x)) as [[[[ws over]|e|e|e] s] h]; cbn in *.
  2-4: by apply (contract_evolves nobody m x); [done|exact He|..].
  destruct over as [id|]; cbn; [|apply (contract_evolves nobody m x); [done|exact He|cbn; intros id; by rewrite app_nil_r|done]].
  assert (contract m (set_batch rest (set_r s h x))) as Hc1 by (by apply (contract_evolves nobody m x)).
  destruct Ht as [_ [(u & Hu & _) Hn]]. destruct He as [_ He]. destruct (He id u Hu) as (u' & Hu' & _).
  destruct Hc1 as [H1 H2 H3]. split; [done|done|]. cbn. intros j [Hj|Hj]%elem_of_app; [by apply H3|].
  apply list_elem_of_singleton in Hj as ->. exists u'. split; [done|]. intros Ho. apply Hn. by exists u'.
Qed.

Lemma inner_contract m x y : contract m x -> inner_step new_box o supported cfg x y -> contract m y.
Proof.
  intros Hc Hstep. destruct Hstep.
  - apply contract_section; try done. unfold owned_new. respects_auto.
  - apply contract_section; try done. unfold owned_submit, enqueue. respects_auto; eauto using finish_handler_respects.
  - apply contract_section; try done. unfold owned_register. respects_auto.
  - apply contract_section; try done. unfold owned_take. respects_auto.
  - apply contract_section; try done. respects_auto.
  - apply contract_section; try done. unfold request_owned_cancel. respects_auto.
  - apply contract_section; try done. respects_auto.
  - apply contract_section; try done. unfold shutdown_section. respects_auto. apply respects_modify. intros s.
    split; [done|]. intros id u Hu. exists u. split; [done|]. by split.
  - eapply (contract_evolves (fun _ => dshutdown (data (r x)) = true)); [exact Hc| | |auto].
    + apply exec_evolves; [|done]. by apply close_delivery_respects.
    + intros j. unfold exec_. by rewrite exec_overs.
  - apply contract_section; try done. apply queue_cancels_respects.
  - apply contract_section; try done; [apply pass_submit_respects|by intros [] ?..].
  - apply contract_section; try done. apply fail_owned_respects.
  - apply contract_section; try done; [apply reap_respects|by intros [] ?..].
  - by apply dispatch_contract.
  - assert (contract m (exec_ o (request_cancel id Overflow) x)) as Hc1.
    { eapply (contract_evolves nobody); [exact Hc|apply over_evolves, (co_overs _ _ Hc)|..]; [|unfold exec_; intros j; by rewrite exec_overs|done].
      match goal with E : overs x = _ |- _ => rewrite E end. by left. }
    destruct Hc1 as [Hk1 Hs1 Hov1]. split; [done|done|]. cbn. intros j Hj. apply Hov1. unfold exec_. rewrite exec_overs by done.
    match goal with E : overs x = _ |- _ => rewrite E end. by right.
  - eapply (contract_evolves nobody); [exact Hc|by apply evolves_same|done..].
  - apply contract_section; try done. unfold take_ring. apply respects_modify. intros s. by apply evolves_same.
  - eapply (contract_evolves nobody); [exact Hc|by apply evolves_same|done..].
Qed.
(** *** Every client step keeps the contract *)

Lemma csys_cexec {A} (m : uprog ring A) v k : csys (cexec o m v k) = exec_ o m (csys v).
Proof. unfold cexec, exec_, exec. by destruct (m o (r (csys v)) (rh (csys v))) as [[[a|e|e|e] s] h]. Qed.

(** A section of a client: [m0] is what the client cannot have lost by it, and [k]
    what it gains. *)
Lemma cexec_contract {A} (p : uprog ring A) v k skip m0 :
  contract m0 (csys v) -> (crash (csys v) = None) ->
  run_post p o (r (csys v)) (rh (csys v)) (fun _ s' _ => evolves skip (r (csys v)) s') ->
  (forall id saw, m0 !! id = Some (CapStream saw) -> skip id -> dshutdown (data (r (csys v))) = true) ->
  run_post p o (r (csys v)) (rh (csys v)) (fun q s' h' => forall a, q = Done a ->
    contract m0 (set_r s' h' (csys v)) -> contract (k a (caps v)) (set_r s' h' (csys v))) ->
  crash (csys (cexec o p v k)) = None -> contract (caps (cexec o p v k)) (csys (cexec o p v k)).
Proof.
  intros Hc Hx He Hskip Hk Hx'.
  assert (contract m0 (csys (cexec o p v k))) as Hc'.
  { rewrite csys_cexec. eapply (contract_evolves skip); [exact Hc|by apply exec_evolves|by unfold exec_; intros id; rewrite exec_overs|done]. }
  revert Hx' Hc' Hk. unfold run_post, cexec, exec_, exec. destruct (p o (r (csys v)) (rh (csys v))) as [[[a|e|e|e] s] h]; cbn; [|done..].
  intros _ Hc' Hk. by apply Hk.
Qed.

(** A section that evolves the ring and changes no capability. *)
Lemma cexec_keeps {A} (p : uprog ring A) v :
  contract (caps v) (csys v) -> crash (csys v) = None -> respects (evolves nobody) p ->
  crash (csys (cexec o p v (fun _ m => m))) = None ->
  contract (caps (cexec o p v (fun _ m => m))) (csys (cexec o p v (fun _ m => m))).
Proof.
  intros Hc Hx Hp. eapply (cexec_contract _ _ _ nobody (caps v)); [done..|apply Hp|done|].
  eapply run_post_mono; [apply Hp|]. intros q s' h' _ a _. auto.
Qed.

(** A section by which the client of [id] gives up its stream. *)
Lemma cexec_leaves {A} (p : uprog ring A) v id c' :
  contract (caps v) (csys v) -> crash (csys v) = None -> is_Some (subs (r (csys v)) !! id) ->
  (forall saw, c' <> Some (CapStream saw)) -> respects (evolves (eq id)) p ->
  let k := fun (_ : A) m => partial_alter (fun _ => c') id m in
  crash (csys (cexec o p v k)) = None -> contract (caps (cexec o p v k)) (csys (cexec o p v k)).
Proof.
  intros Hc Hx [u Hu] Hn Hp k. eapply (cexec_contract _ _ _ (eq id) (delete id (caps v))); [|done|apply Hp|..].
  - eapply contract_forget; [exact Hc|]. intros j c [_ Hj]%lookup_delete_Some. by left.
  - intros j saw [Hj _]%lookup_delete_Some. done.
  - eapply run_post_mono; [apply Hp|]. intros q s' h' [_ He] a _ Hc'.
    destruct (He id u Hu) as (u' & Hu' & _). eapply contract_forget; [exact Hc'|]. intros j c Hj. subst k. cbn in Hj.
    destruct (decide (j = id)) as [->|Hne].
    + rewrite lookup_partial_alter_eq in Hj. right. split; [by exists u'|]. intros saw ->. by destruct (Hn saw).
    + rewrite lookup_partial_alter_ne in Hj by done. left. by rewrite lookup_delete_ne.
Qed.

(** What a client learns of its submission by polling it. *)
Lemma submit_check_ok id closed a cx x u :
  subs (r x) !! id = Some u ->
  run_post (submit_check cx (mkSubmit a id closed false)) o (r x) (rh x) (fun q s' _ =>
    q = Done (Some (Ok tt)) -> exists u', subs s' !! id = Some u' /\ streaming false u').
Proof.
  intros Hu. apply run_post_bind. eapply get_sub_post; [exact Hu|]. cbn [then_post se_state se_closed].
  destruct (delivery u) eqn:Hd; [destruct closed|..]; try by apply run_post_ret.
  destruct (iterator_finished u && (accepted u =? originals u)) eqn:E;
    [|eapply run_post_bind_eq; [reflexivity|]; by apply run_post_ret].
  apply run_post_ret. intros _. exists u. apply andb_prop in E as [Ei _]. split; [done|]. split; [done|by left].
Qed.

Lemma next_completion_streams id saw cx x u :
  subs (r x) !! id = Some u -> streaming saw u ->
  run_post (next_completion id cx) o (r x) (rh x) (fun q s' _ => forall a, q = Done a ->
    exists u', subs s' !! id = Some u' /\
      streaming (match a with Some (Some (Err _)) => true | _ => saw end) u').
Proof.
  intros Hu [Hf Ho]. apply run_post_bind. eapply get_sub_post; [exact Hu|]. cbn [then_post].
  destruct (normal u) as [|c rest]; [destruct (normal_overflow u) eqn:Hn; [|destruct (negb _ || _)]|];
    first [apply run_post_ret | eapply run_post_bind_eq; [reflexivity|]; apply run_post_ret];
    intros a [= <-]; cbn; rewrite ?lookup_insert_eq; (eexists; split; [done|]); split; cbn; rewrite ?Hn; try done.
  all: destruct Ho as [Ho|[Ho Hs]]; [by left|right; split; [done|]]; auto.
Qed.

Notation safe v := (crash (csys v) = None -> contract (caps v) (csys v)).

(** Giving [id] a capability that is no stream's. *)
Lemma contract_insert m x id c : contract m x -> is_Some (subs (r x) !! id) -> (forall saw, c <> CapStream saw) ->
  contract (<[ id := c ]> m) x.
Proof.
  intros Hc Hu Hn. eapply contract_forget; [exact Hc|]. intros j d. rewrite lookup_insert_Some.
  intros [[<- <-]|[_ Hj]]; [right|left]; done.
Qed.

(** Giving it a stream. *)
Lemma contract_stream m x id u saw : contract m x -> subs (r x) !! id = Some u ->
  dshutdown (data (r x)) = true \/ streaming saw u -> contract (<[ id := CapStream saw ]> m) x.
Proof.
  intros [H1 H2 H3] Hu Hs. split; [| |done].
  - intros j c. rewrite lookup_insert_Some. intros [[<- <-]|[_ Hj]]; [by exists u|eauto].
  - intros j saw'. rewrite lookup_insert_Some. intros [[<- [= <-]]|[_ Hj]]; [|eauto].
    destruct Hs; [by left|right; by exists u].
Qed.

Lemma submit_contract v id closed es : contract (caps v) (csys v) -> crash (csys v) = None -> id ∉ registered (csys v) ->
  safe (cexec o (submit_entries (max_buffered_completions cfg) id closed es) v (fun _ => insert id (CapSubmit closed))).
Proof.
  intros Hc Hx Hid. apply (not_elem_of_dom (subs (r (csys v)))) in Hid.
  pose proof (submit_entries_respects (eq id) (max_buffered_completions cfg) id closed es eq_refl o _ (rh (csys v)) Hid) as He.
  eapply (cexec_contract _ _ _ (eq id) (caps v)); [done|done|exact He|..].
  - intros j saw Hj <-. destruct (co_known _ _ Hc id _ Hj) as [u Hu]. congruence.
  - unfold run_post. intros a _ Hc'. apply contract_insert; [done| |done].
    assert (run_post (submit_entries (max_buffered_completions cfg) id closed es) o (r (csys v)) (rh (csys v))
      (fun _ s' _ => is_Some (subs s' !! id))) as Hin.
    { eapply run_post_bind_eq; [reflexivity|]. unfold run_post, mbind, prog_mbind, prog_bind, mret, prog_mret.
      destruct closed; cbn; rewrite ?lookup_alter_eq, lookup_insert_eq; cbn; eauto. }
    exact Hin.
Qed.

Lemma check_contract v id closed a cx :
  contract (caps v) (csys v) -> crash (csys v) = None -> caps v !! id = Some (CapSubmit closed) ->
  safe (cexec o (submit_check cx (mkSubmit a id closed false)) v (fun q => checked q id)).
Proof.
  intros Hc Hx Hcap. destruct (co_known _ _ Hc id _ Hcap) as [u Hu].
  eapply (cexec_contract _ _ _ nobody (caps v)); [done|done|apply submit_check_respects|done|].
  pose proof (submit_check_ok id closed a cx (csys v) u Hu) as Hok.
  eapply run_post_mono; [exact (run_post_and _ _ _ _ _ _ Hok (submit_check_respects nobody cx (mkSubmit a id closed false) _ _ _))|].
  intros q s' h' [Hq [_ He]] res -> Hc'. destruct (He id u Hu) as (u' & Hu' & _).
  destruct res as [[[]|k]|]; cbn; [|apply contract_insert; [done|by exists u'|done]|done].
  destruct (Hq eq_refl) as (w & Hw & Hs). eapply contract_stream; [done|exact Hw|by right].
Qed.

Lemma next_contract v id saw cx :
  contract (caps v) (csys v) -> crash (csys v) = None -> caps v !! id = Some (CapStream saw) ->
  safe (cexec o (next_completion id cx) v (fun q => stepped q id)).
Proof.
  intros Hc Hx Hcap. destruct (co_known _ _ Hc id _ Hcap) as [u Hu].
  eapply (cexec_contract _ _ _ (eq id) (delete id (caps v))); [|done|by apply next_completion_respects|..].
  - eapply contract_forget; [exact Hc|]. intros j c [_ Hj]%lookup_delete_Some. by left.
  - intros j s' [Hj _]%lookup_delete_Some. done.
  - assert (forall c, <[ id := c ]> (caps v) = <[ id := c ]> (delete id (caps v))) as E by (intros c; by rewrite insert_delete_eq).
    pose proof (next_completion_respects (eq id) id cx eq_refl o (r (csys v)) (rh (csys v))) as He.
    assert (run_post (next_completion id cx) o (r (csys v)) (rh (csys v)) (fun q s' _ => forall a, q = Done a ->
      dshutdown (data (r (csys v))) = true \/ exists u', subs s' !! id = Some u' /\
        streaming (match a with Some (Some (Err _)) => true | _ => saw end) u')) as Hs.
    { destruct (co_stream _ _ Hc id saw Hcap) as [Hsh|(w & Hw & Hst)].
      - eapply run_post_mono; [exact He|]. by left.
      - eapply run_post_mono; [by apply (next_completion_streams id saw cx (csys v) w)|]. intros q s' h' Hq a Ha. right. auto. }
    eapply run_post_mono; [exact (run_post_and _ _ _ _ _ _ Hs He)|].
    intros q s' h' [Hq [Hd He']] a -> Hc'. destruct (He' id u Hu) as (u' & Hu' & _).
    assert (dshutdown (data s') = true \/ streaming (match a with Some (Some (Err _)) => true | _ => saw end) u') as Hst.
    { destruct (Hq a eq_refl) as [Hsh|(w & Hw & Hst)]; [left; auto|right]. by assert (w = u') as <- by congruence. }
    assert (forall saw', streaming saw' u' \/ dshutdown (data s') = true -> contract (<[ id := CapStream saw' ]> (caps v)) (set_r s' h' (csys v))) as Hk.
    { intros saw' Hsaw. rewrite E. apply (contract_stream _ _ _ u'); [done|done|]. destruct Hsaw; [by right|by left]. }
    replace (stepped a id (caps v)) with (<[ id := CapStream (match a with Some (Some (Err _)) => true | _ => saw end) ]> (caps v));
      [apply Hk; by destruct Hst; [right|left]|].
    destruct a as [[[c|e]|]|]; cbn; [|done|..]; by rewrite insert_id.
Qed.

Lemma step_contract v w : safe v -> crash (csys v) = None -> cstep v w -> safe w.
Proof.
  intros Hc Hx Hstep. specialize (Hc Hx).
  destruct Hstep as [v y Hin|v id closed es Hid|v id a Hcap|v id closed a cx Hcap|v id saw cx Hcap|v id saw Hcap|v id Hcap
    |v id cx Hcap|v id cx Hcap|v id c Hcap Hk|v id Hcap|v id Hcap].
  - cbn in *. intros _. by eapply inner_contract.
  - by apply submit_contract.
  - eapply (cexec_contract _ _ _ (eq id) (caps v)); [done|done|by apply driver_admit_respects|..].
    + intros j saw Hj <-. congruence.
    + eapply run_post_mono; [by apply (driver_admit_respects new_box (eq id) id a eq_refl)|]. auto.
  - by apply check_contract.
  - by eapply next_contract.
  - intros _. apply contract_insert; [done|by eapply co_known|done].
  - apply (cexec_leaves _ _ id (Some CapCancel)); [done|done|by eapply co_known|done|by apply close_delivery_respects].
  - apply cexec_keeps; [done..|apply next_cancellation_respects].
  - apply cexec_keeps; [done..|apply wait_drained_respects].
  - apply (cexec_leaves _ _ id None); [done|done|by eapply co_known|done|by apply close_delivery_respects].
  - apply (cexec_leaves _ _ id None); [done|done|by eapply co_known|done|].
    unfold cancellation_drop. apply respects_modify. intros s. apply on_sub_evolves; [|done]. by intros u _.
  - apply cexec_keeps; [done..|]. apply respects_modify. intros s. by apply evolves_same.
Qed.

Lemma cstep_rstep v w : contract (caps v) (csys v) -> cstep v w -> csys w = csys v \/ rstep new_box o supported cfg (csys v) (csys w).
Proof.
  intros Hc Hstep.
  assert (forall id c, caps v !! id = Some c -> id ∈ registered (csys v)) as Hreg.
  { intros id c Hcap. apply elem_of_dom. by eapply co_known. }
  destruct Hstep; rewrite ?csys_cexec; [right; by apply inner_rstep|try (by left)..]; right.
  all: econstructor; eauto.
Qed.

Lemma client_contract v : creach v -> crash (csys v) = None ->
  contract (caps v) (csys v) /\ reachable sys_init (sys_step new_box o supported cfg) (csys v).
Proof.
  intros Hr. cut (safe v /\ (crash (csys v) = None -> reachable sys_init (sys_step new_box o supported cfg) (csys v))); [naive_solver|].
  induction Hr as [v [Hi Hm]|v w _ [Hs Hreach] [Hx Hstep]].
  - split; [|intros _; by apply reach_init]. intros _. destruct Hi as (_ & _ & _ & _ & Hov & _). split.
    + intros id c. by rewrite Hm, lookup_empty.
    + intros id saw. by rewrite Hm, lookup_empty.
    + intros id. by rewrite Hov, elem_of_nil.
  - split; [by eapply step_contract|]. intros _. specialize (Hs Hx). specialize (Hreach Hx).
    destruct (cstep_rstep v w Hs Hstep) as [->|Hr]; [done|]. eapply reach_step; [exact Hreach|]. by split.
Qed.

(** An overflow is reported before the end of the stream. *)
Lemma next_overflowed id cx x u (P : Prop) :
  subs (r x) !! id = Some u -> normal_overflow u = true ->
  run_post (next_completion id cx) o (r x) (rh x) (fun a _ _ => a = Done (Some None) -> P).
Proof.
  intros Hu Hn. apply run_post_bind. eapply get_sub_post; [exact Hu|]. cbn [then_post].
  destruct (normal u); [rewrite Hn|]; (eapply run_post_bind_eq; [reflexivity|]); by apply run_post_ret.
Qed.

Lemma drain_retires x id cx u :
  sys_good x -> subs (r x) !! id = Some u ->
  run_post (wait_drained id cx) o (r x) (rh x) (fun a _ _ => a = Done true ->
    forall p c, p ∈ sq (r x) ++ flight (r x) -> contexts (data (r x)) !! p = Some c -> cstate c <> id).
Proof.
  intros Hg Hu. apply run_post_bind. eapply get_sub_post; [exact Hu|]. cbn [then_post].
  destruct (drained u) eqn:Ed; [|eapply run_post_bind_eq; [reflexivity|]; by apply run_post_ret].
  apply run_post_ret. intros _. by apply (drained_retired x id u).
Qed.

(** C25. What [submit_entries] promises its unsafe callers holds until the driver is
    shut down: a stream that never reported an error and answers [None] proves every
    original operation of the submission terminal, with none in the SQ or in the
    kernel; and at any time, for a [Cancellation] however it was obtained (from a
    stream, a failed admission or an error), [wait_drained] answering proves that the
    SQ and the kernel hold nothing of the submission. *)
Theorem stream_contract v id cx (Hr : creach v) (Hx : crash (csys v) = None) :
  (caps v !! id = Some (CapStream false) -> dshutdown (data (r (csys v))) = false ->
   run_post (next_completion id cx) o (r (csys v)) (rh (csys v)) (fun a _ _ => a = Done (Some None) ->
     no_original (data (r (csys v))) id /\
     forall p c, p ∈ sq (r (csys v)) ++ flight (r (csys v)) -> contexts (data (r (csys v))) !! p = Some c ->
       cstate c = id -> kind c = Cancel)) /\
  (caps v !! id = Some CapCancel ->
   run_post (wait_drained id cx) o (r (csys v)) (rh (csys v)) (fun a _ _ => a = Done true ->
     forall p c, p ∈ sq (r (csys v)) ++ flight (r (csys v)) -> contexts (data (r (csys v))) !! p = Some c ->
       cstate c <> id)).
Proof.
  destruct (client_contract v Hr Hx) as [Hc Hreach]. pose proof (reach_good new_box o supported cfg Hbox Hkernel _ Hreach Hx) as Hg.
  split; intros Hcap.
  - intros Hsh. destruct (co_stream _ _ Hc id false Hcap) as [Hd|(u & Hu & [_ Ho])]; [congruence|].
    destruct Ho as [Ho|[Ho [Hn|]]]; [|by eapply next_overflowed|done].
    eapply run_post_mono; [by eapply stream_ended|]. intros a s' h' Hq Ha. by destruct (Hq Ha) as (_ & _ & _ & H4 & H5).
  - destruct (co_known _ _ Hc id _ Hcap) as [u Hu]. by apply (drain_retires _ id cx u).
Qed.

End Contract.

(** ** Runs of a client *)

Module ClientRun.
Import Sample.
Definition fine : IoUringConfig := config_default.
Definition client (x : RSys Z) (m : gmap SubId Cap) : CSys := mkCSys x m.
Notation creach := (reachable client_init (client_step new_box kernel all_supported fine)).

(** A client submits two entries, which the kernel takes, and has its stream. *)
Definition idle : CSys := mkCSys start ∅.
Definition submitted : CSys :=
  cexec kernel (submit_entries 65536 1%N false [70; 71]) idle (fun _ => insert 1%N (CapSubmit false)).
Definition taken : CSys := cexec kernel (driver_admit new_box 1%N (mkAdmission [70; 71] None 0)) submitted (fun _ m => m).
Definition streams : CSys :=
  cexec kernel (submit_check 9%N (mkSubmit (mkAdmission [] None 2) 1%N false false)) taken (fun q => checked q 1%N).

Lemma streams_reached : creach streams.
Proof.
  apply (reach_step _ _ taken); [apply (reach_step _ _ submitted); [apply (reach_step _ _ idle); [by apply reach_init|]|]|].
  - split; [done|]. apply (cs_submit new_box kernel all_supported fine idle). by apply not_elem_of_dom.
  - split; [by vm_compute|]. apply (cs_admit new_box kernel all_supported fine submitted). by vm_compute.
  - split; [by vm_compute|]. apply (cs_check new_box kernel all_supported fine taken 1%N false). by vm_compute.
Qed.

(** The owner shuts the driver down, which detaches the submission. *)
Definition closing : CSys := mkCSys (exec_ kernel shutdown_section (csys streams)) (caps streams).
Definition detached : CSys := mkCSys (exec_ kernel (close_delivery 1%N Detached) (csys closing)) (caps closing).

Lemma detached_reached : creach detached.
Proof.
  apply (reach_step _ _ closing); [apply (reach_step _ _ streams); [apply streams_reached|]|].
  - split; [by vm_compute|]. apply (cs_inner new_box kernel all_supported fine streams), is_shutdown.
  - split; [by vm_compute|]. apply (cs_inner new_box kernel all_supported fine closing), is_shutdown_close; [by vm_compute|]. apply elem_of_dom. vm_compute. by eexists.
Qed.

(** Or the kernel completes both, and the client reads them. *)
Definition inner (x : RSys Z) (v : CSys (T := Z)) : CSys (T := Z) := mkCSys x (caps v).
Definition posted_a : CSys := inner (posted (1, false, 5) (csys streams)) streams.
Definition posted_b : CSys := inner (posted (2, false, 0) (csys posted_a)) posted_a.
Definition reaped_ : CSys := inner (reaped (csys posted_b)) posted_b.
Definition dispatched_a : CSys := inner (dispatched (1, false, 5) [(2, false, 0)] (csys reaped_)) reaped_.
Definition dispatched_b : CSys := inner (dispatched (2, false, 0) [] (csys dispatched_a)) dispatched_a.
Definition reads (v : CSys (T := Z)) : CSys (T := Z) := cexec kernel (next_completion 1%N 9%N) v (fun q => stepped q 1%N).

Lemma read_reached : creach (reads (reads dispatched_b)).
Proof.
  apply (reach_step _ _ (reads dispatched_b)); [apply (reach_step _ _ dispatched_b); [apply (reach_step _ _ dispatched_a);
    [apply (reach_step _ _ reaped_); [apply (reach_step _ _ posted_b); [apply (reach_step _ _ posted_a);
    [apply (reach_step _ _ streams); [apply streams_reached|]|]|]|]|]|]|].
  - split; [by vm_compute|]. apply (cs_inner new_box kernel all_supported fine streams), is_kernel. split; [vm_compute; by left|by vm_compute].
  - split; [by vm_compute|]. apply (cs_inner new_box kernel all_supported fine posted_a), is_kernel. split; [vm_compute; by left|by vm_compute].
  - split; [by vm_compute|]. apply (cs_inner new_box kernel all_supported fine posted_b), (is_reap new_box kernel all_supported fine (csys posted_b)); by vm_compute.
  - split; [by vm_compute|]. apply (cs_inner new_box kernel all_supported fine reaped_), (is_dispatch new_box kernel all_supported fine (csys reaped_)). by vm_compute.
  - split; [by vm_compute|]. apply (cs_inner new_box kernel all_supported fine dispatched_a), (is_dispatch new_box kernel all_supported fine (csys dispatched_a)). by vm_compute.
  - split; [by vm_compute|]. apply (cs_next new_box kernel all_supported fine dispatched_b 1%N false). by vm_compute.
  - split; [by vm_compute|]. apply (cs_next new_box kernel all_supported fine (reads dispatched_b) 1%N false). by vm_compute.
Qed.

Lemma stream_contract_witness : no_original (data (r (csys (reads (reads dispatched_b))))) 1%N.
Proof.
  assert (crash (csys (reads (reads dispatched_b))) = None) as Hx by (by vm_compute).
  assert (caps (reads (reads dispatched_b)) !! 1%N = Some (CapStream false)) as Hcap by (by vm_compute).
  assert (dshutdown (data (r (csys (reads (reads dispatched_b))))) = false) as Hs by (by vm_compute).
  destruct (stream_contract new_box kernel all_supported fine new_box_fresh kernel_ok
    (reads (reads dispatched_b)) 1%N 9%N read_reached Hx) as [H _].
  destruct (H Hcap Hs) as [H1 _]; [by vm_compute|exact H1].
Defined.

(** C37. The promise ends with the driver's shutdown: there is a run of the code in which
    a client that holds a stream, which never reported an error, is answered [None]
    by [next] while the kernel still holds both its original entries, so the memory
    they refer to is still in use. *)
Theorem shutdown_ends_streams_early : exists v : CSys (T := Z),
  creach v /\ crash (csys v) = None /\ caps v !! 1%N = Some (CapStream false) /\
  outcome_of (next_completion 1%N 9%N kernel (r (csys v)) (rh (csys v))) = Done (Some None) /\
  flight (r (csys v)) = [1; 2] /\
  forall p, p ∈ flight (r (csys v)) -> exists c,
    contexts (data (r (csys v))) !! p = Some c /\ cstate c = 1%N /\ kind c = Original.
Proof.
  exists detached. split; [apply detached_reached|]. assert (flight (r (csys detached)) = [1; 2]) as E by (by vm_compute).
  split_and!; [by vm_compute..|]. intros p. rewrite E.
  intros [->|[->|[]%elem_of_nil]%elem_of_cons]%elem_of_cons; (eexists; split; [by vm_compute|by split]).
Qed.
End ClientRun.
