(* ===== verification/RingGate.v ===== *)
(** * RingGate: parking and waking the io_uring driver ([src/src/io_uring.rs])

    The native gate of [IoUringDriver]: start, [notify], the parking part of [run],
    retirement and the callbacks.  What the gate needs to know of the ring is an
    interface, [WorkSource]: how producers change the data, whether they then notify,
    and what [decide] answers.  The driver never sleeps on work, for every source with
    [WorkLaws]; [RingWork] shows that the ring is one. *)

From Stdlib Require Import ZArith Lia.
From stdpp Require Import base gmap sets list strings.
From S2P Require Import Prelude Errors Ffi Ring RingOps.

Open Scope Z_scope.

(** ** Data *)

Inductive RingPark : Type :=
| RBuilding
| RRunning
| RPaused
| RDeadlineWait
| RWakePending
| RTerminal
| RDestroyed.

#[export] Instance RingPark_eq_dec : EqDecision RingPark.
Proof. solve_decision. Defined.
#[export] Instance RunDecision_eq_dec : EqDecision RunDecision.
Proof. solve_decision. Defined.

(** [DriverGate], and the [completed] flag. *)
Record GState : Type := mkGate {
  g_raw : option RawTask;
  g_phase : RingPark;
  g_notified : bool;
  g_completed : bool
}.

Definition set_g_raw x g := mkGate x (g_phase g) (g_notified g) (g_completed g).
Definition set_g_phase x g := mkGate (g_raw g) x (g_notified g) (g_completed g).
Definition set_g_notified x g := mkGate (g_raw g) (g_phase g) x (g_completed g).
Definition set_g_completed x g := mkGate (g_raw g) (g_phase g) (g_notified g) x.

Definition gate_new : GState := mkGate None RBuilding false false.

Section Gate.
Context `{codes : NosvCodes}.

(** ** Start *)

(** [IoUringDriver::start], on the gate of the driver it allocated. *)
Definition ring_start (ty : RawTaskType) : nprog GState (result NativeError unit) :=
  let? raw := create ty 8 in
  m ← metadata raw;
  match m with
  | Err error => _ ← destroy raw; mret (Err error)
  | Ok _ =>
      _ ← modify (set_g_raw (Some raw));
      _ ← modify (set_g_phase RRunning);
      r ← submit raw;
      match r with
      | Err error =>
          _ ← modify (set_g_raw None);
          _ ← modify (set_g_phase RDestroyed);
          _ ← destroy raw;
          mret (Err error)
      | Ok _ => mret (Ok tt)
      end
  end.

(** ** Notification *)

Definition ring_notify : nprog GState unit :=
  _ ← modify (set_g_notified true);
  g ← get;
  let send (deadline_wake : bool) : nprog GState unit :=
    _ ← modify (set_g_phase RWakePending);
    match g_raw g with
    | None => abort "driver descriptor missing"
    | Some raw =>
        r ← (if deadline_wake then submit_deadline_wake raw else submit raw);
        match r with Ok _ => mret tt | Err _ => abort "driver wake submit failed" end
    end in
  match g_phase g with
  | RPaused => send false
  | RDeadlineWait => send true
  | RRunning | RWakePending => mret tt
  | RBuilding | RTerminal | RDestroyed => mret tt
  end.

(** ** The run loop around a pass *)

(** The wakers of a pass, through a submit window. *)
Definition wake_batch (ws : list Waker) : nprog GState unit :=
  match ws with
  | [] => mret tt
  | _ =>
      r ← set_submit_window_size (Z.of_nat (length ws));
      match r with
      | Err _ => abort "submit window set failed"
      | Ok _ =>
          _ ← for_each (fun w => _ ← catch_unwind (wake w); mret tt) ws;
          r ← flush_submit_window;
          match r with Err _ => abort "submit window flush failed" | Ok _ => mret tt end
      end
  end.

(** The gate section after a decision other than [Stop]: whether to park. *)
Definition gate_section (decision : RunDecision) : nprog GState bool :=
  g ← get;
  if g_notified g then
    _ ← modify (set_g_notified false);
    _ ← modify (set_g_phase RRunning);
    mret false
  else
    match decision with
    | DYield => _ ← modify (set_g_phase RRunning); mret true
    | DWait => _ ← modify (set_g_phase RDeadlineWait); mret true
    | DPause => _ ← modify (set_g_phase RPaused); mret true
    | DStop => panic "unreachable"
    end.

Definition ring_park (poll : Z) (decision : RunDecision) : nprog GState unit :=
  r ← match decision with
      | DYield => yield_now
      | DWait => waitfor poll
      | DPause => pause
      | DStop => panic "unreachable"
      end;
  match r with Ok _ => mret tt | Err _ => abort "driver could not yield or park" end.

Definition ring_resumed : nprog GState unit := modify (set_g_phase RRunning).

(** The stop branch, once the ring was dropped. *)
Definition ring_stopped : nprog GState unit := modify (set_g_phase RTerminal).

(** The rest of one iteration after its pass, with nothing in between: [true] when
    the loop returns. *)
Definition run_iteration (poll : Z) (ws : list Waker) (decision : RunDecision) : nprog GState bool :=
  _ ← wake_batch ws;
  match decision with
  | DStop => _ ← ring_stopped; mret true
  | _ =>
      should_park ← gate_section decision;
      if negb should_park then mret false else
      _ ← ring_park poll decision;
      _ ← ring_resumed;
      mret false
  end.

(** ** Retirement and callbacks *)

Definition ring_retire : nprog GState unit :=
  g ← get;
  match g_phase g with
  | RTerminal =>
      _ ← modify (set_g_raw None);
      match g_raw g with
      | None => abort "missing driver descriptor"
      | Some raw =>
          r ← destroy raw;
          match r with
          | Err _ => abort "driver destroy failed"
          | Ok _ =>
              _ ← modify (set_g_phase RDestroyed);
              modify (set_g_completed true)
          end
      end
  | _ => abort "early driver completion"
  end.

Definition driver_owner (raw : RawTask) : nprog GState unit :=
  m ← metadata raw;
  match m with Ok _ => mret tt | Err _ => abort "driver metadata missing" end.

Definition ring_run_callback (pointer : N) (run : nprog GState unit) : nprog GState unit :=
  r ← catch_unwind (
    match from_ptr pointer with
    | None => abort "null driver"
    | Some raw => _ ← driver_owner raw; run
    end);
  match r with Ok _ => mret tt | Err _ => abort "panic in io_uring driver callback" end.

Definition ring_completed_callback (pointer : N) : nprog GState unit :=
  r ← catch_unwind (
    match from_ptr pointer with
    | None => abort "null completed driver"
    | Some raw => _ ← driver_owner raw; ring_retire
    end);
  match r with Ok _ => mret tt | Err _ => abort "panic in io_uring completion callback" end.
End Gate.

(** Starting is all or nothing, as for the timer driver. *)
Lemma ring_start_contract `{codes : NosvCodes} (o : noracle) (ty : RawTaskType) (h : nhistory) :
  run_post (ring_start ty) o gate_new h (fun r g h' => exists new, h' = new ++ h /\
    match r with
    | Done (Ok _) => exists raw, count (creates raw) new = 1%nat /\ count (destroys raw) new = 0%nat /\
        calls new = [NCreate ty 8; NMetadata raw; NSubmit raw SUBMIT_NONE] /\
        (forall st, stack new st = Some (RDesc raw :: st)) /\
        g = mkGate (Some raw) RRunning false false
    | Done (Err _) => all_destroyed new /\ (forall st, stack new st = Some st) /\ g_raw g = None /\ g_completed g = false
    | _ => False
    end).
Proof.
  unfold ring_start. apply run_post_bind, create_post; cbn [then_post]; set (e1 := (NCreate _ _, _)).
  { intros err Hn Hst. exists [e1]. by split_and!. }
  intros raw Hmade. pose proof Hmade as (Hcr & He1 & _). apply run_post_bind, metadata_post. cbn [then_post]. set (r2 := o _ _).
  set (e2 := (NMetadata raw, r2)).
  assert (Forall configures [e2]) as He2 by (by repeat constructor).
  destruct (rptr r2) as [|mptr]; cbn [non_null ok_or].
  { apply run_post_bind, status_post. cbn [then_post]. set (r3 := o _ _). apply run_post_ret.
    exists ((NDestroy raw, r3) :: [] ++ [e2] ++ [e1]). split_and!; try done.
    - apply (created_then_destroyed raw e1 [e2] Hcr He1 He2). by left.
    - intros st. by apply stack_destroyed, (stack_over [e2]), configures_stackless. }
  do 2 (eapply run_post_bind_eq; [reflexivity|]).
  apply run_post_bind, status_post. cbn [then_post]. set (r3 := o _ _).
  destruct (from_code (rcode r3)) as [[]|e] eqn:Hsub.
  - apply run_post_ret. exists ((NSubmit raw SUBMIT_NONE, r3) :: [e2] ++ [e1]). split; [done|].
    exists raw. destruct (created_counts raw e1 [e2] Hcr He1 He2 raw) as (Hc & Hd & _).
    split_and!; try done.
    + cbn [count]. by rewrite Hc, bool_decide_true.
    + intros st. apply (stack_over [(NSubmit raw SUBMIT_NONE, r3); e2]); [done|]. by repeat constructor.
  - do 2 (eapply run_post_bind_eq; [reflexivity|]).
    apply run_post_bind, status_post. cbn [then_post]. set (r4 := o _ _). apply run_post_ret.
    exists ((NDestroy raw, r4) :: [(NSubmit raw SUBMIT_NONE, r3)] ++ [e2] ++ [e1]).
    split_and!; try done.
    + apply (created_then_destroyed raw e1 [e2] Hcr He1 He2). right. by eexists.
    + intros st. apply stack_destroyed, (stack_over [(NSubmit raw SUBMIT_NONE, r3); e2]); [done|].
      by repeat constructor.
Qed.

(** ** The data the driver works on, as the gate sees it *)

Class WorkSource (D : Type) : Type := {
  produces : bool -> D -> D -> Prop;   (* a section of another thread, and whether it then notifies *)
  drives : D -> D -> Prop;             (* a section of the driver's task *)
  drops : D -> D;                      (* what a stopping [run] drops before it is terminal *)
  looks : bool -> D -> RunDecision     (* [decide], given the CQ backlog *)
}.

(** Work that makes the driver's decision stale is announced. *)
Class WorkLaws (D : Type) `{WorkSource D} : Prop := {
  looks_backlog b d : looks b d = DPause \/ looks b d = DWait -> looks false d = looks b d;
  pause_stable due d d' : produces due d d' -> due = false -> looks false d = DPause -> looks false d' = DPause;
  wait_stable due d d' : produces due d d' -> due = false -> looks false d = DWait ->
    looks false d' = DWait
}.

(** ** The driver's task among the producers *)

Inductive GPc : Type :=
| GTop
| GDeciding (decision : RunDecision)
| GParked (decision : RunDecision)
| GResuming
| GReturned
| GRetired
| GDead.

Section System.
Context `{codes : NosvCodes} {D : Type} `{W : WorkSource D}.
Variable o : noracle.
Variable poll : Z.

(** The data, the gate, the native history, where the driver's task is, and the
    calls of [notify] that are due. *)
Record GSys : Type := mkGSys { gd : D; gg : GState; gh : nhistory; gpc : GPc; owed : nat }.

Definition goto (p : GPc) (x : GSys) : GSys := mkGSys (gd x) (gg x) (gh x) p (owed x).
Definition set_gd (d : D) (x : GSys) : GSys := mkGSys d (gg x) (gh x) (gpc x) (owed x).
Definition set_owed (n : nat) (x : GSys) : GSys := mkGSys (gd x) (gg x) (gh x) (gpc x) n.

(** Runs a section of the gate; an abort ends the process. *)
Definition on_gate {A} (m : nprog GState A) (x : GSys) (k : A -> GSys -> GSys) : GSys :=
  match m o (gg x) (gh x) with
  | (Done a, g, h) => k a (mkGSys (gd x) g h (gpc x) (owed x))
  | (_, g, h) => mkGSys (gd x) g h GDead (owed x)
  end.

Inductive gstep : GSys -> GSys -> Prop :=
| gs_produce x due d' :
    gpc x <> GDead -> produces due (gd x) d' ->
    gstep x (set_owed (if due then S (owed x) else owed x) (set_gd d' x))
| gs_notify x n :
    gpc x <> GDead -> owed x = S n -> gstep x (on_gate ring_notify x (fun _ x => set_owed n x))
| gs_drive x d' : gpc x = GTop -> drives (gd x) d' -> gstep x (set_gd d' x)
| gs_wakes x ws : gpc x = GTop -> gstep x (on_gate (wake_batch ws) x (fun _ x => x))
| gs_decide x backlog : gpc x = GTop -> gstep x (goto (GDeciding (looks backlog (gd x))) x)
| gs_stop x : gpc x = GDeciding DStop -> gstep x (on_gate ring_stopped x (fun _ x => goto GReturned (set_gd (drops (gd x)) x)))
| gs_gate x dec :
    gpc x = GDeciding dec -> dec <> DStop ->
    gstep x (on_gate (gate_section dec) x (fun (park : bool) x => goto (if park then GParked dec else GTop) x))
| gs_park x dec :
    gpc x = GParked dec -> gstep x (on_gate (ring_park poll dec) x (fun _ x => goto GResuming x))
| gs_resume x : gpc x = GResuming -> gstep x (on_gate ring_resumed x (fun _ x => goto GTop x))
| gs_retire x p :
    gpc x = GReturned -> g_raw (gg x) = Some p ->
    gstep x (on_gate (ring_completed_callback (Npos p)) x (fun _ x => goto GRetired x)).

(** The state [start] leaves. *)
Definition ginit (raw : RawTask) (x : GSys) : Prop :=
  gg x = mkGate (Some raw) RRunning false false /\ gpc x = GTop /\ owed x = 0%nat /\
  count (destroys raw) (gh x) = 0%nat.

(** ** The invariant *)

Definition alerted (x : GSys) : Prop := g_notified (gg x) = true \/ (0 < owed x)%nat.

Definition park_phase (dec : RunDecision) : RingPark :=
  match dec with DPause => RPaused | DWait => RDeadlineWait | _ => RRunning end.

Definition gate_ok (raw : RawTask) (x : GSys) : Prop :=
  match gpc x with
  | GTop | GDeciding _ => g_raw (gg x) = Some raw /\ g_phase (gg x) = RRunning
  | GParked dec =>
      g_raw (gg x) = Some raw /\ dec <> DStop /\
      (g_phase (gg x) = park_phase dec /\ (dec = DPause \/ dec = DWait -> g_notified (gg x) = false) \/
       g_phase (gg x) = RWakePending /\ g_notified (gg x) = true)
  | GResuming => g_raw (gg x) = Some raw /\
      (g_phase (gg x) = RRunning \/ g_phase (gg x) = RPaused \/ g_phase (gg x) = RDeadlineWait \/
       g_phase (gg x) = RWakePending)
  | GReturned => g_raw (gg x) = Some raw /\ g_phase (gg x) = RTerminal
  | GRetired => g_raw (gg x) = None /\ g_phase (gg x) = RDestroyed
  | GDead => True
  end.

Definition retired (p : GPc) : bool := match p with GRetired => true | _ => false end.

Definition native_ok (raw : RawTask) (x : GSys) : Prop :=
  no_use_after_destroy raw (gh x) /\
  (gpc x <> GDead -> count (destroys raw) (gh x) = (if retired (gpc x) then 1 else 0)%nat).

(** The decision is still right, or the driver will be told. *)
Definition decided_ok (dec : RunDecision) (x : GSys) : Prop :=
  match dec with
  | DPause => looks false (gd x) = DPause \/ alerted x
  | DWait => looks false (gd x) = DWait \/ alerted x
  | _ => True
  end.

Definition work_ok (x : GSys) : Prop :=
  match gpc x with GDeciding dec | GParked dec => decided_ok dec x | _ => True end.

Definition ginv (raw : RawTask) (x : GSys) : Prop :=
  gate_ok raw x /\ native_ok raw x /\ work_ok x.

(** ** Every step keeps it *)

Context `{HW : !WorkLaws D}.
Context (raw : RawTask).
Implicit Types (x : GSys) (g : GState) (h : nhistory).

Lemma native_live x : count (destroys raw) (gh x) = 0%nat -> retired (gpc x) = false -> native_ok raw x.
Proof. intros Hc Hp. split; [by apply undestroyed_safe|]. intros _. by rewrite Hp. Qed.

Lemma native_count x : native_ok raw x -> gpc x <> GDead -> retired (gpc x) = false ->
  count (destroys raw) (gh x) = 0%nat.
Proof. intros [_ Hc] Hd Hp. rewrite Hc by done. by rewrite Hp. Qed.

Lemma ring_notify_cases g h :
  g_raw g = Some raw \/ g_phase g = RDestroyed ->
  match ring_notify o g h with
  | (Done _, g', h') =>
      g_notified g' = true /\ g_raw g' = g_raw g /\
      match g_phase g with
      | RPaused => g_phase g' = RWakePending /\ exists r, h' = (NSubmit raw SUBMIT_NONE, r) :: h
      | RDeadlineWait =>
          g_phase g' = RWakePending /\ exists r, h' = (NSubmit raw SUBMIT_DEADLINE_WAKE, r) :: h
      | p => g_phase g' = p /\ h' = h
      end
  | (Aborted _, g', h') => exists f r, h' = (NSubmit raw f, r) :: h /\
      (g_phase g = RPaused \/ g_phase g = RDeadlineWait)
  | _ => False
  end.
Proof.
  intros Hraw. unfold ring_notify, submit_deadline_wake, submit, submit_with, Ffi.status. run_unfold.
  destruct (g_phase g) eqn:Hp; cbn; try done;
    (destruct Hraw as [Hraw | ?]; [|done]); cbn; rewrite ?Hraw; cbn;
    match goal with |- context [o h ?c] => destruct (from_code (rcode (o h c))) as [[]|] end;
    cbn; rewrite ?Hraw; eauto 10.
Qed.

(** Sections without calls that destroy the descriptor. *)
Definition quiet_section {A} (g : GState) (h : nhistory) : outcome A -> GState -> nhistory -> Prop :=
  fun r g' h' =>
    match r with Done _ | Aborted _ => True | _ => False end /\
    g' = g /\ count (destroys raw) h' = count (destroys raw) h.

Lemma wake_each_post ws : forall g h,
  exists h', for_each (fun w => _ ← catch_unwind (wake w); mret tt) ws o g h = (Done tt, g, h') /\
    count (destroys raw) h' = count (destroys raw) h.
Proof.
  induction ws as [|w ws IH]; intros g h; [by exists h|].
  destruct (IH g ((WakeCall w, o h (WakeCall w)) :: h)) as (h' & E & Hc). exists h'. split; [exact E|exact Hc].
Qed.

Lemma wake_batch_post ws g h : run_post (wake_batch ws) o g h (quiet_section g h).
Proof.
  destruct ws as [|w ws]; [by apply run_post_ret|].
  apply run_post_bind, status_post. cbn [then_post]. destruct (from_code _); [|done].
  match goal with |- run_post _ o g ?h0 _ => destruct (wake_each_post (w :: ws) g h0) as (h' & E & Hc) end.
  eapply run_post_bind_eq; [exact E|]. apply run_post_bind, status_post. cbn [then_post].
  by destruct (from_code _).
Qed.

Lemma ginv_produce x due d' :
  ginv raw x -> produces due (gd x) d' ->
  ginv raw (set_owed (if due then S (owed x) else owed x) (set_gd d' x)).
Proof.
  intros (Hg & Hn & Hw) Hp. split_and!; [exact Hg|exact Hn|].
  assert (forall dec, decided_ok dec x ->
    decided_ok dec (set_owed (if due then S (owed x) else owed x) (set_gd d' x))) as Hd.
  { intros dec. unfold decided_ok, alerted. cbn. destruct due; [destruct dec; intros; auto; right; right; lia|].
    pose proof (pause_stable false _ _ Hp eq_refl) as H1. pose proof (wait_stable false _ _ Hp eq_refl) as H2.
    destruct dec; naive_solver. }
  unfold work_ok in *. cbn. destruct (gpc x); auto.
Qed.

Lemma ginv_notify x n :
  ginv raw x -> gpc x <> GDead -> owed x = S n -> ginv raw (on_gate ring_notify x (fun _ x => set_owed n x)).
Proof.
  intros (Hg & Hn & Hw) Hpc Ho.
  assert (g_raw (gg x) = Some raw \/ g_phase (gg x) = RDestroyed) as Hraw.
  { unfold gate_ok in Hg. destruct (gpc x); tauto. }
  pose proof (ring_notify_cases (gg x) (gh x) Hraw) as Hc. unfold on_gate.
  assert (g_phase (gg x) = RPaused \/ g_phase (gg x) = RDeadlineWait ->
          retired (gpc x) = false /\ count (destroys raw) (gh x) = 0%nat) as Hlive.
  { intros Hp. assert (retired (gpc x) = false) as Hr.
    { unfold gate_ok in Hg. destruct (gpc x); try done. destruct Hg as [_ Hg], Hp; congruence. }
    split; [done|]. by apply native_count. }
  destruct (ring_notify o (gg x) (gh x)) as [[[a|e|e|e] g'] h']; cbn in *; try done.
  - destruct Hc as (H1 & H2 & H3).
    assert (native_ok raw (mkGSys (gd x) g' h' (gpc x) n)) as Hn'.
    { destruct (g_phase (gg x)) eqn:Hp; destruct H3 as [_ H3]; try (subst h'; exact Hn);
        destruct H3 as [r ->]; destruct Hlive as [Hl1 Hl2]; auto; by apply native_live. }
    split_and!; [|exact Hn'|].
    + unfold gate_ok in *. cbn. rewrite H2. destruct (gpc x) as [|dec|dec| | | |].
      * destruct Hg as [Hgr Hg]. rewrite Hg in H3. by destruct H3.
      * destruct Hg as [Hgr Hg]. rewrite Hg in H3. by destruct H3.
      * destruct Hg as (Hgr & Hds & Hg). split; [done|]. split; [done|].
        destruct Hg as [[Hp Hnot]|[Hp Hnot]]; rewrite Hp in H3; [|right; by destruct H3].
        destruct dec; cbn in *; destruct H3 as [H3 _]; try done; auto; left; (split; [done|]); by intros [].
      * destruct Hg as [Hgr Hg]. split; [done|].
        destruct Hg as [Hp|[Hp|[Hp|Hp]]]; rewrite Hp in H3; destruct H3 as [-> _]; auto.
      * destruct Hg as [Hgr Hg]. rewrite Hg in H3. by destruct H3.
      * destruct Hg as [Hgr Hg]. rewrite Hg in H3. by destruct H3.
      * done.
    + assert (forall dec, decided_ok dec (set_owed n (mkGSys (gd x) g' h' (gpc x) (owed x)))) as Hd.
      { intros []; cbn; auto; unfold alerted; cbn; auto. }
      unfold work_ok. cbn. destruct (gpc x); auto; apply Hd.
  - destruct Hc as (f & r & -> & Hp). destruct (Hlive Hp) as [_ Hl]. split_and!; [done| |done].
    by apply native_live.
Qed.

(** A section of the driver's task that leaves the descriptor alone. *)
Lemma ginv_task {A} (m : nprog GState A) x (k : A -> GSys -> GSys) :
  native_ok raw x -> gpc x <> GDead -> retired (gpc x) = false ->
  match m o (gg x) (gh x) with
  | (Done a, g, h) =>
      count (destroys raw) h = count (destroys raw) (gh x) /\
      (count (destroys raw) h = 0%nat -> ginv raw (k a (mkGSys (gd x) g h (gpc x) (owed x))))
  | (_, g, h) => count (destroys raw) h = count (destroys raw) (gh x)
  end -> ginv raw (on_gate m x k).
Proof.
  intros Hn Hd Hr Hm. pose proof (native_count x Hn Hd Hr) as H0. unfold on_gate.
  destruct (m o (gg x) (gh x)) as [[[a|e|e|e] g] h]; [destruct Hm as [Hc Hm]; apply Hm; congruence|..];
    (split_and!; [done|apply native_live; [cbn; congruence|done]|done]).
Qed.

Lemma ginv_gate x dec :
  ginv raw x -> gpc x = GDeciding dec -> dec <> DStop ->
  ginv raw (on_gate (gate_section dec) x (fun (park : bool) x => goto (if park then GParked dec else GTop) x)).
Proof.
  intros (Hg & Hn & Hw) Hpc Hdec. apply ginv_task; [done|by rewrite Hpc..|].
  unfold gate_ok in Hg; unfold work_ok in Hw; rewrite Hpc in Hg, Hw. destruct Hg as [Hgr Hgp].
  unfold gate_section. run_unfold. destruct (g_notified (gg x)) eqn:Enot; cbn.
  - split; [done|]. intros H0. split_and!; [done|by apply native_live|done].
  - destruct dec; cbn; try done; (split; [done|]); intros H0;
      (split_and!; [cbn; split_and!; auto|by apply native_live|]); try done;
      unfold work_ok, decided_ok, alerted in *; cbn in *; rewrite Enot in *; tauto.
Qed.

Lemma ginv_park x dec :
  ginv raw x -> gpc x = GParked dec -> ginv raw (on_gate (ring_park poll dec) x (fun _ x => goto GResuming x)).
Proof.
  intros (Hg & Hn & Hw) Hpc. apply ginv_task; [done|by rewrite Hpc..|].
  unfold gate_ok in Hg; rewrite Hpc in Hg. destruct Hg as (Hgr & Hdec & Hg).
  unfold ring_park, yield_now, waitfor, pause, Ffi.status. run_unfold.
  destruct dec; cbn; try done; destruct (from_code _) as [[]|]; cbn; try done;
    (split; [done|]); intros H0; (split_and!; [|by apply native_live|done]); cbn; (split; [done|]);
    destruct Hg as [[-> _]|[-> _]]; auto.
Qed.

Lemma ginv_retire x p :
  ginv raw x -> gpc x = GReturned -> g_raw (gg x) = Some p ->
  ginv raw (on_gate (ring_completed_callback (Npos p)) x (fun _ x => goto GRetired x)).
Proof.
  intros (Hg & Hn & Hw) Hpc Hp. pose proof (native_count x Hn ltac:(by rewrite Hpc) ltac:(by rewrite Hpc)) as H0.
  unfold gate_ok in Hg; rewrite Hpc in Hg. destruct Hg as [Hgr Hph]. assert (p = raw) as -> by congruence.
  destruct Hn as [Hn _].
  unfold on_gate, ring_completed_callback, driver_owner, ring_retire, metadata, destroy, Ffi.status.
  run_unfold. destruct (rptr _); cbn; [split_and!; [done|split; [by split|done]|done]|].
  rewrite Hph, Hgr. cbn. destruct (from_code _) as [[]|]; cbn;
    (split_and!; [done|split; [by split|]|done]); try done; intros _; cbn; rewrite ?bool_decide_true, ?H0 by done;
    done.
Qed.

Lemma gstep_inv x y : ginv raw x -> gstep x y -> ginv raw y.
Proof.
  intros Hi Hstep. destruct Hstep as [x due d' Hpc Hp|x n Hpc Ho|x d' Hpc Hd|x ws Hpc|x b Hpc|x Hpc
    |x dec Hpc Hdec|x dec Hpc|x Hpc|x p Hpc Hp].
  - by apply ginv_produce.
  - by apply ginv_notify.
  - destruct Hi as (Hg & Hn & Hw). split_and!; [exact Hg|exact Hn|]. unfold work_ok. cbn. by rewrite Hpc.
  - destruct Hi as (Hg & Hn & Hw). apply ginv_task; [done|by rewrite Hpc..|].
    pose proof (wake_batch_post ws (gg x) (gh x)) as Hc. unfold run_post in Hc.
    destruct (wake_batch ws o (gg x) (gh x)) as [[[a|e|e|e] g] h]; destruct Hc as (? & Hg' & Hc);
      cbn in *; subst g; [|done..].
    split; [done|]. intros H0. split_and!; [exact Hg|apply native_live; [done|by rewrite Hpc]|].
    unfold work_ok. cbn. by rewrite Hpc.
  - destruct Hi as (Hg & Hn & Hw). unfold gate_ok in Hg. rewrite Hpc in Hg. split_and!.
    + exact Hg.
    + apply native_live; [|done]. exact (native_count x Hn ltac:(by rewrite Hpc) ltac:(by rewrite Hpc)).
    + unfold work_ok, decided_ok. cbn. destruct (looks b (gd x)) eqn:E; try done;
        rewrite (looks_backlog b); rewrite E; auto.
  - destruct Hi as (Hg & Hn & Hw). apply ginv_task; [done|by rewrite Hpc..|]. cbn. split; [done|].
    intros H0. unfold gate_ok in Hg. rewrite Hpc in Hg. destruct Hg as [Hg _].
    split_and!; [done|by apply native_live|done].
  - by apply ginv_gate.
  - by apply ginv_park.
  - destruct Hi as (Hg & Hn & Hw). apply ginv_task; [done|by rewrite Hpc..|]. cbn. split; [done|].
    intros H0. unfold gate_ok in Hg. rewrite Hpc in Hg. destruct Hg as [Hg _].
    split_and!; [done|by apply native_live|done].
  - by apply ginv_retire.
Qed.

Lemma gate_reachable_inv x : reachable (ginit raw) gstep x -> ginv raw x.
Proof.
  apply reachable_invariant.
  - intros y (Hg & Hpc & Ho & H0). split_and!.
    + unfold gate_ok. by rewrite Hpc, Hg.
    + apply native_live; [done|by rewrite Hpc].
    + unfold work_ok. by rewrite Hpc.
  - intros a b. apply gstep_inv.
Qed.
End System.
