(* ===== verification/RingWork.v ===== *)
(** * RingWork: the ring as the work of its driver's gate

    The sections of other threads on the ring announce every change that makes the
    driver's decision stale, so the ring is a [WorkSource] with [WorkLaws]; the
    guarantees of the gate follow for it. *)

From Stdlib Require Import ZArith Lia.
From stdpp Require Import base gmap sets list strings.
From S2P Require Import Prelude Errors Ffi Ring RingOps RingFutures RingInv RingSys RingSpec RingStop RingGate.

Open Scope Z_scope.

Section Work.
Context `{U : Uring} {T : Type}.
Notation ring := (Ring T).
Notation uhist := (history ucall uresp).
Notation uoracle := (oracle ucall uresp).
Variable new_box : uhist -> gset Z -> Z.
Implicit Types (s : ring) (h : uhist) (o : uoracle) (id : SubId).

(** A section of another thread, with any answers of the environment, and whether a
    call of [notify] follows it. *)
Inductive ring_produces : bool -> ring -> ring -> Prop :=
| rp_submit lim id closed es o s h a s' h' :
    submit_entries lim id closed es o s h = (Done a, s', h') -> ring_produces false s s'
| rp_admit id a o s h a' ws due s' h' :
    driver_admit new_box id a o s h = (Done (a', ws, due), s', h') -> ring_produces due s s'
| rp_check cx se o s h a s' h' : submit_check cx se o s h = (Done a, s', h') -> ring_produces false s s'
| rp_close id dl o s h a s' h' : close_delivery id dl o s h = (Done a, s', h') -> ring_produces false s s'
| rp_queue id o s h a s' h' : queue_cancels id o s h = (Done a, s', h') -> ring_produces true s s'
| rp_next id cx o s h a s' h' : next_completion id cx o s h = (Done a, s', h') -> ring_produces false s s'
| rp_next_cancel id cx o s h a s' h' :
    next_cancellation id cx o s h = (Done a, s', h') -> ring_produces false s s'
| rp_drain id cx o s h a s' h' : wait_drained id cx o s h = (Done a, s', h') -> ring_produces false s s'
| rp_detach id s : ring_produces false s (on_sub id detach s)
| rp_handles m s : ring_produces false s (set_handles m s)
| rp_controls m s : ring_produces false s (set_controls m s)
| rp_enqueue op o s h r s' h' : enqueue op o s h = (Done r, s', h') -> ring_produces (is_ok r) s s'
| rp_enqueue_batch ops o s h r s' h' :
    enqueue_batch ops o s h = (Done r, s', h') -> ring_produces (is_ok r) s s'
| rp_owned_cancel ctl o s h a s' h' :
    request_owned_cancel ctl o s h = (Done a, s', h') -> ring_produces true s s'
| rp_close_owned s : ring_produces false s (set_owned_admission false s)
| rp_shutdown o s h a s' h' : shutdown_section o s h = (Done a, s', h') -> ring_produces true s s'
| rp_kernel c s : ring_produces false s (post_cqe c s).

Definition ring_looks (backlog : bool) s : RunDecision :=
  decide_run (data s) backlog (is_empty (owned_queue s)).

(** The driver's sections may do anything to the ring: it looks again before it parks. *)
#[export] Instance ring_source : WorkSource ring := {|
  produces := ring_produces; drives _ _ := True; drops := set_ring_open false; looks := ring_looks |}.

(** What the decision depends on. *)
Definition same_work s s' : Prop :=
  contexts (data s') = contexts (data s) /\ staged (data s') = staged (data s) /\
  cancel_queue (data s') = cancel_queue (data s) /\ owned_contexts (data s') = owned_contexts (data s) /\
  owned_cancel_contexts (data s') = owned_cancel_contexts (data s) /\
  owned_pending (data s') = owned_pending (data s) /\
  owned_cancel_queue (data s') = owned_cancel_queue (data s) /\
  dshutdown (data s') = dshutdown (data s) /\ owned_queue s' = owned_queue s.

Lemma same_work_looks b s s' : same_work s s' -> ring_looks b s' = ring_looks b s.
Proof.
  intros (E1 & E2 & E3 & E4 & E5 & E6 & E7 & E8 & E9).
  unfold ring_looks, decide_run, active. by rewrite E1, E2, E3, E4, E5, E6, E7, E8, E9.
Qed.

Lemma same_data_work s s' : data s' = data s -> owned_queue s' = owned_queue s -> same_work s s'.
Proof. intros E1 E2. unfold same_work. by rewrite E1, E2. Qed.

Definition no_backlog s : Prop :=
  staged (data s) = [] /\ cancel_queue (data s) = [] /\ owned_pending (data s) = [] /\
  owned_cancel_queue (data s) = [] /\ owned_queue s = [].

Definition holds_nothing s : Prop :=
  contexts (data s) = ∅ /\ owned_contexts (data s) = ∅ /\ owned_cancel_contexts (data s) = ∅.

(** What the two parking decisions say of the ring. *)
Lemma looks_wait s : ring_looks false s = DWait -> no_backlog s /\ ~ holds_nothing s.
Proof.
  unfold ring_looks, decide_run, no_backlog, holds_nothing. intros Hl.
  destruct (_ && _); [done|]. cbn in Hl.
  destruct (staged (data s)) eqn:E1, (cancel_queue (data s)) eqn:E2, (owned_pending (data s)) eqn:E3,
    (owned_cancel_queue (data s)) eqn:E4, (owned_queue s) eqn:E5; cbn in Hl; try done.
  split; [done|]. intros (N1 & N2 & N3). unfold active in Hl. rewrite N1, N2, N3, E1, E2, E3, E4 in Hl.
  rewrite !bool_decide_true in Hl by (done || set_solver). done.
Qed.

(** A ring in order that waits for something: the kernel owes it, or posted it. *)
Lemma waits_for_kernel s un fl :
  core s [] un fl -> no_backlog s -> ~ holds_nothing s -> sq s = [] /\ (flight s <> [] \/ cq s <> []).
Proof.
  intros Hc (E1 & E2 & E3 & E4 & E5) Hn.
  assert (sq s = []) as Hsq by (by rewrite (ki_sq _ _ (core_kernel _ _ _ _ Hc)), E1).
  split; [done|]. destruct (flight s) as [|p l] eqn:Ef; [right|by left]. intros Ecq. apply Hn.
  destruct (core_at_rest s un fl Hc) as (H1 & H2 & H3 & _); try done.
  unfold backlog, waiting. by rewrite E2, E3, E4, E5.
Qed.

Lemma looks_pause s :
  ring_looks false s = DPause -> no_backlog s /\ holds_nothing s /\ dshutdown (data s) = false.
Proof.
  unfold ring_looks, decide_run, no_backlog, holds_nothing. intros Hl.
  destruct (dshutdown (data s) && negb (active (data s) (is_empty (owned_queue s)))) eqn:Es; [done|].
  cbn in Hl.
  destruct (staged (data s)) eqn:E1, (cancel_queue (data s)) eqn:E2, (owned_pending (data s)) eqn:E3,
    (owned_cancel_queue (data s)) eqn:E4, (owned_queue s) eqn:E5; cbn in Hl; try done.
  destruct (active (data s) true) eqn:Ea; [done|]. split; [done|].
  cbn in Es. rewrite Ea in Es. rewrite andb_true_r in Es. split; [|done].
  unfold active in Ea. rewrite E1, E2, E3, E4 in Ea. cbn in Ea. rewrite !orb_false_r in Ea.
  apply orb_false_iff in Ea as [Ea Ea3]. apply orb_false_iff in Ea as [Ea1 Ea2].
  apply negb_false_iff, bool_decide_eq_true in Ea1, Ea2, Ea3.
  split_and!; [done|by apply dom_empty_inv_L|by apply dom_empty_inv_L].
Qed.

Lemma looks_stop b s : ring_looks b s = DStop -> forall b', ring_looks b' s = DStop.
Proof.
  unfold ring_looks, decide_run. intros Hl b'. destruct (_ && negb _); [done|].
  by destruct (_ || _ || _ || _ || _ || _), (active _ _).
Qed.

Ltac sub_section :=
  unfold get_sub, put_sub; run_unfold; unfold prog_bind; cbn;
  repeat case_match; intros; simplify_eq; by apply same_data_work.

Lemma submit_check_work cx se o s h a s' h' :
  submit_check cx se o s h = (Done a, s', h') -> same_work s s'.
Proof. unfold submit_check. sub_section. Qed.

Lemma next_completion_work id cx o s h a s' h' :
  next_completion id cx o s h = (Done a, s', h') -> same_work s s'.
Proof. unfold next_completion. sub_section. Qed.

Lemma next_cancellation_work id cx o s h a s' h' :
  next_cancellation id cx o s h = (Done a, s', h') -> same_work s s'.
Proof. unfold next_cancellation. sub_section. Qed.

Lemma wait_drained_work id cx o s h a s' h' :
  wait_drained id cx o s h = (Done a, s', h') -> same_work s s'.
Proof. unfold wait_drained. sub_section. Qed.

(** Submitting with nothing staged changes no data. *)
Lemma submit_staged_work o s h ws s' h' :
  staged (data s) = [] -> submit_staged o s h = (Done ws, s', h') -> same_work s s'.
Proof.
  intros Hs. unfold submit_staged, ring_submit. run_unfold. unfold prog_bind. cbn.
  destruct (rcount (o h USubmit) <? 0) eqn:En; cbn.
  - destruct (is_retryable _); cbn; [|done]. intros [= _ <- _]. by apply same_data_work.
  - rewrite Hs. change (Z.of_nat (length (@nil StagedContext))) with 0.
    destruct (Z.ltb 0 (rcount (o h USubmit))) eqn:Ep; [done|].
    apply Z.ltb_ge in En, Ep. assert (rcount (o h USubmit) = 0) as -> by lia. cbn.
    intros [= _ <- _]. by apply same_data_work.
Qed.

(** The flag of the admission loop stays once something was staged. *)
Lemma admit_entries_flag id : forall it next o s h a' ws any s' h',
  admit_entries new_box id it next true o s h = (Done (a', ws, any), s', h') -> any = true.
Proof.
  induction it as [|e it IH]; intros next o s h a' ws any s' h'; cbn [admit_entries].
  - unfold get_sub, put_sub. run_unfold. unfold prog_bind. cbn. destruct (subs s !! id); cbn; [|done].
    by intros [= _ _ <- _ _].
  - destruct (next =? u64_max); [done|]. unfold mbind, prog_mbind, prog_bind.
    destruct (stage_original new_box id next e o s h) as [[[[]|m|m|m] s1] h1]; [apply IH|..]; try done.
    by intros [= _ _ <- _ _].
Qed.

(** An admission that announces nothing had no entries left. *)
Lemma admit_loop_silent id a o s h a' ws any s' h' :
  admit_loop new_box id a o s h = (Done (a', ws, any), s', h') ->
  any || match pending a' with Some _ => true | None => false end = false -> same_work s s'.
Proof.
  unfold admit_loop. destruct a as [it [[i e]|] next]; cbn.
  - unfold mbind, prog_mbind, prog_bind.
    destruct (stage_original new_box id i e o s h) as [[[[]|m|m|m] s1] h1]; try done.
    + intros Hl Hz. apply admit_entries_flag in Hl. by subst.
    + by intros [= <- _ <- _ _].
  - destruct it as [|e it]; cbn [admit_entries].
    + unfold get_sub, put_sub. run_unfold. unfold prog_bind. cbn. destruct (subs s !! id); cbn; [|done].
      intros [= _ _ _ <- _] _. by apply same_data_work.
    + destruct (next =? u64_max); [done|]. unfold mbind, prog_mbind, prog_bind.
      destruct (stage_original new_box id next e o s h) as [[[[]|m|m|m] s1] h1]; try done.
      * intros Hl Hz. apply admit_entries_flag in Hl. by subst.
      * by intros [= <- _ <- _ _].
Qed.

Lemma driver_admit_silent id a o s h a' ws s' h' :
  no_backlog s -> driver_admit new_box id a o s h = (Done (a', ws, false), s', h') -> same_work s s'.
Proof.
  intros (E1 & E2 & E3 & E4 & E5). unfold driver_admit, mbind, prog_mbind, prog_bind at 1, get at 1.
  destruct (negb (accepting (data s))).
  { unfold prog_bind. destruct (request_cancel id Cancelling o s h) as [[[] ?] ?]; [by intros [=]|done..]. }
  rewrite E3, E4, E5. cbn [is_empty negb orb].
  unfold admit_section, stage_cancellations, mbind, prog_mbind.
  unfold prog_bind at 1, get at 1. destruct (negb (ring_open s)); [done|].
  unfold prog_bind at 1 2, get at 1. rewrite E2. cbn [stage_commands].
  unfold mret, prog_mret, prog_ret at 1. unfold prog_bind at 1.
  destruct (admit_loop new_box id a o s h) as [[[[[a1 ws1] any]|m|m|m] s1] h1] eqn:El; try done.
  unfold prog_bind. destruct (submit_staged o s1 h1) as [[[ws2|m|m|m] s2] h2] eqn:Es; try done.
  intros [= <- _ Hdue <- _]. pose proof (admit_loop_silent _ _ _ _ _ _ _ _ _ _ El Hdue) as H1.
  assert (staged (data s1) = []) as Hs by (destruct H1 as (_ & H1 & _); congruence).
  pose proof (submit_staged_work _ _ _ _ _ _ Hs Es) as H2. unfold same_work in *.
  destruct H1 as (?&?&?&?&?&?&?&?&?), H2 as (?&?&?&?&?&?&?&?&?). split_and!; congruence.
Qed.

(** Without an announcement the driver's decision stays right. *)
Lemma silent_work due s s' : ring_produces due s s' -> due = false -> no_backlog s -> same_work s s'.
Proof.
  intros Hp Hdue Hb. destruct Hp; try done; subst.
  - revert H. unfold submit_entries, register_submission. run_unfold. unfold prog_bind. cbn.
    destruct closed; cbn; intros [= _ <- _]; done.
  - by eapply driver_admit_silent.
  - by eapply submit_check_work.
  - revert H. unfold close_delivery. run_unfold. intros [= _ <- _]. done.
  - by eapply next_completion_work.
  - by eapply next_cancellation_work.
  - by eapply wait_drained_work.
  - revert H Hdue. unfold enqueue. run_unfold. unfold prog_bind. cbn. destruct (owned_admission s); cbn;
      by intros [= <- <- _].
  - revert H Hdue. unfold enqueue_batch. run_unfold. unfold prog_bind. cbn. destruct (owned_admission s); cbn;
      by intros [= <- <- _].
Qed.

#[export] Instance ring_work_laws : WorkLaws ring.
Proof.
  split.
  - intros b s. cbn. unfold ring_looks, decide_run. destruct (_ && _); [by intros []|].
    destruct b; cbn; [by intros []|done].
  - intros due s s' Hp Hd Hl. cbn in *. rewrite (same_work_looks _ s); [done|].
    eapply silent_work; [done..|]. by apply looks_pause.
  - intros due s s' Hp Hd Hl. cbn in *. rewrite (same_work_looks _ s); [done|].
    eapply silent_work; [done..|]. by apply looks_wait.
Qed.
End Work.

(** ** The guarantees of the driver's gate *)

Section GateClaims.
Context `{codes : NosvCodes} `{U : Uring} {T : Type}.
Variable new_box : history ucall uresp -> gset Z -> Z.
Variable o : noracle.
Variable poll : Z.
Variable raw : RawTask.
#[local] Existing Instance ring_source.
#[local] Existing Instance ring_work_laws.
#[local] Instance this_source : WorkSource (Ring T) := ring_source new_box.
Implicit Types (x : GSys (D := Ring T)) (dec : RunDecision).

(** C18. The driver never sleeps on work: in every reachable state in which its task
    is parked, no wake of it is pending and no notification is due, the ring holds
    what it parked for: paused, there is no staged entry, no queued cancellation or
    owned operation, no context at all and no shutdown request; in a deadline wait,
    no staged entry and no queued cancellation or owned operation either, but some
    context, and for a ring in the order that every reachable state of [RingSys] has
    the submission queue is empty and the kernel holds an entry or has posted a CQE
    that no pass read yet (the wait ends at the latest at its deadline; a shutdown may
    be under way, which waits for those entries). *)
Theorem ring_never_sleeps_on_work x dec
    (Hr : reachable (ginit raw) (gstep o poll) x) (Hpark : gpc x = GParked dec)
    (Howed : owed x = 0%nat) (Hwake : g_phase (gg x) <> RWakePending) :
  g_raw (gg x) = Some raw /\ g_phase (gg x) = park_phase dec /\
  match dec with
  | DPause => no_backlog (gd x) /\ holds_nothing (gd x) /\ dshutdown (data (gd x)) = false
  | DWait => no_backlog (gd x) /\ ~ holds_nothing (gd x) /\
      (forall un fl, core (gd x) [] un fl -> sq (gd x) = [] /\ (flight (gd x) <> [] \/ cq (gd x) <> []))
  | DYield => True
  | DStop => False
  end.
Proof.
  destruct (gate_reachable_inv o poll raw x Hr) as (Hg & _ & Hw).
  unfold gate_ok in Hg; unfold work_ok in Hw; rewrite Hpark in Hg, Hw.
  destruct Hg as (Hgr & Hdec & [[Hph Hnot]|[Hph _]]); [|done]. split; [done|]. split; [done|].
  unfold decided_ok, alerted in Hw. rewrite Howed in Hw.
  destruct dec; try done.
  - rewrite (Hnot ltac:(by right)) in Hw. destruct Hw as [Hw|[Hw|Hw]]; [|done|lia].
    apply looks_wait in Hw as [Hb Hn]. split; [done|]. split; [done|]. intros un fl Hc. by apply (waits_for_kernel _ un fl).
  - rewrite (Hnot ltac:(by left)) in Hw. destruct Hw as [Hw|[Hw|Hw]]; [|done|lia]. by apply looks_pause.
Qed.

(** The driver's descriptor is used safely and woken as it parks: in every
    reachable state it was destroyed at most once, exactly when the driver has
    retired, and never used afterwards; and a notification submits it only while the
    driver pauses (plainly) or waits for a deadline (as a deadline wake), once per
    park, and makes no call while the driver is between its passes or stopped. *)
Theorem ring_gate_safety x (Hr : reachable (ginit raw) (gstep o poll) x) (Hx : gpc x <> GDead) :
  no_use_after_destroy raw (gh x) /\
  count (destroys raw) (gh x) = (if retired (gpc x) then 1 else 0)%nat /\
  match ring_notify o (gg x) (gh x) with
  | (Done _, g', h') =>
      g_notified g' = true /\
      match gpc x with
      | GParked dec =>
          (g_phase (gg x) = RWakePending -> h' = gh x) /\
          (g_phase (gg x) <> RWakePending ->
             match dec with
             | DPause => exists r, h' = (NSubmit raw SUBMIT_NONE, r) :: gh x
             | DWait => exists r, h' = (NSubmit raw SUBMIT_DEADLINE_WAKE, r) :: gh x
             | _ => h' = gh x
             end)
      | GTop | GDeciding _ | GReturned | GRetired => h' = gh x
      | GResuming | GDead => True
      end
  | (Aborted _, _, h') => exists f r, h' = (NSubmit raw f, r) :: gh x
  | _ => False
  end.
Proof.
  destruct (gate_reachable_inv o poll raw x Hr) as (Hg & [Hn Hd] & _).
  split; [done|]. split; [by apply Hd|]. unfold gate_ok in Hg.
  assert (g_raw (gg x) = Some raw \/ g_phase (gg x) = RDestroyed) as Hraw by (destruct (gpc x); tauto).
  pose proof (ring_notify_cases o raw (gg x) (gh x) Hraw) as Hc.
  destruct (ring_notify o (gg x) (gh x)) as [[[a|e|e|e] g'] h']; try done.
  - destruct Hc as (H1 & _ & H3). split; [done|].
    destruct (gpc x) as [|d|dec| | | |]; try done;
      try (destruct Hg as [_ Hg]; rewrite Hg in H3; by destruct H3).
    destruct Hg as (_ & Hds & [[Hp _]|[Hp _]]); rewrite Hp in *.
    + split; [by destruct dec|]. intros _. destruct dec; cbn in H3; by destruct H3.
    + split; [by destruct H3|done].
  - destruct Hc as (f & r & H1 & _). by exists f, r.
Qed.
End GateClaims.

(** ** A parked sample driver *)

Module SampleGate.
#[local] Existing Instance sample_codes.
#[local] Existing Instance Sample.sample_uring.
#[local] Instance sample_source : WorkSource (Ring Z) := ring_source Sample.new_box.
Notation sys := (GSys (D := Ring Z)).

Definition idle : sys := mkGSys ring_new (mkGate (Some 1%positive) RRunning false false) [] GTop 0.
Definition deciding : sys := goto (GDeciding (looks false (gd idle))) idle.
Definition parked : sys :=
  on_gate Ffi.accepting (gate_section DPause) deciding (fun (park : bool) x => goto (if park then GParked DPause else GTop) x).

Lemma parked_gate_reached : reachable (ginit 1%positive) (gstep Ffi.accepting 50000) parked.
Proof.
  apply (reach_step _ _ deciding); [apply (reach_step _ _ idle)|].
  - apply reach_init. by repeat split.
  - by apply (gs_decide Ffi.accepting 50000 idle false).
  - by apply (gs_gate Ffi.accepting 50000 deciding DPause).
Qed.
End SampleGate.

Lemma ring_never_sleeps_on_work_witness :
  gpc SampleGate.parked = GParked DPause /\ no_backlog (gd SampleGate.parked).
Proof.
  assert (gpc SampleGate.parked = GParked DPause) as Hpc by (by vm_compute).
  assert (g_phase (gg SampleGate.parked) <> RWakePending) as Hw by (by vm_compute).
  destruct (@ring_never_sleeps_on_work sample_codes Sample.sample_uring Z Sample.new_box Ffi.accepting 50000
    1%positive SampleGate.parked DPause SampleGate.parked_gate_reached Hpc eq_refl Hw) as (_ & _ & H & _).
  by split.
Defined.

Lemma ring_gate_safety_witness :
  exists r, history_of (@ring_notify sample_codes Ffi.accepting (gg SampleGate.parked) (gh SampleGate.parked)) =
    [(NSubmit 1%positive SUBMIT_NONE, r)].
Proof.
  assert (gpc SampleGate.parked <> GDead) as Hpc by (by vm_compute).
  pose proof (@ring_gate_safety sample_codes Sample.sample_uring Z Sample.new_box Ffi.accepting 50000 1%positive
    SampleGate.parked SampleGate.parked_gate_reached Hpc) as (_ & _ & H).
  revert H. vm_compute. intros (_ & _ & H). destruct H as [r H]; [discriminate|]. exists r. exact H.
Defined.
