(* ===== verification/RingRun.v ===== *)
(** * RingRun: the loop of the io_uring driver ([src/src/io_uring.rs])

    [IoUringDriver::run] as the code orders it: a pass over the ring, the wakers of the
    pass, the decision, the gate, the park.  The file shows that the loop is a run of the
    step relations of [RingSys] and [RingGate], so what is proved of those holds of it,
    and that after a shutdown it returns, whatever the kernel completes and when, as long
    as it goes on to complete something while entries are in flight. *)

From Stdlib Require Import ZArith Lia.
From stdpp Require Import base gmap sets list strings.
From S2P Require Import Prelude Errors Ffi Ring RingOps RingFutures RingInv RingPrim RingCount RingStep RingSect RingDrive RingOpen RingSys RingSpec RingStop RingGate RingWork.

Open Scope Z_scope.

Section Run.
Context `{codes : NosvCodes} `{U : Uring} {T : Type}.
Notation ring := (Ring T).
Notation sys := (RSys T).
Notation uprog := (prog ucall uresp).
Notation uhist := (history ucall uresp).
Variable new_box : uhist -> gset Z -> Z.
Variable o : oracle ucall uresp.      (* the uring crate and the kernel *)
Variable no : noracle.                (* nOS-V *)
Variable supported : Z -> bool.
Variable cfg : IoUringConfig.

(** ** The kernel's completions *)

(** What the kernel posts during the [n]-th pass, between the submission and the reap,
    and what it posts between that pass and the next. *)
Record Completer : Type := mkCompleter {
  inline : nat -> sys -> list cqe;
  later : nat -> sys -> list cqe
}.

Definition post_one (x : sys) (c : cqe) : sys := set_r (post_cqe c (r x)) (rh x) x.
Definition post_all (l : list cqe) (x : sys) : sys := foldl post_one x l.

(** Each is for an entry the kernel holds at that moment. *)
Fixpoint posted (l : list cqe) (x : sys) : Prop :=
  match l with [] => True | c :: l' => kernel_posts c x /\ posted l' (post_one x c) end.

(** ** The loop *)

(** The driver: the state of its ring, its gate, and the native history. *)
Record Driver : Type := mkDriver { dsys : sys; dgate : GState; dhist : nhistory }.

(** A section of the ring; [None] when it aborted. *)
Definition section {A} (m : uprog ring A) (x : sys) : sys * option A :=
  match m o (r x) (rh x) with
  | (Done a, s, h) => (set_r s h x, Some a)
  | (Panicked e, s, h) => (set_crash e (set_r s h x), None)
  | (Aborted e, s, h) => (set_crash e (set_r s h x), None)
  | (Blocked e, s, h) => (set_crash e (set_r s h x), None)
  end.

(** [pass] up to the operations it fails, and from the reap on. *)
Definition pass_head : uprog ring (list Waker) :=
  '(failed, ws1) ← pass_submit new_box supported (Z.to_nat (entries cfg));
  ws2 ← fail_owned failed;
  mret (ws1 ++ ws2).

Definition pass_tail : uprog ring (list Waker * bool) :=
  '(cqes, backlog) ← reap_cqes (Z.to_nat (reap_size cfg));
  '(ws3, overs) ← dispatch_all cqes;
  _ ← for_each (fun id => request_cancel id Overflow) overs;
  mret (ws3, backlog).

(** The ring is dropped, and the loop is over. *)
Definition stopped (x : sys) : sys := set_loop Stopped (section take_ring x).1.

(** How an iteration ends. *)
Inductive Turn : Type := Continues | Returns | Dies.

(** The decision and what follows it. *)
Definition turn_end (k : Completer) (n : nat) (ws : list Waker) (backlog : bool) (x : Driver) : Driver * Turn :=
  let s := r (dsys x) in
  let decision := decide_run (data s) backlog (is_empty (owned_queue s)) in
  match run_iteration (poll_interval cfg) ws decision no (dgate x) (dhist x) with
  | (Done true, g, h) => (mkDriver (stopped (dsys x)) g h, Returns)
  | (Done false, g, h) => (mkDriver (post_all (later k n (dsys x)) (dsys x)) g h, Continues)
  | (_, g, h) => (mkDriver (dsys x) g h, Dies)
  end.

(** The [n]-th iteration of [run]. *)
Definition turn (k : Completer) (n : nat) (x : Driver) : Driver * Turn :=
  match section pass_head (dsys x) with
  | (s1, None) => (mkDriver s1 (dgate x) (dhist x), Dies)
  | (s1, Some ws1) =>
      let s2 := post_all (inline k n s1) s1 in
      match section pass_tail s2 with
      | (s3, None) => (mkDriver s3 (dgate x) (dhist x), Dies)
      | (s3, Some (ws2, backlog)) => turn_end k n (ws1 ++ ws2) backlog (mkDriver s3 (dgate x) (dhist x))
      end
  end.

(** [IoUringDriver::run]. *)
Fixpoint run (fuel : nat) (k : Completer) (n : nat) (x : Driver) : Driver * Turn :=
  match fuel with
  | O => (x, Continues)
  | S fuel' => match turn k n x with (y, Continues) => run fuel' k (S n) y | (y, e) => (y, e) end
  end.

(** ** [shutdown_and_wait]

    Its sections run without the driver in between: the driver is parked, or about to
    start a pass.  [None]: the process aborted, or the wait had not ended yet. *)

Definition notify_driver (x : Driver) : option Driver :=
  match ring_notify no (dgate x) (dhist x) with
  | (Done _, g, h) => Some (mkDriver (dsys x) g h)
  | _ => None
  end.

(** A section of the ring that ends with [notify]. *)
Definition announce {A} (m : uprog ring A) (x : Driver) : option Driver :=
  match section m (dsys x) with
  | (s, Some _) => notify_driver (mkDriver s (dgate x) (dhist x))
  | (_, None) => None
  end.

Fixpoint announce_all (ms : list (uprog ring unit)) (x : Driver) : option Driver :=
  match ms with [] => Some x | m :: ms' => announce m x ≫= announce_all ms' end.

(** What the owner does before it waits. *)
Definition request_stop (x : Driver) : option Driver :=
  match section (_ ← modify (set_owned_admission false); shutdown_section) (dsys x) with
  | (s, Some (ids, owned)) =>
      announce_all (map (fun id => request_cancel id Detached) ids ++ map request_owned_cancel owned)
        (mkDriver s (dgate x) (dhist x)) ≫= notify_driver
  | (_, None) => None
  end.

(** What the driver's task does meanwhile: it wakes up, at its deadline or because it was
    submitted (a paused one sleeps on), and its loop returns; nOS-V calls the completed
    callback. *)
Definition driver_finishes (fuel : nat) (k : Completer) (x : Driver) : option Driver :=
  if bool_decide (g_phase (dgate x) = RPaused) then None else
  match ring_resumed no (dgate x) (dhist x) with
  | (Done _, g, h) =>
      match run fuel k 0 (mkDriver (dsys x) g h) with
      | (y, Returns) =>
          match (g ← get;
                 match g_raw g with Some raw => ring_completed_callback (Npos raw) | None => mret tt end)
                no (dgate y) (dhist y) with
          | (Done _, g, h) => Some (mkDriver (dsys y) g h)
          | _ => None
          end
      | _ => None
      end
  | _ => None
  end.

(** [IoUringDriver::shutdown_and_wait]. *)
Definition shutdown_and_wait (fuel : nat) (k : Completer) (x : Driver) : option Driver :=
  x ← request_stop x;
  y ← driver_finishes fuel k x;
  if g_completed (dgate y) then Some y else None.

(** [pass] is its two parts in a row. *)
Lemma pass_split s h :
  pass new_box supported cfg o s h =
  (ws1 ← pass_head; '(ws2, backlog) ← pass_tail; mret (ws1 ++ ws2, backlog)) o s h.
Proof.
  unfold pass, pass_head, pass_tail. cbv [mbind prog_mbind prog_bind mret prog_mret prog_ret].
  destruct (pass_submit _ _ _ _ _ _) as [[[[failed ws1]|e|e|e] s1] h1]; [|reflexivity..].
  destruct (fail_owned _ _ _ _) as [[[ws2|e|e|e] s2] h2]; [|reflexivity..].
  destruct (reap_cqes _ _ _ _) as [[[[cqes b]|e|e|e] s3] h3]; [|reflexivity..].
  destruct (dispatch_all _ _ _ _) as [[[[ws3 ov]|e|e|e] s4] h4]; [|reflexivity..].
  destruct (for_each _ _ _ _ _) as [[[[]|e|e|e] s5] h5]; [|reflexivity..]. by rewrite app_assoc.
Qed.

(** ** The parts keep the invariant *)

Context `{UL : !UringLaws}.
Hypothesis Hbox : allocator_fresh new_box.
Hypothesis Hkernel : kernel_bounded o.
Implicit Types (s : ring) (h : uhist) (x y z : sys) (un : gset OpId) (known : gset SubId).

Lemma head_keeps s b un h :
  good (dom (subs s)) s b un [] h -> ring_open s = true -> run_post pass_head o s h (keeps (dom (subs s)) b un []).
Proof.
  intros Hg Ho. apply run_post_bind. eapply run_post_mono; [by eapply pass_submit_post|].
  intros [[failed ws]|e|e|e] s1 h1 Hg1; cbn [then_post]; [|done..].
  eapply keeps_bind; [apply (fail_owned_keeps o (dom (subs s)) b un [] failed); by rewrite app_nil_r|].
  intros ws' s2 h2 Hg2. by apply keeps_ret.
Qed.

Lemma dispatch_all_keeps known un fl : forall l s h,
  good known s l un fl h -> run_post (dispatch_all l) o s h (keeps known [] un fl).
Proof.
  induction l as [|c l IH]; intros s h Hg; [by apply keeps_ret|]. cbn [dispatch_all].
  eapply keeps_bind; [by eapply dispatch_keeps|]. intros [ws over] s1 h1 Hg1.
  eapply keeps_bind; [by apply IH|]. intros [ws' overs'] s2 h2 Hg2. by apply keeps_ret.
Qed.

Lemma overs_keeps known un fl l s h :
  good known s [] un fl h ->
  run_post (for_each (fun id => request_cancel id Overflow) l) o s h (keeps known [] un fl).
Proof. intros Hg. apply run_post_for_each; [|done]. intros id s' h' _ Hg'. by apply request_cancel_keeps. Qed.

Lemma reap_run n s h : ring_open s = true ->
  reap_cqes n o s h =
  (Done (take n (cq s), bool_decide (length (take n (cq s)) = n) || negb (is_empty (drop n (cq s)))),
   set_cq (drop n (cq s)) s, h).
Proof. intros Ho. unfold reap_cqes, mbind, prog_mbind, prog_bind, get. by rewrite Ho. Qed.

Lemma tail_keeps known s un h :
  good known s [] un [] h -> ring_open s = true -> run_post pass_tail o s h (keeps known [] un []).
Proof.
  intros Hg Ho. eapply run_post_bind_eq; [by apply reap_run|]. eapply keeps_bind; [apply dispatch_all_keeps|].
  - eapply good_batch; [exact Hg|]. cbn. by rewrite take_drop.
  - intros [ws overs'] s1 h1 Hg1. eapply keeps_bind; [by apply overs_keeps|]. intros _ s2 h2 Hg2. by apply keeps_ret.
Qed.

(** ** The loop is a run of the step relations *)

Notation sstep := (sys_step new_box o supported cfg).

(** Between two passes; the ring of a driver whose loop runs is there. *)
Definition between x : Prop := crash x = None /\ failing x = [] /\ batch x = [] /\ overs x = [].

Lemma looping_open x : reachable sys_init sstep x -> loop x = Looping -> ring_open (r x) = true.
Proof. intros Hr Hl. destruct (reach_loop new_box o supported cfg Hbox Hkernel x Hr) as [Hi _]. by rewrite Hl in Hi. Qed.

Lemma pass_head_still : preserves closure pass_head.
Proof. unfold pass_head. preserves_auto. Qed.

Lemma dispatch_all_still (l : list cqe) : preserves (closure (T := T)) (dispatch_all l).
Proof. induction l as [|c l IH]; cbn [dispatch_all]; preserves_auto. Qed.

#[local] Hint Resolve dispatch_all_still : nosv.

Lemma pass_tail_still : preserves closure pass_tail.
Proof. unfold pass_tail. preserves_auto. Qed.

Lemma fail_owned_steps : forall l x ws s h,
  crash x = None -> failing x = l -> fail_owned l o (r x) (rh x) = (Done ws, s, h) ->
  rtc sstep x (set_failing [] (set_r s h x)).
Proof.
  induction l as [|[hd f] l IH]; intros x ws s h Hx Hf Hrun.
  { injection Hrun as <- <- <-. destruct x; cbn in *; subst. apply rtc_refl. }
  pose proof (rs_fail new_box o supported cfg x (hd, f) l Hf) as Hstep.
  revert Hrun Hstep. cbn [fail_owned]. unfold exec. cbv [mbind prog_mbind prog_bind mret prog_mret prog_ret].
  destruct (finish_handler _ _ _ _ _) as [[[ws1|e|e|e] s1] h1]; [|done..].
  destruct (fail_owned l o s1 h1) as [[[ws2|e|e|e] s2] h2] eqn:El; [|done..]. intros [= _ <- <-] Hstep.
  eapply rtc_l; [split; [exact Hx|exact Hstep]|].
  apply (IH (set_failing l (set_r s1 h1 x)) ws2 s2 h2); [exact Hx|done|exact El].
Qed.

Lemma dispatch_steps : forall l x ws ov s h,
  crash x = None -> batch x = l -> dispatch_all l o (r x) (rh x) = (Done (ws, ov), s, h) ->
  rtc sstep x (set_overs (overs x ++ ov) (set_batch [] (set_r s h x))).
Proof.
  induction l as [|c l IH]; intros x ws ov s h Hx Hb Hrun.
  { injection Hrun as <- <- <- <-. destruct x; cbn in *; subst. rewrite app_nil_r. apply rtc_refl. }
  pose proof (rs_dispatch new_box o supported cfg x c l Hb) as Hstep.
  revert Hrun Hstep. cbn [dispatch_all]. unfold exec. cbv [mbind prog_mbind prog_bind mret prog_mret prog_ret].
  destruct (dispatch c o (r x) (rh x)) as [[[[ws1 ov1]|e|e|e] s1] h1]; [|done..].
  destruct (dispatch_all l o s1 h1) as [[[[ws2 ov2]|e|e|e] s2] h2] eqn:El; [|done..]. intros [= _ <- <- <-] Hstep.
  eapply rtc_l; [split; [exact Hx|exact Hstep]|]. rewrite app_assoc.
  apply (IH (set_overs (overs x ++ opt_list ov1) (set_batch l (set_r s1 h1 x))) ws2 ov2 s2 h2); [exact Hx|done|exact El].
Qed.

Lemma overs_steps : forall l x s h,
  crash x = None -> batch x = [] -> overs x = l ->
  for_each (fun id => request_cancel id Overflow) l o (r x) (rh x) = (Done tt, s, h) ->
  rtc sstep x (set_overs [] (set_r s h x)).
Proof.
  induction l as [|id l IH]; intros x s h Hx Hb Ho Hrun.
  { injection Hrun as <- <-. destruct x; cbn in *; subst. apply rtc_refl. }
  pose proof (rs_over new_box o supported cfg x id l Hb Ho) as Hstep.
  revert Hrun Hstep. cbn [for_each]. unfold exec_, exec. cbv [mbind prog_mbind prog_bind].
  destruct (request_cancel id Overflow o (r x) (rh x)) as [[[[]|e|e|e] s1] h1]; [|done..]. intros Hrun Hstep.
  eapply rtc_l; [split; [exact Hx|exact Hstep]|].
  apply (IH (set_overs l (set_r s1 h1 x)) s h); [exact Hx|exact Hb|done|exact Hrun].
Qed.

Lemma head_steps x ws s h :
  between x -> loop x = Looping -> pass_head o (r x) (rh x) = (Done ws, s, h) -> rtc sstep x (set_r s h x).
Proof.
  intros (Hx & Hf & Hb & Ho) Hl Hrun. pose proof (rs_pass new_box o supported cfg x Hl Hf Hb Ho) as Hstep.
  revert Hrun Hstep. unfold pass_head, exec. cbv [mbind prog_mbind prog_bind mret prog_mret prog_ret].
  destruct (pass_submit _ _ _ _ _ _) as [[[[failed ws1]|e|e|e] s1] h1]; [|done..].
  destruct (fail_owned failed o s1 h1) as [[[ws2|e|e|e] s2] h2] eqn:El; [|done..]. intros [= _ <- <-] Hstep.
  eapply rtc_l; [split; [exact Hx|exact Hstep]|].
  pose proof (fail_owned_steps failed (set_failing failed (set_r s1 h1 x)) ws2 s2 h2 Hx eq_refl El) as Hr.
  destruct x; cbn in *; by subst.
Qed.

Lemma tail_steps x a s h :
  between x -> loop x = Looping -> ring_open (r x) = true ->
  pass_tail o (r x) (rh x) = (Done a, s, h) -> rtc sstep x (set_r s h x).
Proof.
  intros (Hx & Hf & Hb & Ho) Hl Hop Hrun. pose proof (rs_reap new_box o supported cfg x Hl Hf Hb Ho) as Hstep.
  revert Hrun Hstep. unfold pass_tail, exec. cbv [mbind prog_mbind prog_bind mret prog_mret prog_ret]. rewrite reap_run by done.
  set (l := take _ _). set (s0 := set_cq _ _).
  destruct (dispatch_all l o s0 (rh x)) as [[[[ws ov]|e|e|e] s1] h1] eqn:Ed; [|done..].
  destruct (for_each _ ov o s1 h1) as [[[[]|e|e|e] s2] h2] eqn:Eo; [|done..]. intros [= _ <- <-] Hstep.
  eapply rtc_l; [split; [exact Hx|exact Hstep]|].
  etransitivity; [apply (dispatch_steps l (set_batch l (set_r s0 (rh x) x)) ws ov s1 h1 Hx eq_refl Ed)|].
  pose proof (overs_steps ov (set_overs ov (set_batch [] (set_r s1 h1 x))) s2 h2 Hx eq_refl eq_refl Eo) as Hr.
  destruct x; cbn in *; by subst.
Qed.

Lemma posts_steps : forall l x, crash x = None -> posted l x -> rtc sstep x (post_all l x).
Proof.
  induction l as [|c l IH]; intros x Hx Hl; [apply rtc_refl|]. destruct Hl as [Hc Hl].
  eapply rtc_l; [split; [exact Hx|by apply rs_kernel]|]. by apply IH.
Qed.

Lemma post_all_between l : forall x, between x -> between (post_all l x).
Proof. induction l as [|c l IH]; intros x Hx; [done|]. by apply IH. Qed.

Lemma post_all_loop l : forall x, loop (post_all l x) = loop x.
Proof. induction l as [|c l IH]; intros x; [done|]. apply (IH (post_one x c)). Qed.

(** The stop: the decision, and the ring dropped. *)
Lemma stop_steps x backlog :
  between x -> loop x = Looping -> decide_run (data (r x)) backlog (is_empty (owned_queue (r x))) = DStop ->
  rtc sstep x (stopped x).
Proof.
  intros (Hx & Hf & Hb & Ho) Hl Hd.
  eapply rtc_l; [split; [exact Hx|by apply (rs_decide new_box o supported cfg x backlog)]|].
  apply rtc_once. split; [exact Hx|]. exact (rs_take new_box o supported cfg (set_loop Stopping x) eq_refl).
Qed.

(** The gate's part of an iteration, as steps of [RingGate]: with the ring as its work. *)
#[local] Instance loop_source : WorkSource ring := ring_source new_box.
Notation gsys := (GSys (D := ring)).
Notation gatestep := (gstep no (poll_interval cfg)).
Definition as_gate (p : GPc) (m : nat) (x : Driver) : gsys := mkGSys (r (dsys x)) (dgate x) (dhist x) p m.

(** nOS-V refused the last call. *)
Definition refused (nh : nhistory) : Prop :=
  exists c resp nh', nh = (c, resp) :: nh' /\ from_code (rcode resp) <> Ok tt.

Definition end_pc (e : Turn) : GPc := match e with Returns => GReturned | _ => GTop end.

Lemma wake_each_done ws : forall (g : GState) (nh : nhistory),
  exists nh', for_each (fun w => _ ← catch_unwind (wake w); mret tt) ws no g nh = (Done tt, g, nh') /\
    forall p, count (destroys p) nh' = count (destroys p) nh.
Proof.
  induction ws as [|w ws IH]; intros g nh; [by exists nh|].
  destruct (IH g ((WakeCall w, no nh (WakeCall w)) :: nh)) as (nh' & E & Hd). exists nh'. split; [exact E|exact Hd].
Qed.

Lemma wake_batch_ends ws (g : GState) (nh : nhistory) :
  run_post (wake_batch ws) no g nh (fun q g' nh' => g' = g /\
    match q with Done _ => True | Aborted _ => refused nh' | _ => False end).
Proof.
  destruct ws as [|w ws]; [by apply run_post_ret|].
  apply run_post_bind, status_post. cbn [then_post]. set (resp1 := no nh _).
  destruct (from_code (rcode resp1)) as [[]|err] eqn:E1; [|unfold run_post; cbn; split; [reflexivity|]; do 3 eexists; (split; [reflexivity|]); by rewrite E1].
  match goal with |- run_post _ no g ?h0 _ => destruct (wake_each_done (w :: ws) g h0) as (nh' & E & _) end.
  eapply run_post_bind_eq; [exact E|]. apply run_post_bind, status_post. cbn [then_post]. set (resp2 := no _ _).
  destruct (from_code (rcode resp2)) as [[]|err] eqn:E2; [done|]. unfold run_post. cbn. split; [reflexivity|]. do 3 eexists. split; [reflexivity|]. by rewrite E2.
Qed.

Lemma ring_park_ends dec (g : GState) (nh : nhistory) :
  dec <> DStop ->
  run_post (ring_park (poll_interval cfg) dec) no g nh (fun q g' nh' => g' = g /\
    match q with Done _ => True | Aborted _ => refused nh' | _ => False end).
Proof.
  intros Hd. unfold ring_park, refused. apply run_post_bind. destruct dec; [done| | |]; apply status_post; cbn [then_post]; set (resp := no nh _);
    destruct (from_code (rcode resp)) as [[]|err] eqn:E; try done; unfold run_post; cbn; (split; [reflexivity|]); do 3 eexists; (split; [reflexivity|]); by rewrite E.
Qed.

Lemma gate_section_ends dec (g : GState) (nh : nhistory) :
  dec <> DStop -> exists park g', gate_section dec no g nh = (Done park, g', nh).
Proof.
  intros Hd. unfold gate_section. run_unfold. destruct (g_notified g); cbn; [by do 2 eexists|]. by destruct dec; [done|..]; do 2 eexists.
Qed.

Lemma turn_end_gate k n ws backlog (x : Driver) m :
  match turn_end k n ws backlog x with
  | (y, Dies) => dsys y = dsys x /\ refused (dhist y)
  | (y, Continues) => dsys y = post_all (later k n (dsys x)) (dsys x) /\
      rtc gatestep (as_gate GTop m x) (as_gate GTop m (mkDriver (dsys x) (dgate y) (dhist y)))
  | (y, Returns) => dsys y = stopped (dsys x) /\
      decide_run (data (r (dsys x))) backlog (is_empty (owned_queue (r (dsys x)))) = DStop /\
      rtc gatestep (as_gate GTop m x) (as_gate GReturned m y)
  end.
Proof.
  unfold turn_end. set (dec := decide_run _ _ _). unfold run_iteration.
  pose proof (wake_batch_ends ws (dgate x) (dhist x)) as Hw.
  pose proof (gs_wakes no (poll_interval cfg) (as_gate GTop m x) ws eq_refl) as Sw.
  unfold run_post, on_gate in Hw, Sw. cbv [mbind prog_mbind prog_bind mret prog_mret prog_ret].
  destruct (wake_batch ws no (dgate x) (dhist x)) as [[[[]|e|e|e] g1] h1] eqn:Ew; cbn in Hw; destruct Hw as [-> Hw]; [|done..].
  change (gg (as_gate GTop m x)) with (dgate x) in Sw. change (gh (as_gate GTop m x)) with (dhist x) in Sw. rewrite Ew in Sw.
  set (x1 := mkDriver (dsys x) (dgate x) h1).
  assert (rtc gatestep (as_gate GTop m x) (as_gate (GDeciding dec) m x1)) as Sd.
  { eapply rtc_l; [exact Sw|]. apply rtc_once. exact (gs_decide no (poll_interval cfg) (as_gate GTop m x1) backlog eq_refl). }
  destruct (decide (dec = DStop)) as [E|Hdec].
  { rewrite E. cbn. split; [done|]. split; [done|]. etransitivity; [exact Sd|]. rewrite E. apply rtc_once.
    exact (gs_stop no (poll_interval cfg) (as_gate (GDeciding DStop) m x1) eq_refl). }
  assert (forall A (a b : A), match dec with DStop => a | _ => b end = b) as Hnot by (by destruct dec).
  rewrite Hnot. clear Hnot.
  destruct (gate_section_ends dec (dgate x) h1 Hdec) as (park & g2 & Eg).
  pose proof (gs_gate no (poll_interval cfg) (as_gate (GDeciding dec) m x1) dec eq_refl Hdec) as Sg. unfold on_gate in Sg.
  change (gg (as_gate _ m x1)) with (dgate x) in Sg. change (gh (as_gate _ m x1)) with h1 in Sg. rewrite Eg in *.
  destruct park; cbn [negb]; [|split; [done|]; etransitivity; [exact Sd|]; by apply rtc_once].
  set (x2 := mkDriver (dsys x) g2 h1).
  pose proof (ring_park_ends dec g2 h1 Hdec) as Hp.
  pose proof (gs_park no (poll_interval cfg) (as_gate (GParked dec) m x2) dec eq_refl) as Sp. unfold run_post, on_gate in Hp, Sp.
  change (gg (as_gate _ m x2)) with g2 in Sp. change (gh (as_gate _ m x2)) with h1 in Sp.
  destruct (ring_park _ dec no g2 h1) as [[[[]|e|e|e] g3] h3] eqn:Ep; cbn in Hp; destruct Hp as [-> Hp]; [|done..].
  cbn. split; [done|]. etransitivity; [exact Sd|]. eapply rtc_l; [exact Sg|]. eapply rtc_l; [exact Sp|]. apply rtc_once.
  exact (gs_resume no (poll_interval cfg) (as_gate GResuming m (mkDriver (dsys x) g2 h3)) eq_refl).
Qed.

Lemma gate_posts p m g nh : forall l x, p <> GDead ->
  rtc gatestep (as_gate p m (mkDriver x g nh)) (as_gate p m (mkDriver (post_all l x) g nh)).
Proof.
  induction l as [|c l IH]; intros x Hp; [apply rtc_refl|]. eapply rtc_l; [|by apply (IH (post_one x c))].
  apply (gs_produce no (poll_interval cfg) (as_gate p m (mkDriver x g nh)) false (post_cqe c (r x)) Hp).
  constructor.
Qed.

(** A kernel whose completions are for entries it holds. *)
Definition completes (k : Completer) : Prop :=
  forall n x, posted (inline k n x) x /\ posted (later k n x) x.

Notation reached := (reachable sys_init sstep).

(** How one iteration or the whole loop went. *)
Definition went (m : nat) (x : Driver) (res : Driver * Turn) : Prop :=
  match res with
  | (y, Dies) => (exists msg, crash (dsys y) = Some msg /\ external_abort msg) \/ crash (dsys y) = None /\ refused (dhist y)
  | (y, e) => reached (dsys y) /\ between (dsys y) /\
      loop (dsys y) = (match e with Returns => Stopped | _ => Looping end) /\ rtc gatestep (as_gate GTop m x) (as_gate (end_pc e) m y)
  end.

Lemma reached_rtc x y : reached x -> rtc sstep x y -> reached y.
Proof. intros Hx. induction 1 as [|x y z Hxy Hyz IH]; [done|]. apply IH. by eapply reach_step. Qed.

Lemma between_set x s h : between x -> between (set_r s h x).
Proof. done. Qed.

(** A section of the loop: a run of steps, or one of the aborts left to the code. *)
Lemma section_reached {A} (m : uprog ring A) x :
  reached x -> between x -> loop x = Looping ->
  (forall s h un, good (dom (subs s)) s [] un [] h -> ring_open s = true -> run_post m o s h (keeps (dom (subs s)) [] un [])) ->
  (forall a s h, m o (r x) (rh x) = (Done a, s, h) -> rtc sstep x (set_r s h x)) ->
  match section m x with
  | (y, Some _) => reached y /\ between y /\ loop y = Looping
  | (y, None) => exists msg, crash y = Some msg /\ external_abort msg
  end.
Proof.
  intros Hr Hb Hl Hk Hs. pose proof (looping_open x Hr Hl) as Hop. pose proof Hb as (Hx & Hf & Hba & Ho).
  pose proof (reach_good new_box o supported cfg Hbox Hkernel x Hr Hx) as Hg. unfold sys_good in Hg.
  rewrite Hf, Hba in Hg. pose proof (Hk _ _ _ Hg Hop) as Hm. unfold run_post in Hm. unfold section.
  destruct (m o (r x) (rh x)) as [[[a|e|e|e] s] h]; cbn in Hm; try done.
  - split; [|done]. eapply reached_rtc; [exact Hr|]. by eapply Hs.
  - by exists e.
Qed.

Lemma turn_went k n m (x : Driver) :
  completes k -> reached (dsys x) -> between (dsys x) -> loop (dsys x) = Looping -> went m x (turn k n x).
Proof.
  intros Hk Hr Hb Hl. unfold turn.
  pose proof (section_reached pass_head (dsys x) Hr Hb Hl (fun s h un => head_keeps s [] un h) (fun ws s h => head_steps _ ws s h Hb Hl)) as H1.
  destruct (section pass_head (dsys x)) as [s1 [ws1|]]; [|by left]. destruct H1 as (Hr1 & Hb1 & Hl1).
  assert (reached (post_all (inline k n s1) s1)) as Hr2
    by (eapply reached_rtc; [exact Hr1|]; apply posts_steps; [apply Hb1|apply Hk]).
  pose proof (post_all_between (inline k n s1) s1 Hb1) as Hb2. pose proof (post_all_loop (inline k n s1) s1) as Hl2.
  rewrite Hl1 in Hl2. set (s2 := post_all (inline k n s1) s1) in *.
  pose proof (section_reached pass_tail s2 Hr2 Hb2 Hl2 (fun s h un => tail_keeps _ s un h)
    (fun a s h => tail_steps _ a s h Hb2 Hl2 (looping_open s2 Hr2 Hl2))) as H3.
  destruct (section pass_tail s2) as [s3 [[ws2 backlog]|]]; [|by left]. destruct H3 as (Hr3 & Hb3 & Hl3).
  set (x3 := mkDriver s3 (dgate x) (dhist x)).
  assert (gatestep (as_gate GTop m x) (as_gate GTop m x3)) as Sd
    by (apply (gs_drive no (poll_interval cfg) (as_gate GTop m x) (r s3)); done).
  pose proof (turn_end_gate k n (ws1 ++ ws2) backlog x3 m) as He.
  destruct (turn_end k n (ws1 ++ ws2) backlog x3) as [y []]; cbn [went]; cbn in He.
  - destruct He as [E Hg]. rewrite E. split; [|split; [|split]].
    + eapply reached_rtc; [exact Hr3|]. apply posts_steps; [apply Hb3|apply Hk].
    + by apply post_all_between.
    + by rewrite post_all_loop.
    + eapply rtc_l; [exact Sd|]. etransitivity; [exact Hg|]. destruct y; cbn in E; subst. by apply gate_posts.
  - destruct He as (E & Hd & Hg). rewrite E. split; [|split; [done|split; [done|]]].
    + eapply reached_rtc; [exact Hr3|]. by eapply stop_steps.
    + eapply rtc_l; [exact Sd|]. exact Hg.
  - destruct He as [E Hg]. right. rewrite E. split; [apply Hb3|done].
Qed.

(** C20. The loop is the system.  However long [IoUringDriver::run] runs, from whatever
    reachable state in which the loop is about to start a pass, whatever the kernel,
    the uring crate and nOS-V answer: as long as it goes on or returns, its ring went
    through states of the step relation of [RingSys] and its gate through steps of that
    of [RingGate], so that every theorem on their reachable states holds between two
    passes; when it returns, the driver has decided to stop and dropped its ring; and
    it dies only on a submission error it cannot retry, an exhausted index, or a native
    call that was refused. *)
Theorem loop_refines fuel k n m (x : Driver) (Hk : completes k) (Hr : reached (dsys x)) (Hb : between (dsys x))
    (Hl : loop (dsys x) = Looping) : went m x (run fuel k n x).
Proof.
  revert n x Hr Hb Hl. induction fuel as [|fuel IH]; intros n x Hr Hb Hl; [by split; [|split; [|split; [|apply rtc_refl]]]|].
  cbn [run]. pose proof (turn_went k n m x Hk Hr Hb Hl) as Ht. destruct (turn k n x) as [y []]; [|done..].
  destruct Ht as (Hry & Hby & Hly & Hs). specialize (IH (S n) y Hry Hby Hly). destruct (run fuel k (S n) y) as [z []]; cbn in *;
    [destruct IH as (?&?&?&?); split_and!; [done..|]; by etransitivity| |done].
  destruct IH as (?&?&?&?). split_and!; [done..|]. by etransitivity.
Qed.
End Run.
Arguments mkCompleter {U T}.
Arguments mkDriver {U T}.
Arguments dsys {U T}.
Arguments dgate {U T}.
Arguments dhist {U T}.

(** ** What an iteration does after a shutdown *)

Section Live.
Context `{codes : NosvCodes} `{U : Uring, !UringLaws} {T : Type}.
Notation ring := (Ring T).
Notation sys := (RSys T).
Notation driver := (Driver (T := T)).
Notation completer := (Completer (T := T)).
Notation uprog := (prog ucall uresp).
Notation uhist := (history ucall uresp).
Variable new_box : uhist -> gset Z -> Z.
Variable o : oracle ucall uresp.
Variable no : noracle.
Variable supported : Z -> bool.
Variable cfg : IoUringConfig.
Hypothesis Hbox : allocator_fresh new_box.
Hypothesis Hco : cooperative o (entries cfg).
Hypothesis Hentries : 0 < entries cfg.
Hypothesis Hreap : 0 < reap_size cfg.
Implicit Types (s : ring) (h : uhist) (x y z : sys) (un : gset OpId).

Notation head := (pass_head new_box supported cfg).
Notation tail := (pass_tail cfg).

(** A ring, still there, between two passes of a driver that was told to shut down. *)
Definition settled s h un : Prop := good (dom (subs s)) s [] un [] h /\ closure s = (true, true, false).

Lemma settled_down s h un : settled s h un -> ring_open s = true /\ dshutdown (data s) = true.
Proof. by intros [_ [= -> -> _]]. Qed.

Lemma bounded : kernel_bounded o.
Proof. eapply cooperative_bounded. exact Hco. Qed.

(** The head hands the kernel what waited, and never takes a step back. *)
Lemma head_effect s h un :
  settled s h un ->
  run_post head o s h (fun q s' h' => (exists ws, q = Done ws) /\ settled s' h' un /\
    sq s' = [] /\ cq s' = cq s /\ calmer (subs s) (subs s') /\
    (backlog s' <= backlog s)%nat /\ (sq s = [] -> 0 < backlog s -> backlog s' < backlog s)%nat /\
    (length (flight s) + length (sq s) <= length (flight s'))%nat /\
    (length (flight s') + backlog s' <= length (flight s) + length (sq s) + backlog s)%nat).
Proof.
  intros Hset. pose proof (settled_down _ _ _ Hset) as [Hop Hsh]. destruct Hset as [Hg Hs]. pose proof bounded as Hk.
  apply run_post_bind. eapply run_post_mono.
  { apply run_post_and; [by eapply pass_submit_post|]. apply run_post_and; [apply pass_submit_still|].
    eapply pass_effect; try done. lia. }
  intros q s1 h1 [Hp [Hcl1 ([[failed ws] ->] & E1 & E2 & E3 & E4 & E5 & E6 & E7 & E8)]]. cbn [then_post].
  apply run_post_bind. eapply run_post_mono.
  { apply run_post_and; [apply (fail_owned_keeps o (dom (subs s)) [] un [] failed); by rewrite app_nil_r|].
    apply run_post_and; [apply fail_owned_still|apply fail_owned_tame]. }
  intros [ws'|e|e|e] s2 h2 [Hg2 [Hcl2 (Hn & Q & C)]]; cbn in Hg2, Hn; [|done..]. cbn [then_post]. apply run_post_ret.
  injection Q as Q1 Q2 Q3 Q4 Q5 Q6 Q7 Q8.
  assert (backlog s2 = backlog s1) as Eb by (unfold backlog, waiting; congruence).
  split; [by eexists|]. split; [split; [by eapply good_known|by rewrite Hcl2, Hcl1]|]. rewrite Eb, Q2. 
  split; [congruence|]. split; [congruence|]. split; [by etransitivity|]. by split_and!.
Qed.

(** A batch is dispatched; what overflows was open before. *)
Lemma dispatch_all_effect un known : forall l s h,
  good known s l un [] h ->
  run_post (dispatch_all l) o s h (fun q s' h' => (exists ws ov, q = Done (ws, ov) /\
    (ov = [] \/ exists id, is_open (subs s) id /\ ~ is_open (subs s') id)) /\
    good known s' [] un [] h' /\ queues s' = queues s /\ calmer (subs s) (subs s')).
Proof.
  pose proof bounded as Hk.
  induction l as [|c l IH]; intros s h Hg; cbn [dispatch_all].
  { apply run_post_ret. split_and!; [|done..]. exists [], []. split; [done|]. by left. }
  apply run_post_bind. eapply run_post_mono.
  { apply run_post_and; [by eapply dispatch_keeps|apply dispatch_tame]. }
  intros [[ws over]|e|e|e] s1 h1 [Hg1 [(Hn & Q & C) Ho]]; cbn in Hg1, Hn; [|done..]. cbn [then_post].
  apply run_post_bind. eapply run_post_mono; [by apply IH|].
  intros q s2 h2 ((ws' & ov & -> & Hov) & Hg2 & Q2 & C2). cbn [then_post]. apply run_post_ret.
  split_and!; [|done|congruence|by etransitivity]. do 2 eexists. split; [done|].
  destruct over as [id|]; [destruct Ho as [H1 H2]; right; exists id; split; [done|]; intros H3; by apply H2, C2|].
  destruct Hov as [->|(id & H1 & H2)]; [by left|right; exists id; split; [by apply C|done]].
Qed.

(** Cancelling what overflowed. *)
Lemma overs_effect un known l s h :
  good known s [] un [] h ->
  run_post (for_each (fun id => request_cancel id Overflow) l) o s h (fun q s' h' => q = Done tt /\
    good known s' [] un [] h' /\ (sq s', flight s', cq s', dshutdown (data s')) = (sq s, flight s, cq s, dshutdown (data s)) /\
    calmer (subs s) (subs s') /\ (l = [] -> backlog s' = backlog s)).
Proof.
  revert s h. induction l as [|id l IH]; intros s h Hg; [by split_and!|]. cbn [for_each].
  apply run_post_bind. eapply run_post_mono.
  { apply run_post_and; [by eapply request_cancel_keeps|by apply request_cancel_queues]. }
  intros q s1 h1 [Hg1 ([[] ->] & (qq & Q & _) & C)]. cbn [then_post]. cbn in Hg1. injection Q as Q1 Q2 Q3 Q4 Q5 Q6 Q7 Q8.
  eapply run_post_mono; [by apply IH|]. intros q s2 h2 (-> & Hg2 & E & C2 & _).
  split_and!; [done|done|congruence|by etransitivity|done].
Qed.

(** The tail takes CQEs off the queue, unless some submission overflows and is closed. *)
Lemma tail_effect s h un :
  settled s h un ->
  run_post tail o s h (fun q s' h' => (exists a, q = Done a) /\ settled s' h' un /\
    sq s' = sq s /\ flight s' = flight s /\ calmer (subs s) (subs s') /\
    ((exists id, is_open (subs s) id /\ ~ is_open (subs s') id) \/
     cq s' = drop (Z.to_nat (reap_size cfg)) (cq s) /\ backlog s' = backlog s)).
Proof.
  intros Hset. pose proof (settled_down _ _ _ Hset) as [Hop Hsh]. destruct Hset as [Hg Hs].
  eapply run_post_bind_eq; [by apply reap_run|].
  set (l := take _ _). set (s0 := set_cq _ _).
  assert (good (dom (subs s)) s0 l un [] h) as Hg0 by (eapply good_batch; [exact Hg|]; unfold l; cbn; by rewrite take_drop).
  apply run_post_bind. eapply run_post_mono.
  { apply run_post_and; [apply dispatch_all_still|by apply dispatch_all_effect]. }
  intros q s1 h1 [Hcl1 ((ws & ov & -> & Hov) & Hg1 & Q & C)]. cbn [then_post]. injection Q as Q1 Q2 Q3 Q4 Q5 Q6 Q7 Q8.
  apply run_post_bind. eapply run_post_mono.
  { apply run_post_and; [apply (preserves_for_each closure); intros id; apply request_cancel_still|by eapply overs_effect]. }
  intros q s2 h2 [Hcl2 (-> & Hg2 & E & C2 & Eb)]. cbn [then_post]. apply run_post_ret. injection E as E1 E2 E3 E4.
  split; [by eexists|]. split; [split; [by eapply good_known|rewrite Hcl2, Hcl1; exact Hs]|].
  split; [by rewrite E1, Q1|]. split; [by rewrite E2, Q2|]. split; [by etransitivity|].
  destruct Hov as [->|(id & H1 & H2)]; [right|left; exists id; split; [done|]; intros H3; by apply H2, C2].
  split; [by rewrite E3, Q3|]. rewrite (Eb eq_refl). unfold backlog, waiting in *. by rewrite Q4, Q5, Q6, Q7.
Qed.

(** ** The measure *)

(** What is left to do: an entry weighs more the further it is from being dispatched. *)
Definition weight s : nat :=
  3 * backlog s + 2 * (length (sq s) + length (flight s)) + length (cq s).

(** Nothing was added, or a submission was closed; and something was done. *)
Definition level s s' : Prop :=
  opens (subs s') ⊂ opens (subs s) \/ opens (subs s') ⊆ opens (subs s) /\ (weight s' <= weight s)%nat.
Definition better s s' : Prop :=
  opens (subs s') ⊂ opens (subs s) \/ opens (subs s') ⊆ opens (subs s) /\ (weight s' < weight s)%nat.

Lemma calmer_opens m m' : calmer m m' -> opens m' ⊆ opens m.
Proof. intros C id. rewrite !elem_of_opens. apply C. Qed.

Lemma closed_opens m m' id : calmer m m' -> is_open m id -> ~ is_open m' id -> opens m' ⊂ opens m.
Proof.
  intros C H1 H2. split; [by apply calmer_opens|]. intros Hs. apply H2, elem_of_opens, Hs, elem_of_opens. done.
Qed.

Lemma remove_one_length p l : p ∈ l -> length l = S (length (remove_one p l)).
Proof.
  induction l as [|q l IH]; intros Hin; [by apply elem_of_nil in Hin|]. cbn. destruct (decide (q = p)) as [|Hne]; [done|].
  apply elem_of_cons in Hin as [->|Hin]; [done|]. cbn. by rewrite <- IH.
Qed.

(** Terminal CQEs of the kernel bring entries nearer. *)
Lemma post_all_effect : forall l x un,
  settled (r x) (rh x) un -> posted l x -> Forall (fun c => cqe_more c = false) l ->
  let y := post_all l x in
  settled (r y) (rh y) un /\ rh y = rh x /\ unqueued y = unqueued x /\ sq (r y) = sq (r x) /\ subs (r y) = subs (r x) /\
  backlog (r y) = backlog (r x) /\ (length (flight (r y)) + length l = length (flight (r x)))%nat /\
  length (cq (r y)) = (length (cq (r x)) + length l)%nat.
Proof.
  induction l as [|c l IH]; intros x un [Hg Hs] Hp Ht; cbn [post_all foldl].
  { split_and!; try done; cbn; lia. }
  destruct Hp as [[Hin Hm] Hp]. apply Forall_cons in Ht as [Hc Ht].
  assert (settled (r (post_one x c)) (rh (post_one x c)) un) as Hst.
  { split; [|done]. change (good (dom (subs (r x))) (post_cqe c (r x)) [] un [] (rh x)).
    by apply (good_post new_box o Hbox bounded c). }
  destruct (IH (post_one x c) un Hst Hp Ht) as (H1 & H2 & H3 & H4 & H5 & H6 & H7 & H8).
  change (foldl post_one (post_one x c) l) with (post_all l (post_one x c)).
  assert (length (flight (r x)) = S (length (flight (r (post_one x c))))) as Hfl.
  { unfold post_one, post_cqe. cbn. rewrite Hc. by apply remove_one_length. }
  unfold post_one, post_cqe in *. cbn in *. rewrite length_app in H8. cbn in H8.
  split_and!; try done; lia.
Qed.

(** ** An iteration makes progress *)

Hypothesis Haccepts : accepts no.

(** No descriptor was destroyed in between. *)
Definition same_destroys (nh nh' : nhistory) : Prop := forall p, count (destroys p) nh' = count (destroys p) nh.

(** The gate's part under a library that accepts every call. *)
Lemma iteration_accepted ws dec (g : GState) (nh : nhistory) :
  exists g' nh', run_iteration (poll_interval cfg) ws dec no g nh = (Done (bool_decide (dec = DStop)), g', nh') /\
    g_raw g' = g_raw g /\ same_destroys nh nh' /\
    g_phase g' = (if bool_decide (dec = DStop) then RTerminal else RRunning).
Proof.
  assert (run_post (wake_batch ws) no g nh (fun q g' nh' => q = Done tt /\ g' = g /\ same_destroys nh nh')) as Hw.
  { destruct ws as [|w ws]; [by apply run_post_ret|]. apply run_post_bind, status_post. cbn [then_post].
    rewrite (proj1 Haccepts). match goal with |- run_post _ no g ?h0 _ => destruct (wake_each_done no (w :: ws) g h0) as (nh' & E & Hd) end.
    eapply run_post_bind_eq; [exact E|]. apply run_post_bind, status_post. cbn [then_post]. rewrite (proj1 Haccepts).
    split; [done|]. split; [done|]. intros p. exact (Hd p). }
  revert Hw. unfold run_post. destruct (wake_batch ws no g nh) as [[q g0] nh1] eqn:Ew. cbn. intros (-> & -> & Hd1).
  unfold run_iteration. cbv [mbind prog_mbind prog_bind]. rewrite Ew.
  destruct (decide (dec = DStop)) as [->|Hd]; [by do 2 eexists|]. rewrite bool_decide_false by done.
  assert (forall A (a b : A), match dec with DStop => a | _ => b end = b) as Hnot by (by destruct dec).
  rewrite Hnot. clear Hnot. unfold gate_section, ring_park, yield_now, waitfor, pause, status. run_unfold.
  destruct (g_notified g); cbn; [by do 2 eexists|].
  destruct dec; [done|..]; cbn; rewrite (proj1 Haccepts); by do 2 eexists.
Qed.

(** A kernel that goes on completing what it holds: its completions are terminal, and
    again and again a turn ends with one if an entry is in flight. *)
Record answering (k : completer) : Prop := mkAnswering {
  an_held : completes k;
  an_inline n x : Forall (fun c => cqe_more c = false) (inline k n x);
  an_later n x : Forall (fun c => cqe_more c = false) (later k n x);
  an_again n : exists m, (n <= m)%nat /\ forall x, flight (r x) <> [] -> later k m x <> []
}.

Lemma settled_section {A} (m : uprog ring A) x (Q : outcome A -> ring -> uhist -> Prop) :
  run_post m o (r x) (rh x) (fun q s h => (exists a, q = Done a) /\ Q q s h) ->
  exists a s h, section o m x = (set_r s h x, Some a) /\ Q (Done a) s h.
Proof.
  unfold run_post, section. destruct (m o (r x) (rh x)) as [[q s] h]. cbn. intros [[a ->] HQ]. by exists a, s, h.
Qed.

(** A driver in its loop, told to shut down. *)
Record looping (x : driver) : Prop := mkLooping {
  lo_between : between (dsys x);
  lo_loop : loop (dsys x) = Looping;
  lo_settled : settled (r (dsys x)) (rh (dsys x)) (unqueued (dsys x))
}.

Lemma settled_closing x :
  between x -> loop x = Looping -> settled (r x) (rh x) (unqueued x) -> closing x /\ idle x.
Proof.
  intros (Hx & Hf & Hb & Ho) Hl [Hg Hs]. split; [|done]. injection Hs as H1 H2 H3. split; [|split; [|done]].
  - split; [done|]. split; [done|]. unfold loop_inv. by rewrite Hl.
  - unfold sys_good, registered. by rewrite Hf, Hb.
Qed.

(** One pass, with what the kernel posts meanwhile: it goes through; nothing is added
    unless a submission is closed; and if nothing was done, nothing but entries in
    flight is left. *)
Lemma pass_progress k n x :
  answering k -> between x -> settled (r x) (rh x) (unqueued x) ->
  exists x1 ws1 y a, section o head x = (x1, Some ws1) /\ section o tail (post_all (inline k n x1) x1) = (y, Some a) /\
    between y /\ loop y = loop x /\ settled (r y) (rh y) (unqueued y) /\ unqueued y = unqueued x /\ level (r x) (r y) /\
    (better (r x) (r y) \/ sq (r y) = [] /\ cq (r y) = [] /\ (flight (r y) <> [] \/ backlog (r y) = 0%nat)).
Proof.
  intros Hk Hb Hs. destruct (settled_section head x _ (head_effect _ _ _ Hs)) as (ws1 & s1 & h1 & E1 & Hs1 & Q1 & C1 & O1 & B1 & B2 & F1 & F2).
  set (x1 := set_r s1 h1 x) in *.
  destruct (post_all_effect (inline k n x1) x1 (unqueued x) Hs1 (proj1 (an_held k Hk n x1)) (an_inline k Hk n x1))
    as (Hs2 & _ & U2 & Q2 & S2 & B3 & F3 & C2).
  pose proof (post_all_between (inline k n x1) x1 Hb) as Hb2. set (x2 := post_all (inline k n x1) x1) in *.
  destruct (settled_section tail x2 _ (tail_effect _ _ _ Hs2)) as (a & s3 & h3 & E3 & Hs3 & Q3 & F4 & O3 & Hend).
  change (r x1) with s1 in *.
  exists x1, ws1, (set_r s3 h3 x2), a. fold x2. rewrite E3. split; [exact E1|]. split; [done|]. split; [exact Hb2|].
  split; [exact (post_all_loop (inline k n x1) x1)|].
  cbn [r rh unqueued set_r]. rewrite U2. change (unqueued x1) with (unqueued x).
  split; [exact Hs3|]. split; [done|].
  rewrite S2 in O3. assert (calmer (subs (r x)) (subs s3)) as Hc by (by etransitivity).
  destruct Hend as [(id & H1 & H2)|[C3 B4]].
  { rewrite S2 in H1. apply O1 in H1. pose proof (closed_opens _ _ id Hc H1 H2) as Hlt. split; [by left|]. left. by left. }
  pose proof (calmer_opens _ _ Hc) as Hsub. unfold level, better, weight.
  assert (length (cq s3) = length (cq (r x2)) - Z.to_nat (reap_size cfg))%nat as Ecq by (by rewrite C3, length_drop).
  rewrite Q3, Q2, Q1, F4, B4, B3. rewrite C1 in C2. cbn [length].
  split; [right; split; [exact Hsub|]; lia|].
  destruct (decide (3 * backlog s1 + 2 * (0 + length (flight (r x2))) + length (cq s3) <
    3 * backlog (r x) + 2 * (length (sq (r x)) + length (flight (r x))) + length (cq (r x)))%nat) as [Hlt|Hge];
    [left; right; by split|right].
  split; [done|]. assert (length (cq (r x2)) = 0%nat) as E0 by lia. split; [apply nil_length_inv; lia|].
  destruct (sq (r x)) as [|p q]; cbn [length] in *; [right; specialize (B2 eq_refl); lia|left].
  intros E. rewrite E in F3. cbn in F3. lia.
Qed.

Notation turn := (turn new_box o no supported cfg).
Notation run := (run new_box o no supported cfg).

(** Where the loop ended: the decision was to stop. *)
Definition decided_stop x : Prop :=
  exists backlog, decide_run (data (r x)) backlog (is_empty (owned_queue (r x))) = DStop.

(** What the loop never touches: the operations no poll has queued, and the descriptor. *)
Definition carried (x y : driver) : Prop :=
  unqueued (dsys y) = unqueued (dsys x) /\ g_raw (dgate y) = g_raw (dgate x) /\ same_destroys (dhist x) (dhist y).

#[local] Instance carried_preorder : PreOrder carried.
Proof.
  split; [by intros x; split_and!|]. intros x y z (E1 & E2 & E3) (F1 & F2 & F3).
  split; [congruence|]. split; [congruence|]. intros p. by rewrite F3, E3.
Qed.

(** One iteration returns, or is no step back, and a step forward if the kernel then
    completes something. *)
Lemma turn_progress k n (x : driver) :
  answering k -> looping x ->
  exists (y : driver) e, turn k n x = (y, e) /\ carried x y /\
    match e with
    | Dies => False
    | Returns => g_phase (dgate y) = RTerminal /\
        exists z, dsys y = stopped o z /\ between z /\ settled (r z) (rh z) (unqueued z) /\ decided_stop z
    | Continues => looping y /\ g_phase (dgate y) = RRunning /\ level (r (dsys x)) (r (dsys y)) /\
        ((forall z, flight (r z) <> [] -> later k n z <> []) -> better (r (dsys x)) (r (dsys y)))
    end.
Proof.
  intros Hk [Hb Hl Hs]. destruct (pass_progress k n (dsys x) Hk Hb Hs)
    as (x1 & ws1 & y & [ws2 backlog] & E1 & E2 & Hby & Hly & Hsy & Hu & Hlev & Hbet). rewrite Hl in Hly.
  unfold RingRun.turn. rewrite E1, E2. unfold turn_end. cbn [dsys dgate dhist].
  set (dec := decide_run _ _ _).
  destruct (iteration_accepted (ws1 ++ ws2) dec (dgate x) (dhist x)) as (g & nh & Ei & G1 & G2 & G3). rewrite Ei.
  case_bool_decide as Hd.
  { do 2 eexists. split; [reflexivity|]. split; [by split_and!|]. split; [done|]. exists y. do 3 (split; [done|]). by exists backlog. }
  destruct (post_all_effect (later k n y) y (unqueued y) Hsy (proj2 (an_held k Hk n y)) (an_later k Hk n y))
    as (Hsz & _ & Uz & Qz & Sz & Bz & Fz & Cz).
  do 2 eexists. split; [reflexivity|]. cbn [dsys dgate]. set (z := post_all (later k n y) y) in *.
  split; [split_and!; [cbn; congruence|done..]|].
  split; [split; [by apply post_all_between|by cbn; unfold z; rewrite post_all_loop|cbn; by rewrite Uz]|]. split; [done|].
  assert (opens (subs (r z)) = opens (subs (r y))) as Eo by (by rewrite Sz).
  assert (weight (r z) + length (later k n y) = weight (r y))%nat as Ew by (unfold weight; rewrite Qz, Bz, Cz; lia).
  unfold level, better in *. rewrite Eo. split; [destruct Hlev as [?|[? ?]]; [by left|right; split; [done|lia]]|].
  intros Hans. destruct Hbet as [[?|[? ?]]|(Q0 & C0 & Hf)]; [by left|right; split; [done|lia]|].
  destruct (decide (flight (r y) = [])) as [E0|E0].
  - exfalso. destruct Hf as [Hf|Hf]; [done|]. destruct (settled_closing y Hby Hly Hsy) as [Hcl _].
    apply Hd. apply (rest_decides y backlog Hcl). split_and!; try done. apply Hby.
  - specialize (Hans y E0). assert (0 < length (later k n y))%nat as Hpos by (destruct (later k n y); [done|cbn; lia]).
    destruct Hlev as [?|[? ?]]; [by left|right; split; [done|lia]].
Qed.

(** How the loop ends: the gate is terminal, nothing is in flight and no CQE unread,
    every submission is drained and every operation handed to the driver completed. *)
Definition ends_well (x y : driver) : Prop :=
  loop (dsys y) = Stopped /\ g_phase (dgate y) = RTerminal /\ carried x y /\
  sq (r (dsys y)) = [] /\ flight (r (dsys y)) = [] /\ cq (r (dsys y)) = [] /\
  (forall id u, subs (r (dsys y)) !! id = Some u -> drained u = true) /\
  forall ctl c, controls (r (dsys y)) !! ctl = Some c -> ctl ∉ unqueued (dsys x) -> op_completed c = true.

Definition ends k n (x : driver) : Prop := exists fuel (y : driver), run fuel k n x = (y, Returns) /\ ends_well x y.

Lemma ends_now k n (x y : driver) :
  turn k n x = (y, Returns) -> carried x y ->
  (g_phase (dgate y) = RTerminal /\
     exists z, dsys y = stopped o z /\ between z /\ settled (r z) (rh z) (unqueued z) /\ decided_stop z) -> ends k n x.
Proof.
  intros Et Hc (Hp & z & Ez & (_ & Hf & Hb & _) & [Hg _] & [b Hd]). exists 1%nat, y. cbn [RingRun.run]. rewrite Et. split; [done|].
  assert (sys_good z) as Hgz by (unfold sys_good, registered; by rewrite Hf, Hb).
  destruct (stopped_clean z b Hgz Hb Hf Hd) as (_ & E1 & E2 & E3 & E4 & E5).
  unfold ends_well. rewrite <- (proj1 Hc), Ez. by split_and!.
Qed.

Lemma ends_step k n (x y : driver) :
  turn k n x = (y, Continues) -> carried x y -> ends k (S n) y -> ends k n x.
Proof.
  intros Et Hc (fuel & z & Ez & H1 & H2 & H3 & H4). exists (S fuel), z. cbn [RingRun.run]. rewrite Et. split; [exact Ez|].
  split; [done|]. split; [done|]. split; [by etransitivity|]. by rewrite <- (proj1 Hc).
Qed.

(** After a shutdown the driver's loop returns.  Whatever is queued, staged, in
    flight or posted when a driver that was told to shut down comes to its next pass,
    under a library that accepts its calls and any kernel that takes what it is offered
    and goes on completing what it holds, in any order and at any pace, [run] returns
    after finitely many iterations: with nothing in flight and no CQE unread, every
    submission drained and every operation that was handed to it completed. *)
Theorem loop_returns k n (x : driver) (Hk : answering k) (Hx : looping x) : ends k n x.
Proof.
  remember (opens (subs (r (dsys x)))) as os eqn:Hos. revert n x Hos Hx.
  induction (set_wf os) as [os _ IHo]. intros n x Hos Hx. remember (weight (r (dsys x))) as w eqn:Hw. revert n x Hos Hx Hw.
  induction (lt_wf w) as [w _ IHw]. intros n x Hos Hx Hw. destruct (an_again k Hk n) as (m & Hm & Hans).
  remember (m - n)%nat as d eqn:Hd. revert n x Hos Hx Hw Hm Hd. induction d as [|d IHd]; intros n x Hos Hx Hw Hm Hd;
    destruct (turn_progress k n x Hk Hx) as (y & [] & Et & Hc & He); try done;
    try (by eapply ends_now);
    apply (ends_step k n x y Et Hc); destruct He as (Hy & _ & Hlev & Hbet).
  - assert (n = m) as -> by lia. destruct (Hbet Hans) as [Hlt|[Hle Hlt]].
    + subst os. by eapply IHo.
    + destruct (decide (os ⊆ opens (subs (r (dsys y))))) as [Hge|Hne]; [|apply (IHo (opens (subs (r (dsys y))))); try done; subst os; by split].
      subst w. apply (IHw (weight (r (dsys y)))); try done. subst os. by apply set_eq_subseteq.
  - destruct Hlev as [Hlt|[Hle Hlt]]; [subst os; by eapply IHo|].
    destruct (decide (os ⊆ opens (subs (r (dsys y))))) as [Hge|Hne]; [|apply (IHo (opens (subs (r (dsys y))))); try done; subst os; by split].
    assert (os = opens (subs (r (dsys y)))) as Eo by (subst os; by apply set_eq_subseteq).
    destruct (decide (weight (r (dsys y)) = w)) as [Ew|Ew]; [|subst w; apply (IHw (weight (r (dsys y)))); try done; lia].
    apply IHd; try done; lia.
Qed.

(** ** [shutdown_and_wait] returns *)

(** The driver's task runs or was resubmitted, or is parked. *)
Definition awake (g : GState) : Prop := g_phase g = RRunning \/ g_phase g = RWakePending.
Definition wakeable (g : GState) : Prop := awake g \/ g_phase g = RPaused \/ g_phase g = RDeadlineWait.

Lemma notify_accepted (x : driver) raw :
  g_raw (dgate x) = Some raw -> wakeable (dgate x) ->
  exists y : driver, notify_driver no x = Some y /\ dsys y = dsys x /\ carried x y /\ awake (dgate y).
Proof.
  intros Hr Hp. unfold notify_driver, ring_notify, wakeable, awake, submit, submit_deadline_wake, submit_with, status in *.
  run_unfold. destruct Hp as [[Hp|Hp]|[Hp|Hp]]; rewrite Hp; cbn; rewrite ?Hr; cbn; rewrite ?(proj1 Haccepts); cbn;
    eexists; (split; [reflexivity|]); cbn; (split; [done|]); (split; [by split_and!|auto]).
Qed.

(** What the sections of a shutdown leave: a settled ring. *)
Definition stops {A} (m : uprog ring A) : Prop :=
  forall s h un, settled s h un -> run_post m o s h (fun q s' h' => (exists a, q = Done a) /\ settled s' h' un).

Lemma request_cancel_stops id : stops (request_cancel id Detached).
Proof.
  intros s h un [Hg Hs]. eapply run_post_mono.
  { apply run_post_and; [by eapply request_cancel_keeps|].
    apply run_post_and; [apply request_cancel_still|by apply request_cancel_queues]. }
  intros q s1 h1 [Hg1 [Hcl ([[] ->] & _)]]. cbn in Hg1.
  split; [by eexists|]. split; [by eapply good_known|by rewrite Hcl].
Qed.

Lemma request_owned_cancel_stops ctl : stops (request_owned_cancel ctl).
Proof.
  intros s h un [Hg Hs].
  assert (run_post (request_owned_cancel ctl) o s h (fun q _ _ => q = Done tt)) as Hd.
  { eapply run_post_bind_eq; [reflexivity|].
    match goal with |- context [match ?e with Some _ => _ | None => _ end] => destruct e as [[p c]|] end; [|by apply run_post_ret].
    eapply run_post_bind_eq; [reflexivity|]. by apply run_post_modify. }
  eapply run_post_mono.
  { apply run_post_and; [by eapply request_owned_cancel_keeps|].
    apply run_post_and; [apply request_owned_cancel_still|exact Hd]. }
  intros q s1 h1 [Hg1 [Hcl ->]]. cbn in Hg1. split; [by eexists|]. split; [by eapply good_known|by rewrite Hcl].
Qed.

Lemma announce_all_settled : forall ms (x : driver) raw,
  Forall stops ms -> looping x -> g_raw (dgate x) = Some raw -> wakeable (dgate x) ->
  exists y : driver, announce_all o no ms x = Some y /\ looping y /\ carried x y /\ wakeable (dgate y).
Proof.
  induction ms as [|m ms IH]; intros x raw Hms Hx Hr Hp; [by exists x|].
  apply Forall_cons in Hms as [Hm Hms]. destruct Hx as [Hb Hl Hs].
  destruct (settled_section m (dsys x) _ (Hm _ _ _ Hs)) as (a & s & h & E & Hs1).
  cbn [announce_all]. unfold announce. rewrite E.
  destruct (notify_accepted (mkDriver (set_r s h (dsys x)) (dgate x) (dhist x)) raw Hr Hp) as (y & -> & Ey & Hc & Hay).
  cbn in Ey |- *. assert (carried x y) as Hxy by exact Hc.
  destruct (IH y raw Hms) as (z & -> & Hz & Hyz & Hpz); [by split; rewrite Ey|by rewrite (proj1 (proj2 Hxy))|by left|].
  exists z. split; [done|]. split; [done|]. split; [by etransitivity|done].
Qed.

Lemma request_stop_settled (x : driver) raw :
  between (dsys x) -> loop (dsys x) = Looping -> ring_open (r (dsys x)) = true ->
  good (dom (subs (r (dsys x)))) (r (dsys x)) [] (unqueued (dsys x)) [] (rh (dsys x)) ->
  g_raw (dgate x) = Some raw -> wakeable (dgate x) ->
  exists y : driver, request_stop o no x = Some y /\ looping y /\ carried x y /\ awake (dgate y).
Proof.
  intros Hb Hl Hop Hg Hr Hp. unfold request_stop, section.
  destruct ((_ ← modify (set_owned_admission false); shutdown_section) o (r (dsys x)) (rh (dsys x))) as [[q s] h] eqn:E.
  unfold shutdown_section in E. cbv [mbind prog_mbind prog_bind modify get mret prog_mret prog_ret] in E. injection E as <- <- <-.
  match goal with |- context [announce_all o no ?l ?v] => set (ms := l); set (x1 := v) end.
  assert (looping x1) as Hx1.
  { split; [done|exact Hl|]. subst x1. clear ms. split; [|unfold closure; cbn; by rewrite Hop]. cbn [dsys r rh unqueued set_r].
    match goal with |- good _ ?t _ _ _ _ => set (s1 := t) end. change (dom (subs s1)) with (dom (subs (r (dsys x)))).
    apply (good_same (r (dsys x)) s1); [exact Hg|by repeat split|reflexivity..]. }
  assert (Forall stops ms) as Hms.
  { apply Forall_app. split; apply List.Forall_map, Forall_true; [apply request_cancel_stops|apply request_owned_cancel_stops]. }
  destruct (announce_all_settled ms x1 raw Hms Hx1 Hr Hp) as (y & -> & Hy & Hc & Hpy). assert (carried x y) as Hxy by exact Hc.
  cbn. destruct (notify_accepted y raw) as (z & Ez & Eyz & Hyz & Haz); [by rewrite (proj1 (proj2 Hxy))|done|].
  exists z. rewrite Ez. split; [done|]. split; [destruct Hy; split; by rewrite Eyz|]. split; [by etransitivity|done].
Qed.

Lemma completed_accepted (g : GState) (nh : nhistory) raw :
  g_raw g = Some raw -> g_phase g = RTerminal ->
  exists g' nh', ring_completed_callback (Npos raw) no g nh = (Done tt, g', nh') /\
    g_raw g' = None /\ g_completed g' = true /\ count (destroys raw) nh' = S (count (destroys raw) nh).
Proof.
  intros Hr Hp. unfold ring_completed_callback, driver_owner, ring_retire, metadata, destroy, status. run_unfold.
  pose proof (proj2 Haccepts nh raw) as Hm. destruct (rptr (no nh (NMetadata raw))); [done|]. cbn. rewrite Hp. cbn.
  rewrite Hr. cbn. rewrite (proj1 Haccepts). cbn. do 2 eexists. split; [reflexivity|]. split_and!; [done..|].
  cbn. by rewrite bool_decide_true.
Qed.

(** C19. [shutdown_and_wait] returns.  From every reachable state of the ring in which
    the driver's loop runs and its task is parked or about to start a pass, whatever is queued, staged, in
    flight or posted: if the library accepts its calls and the kernel takes what it is
    offered and goes on completing what it holds, in any order and at any pace, the call
    ends after finitely many iterations of the driver.  Then the native task has been
    destroyed, once, nothing is in flight and no CQE unread, every submission is drained,
    and every operation that was handed to the driver is completed. *)
Theorem shutdown_and_wait_returns k raw (x : driver)
    (Hk : answering k) (Hr : reachable sys_init (sys_step new_box o supported cfg) (dsys x)) (Hb : between (dsys x))
    (Hl : loop (dsys x) = Looping) (Hraw : g_raw (dgate x) = Some raw) (Hp : wakeable (dgate x)) :
  exists fuel (y : driver), shutdown_and_wait new_box o no supported cfg fuel k x = Some y /\
    g_completed (dgate y) = true /\ g_raw (dgate y) = None /\
    count (destroys raw) (dhist y) = S (count (destroys raw) (dhist x)) /\
    sq (r (dsys y)) = [] /\ flight (r (dsys y)) = [] /\ cq (r (dsys y)) = [] /\
    (forall id u, subs (r (dsys y)) !! id = Some u -> drained u = true) /\
    forall ctl c, controls (r (dsys y)) !! ctl = Some c -> ctl ∉ unqueued (dsys x) -> op_completed c = true.
Proof.
  pose proof (reach_good new_box o supported cfg Hbox bounded (dsys x) Hr (proj1 Hb)) as Hg.
  unfold sys_good, registered in Hg. destruct Hb as (Hx & Hf & Hba & Ho). rewrite Hf, Hba in Hg.
  pose proof (looping_open new_box o supported cfg Hbox bounded (dsys x) Hr Hl) as Hop.
  destruct (request_stop_settled x raw (conj Hx (conj Hf (conj Hba Ho))) Hl Hop Hg Hraw Hp) as (x1 & E1 & Hx1 & Hc1 & Hwake).
  set (x2 := mkDriver (dsys x1) (set_g_phase RRunning (dgate x1)) (dhist x1)).
  destruct (loop_returns k 0 x2 Hk) as (fuel & y & Ey & _ & Hpy & Hc2 & E2 & E3 & E4 & E5 & E6); [by destruct Hx1|].
  assert (carried x y) as Hxy by (etransitivity; [exact Hc1|exact Hc2]). pose proof Hxy as (Hu & Hry & Hd). rewrite Hraw in Hry.
  destruct (completed_accepted (dgate y) (dhist y) raw Hry Hpy) as (g & nh & Ec & G1 & G2 & G3).
  exists fuel, (mkDriver (dsys y) g nh). split.
  - unfold shutdown_and_wait. rewrite E1. cbn. unfold driver_finishes, ring_resumed, modify.
    rewrite bool_decide_false by (destruct Hwake as [-> | ->]; done).
    change (mkDriver (dsys x1) (set_g_phase RRunning (dgate x1)) (dhist x1)) with x2. rewrite Ey.
    cbv [mbind prog_mbind prog_bind get]. rewrite Hry, Ec. cbn. by rewrite G2.
  - split_and!; [done|done|cbn [dhist]; by rewrite G3, Hd|done..|]. intros ctl c. rewrite <- (proj1 Hc1). apply E6.
Qed.
End Live.

(** ** A run *)

Module LoopRun.
Import Sample.
#[local] Existing Instance sample_codes.

(** The kernel completes one entry after every second pass. *)
Definition answers (n : nat) (x : sys) : list (Z * bool * Z) :=
  if Nat.even n then [] else match flight (r x) with p :: _ => [(p, false, 0)] | [] => [] end.
Definition one_by_one : Completer (T := Z) := mkCompleter (fun _ _ => []) answers.

(** Two entries are in flight; the driver waits for a deadline. *)
Definition waiting : Driver (T := Z) := mkDriver admitted (mkGate (Some 5%positive) RDeadlineWait false false) [].

Lemma one_by_one_completes : completes one_by_one.
Proof.
  intros n x. split; [done|]. unfold one_by_one, later, answers. destruct (Nat.even n); [done|].
  destruct (flight (r x)) eqn:E; [done|]. split; [|done]. split; [cbn; rewrite E; by left|done].
Qed.

Lemma one_by_one_answers : answering one_by_one.
Proof.
  split; [apply one_by_one_completes|done| |].
  - intros n x. cbn. unfold answers. destruct (Nat.even n); [done|]. destruct (flight (r x)); repeat constructor.
  - intros n. exists (S (2 * n)). split; [lia|]. intros x Hx. cbn -[Nat.mul]. unfold answers.
    rewrite Nat.even_succ, Nat.odd_mul, Nat.odd_2. cbn. by destruct (flight (r x)).
Qed.

Lemma admitted_between : between admitted.
Proof. by vm_compute. Qed.

Lemma shutdown_and_wait_returns_witness :
  flight (r (dsys waiting)) = [1; 2] /\
  exists fuel (y : Driver (T := Z)),
    shutdown_and_wait new_box kernel Ffi.accepting all_supported config_default fuel one_by_one waiting = Some y /\
    flight (r (dsys y)) = [] /\ g_completed (dgate y) = true.
Proof.
  split; [by vm_compute|].
  assert (accepts Ffi.accepting) as Ha by (split; [intros h []; reflexivity|done]).
  assert (0 < entries config_default) as H1 by (by vm_compute).
  assert (0 < reap_size config_default) as H2 by (by vm_compute).
  assert (wakeable (dgate waiting)) as Hw by (by right; right).
  destruct (shutdown_and_wait_returns new_box kernel Ffi.accepting all_supported config_default new_box_fresh
    (StopRun.kernel_cooperates _) H1 H2 Ha one_by_one 5%positive waiting one_by_one_answers admitted_reached
    admitted_between eq_refl eq_refl Hw) as (fuel & y & E & H3 & _ & _ & _ & H4 & _).
  exists fuel, y. exact (conj E (conj H4 H3)).
Defined.

Lemma loop_refines_witness :
  went new_box kernel Ffi.accepting all_supported config_default 0 waiting
    (run new_box kernel Ffi.accepting all_supported config_default 3 one_by_one 0 waiting).
Proof.
  apply (loop_refines new_box kernel Ffi.accepting all_supported config_default new_box_fresh kernel_ok 3 one_by_one 0 0 waiting).
  - exact one_by_one_completes.
  - exact admitted_reached.
  - exact admitted_between.
  - reflexivity.
Defined.

(** Two originals and two cancellations, one every second pass. *)
Definition done_with (fuel : nat) : bool :=
  match shutdown_and_wait new_box kernel Ffi.accepting all_supported config_default fuel one_by_one waiting with
  | Some y => bool_decide (flight (r (dsys y)) = []) && g_completed (dgate y)
  | None => false
  end.

Example ten_passes : map done_with [8; 9; 10; 11]%nat = [false; true; true; true].
Proof. by vm_compute. Qed.
End LoopRun.
