(* ===== verification/Query.v ===== *)
(** * Query: topology and memory snapshots ([src/src/topology.rs], [src/src/memory.rs])

    The lifecycle-checked queries of [Topology] and [Handle::memory_stats]: which
    native calls they make, that every array nOS-V allocates is freed exactly once,
    and what they return for every native answer.  A query holds the state mutex
    throughout, so it is one program over the runtime state; an array behind a
    returned pointer is the [rdata] of the answer. *)

From Stdlib Require Import ZArith Lia.
From stdpp Require Import base gmap sets list strings.
From S2P Require Import Prelude Errors Ffi Affinity Task TaskLife Runtime.

Open Scope Z_scope.

(** ** Collecting results *)

(** [iter.map(f).collect::<Result<Vec<_>, _>>()]: the first error wins. *)
Fixpoint collect_results {E A B} (f : A -> result E B) (l : list A) : result E (list B) :=
  match l with
  | [] => Ok []
  | a :: l' =>
      match f a with
      | Err e => Err e
      | Ok b => result_map (cons b) (collect_results f l')
      end
  end.

Lemma collect_results_Ok {E A B} (f : A -> result E B) l bs :
  collect_results f l = Ok bs <-> Forall2 (fun a b => f a = Ok b) l bs.
Proof.
  revert bs. induction l as [|a l IH]; intros bs; cbn.
  - split; [by intros [= <-]|by intros ->%Forall2_nil_inv_l].
  - split.
    + destruct (f a) eqn:Ha, (collect_results f l); cbn; try done.
      intros [= <-]. constructor; [done|]. by apply IH.
    + intros (b & bs' & Ha & ->%IH & ->)%Forall2_cons_inv_l. by rewrite Ha.
Qed.

Lemma collect_results_Err {E A B} (f : A -> result E B) l e :
  collect_results f l = Err e ->
  exists before a after, l = before ++ a :: after /\ f a = Err e /\
    Forall (fun x => is_ok (f x)) before.
Proof.
  induction l as [|a l IH]; cbn; [done|]. destruct (f a) eqn:Ha.
  - destruct (collect_results f l); cbn; [done|]. intros [= ->].
    destruct IH as (before & x & after & -> & Hx & Hb); [done|].
    exists (a :: before), x, after. split_and!; [done|done|]. constructor; [by rewrite Ha|done].
  - intros [= ->]. by exists [], a, l.
Qed.

(** ** Single-precision floats

    An [f32] as its 32-bit pattern: sign, biased exponent, fraction.  A finite value
    is [f32_scaled] times [2 ^ -149]. *)
Definition f32_sign (b : Z) : bool := Z.testbit b 31.
Definition f32_exponent (b : Z) : Z := Z.land (Z.shiftr b 23) 255.
Definition f32_fraction (b : Z) : Z := Z.land b (2 ^ 23 - 1).

(** [f32::is_finite]. *)
Definition f32_is_finite (b : Z) : bool := negb (f32_exponent b =? 255).

Definition f32_scaled (b : Z) : Z :=
  let magnitude := if f32_exponent b =? 0 then f32_fraction b
                   else Z.shiftl (f32_fraction b + 2 ^ 23) (f32_exponent b - 1) in
  if f32_sign b then - magnitude else magnitude.

(** [(0.0..=1.0).contains(&p)] of a finite value. *)
Definition f32_in_unit (b : Z) : bool := (0 <=? f32_scaled b) && (f32_scaled b <=? 2 ^ 149).

(** The patterns of the numbers between zero and one: up to [1.0], and [-0.0]. *)
Definition f32_ONE : Z := 127 * 2 ^ 23.

Section Float.
Context (b : Z).
Hypothesis Hb : in_u32 b.

Lemma f32_fields :
  f32_fraction b = b mod 2 ^ 23 /\ f32_exponent b = (b / 2 ^ 23) mod 256 /\
  f32_sign b = (2 ^ 31 <=? b).
Proof.
  destruct Hb as [H0 H1]. unfold u32_max in H1.
  unfold f32_fraction, f32_exponent, f32_sign. split_and!.
  - change (2 ^ 23 - 1) with (Z.ones 23). by rewrite Z.land_ones by lia.
  - rewrite Z.shiftr_div_pow2 by lia. change 255 with (Z.ones 8). by rewrite Z.land_ones by lia.
  - rewrite Z.testbit_odd, Z.shiftr_div_pow2 by lia.
    destruct (Z.leb_spec (2 ^ 31) b).
    + by rewrite <- (Z.div_unique b (2 ^ 31) 1 (b - 2 ^ 31)) by lia.
    + by rewrite Z.div_small by lia.
Qed.

(** The magnitude of a nonzero exponent field lies between two powers of two. *)
Lemma f32_magnitude_le m e : 0 <= m < 2 ^ 23 -> 1 <= e ->
  (Z.shiftl (m + 2 ^ 23) (e - 1) <= 2 ^ 149 <-> e < 127 \/ e = 127 /\ m = 0).
Proof.
  intros Hm He. rewrite Z.shiftl_mul_pow2 by lia.
  change (2 ^ 149) with (2 ^ 23 * 2 ^ 126). destruct (Z.lt_trichotomy e 127) as [Hlt|[->|Hgt]].
  - assert (2 ^ (e - 1) <= 2 ^ 125) by (apply Z.pow_le_mono_r; lia).
    assert (0 < 2 ^ (e - 1)) by (apply Z.pow_pos_nonneg; lia).
    change (2 ^ 126) with (2 * 2 ^ 125). split; [by left|]. intros _. nia.
  - change (127 - 1) with 126. split; [|lia]. intros H. right. split; [done|].
    assert (0 < 2 ^ 126) by (by apply Z.pow_pos_nonneg). nia.
  - assert (2 ^ 127 <= 2 ^ (e - 1)) by (apply Z.pow_le_mono_r; lia).
    change (2 ^ 127) with (2 * 2 ^ 126) in *. assert (0 < 2 ^ 126) by (by apply Z.pow_pos_nonneg).
    split; [nia|lia].
Qed.

Lemma f32_unit_pattern :
  f32_in_unit b = true <-> b <= f32_ONE \/ b = 2 ^ 31.
Proof.
  destruct f32_fields as (Hf & He & Hs). destruct Hb as [H0 H1]. unfold u32_max in H1.
  unfold f32_in_unit, f32_scaled, f32_ONE. rewrite andb_true_iff, !Z.leb_le, Hs, He, Hf.
  pose proof (Z.mod_pos_bound b (2 ^ 23) ltac:(lia)) as Hm.
  pose proof (Z.div_mod b (2 ^ 23) ltac:(lia)) as Hq.
  pose proof (Z.mod_pos_bound (b / 2 ^ 23) 256 ltac:(lia)) as Hmq.
  pose proof (Z.div_mod (b / 2 ^ 23) 256 ltac:(lia)) as Hqq.
  set (m := b mod 2 ^ 23) in *. set (e := (b / 2 ^ 23) mod 256) in *.
  set (q := b / 2 ^ 23) in *. set (sg := q / 256) in *.
  destruct (Z.eqb_spec e 0) as [->|Hne].
  - destruct (Z.leb_spec (2 ^ 31) b); split; lia.
  - pose proof (f32_magnitude_le m e Hm ltac:(lia)) as Hmag.
    assert (0 < Z.shiftl (m + 2 ^ 23) (e - 1)) as Hpos.
    { rewrite Z.shiftl_mul_pow2 by lia. apply Z.mul_pos_pos; [lia|]. apply Z.pow_pos_nonneg; lia. }
    destruct (Z.leb_spec (2 ^ 31) b); split; intros; try lia.
Qed.
End Float.

(** ** [MemoryStats] *)

Record MemoryStats : Type := mkMemoryStats {
  used : Z;
  size : Z;
  pressure : Z     (* the bit pattern of the [f32] *)
}.

Section Query.
Context `{codes : NosvCodes} `{levels : TopoLevels} {F T : Type}.
Notation rprog := (nprog (RState F T)).

(** A call that writes one scalar through an output pointer. *)
Definition status_out (c : ncall) : rprog (result NativeError Z) :=
  r ← call c;
  mret (match from_code (rcode r) with
        | Ok _ => Ok (default 0 (head (rdata r)))
        | Err e => Err e
        end).

Definition memory_query : rprog (result NativeError MemoryStats) :=
  let? used := status_out NMemoryUsed in
  let? size := status_out NMemorySize in
  let? pressure := status_out NMemoryPressure in
  mret (if (used >? size) || negb (f32_is_finite pressure) || negb (f32_in_unit pressure)
        then Err InvalidOperation
        else Ok (mkMemoryStats used size pressure)).

(** [Handle::memory_stats]. *)
Definition memory_stats (getpid : Z) : rprog (result NativeError MemoryStats) :=
  s ← get;
  if negb (core_process_matches getpid s) then mret (Err NotInitialized) else
  if negb (is_running (lifecycle s)) then mret (Err NotInitialized) else
  memory_query.

(** ** [Topology] *)

(** [alive]: whether the weak runtime reference still upgrades. *)
Definition with_live {A} (alive : bool) (getpid : Z) (query : rprog (result NativeError A))
    : rprog (result NativeError A) :=
  if negb alive then mret (Err NotInitialized) else
  s ← get;
  if negb (core_process_matches getpid s) then mret (Err NotInitialized) else
  if negb (is_running (lifecycle s)) then mret (Err NotInitialized) else
  query.

Definition native_count_error {A} (count : Z) : result NativeError A :=
  match from_code count with Err error => Err error | Ok _ => Err InvalidOperation end.

Definition free (pointer : N) : rprog unit :=
  if (pointer =? 0)%N then mret tt else _ ← call (CFree pointer); mret tt.

Definition ISIZE_MAX : Z := 2 ^ 63 - 1.

(** [memory] is what the array holds. *)
Definition copy_ids (count : Z) (values : N) (memory : list Z) : rprog (result NativeError (list Z)) :=
  if count <? 0 then _ ← free values; mret (native_count_error count) else
  if count =? 0 then _ ← free values; mret (Ok []) else
  match non_null values with
  | None => mret (Err OutOfMemory)
  | Some _ =>
      if count >? ISIZE_MAX / 4 then _ ← free values; mret (Err InvalidParameter) else
      _ ← free values;
      mret (Ok (take (Z.to_nat count) memory))
  end.

(** The shape of the four queries: the count, then the array, then the identifiers. *)
Definition id_query {A} (count_call values_call : ncall) (convert : Z -> result NativeError A)
    : rprog (result NativeError (list A)) :=
  count ← call count_call;
  if rcode count <? 0 then mret (native_count_error (rcode count)) else
  values ← call values_call;
  let? ids := copy_ids (rcode count) (rptr values) (rdata values) in
  mret (collect_results convert ids).

Definition cpus (alive : bool) (getpid : Z) : rprog (result NativeError (list CpuId)) :=
  with_live alive getpid (id_query NNumCpus NAvailableCpus CpuId_from_native).
Definition numa_nodes (alive : bool) (getpid : Z) : rprog (result NativeError (list NumaNodeId)) :=
  with_live alive getpid (id_query NNumNumaNodes NAvailableNumaNodes NumaNodeId_from_native).
Definition domains (alive : bool) (getpid : Z) (l : TopologyLevel)
    : rprog (result NativeError (list DomainId)) :=
  with_live alive getpid
    (id_query (NNumDomains (raw_level l)) (NAvailableDomains (raw_level l)) (DomainId_new l)).
Definition cpus_in (alive : bool) (getpid : Z) (d : DomainId)
    : rprog (result NativeError (list CpuId)) :=
  with_live alive getpid
    (id_query (NNumCpusIn (raw_level (level d)) (system_id d))
       (NAvailableCpusIn (raw_level (level d)) (system_id d)) CpuId_from_native).

(** ** What a query promises *)

Definition live (alive : bool) (getpid : Z) (s : RState F T) : bool :=
  alive && core_process_matches getpid s && is_running (lifecycle s).

(** The array contract of the library: a count is a C [int], and a non-null array
    behind a positive count holds that many integers. *)
Definition array_contract (o : noracle) (count_call values_call : ncall) : Prop :=
  forall h h', let count := rcode (o h count_call) in let values := o h' values_call in
    in_i32 count /\ (0 < count -> rptr values <> 0%N -> Z.of_nat (length (rdata values)) = count).

(** The returned list, from the two native answers. *)
Definition ids_answer {A} (convert : Z -> result NativeError A) (count values : nresp)
    (r : result NativeError (list A)) : Prop :=
  match r with
  | Ok ids =>
      0 <= rcode count /\ Z.of_nat (length ids) = rcode count /\
      (0 < rcode count -> rptr values <> 0%N /\ Forall2 (fun v id => convert v = Ok id) (rdata values) ids)
  | Err e =>
      0 < rcode count /\
      ((rptr values = 0%N /\ e = OutOfMemory) \/
       (rptr values <> 0%N /\ exists v, v ∈ rdata values /\ convert v = Err e))
  end.

Definition query_contract {A} (alive : bool) (getpid : Z) (count_call values_call : ncall)
    (convert : Z -> result NativeError A) (m : rprog (result NativeError (list A))) o s h : Prop :=
  run_post m o s h (fun r s' h' => s' = s /\ exists new, h' = new ++ h /\
    match r with
    | Done r =>
        if live alive getpid s then
          let count := o h count_call in
          if rcode count <? 0
          then new = [(count_call, count)] /\
               r = Err (match from_code (rcode count) with Err e => e | Ok _ => InvalidOperation end)
          else
            let values := o ((count_call, count) :: h) values_call in
            calls new = [count_call; values_call] ++
              (if (rptr values =? 0)%N then [] else [CFree (rptr values)]) /\
            ids_answer convert count values r
        else r = Err NotInitialized /\ new = []
    | _ => False
    end).

Lemma free_post p o s h :
  run_post (free p) o s h (fun r s' h' => r = Done tt /\ s' = s /\ exists new, h' = new ++ h /\
    calls new = if (p =? 0)%N then [] else [CFree p]).
Proof.
  unfold free, run_post. destruct (p =? 0)%N; cbn; split_and!; try done.
  - by exists [].
  - by eexists [_].
Qed.

(** The array is freed once, and copied when the count is positive. *)
Lemma copy_ids_post count p mem o s h :
  0 <= count <= i32_max ->
  run_post (copy_ids count p mem) o s h (fun r s' h' =>
    s' = s /\ (exists new, h' = new ++ h /\ calls new = if (p =? 0)%N then [] else [CFree p]) /\
    r = Done (if count =? 0 then Ok []
              else if (p =? 0)%N then Err OutOfMemory else Ok (take (Z.to_nat count) mem))).
Proof.
  intros Hc. unfold copy_ids. rewrite (proj2 (Z.ltb_ge _ _)) by lia.
  destruct (Z.eqb_spec count 0) as [->|Hne].
  { apply run_post_bind. eapply run_post_mono; [apply free_post|].
    by intros r s' h' (-> & -> & H). }
  destruct p as [|p]; cbn [non_null].
  { apply run_post_ret. split_and!; [done|by exists []|done]. }
  assert (count >? ISIZE_MAX / 4 = false) as ->.
  { enough (count <= ISIZE_MAX / 4) by lia.
    assert (i32_max <= ISIZE_MAX / 4) by (vm_compute; discriminate). lia. }
  apply run_post_bind. eapply run_post_mono; [apply free_post|].
  by intros r s' h' (-> & -> & H).
Qed.

Lemma id_query_contract {A} alive getpid count_call values_call (convert : Z -> result NativeError A)
    o s h :
  array_contract o count_call values_call ->
  query_contract alive getpid count_call values_call convert
    (with_live alive getpid (id_query count_call values_call convert)) o s h.
Proof.
  intros Ho. unfold query_contract, with_live, live.
  destruct alive; cbn [negb andb]; [|by split; [|exists []]].
  eapply run_post_bind_eq; [reflexivity|].
  destruct (core_process_matches getpid s); cbn [negb andb]; [|by split; [|exists []]].
  destruct (is_running (lifecycle s)); cbn [negb]; [|by split; [|exists []]].
  unfold id_query. apply run_post_bind, run_post_call. cbn [then_post].
  destruct (Ho h ((count_call, o h count_call) :: h)) as [[_ Hmax] Hlen].
  destruct (Z.ltb_spec (rcode (o h count_call)) 0) as [Hneg|Hnn].
  { apply run_post_ret. split; [done|]. exists [(count_call, o h count_call)].
    split_and!; try done. unfold native_count_error. by destruct (from_code _). }
  apply run_post_bind, run_post_call. cbn [then_post].
  set (count := o h count_call) in *.
  set (values := o ((count_call, count) :: h) values_call) in *.
  apply run_post_bind. eapply run_post_mono; [apply copy_ids_post; lia|].
  intros r s' h' (-> & (new & -> & Hcalls) & ->). cbn [then_post].
  assert (forall x, ids_answer convert count values x ->
    s = s /\ exists new0, new ++ (values_call, values) :: (count_call, count) :: h = new0 ++ h /\
      calls new0 = [count_call; values_call] ++
        (if (rptr values =? 0)%N then [] else [CFree (rptr values)]) /\
      ids_answer convert count values x) as Hend.
  { intros x Hx. split; [done|]. exists (new ++ [(values_call, values); (count_call, count)]).
    split; [by rewrite <- app_assoc|]. split; [|done].
    rewrite <- Hcalls. unfold calls. by rewrite map_app, rev_app_distr. }
  destruct (Z.eqb_spec (rcode count) 0) as [H0|H0].
  { apply Hend. unfold ids_answer. cbn. split_and!; lia. }
  destruct (N.eqb_spec (rptr values) 0) as [Hp|Hp].
  { apply Hend. split; [lia|]. by left. }
  rewrite take_ge by (specialize (Hlen ltac:(lia) Hp); lia).
  apply Hend. destruct (collect_results convert (rdata values)) as [ids|e] eqn:Hr.
  - apply collect_results_Ok in Hr. pose proof (Forall2_length _ _ _ Hr) as Hl.
    specialize (Hlen ltac:(lia) Hp). split_and!; [lia|lia|done].
  - apply collect_results_Err in Hr as (before & v & after & Hl & Hv & _).
    split; [lia|]. right. split; [done|]. exists v. split; [|done]. rewrite Hl.
    apply elem_of_app. right. left.
Qed.

(** ** Properties *)

(** C39. Topology queries are safe snapshots.  Under the array contract of the
    library, each of [cpus], [numa_nodes], [domains] and [cpus_in] leaves the runtime
    state alone and makes no native call unless the runtime is alive, in its process
    and running; otherwise it asks for the count, reports a negative count as its
    native error (or as an invalid operation) without further calls, and else frees
    the array it got exactly once, right after the copy, if it is not null.  It
    returns exactly as many identifiers as counted, each the checked conversion of
    the native one, or fails: for a null array with a positive count, or with the
    conversion error of some element. *)
Theorem topology_snapshots o s h alive getpid :
  (array_contract o NNumCpus NAvailableCpus ->
    query_contract alive getpid NNumCpus NAvailableCpus CpuId_from_native
      (cpus alive getpid) o s h) /\
  (array_contract o NNumNumaNodes NAvailableNumaNodes ->
    query_contract alive getpid NNumNumaNodes NAvailableNumaNodes NumaNodeId_from_native
      (numa_nodes alive getpid) o s h) /\
  (forall l, let count := NNumDomains (raw_level l) in let values := NAvailableDomains (raw_level l) in
    array_contract o count values ->
    query_contract alive getpid count values (DomainId_new l) (domains alive getpid l) o s h) /\
  (forall d, let count := NNumCpusIn (raw_level (level d)) (system_id d) in
    let values := NAvailableCpusIn (raw_level (level d)) (system_id d) in
    array_contract o count values ->
    query_contract alive getpid count values CpuId_from_native (cpus_in alive getpid d) o s h).
Proof. split_and!; intros *; by apply id_query_contract. Qed.

(** The memory queries, each after the success of the one before. *)
Definition memory_calls : list ncall := [NMemoryUsed; NMemorySize; NMemoryPressure].

(** The values written by the calls of a history, oldest first. *)
Definition written (new : nhistory) : list Z :=
  map (fun e => default 0 (head (rdata e.2))) (rev new).

Definition consistent (u z p : Z) : Prop :=
  u <= z /\ f32_is_finite p = true /\ 0 <= f32_scaled p <= 2 ^ 149.

Lemma consistent_unit u z p : consistent u z p -> f32_in_unit p = true.
Proof. intros (_ & _ & H). unfold f32_in_unit. lia. Qed.

Lemma accepted_consistent u z p :
  (u >? z) || negb (f32_is_finite p) || negb (f32_in_unit p) = false <-> consistent u z p.
Proof.
  unfold consistent, f32_in_unit.
  destruct (f32_is_finite p); cbn; rewrite ?orb_true_r; cbn; [lia|by split; [|intros (_ & ? & _)]].
Qed.

(** One query, its success and its error. *)
Lemma status_out_post c o s h Q :
  let e := (c, o h c) in
  match from_code (rcode e.2) with
  | Ok _ => Q (Done (Ok (default 0 (head (rdata e.2))))) s (e :: h)
  | Err n => Q (Done (Err n)) s (e :: h)
  end -> run_post (status_out c) o s h Q.
Proof.
  intros e He. apply run_post_bind, run_post_call. cbn [then_post].
  apply run_post_ret. change (o h c) with e.2. by destruct (from_code (rcode e.2)).
Qed.

(** Memory statistics are validated.  [memory_stats] makes no native call unless
    the runtime is in its process and running; otherwise it makes a prefix of the
    three queries, stopping at the first error, which it returns.  With three
    successes it returns exactly the values written, and only if they are consistent:
    usage within the size, and a finite pressure between zero and one, whose 32-bit
    pattern is then at most that of [1.0] or the negative zero. *)
Theorem memory_stats_checked o s h getpid :
  run_post (memory_stats getpid) o s h (fun r s' h' => s' = s /\ exists new, h' = new ++ h /\
    match r with
    | Done (Ok m) =>
        live true getpid s = true /\ calls new = memory_calls /\
        Forall (fun e => is_ok (from_code (rcode e.2))) new /\
        written new = [used m; size m; pressure m] /\ consistent (used m) (size m) (pressure m) /\
        (in_u32 (pressure m) -> pressure m <= f32_ONE \/ pressure m = 2 ^ 31)
    | Done (Err e) =>
        if live true getpid s then
          exists k, (0 < k)%nat /\ calls new = take k memory_calls /\
            (option_map (fun e => from_code (rcode e.2)) (head new) = Some (Err e) \/
             e = InvalidOperation /\ k = 3%nat /\
             exists u z p, written new = [u; z; p] /\ ~ consistent u z p)
        else e = NotInitialized /\ new = []
    | _ => False
    end).
Proof.
  unfold memory_stats, live. cbn [andb]. eapply run_post_bind_eq; [reflexivity|].
  destruct (core_process_matches getpid s); cbn [negb andb]; [|by split; [|exists []]].
  destruct (is_running (lifecycle s)); cbn [negb]; [|by split; [|exists []]].
  unfold memory_query.
  apply run_post_bind, status_out_post. cbn zeta. set (e1 := (NMemoryUsed, _)).
  destruct (from_code (rcode e1.2)) as [[]|n] eqn:H1; cbn [then_post].
  2: { split; [done|]. exists [e1]. split; [done|]. exists 1%nat. split_and!; [lia|done|].
       left. cbn [option_map head]. by rewrite H1. }
  apply run_post_bind, status_out_post. cbn zeta. set (e2 := (NMemorySize, _)).
  destruct (from_code (rcode e2.2)) as [[]|n] eqn:H2; cbn [then_post].
  2: { split; [done|]. exists [e2; e1]. split; [done|]. exists 2%nat. split_and!; [lia|done|].
       left. cbn [option_map head]. by rewrite H2. }
  apply run_post_bind, status_out_post. cbn zeta. set (e3 := (NMemoryPressure, _)).
  destruct (from_code (rcode e3.2)) as [[]|n] eqn:H3; cbn [then_post].
  2: { split; [done|]. exists [e3; e2; e1]. split; [done|]. exists 3%nat. split_and!; [lia|done|].
       left. cbn [option_map head]. by rewrite H3. }
  apply run_post_ret. split; [done|]. exists [e3; e2; e1]. split; [done|].
  set (u := default 0 (head (rdata e1.2))). set (z := default 0 (head (rdata e2.2))).
  set (p := default 0 (head (rdata e3.2))).
  pose proof (accepted_consistent u z p) as Hacc.
  destruct ((u >? z) || negb (f32_is_finite p) || negb (f32_in_unit p)).
  - exists 3%nat. split_and!; [lia|done|]. right. split_and!; [done|done|].
    exists u, z, p. split; [done|]. by rewrite <- Hacc.
  - cbn. split_and!; try done; [|by apply Hacc|].
    + repeat apply Forall_cons_2; [by rewrite H3|by rewrite H2|by rewrite H1|done].
    + intros Hp. apply f32_unit_pattern; [done|]. by apply (consistent_unit u z p), Hacc.
Qed.
End Query.

(** ** Concrete queries *)
Module Sample.

(** Two CPUs, the array at address 7; 3 of 8 bytes used, pressure one half. *)
Definition library : noracle := fun _ c =>
  match c with
  | NNumCpus => RespData 2 0 []
  | NAvailableCpus => RespData 0 7 [4; 6]
  | NMemoryUsed => RespData 0 0 [3]
  | NMemorySize => RespData 0 0 [8]
  | NMemoryPressure => RespData 0 0 [126 * 2 ^ 23]
  | _ => Resp 0 0
  end.

Definition topo : TopoLevels := Build_TopoLevels 0 1 2 3 4.

Lemma cpus_array : array_contract library NNumCpus NAvailableCpus.
Proof. intros h h'. split; [by vm_compute|done]. Qed.
End Sample.

Lemma topology_snapshots_witness :
  let x := cpus (codes := sample_codes) true 10 Sample.library Runtime.Sample.start [] in
  outcome_of x = Done (Ok [mkCpuId 4; mkCpuId 6]) /\
  exists new, history_of x = new ++ [] /\ calls new = [NNumCpus; NAvailableCpus; CFree 7].
Proof.
  split; [reflexivity|].
  destruct (@topology_snapshots sample_codes Sample.topo nat nat Sample.library Runtime.Sample.start
              [] true 10) as [H _].
  destruct (H Sample.cpus_array) as (_ & new & Hh & Hcalls & _). exists new. split; [exact Hh|exact Hcalls].
Defined.
