(* ===== verification/Lifecycle.v ===== *)
(** * Lifecycle: building and shutting down a runtime ([src/src/runtime.rs])

    [PreparedRing::new], [RuntimeBuilder::build], [Runtime::shutdown] and [Drop],
    composed from the drivers' own [start] and shutdown, and the task gates.  While
    the owner thread waits, the other threads run sections of the drivers and of the
    tasks: these are lists of moves, one per critical section or callback, in any
    order and number, so every interleaving is covered (and more: a move need not
    respect a driver's program counter).  A wait whose moves never set its flag is
    [Blocked]. *)

From Stdlib Require Import ZArith Lia.
From stdpp Require Import base gmap sets list strings.
From S2P Require Import Prelude Errors Ffi Affinity Task TaskLife Runtime Timer Ring RingOps RingGate.

Open Scope Z_scope.

(** ** Preparing the ring *)

(** What the [uring] crate and the kernel answer while the ring is prepared. *)
Record RingKernel : Type := mkRingKernel {
  rk_build : Z -> result IoError unit;       (* [builder.build(entries)] *)
  rk_nodrop : bool;                          (* [IORING_FEAT_NODROP] *)
  rk_register_probe : result IoError unit;
  rk_is_supported : Z -> bool                (* [probe.is_supported(code)] *)
}.

Record PreparedRing : Type := mkPrepared {
  pr_config : IoUringConfig;
  pr_supported : list bool                   (* [[bool; 256]] *)
}.

(** [async_cancel_code] is [opcode::AsyncCancel::CODE]. *)
Definition prepared_ring_new (async_cancel_code : Z) (k : RingKernel) (config : IoUringConfig)
    : result InitError PreparedRing :=
  match validate config with
  | Err e => Err (InitInvalidIoUringConfig e)
  | Ok config =>
      match rk_build k (entries config) with
      | Err e => Err (InitIoUring e)
      | Ok _ =>
          if negb (rk_nodrop k)
          then Err (InitIoUring (Custom KUnsupported
                 "kernel io_uring does not provide IORING_FEAT_NODROP")) else
          match rk_register_probe k with
          | Err e => Err (InitIoUring e)
          | Ok _ =>
              if negb (rk_is_supported k async_cancel_code)
              then Err (InitIoUring (Custom KUnsupported
                     "kernel io_uring does not support IORING_OP_ASYNC_CANCEL")) else
              Ok (mkPrepared config (map (rk_is_supported k) (seqZ 0 256)))
          end
      end
  end.

(** ** The other threads *)

(** Sections of the io_uring driver's gate. *)
Inductive RingMove : Type :=
| RMWakes (ws : list Waker)
| RMGate (decision : RunDecision)
| RMPark (poll : Z) (decision : RunDecision)
| RMResume
| RMStop
| RMNotify
| RMCompleted.       (* nOS-V calls the completed callback *)

(** Sections of the timer driver and of sleeps. *)
Inductive TimerMove : Type :=
| TMCollect (now : Z)
| TMWake (w : Waker)
| TMCheck
| TMDecide (wait : option Z)
| TMPark (wait : option Z)
| TMResume
| TMNotify
| TMDrop (sl : Sleep)
| TMCompleted.

(** Callbacks and gate operations of the task [id]. *)
Inductive TaskMove (F T : Type) : Type :=
| MRun (id : TaskId) (u : PollScript F T)
| MGate (id : TaskId) (op : gate_op)
| MCompleted (id : TaskId).
Arguments MRun {F T}.
Arguments MGate {F T}.
Arguments MCompleted {F T}.

Section Lifecycle.
Context `{codes : NosvCodes} {F T : Type}.

Definition ring_move (m : RingMove) : nprog GState unit :=
  match m with
  | RMWakes ws => wake_batch ws
  | RMGate decision => _ ← gate_section decision; mret tt
  | RMPark poll decision => ring_park poll decision
  | RMResume => ring_resumed
  | RMStop => ring_stopped
  | RMNotify => ring_notify
  | RMCompleted =>
      g ← get;
      match g_raw g with Some raw => ring_completed_callback (Npos raw) | None => mret tt end
  end.

Definition timer_move (m : TimerMove) : nprog TState unit :=
  match m with
  | TMCollect now => _ ← collect now; mret tt
  | TMWake w => wake_waiter w
  | TMCheck => _ ← check_shutdown; mret tt
  | TMDecide wait => _ ← decide_park wait; mret tt
  | TMPark wait => park wait
  | TMResume => resumed
  | TMNotify => notify
  | TMDrop sl => _ ← sleep_drop sl; mret tt
  | TMCompleted =>
      s ← get;
      match graw s with Some raw => timer_completed_callback (Npos raw) | None => mret tt end
  end.

(** A program on the task [id], while something still reaches it. *)
Definition on_task {A} (id : TaskId) (m : nprog (TaskState F T) A) : nprog (RState F T) (option A) :=
  s ← get;
  match task_store s !! id with
  | None => mret None
  | Some r =>
      a ← zoom (fun _ => tstate r)
            (fun t s => set_task_store (<[ id := mkTaskRec t (tname r) (tcost r) ]> (task_store s)) s) m;
      mret (Some a)
  end.

(** The descriptor nOS-V holds for the task [id]. *)
Definition task_raw (id : TaskId) (s : RState F T) : option RawTask :=
  match task_store s !! id with Some r => Task.task (gate (tstate r)) | None => None end.

Definition open_runtime : option RuntimeRef := Some (mkRuntimeRef true).

Definition task_move (m : TaskMove F T) : nprog (RState F T) unit :=
  match m with
  | MRun id u =>
      s ← get;
      match task_raw id s with
      | None => mret tt
      | Some raw => _ ← on_task id (run_callback (Npos raw) true open_runtime u); mret tt
      end
  | MGate id op => _ ← on_task id (Task.on_gate (run_gate_op op)); mret tt
  | MCompleted id =>
      s ← get;
      match task_raw id s with
      | None => mret tt
      | Some raw =>
          due ← on_task id (completed_callback (Npos raw) open_runtime);
          _ ← modify (fun s => set_owners (owners s ∖ {[ id ]}) s);
          match due with Some true => _ ← task_completed id; mret tt | _ => mret tt end
      end
  end.

(** Another thread's move: its panics stay on that thread. *)
Definition others {S M} (run : M -> nprog S unit) (moves : list M) : nprog S unit :=
  for_each (fun m => _ ← catch_unwind (run m); mret tt) moves.

(** [IoUringDriver::shutdown_and_wait] on the gate: [notify], then the wait. *)
Definition ring_shutdown_and_wait (moves : list RingMove) : nprog GState unit :=
  _ ← ring_notify;
  _ ← others ring_move moves;
  g ← get;
  if g_completed g then mret tt else block "completed_cv".

(** [TimerDriver::shutdown_and_wait]. *)
Definition timer_shutdown_and_wait (moves : list TimerMove) : nprog TState unit :=
  _ ← request_shutdown;
  _ ← others timer_move moves;
  await_completed.

(** ** [RuntimeBuilder::build] *)

Record Drivers : Type := mkDrivers { d_gate : GState; d_timer : TState }.

Definition on_ring {A} (m : nprog GState A) : nprog Drivers A :=
  zoom d_gate (fun g d => mkDrivers g (d_timer d)) m.
Definition on_timer {A} (m : nprog TState A) : nprog Drivers A :=
  zoom d_timer (fun t d => mkDrivers (d_gate d) t) m.

(** The moves of the ring's task right after it started, and while the owner waits
    for it on a failure path. *)
Record BuildWorld : Type := mkBuildWorld { w_started : list RingMove; w_failed : list RingMove }.

(** The failure paths after the ring was started. *)
Definition undo_ring (w : BuildWorld) (io_uring_type task_type : RawTaskType) (error : NativeError)
    : nprog Drivers (result InitError (RState F T)) :=
  _ ← on_ring (ring_shutdown_and_wait (w_failed w));
  _ ← type_destroy io_uring_type;
  _ ← type_destroy task_type;
  _ ← ffi_shutdown;
  mret (Err (InitNative error)).

Definition build_timer (w : BuildWorld) (thread getpid : Z) (task_type io_uring_type : RawTaskType)
    : nprog Drivers (result InitError (RState F T)) :=
  timer_type ← type_init "rust.timer" false;
  match timer_type with
  | Err error => undo_ring w io_uring_type task_type error
  | Ok timer_type =>
      _ ← modify (fun d => mkDrivers (d_gate d) driver_new);
      timer ← on_timer (timer_start timer_type);
      match timer with
      | Err error =>
          _ ← type_destroy timer_type;
          undo_ring w io_uring_type task_type error
      | Ok _ =>
          mret (Ok (mkRState (mkCoreIds thread getpid task_type timer_type io_uring_type)
                     Running ∅ 1 ∅ ∅ ∅))
      end
  end.

Definition build_drivers (w : BuildWorld) (thread getpid : Z)
    : nprog Drivers (result InitError (RState F T)) :=
  task_type ← type_init "rust.async" true;
  match task_type with
  | Err error => _ ← ffi_shutdown; mret (Err (InitNative error))
  | Ok task_type =>
      io_uring_type ← type_init "rust.io_uring" false;
      match io_uring_type with
      | Err error =>
          _ ← type_destroy task_type;
          _ ← ffi_shutdown;
          mret (Err (InitNative error))
      | Ok io_uring_type =>
          _ ← modify (fun d => mkDrivers gate_new (d_timer d));
          io_uring ← on_ring (ring_start io_uring_type);
          match io_uring with
          | Err error =>
              _ ← type_destroy io_uring_type;
              _ ← type_destroy task_type;
              _ ← ffi_shutdown;
              mret (Err (InitNative error))
          | Ok _ =>
              _ ← on_ring (others ring_move (w_started w));
              build_timer w thread getpid task_type io_uring_type
          end
      end
  end.

Definition build (async_cancel_code : Z) (k : RingKernel) (config : IoUringConfig) (w : BuildWorld)
    (thread getpid : Z) : nprog Drivers (result InitError (RState F T)) :=
  current ← ffi_current;
  match current with
  | Some _ => mret (Err InitAlreadyInTask)
  | None =>
      match prepared_ring_new async_cancel_code k config with
      | Err e => mret (Err e)
      | Ok _ =>
          init ← ffi_init;
          match init with
          | Err e => mret (Err (init_from_native e))
          | Ok _ => build_drivers w thread getpid
          end
      end
  end.

(** ** [Runtime::shutdown] *)

Record Rt : Type := mkRt { rt_core : RState F T; rt_drivers : Drivers; rt_active : bool }.

Definition on_core {A} (m : nprog (RState F T) A) : nprog Rt A :=
  zoom rt_core (fun c r => mkRt c (rt_drivers r) (rt_active r)) m.
Definition on_drivers {A} (m : nprog Drivers A) : nprog Rt A :=
  zoom rt_drivers (fun d r => mkRt (rt_core r) d (rt_active r)) m.

Record World : Type := mkWorld {
  w_tasks : list (TaskMove F T);
  w_ring : list RingMove;
  w_timer : list TimerMove
}.

(** [task.request_abort()] on the task [id]. *)
Definition abort_task (id : TaskId) : nprog (RState F T) unit :=
  _ ← on_task id (Task.on_gate (request_abort open_runtime)); mret tt.

(** The lifecycle transition and the snapshot: [None] when already closed. *)
Definition begin_shutdown : nprog (RState F T) (option (list TaskId)) :=
  s ← get;
  match lifecycle s with
  | Closed => mret None
  | _ => _ ← modify (set_lifecycle Closing); mret (Some (elements (tasks s)))
  end.

(** The wait for an empty registry. *)
Definition drain (moves : list (TaskMove F T)) : nprog (RState F T) unit :=
  _ ← others task_move moves;
  s ← get;
  if bool_decide (tasks s = ∅) then mret tt else block "drained".

(** [type_destroy(ty).map_err(ShutdownError::Native)]. *)
Definition retire_type (ty : RawTaskType) : nprog Rt (result ShutdownError unit) :=
  r ← type_destroy ty; mret (map_err ShutNative r).

(** The last part of [shutdown_inner]: the timer, the task type, the library. *)
Definition teardown_timer (w : World) (i : CoreIds) : nprog Rt (result ShutdownError unit) :=
  _ ← on_drivers (on_timer (timer_shutdown_and_wait (w_timer w)));
  let? _ := retire_type (timer_type i) in
  let? _ := retire_type (task_type i) in
  r ← ffi_shutdown;
  match r with
  | Err e => mret (Err (ShutNative e))
  | Ok _ => _ ← on_core (modify (set_lifecycle Closed)); mret (Ok tt)
  end.

(** The part of [shutdown_inner] after the registry is empty. *)
Definition teardown (w : World) (i : CoreIds) : nprog Rt (result ShutdownError unit) :=
  _ ← on_drivers (on_ring (ring_shutdown_and_wait (w_ring w)));
  let? _ := retire_type (io_uring_type i) in
  teardown_timer w i.

Definition shutdown_inner (thread getpid : Z) (w : World) : nprog Rt (result ShutdownError unit) :=
  r ← get;
  if negb (owner_thread (ids (rt_core r)) =? thread) then mret (Err ShutWrongThread) else
  if negb (core_process_matches getpid (rt_core r)) then mret (Err ShutForkedProcess) else
  snapshot ← on_core begin_shutdown;
  match snapshot with
  | None => mret (Ok tt)
  | Some snapshot =>
      _ ← on_core (for_each abort_task snapshot);
      _ ← on_core (drain (w_tasks w));
      teardown w (ids (rt_core r))
  end.

Definition set_rt_active (a : bool) (r : Rt) : Rt := mkRt (rt_core r) (rt_drivers r) a.

(** [Drop for Runtime]. *)
Definition rt_drop (thread getpid : Z) (w : World) : nprog Rt unit :=
  r ← get;
  if rt_active r then
    result ← shutdown_inner thread getpid w;
    match result with Err _ => mret tt | Ok _ => modify (set_rt_active false) end
  else mret tt.

(** [Runtime::shutdown] consumes the runtime, which is dropped when it returns. *)
Definition rt_shutdown (thread getpid : Z) (w w_drop : World) : nprog Rt (result ShutdownError unit) :=
  result ← shutdown_inner thread getpid w;
  _ ← (if is_ok result then modify (set_rt_active false) else mret tt);
  _ ← rt_drop thread getpid w_drop;
  mret result.
End Lifecycle.
Arguments Rt : clear implicits.
Arguments World : clear implicits.
