(* ===== verification/LifecycleSpec.v ===== *)
(** * LifecycleSpec: what building and shutting down promise

    Which native calls [build] and [shutdown] make, in which order, on every branch:
    failure paths balance what they created, a driver's task type is destroyed only
    after its descriptor, and the runtime is closed only after a clean teardown. *)

From Stdlib Require Import ZArith Lia.
From stdpp Require Import base gmap sets list strings.
From S2P Require Import Prelude Errors Ffi Affinity Task TaskLife Runtime Timer TimerLife TimerSpec.
From S2P Require Import Ring RingOps RingGate Lifecycle.

Open Scope Z_scope.

Notation event := (ncall * nresp)%type.

(** ** Calls that belong to the owner's lifecycle *)

Definition lifecycle_call (c : ncall) : bool :=
  match c with NInit | NShutdown | NTypeInit _ _ | NTypeDestroy _ => true | _ => false end.

(** A call of the drivers, of the tasks or of a producer. *)
Definition quiet (e : event) : Prop := lifecycle_call e.1 = false.

(** A call of the driver that holds the descriptor [raw]. *)
Definition driver_event (raw : RawTask) (e : event) : Prop :=
  quiet e /\ match e.1 with NCreate _ _ => False | NDestroy u => u = raw | _ => True end.

(** ... which does not destroy it. *)
Definition harmless (e : event) : Prop :=
  quiet e /\ match e.1 with NCreate _ _ | NDestroy _ => False | _ => True end.

Lemma harmless_driver raw new : Forall harmless new -> Forall (driver_event raw) new.
Proof. intros H. eapply Forall_impl; [done|]. intros [[] r] [Hq He]; by split. Qed.

Lemma driver_quiet raw new : Forall (driver_event raw) new -> Forall quiet new.
Proof. intros H. eapply Forall_impl; [done|]. by intros e []. Qed.

(** A driver's calls release its descriptor, when they destroy it, and nothing else. *)
Lemma driver_stack `{codes : NosvCodes} raw new st :
  Forall (driver_event raw) new ->
  (count (destroys raw) new = 0%nat -> stack new st = Some st) /\
  (count (destroys raw) new = 1%nat -> stack new (RDesc raw :: st) = Some st).
Proof.
  intros Hn. revert st. induction Hn as [|[c r] new [Hq Hc] _ IH]; intros st; [done|].
  destruct (IH st) as [IH0 IH1]. destruct c; cbn in Hc, Hq; try done; cbn [count];
    unfold destroys at 1 3; cbn [fst].
  all: try (cbn; split; intros H; rewrite ?IH0, ?IH1 by done; done).
  subst t. rewrite bool_decide_true by done. split; [lia|]. intros [= H].
  by apply stack_destroyed, IH.
Qed.

Lemma harmless_destroys raw new : Forall harmless new -> count (destroys raw) new = 0%nat.
Proof.
  induction 1 as [|[c r] new [_ He] _ IH]; [done|]. cbn [count]. rewrite IH.
  by destruct c.
Qed.

Section Spec.
Context `{codes : NosvCodes} {F T : Type}.

(** ** The drivers' threads *)

(** Whether the driver's descriptor is still held, [n] of them having been destroyed
    before. *)
Definition held (completed : bool) (slot : option RawTask) (raw : RawTask) (n : nat) (h : nhistory) : Prop :=
  if completed then slot = None /\ count (destroys raw) h = S n
  else slot = Some raw /\ count (destroys raw) h = n.

Definition ring_held raw n (g : GState) h : Prop := held (g_completed g) (g_raw g) raw n h.
Definition timer_held raw n (t : TState) h : Prop := held (completed t) (graw t) raw n h.

Lemma held_harmless c slot raw n new h :
  Forall harmless new -> held c slot raw n h -> held c slot raw n (new ++ h).
Proof. intros Hn. unfold held. by rewrite count_app, (harmless_destroys _ _ Hn). Qed.

(** An invariant of the moves of another thread: aborts end the process. *)
Definition survives {S A} (P : event -> Prop) (I : S -> nhistory -> Prop) (m : nprog S A) : Prop :=
  forall o s h, I s h -> run_post m o s h (fun r s' h' =>
    match r with Done _ | Panicked _ => I s' h' | _ => True end /\
    exists new, h' = new ++ h /\ Forall P new).

Lemma survives_others {S M} P (I : S -> nhistory -> Prop) (run : M -> nprog S unit) moves o s h :
  (forall m, survives P I (run m)) -> I s h ->
  run_post (others run moves) o s h (fun r s' h' =>
    match r with Done _ => I s' h' | Panicked _ => False | _ => True end /\
    exists new, h' = new ++ h /\ Forall P new).
Proof.
  intros Hrun HI. apply run_post_for_each; [|split; [done|by exists []]].
  intros m s1 h1 _ [HI1 (new & -> & Hn)]. apply run_post_bind, run_post_catch.
  eapply run_post_mono; [by apply Hrun|].
  intros r s2 h2 [HI2 (new2 & -> & Hn2)].
  assert (exists new0, new2 ++ new ++ h = new0 ++ h /\ Forall P new0).
  { exists (new2 ++ new). split; [by rewrite app_assoc|]. by apply Forall_app. }
  by destruct r.
Qed.

(** A move that keeps the descriptor slot and the flag, and destroys nothing. *)
Lemma neutral_survives {S} (flag : S -> bool) (slot : S -> option RawTask) raw n (m : nprog S unit) :
  emits harmless m -> preserves (fun s => (flag s, slot s)) m ->
  survives (driver_event raw) (fun s => held (flag s) (slot s) raw n) m.
Proof.
  intros He Hp o s h Hs. eapply run_post_mono; [apply (emits_preserves _ _ _ _ _ _ He Hp)|].
  intros r s' h' ([= Hf Hsl] & new & -> & Hn).
  assert (held (flag s') (slot s') raw n (new ++ h)) by (rewrite Hf, Hsl; by apply held_harmless).
  split; [by destruct r|]. exists new. split; [done|by apply harmless_driver].
Qed.

(** The completed callback of a driver, in whatever phase it finds the driver: it
    aborts, or destroys the descriptor and raises the flag. *)
Lemma completed_survives {S} (flag : S -> bool) (slot : S -> option RawTask) raw n (m : nprog S unit) :
  (forall o s h, slot s = None -> m o s h = (Done tt, s, h)) ->
  (forall o s h p, slot s = Some p -> run_post m o s h (fun r s' h' =>
    match r with
    | Done _ => flag s' = true /\ slot s' = None /\
        exists q1 q2, h' = (NDestroy p, q2) :: (NMetadata p, q1) :: h
    | Aborted _ => exists new, h' = new ++ h /\ Forall (driver_event p) new
    | _ => False
    end)) ->
  survives (driver_event raw) (fun s => held (flag s) (slot s) raw n) m.
Proof.
  intros Hnone Hsome o s h Hs. destruct (slot s) as [p|] eqn:Hp.
  - assert (p = raw /\ count (destroys raw) h = n) as [-> Hn].
    { unfold held in Hs. destruct (flag s); destruct Hs as [Hs Hn]; [done|]. by simplify_eq. }
    eapply run_post_mono; [by apply (Hsome _ _ _ raw)|]. intros [] s' h' H; try done.
    destruct H as (Hf & Hsl & q1 & q2 & ->). split.
    + unfold held. rewrite Hf, Hsl. split; [done|]. cbn [count]. unfold destroys at 1 2. cbn.
      rewrite bool_decide_true by done. lia.
    + eexists [_; _]. split; [done|]. by repeat constructor.
  - unfold run_post. rewrite (Hnone _ _ _ Hp). cbn. rewrite Hp. split; [done|]. by exists [].
Qed.

Ltac quiet_abort :=
  unfold run_post; cbn;
  first [ exists []; split; [done|constructor]
        | eexists [_]; split; [done|by repeat constructor]
        | eexists [_; _]; split; [done|by repeat constructor] ].

Lemma ring_survives raw n m : survives (driver_event raw) (ring_held raw n) (ring_move m).
Proof.
  destruct m as [ws|dec|poll dec| | | |].
  1-6: apply (neutral_survives g_completed g_raw);
    unfold ring_move, wake_batch, wake, gate_section, ring_park, ring_resumed, ring_stopped,
      ring_notify, set_submit_window_size, flush_submit_window, yield_now, waitfor, pause, submit,
      submit_deadline_wake, submit_with, Ffi.status; [emits_auto; by split|preserves_auto].
  apply (completed_survives g_completed g_raw).
  - intros o g h Hg. unfold ring_move. run_unfold. by rewrite Hg.
  - intros o g h p Hp. apply run_post_bind. unfold run_post at 1. cbn. rewrite Hp.
    unfold ring_completed_callback, driver_owner, ring_retire.
    apply run_post_bind, run_post_catch. apply run_post_bind, run_post_bind, metadata_post.
    cbn [then_post]. destruct (rptr _); cbn [non_null ok_or]; [quiet_abort|].
    unfold run_post. run_unfold. unfold run_post. cbn. destruct (g_phase g); try quiet_abort.
    rewrite Hp. unfold destroy, Ffi.status. run_unfold. unfold run_post. cbn.
    destruct (from_code _); cbn; [|quiet_abort]. split_and!; [done|done|by eexists _, _].
Qed.

Lemma timer_survives raw n m : survives (driver_event raw) (timer_held raw n) (timer_move m).
Proof.
  destruct m as [now|w| |wait|wait| | |sl|].
  1-8: apply (neutral_survives completed graw);
    unfold timer_move, collect, wake_waiter, wake, check_shutdown, decide_park, park, resumed,
      notify, sleep_drop, waitfor, pause, submit, submit_deadline_wake, submit_with, Ffi.status;
    [emits_auto; by split|preserves_auto].
  apply (completed_survives completed graw).
  - intros o t h Ht. unfold timer_move. run_unfold. by rewrite Ht.
  - intros o t h p Hp. apply run_post_bind. unfold run_post at 1. cbn. rewrite Hp.
    unfold timer_completed_callback, timer_owner, timer_retire.
    apply run_post_bind, run_post_catch. apply run_post_bind, run_post_bind, metadata_post.
    cbn [then_post]. destruct (rptr _); cbn [non_null ok_or]; [quiet_abort|].
    unfold run_post. run_unfold. unfold run_post. cbn. destruct (gphase t); try quiet_abort.
    rewrite Hp. unfold destroy, Ffi.status. run_unfold. unfold run_post. cbn.
    destruct (from_code _); cbn; [|quiet_abort]. split_and!; [done|done|by eexists _, _].
Qed.

(** ** The tasks' threads *)

Definition quiet_prog {S A} (m : nprog S A) : Prop := emits quiet m.

Lemma submit_live_quiet a b : emits quiet (submit_live a b).
Proof. unfold submit_live, submit, submit_with, Ffi.status. emits_auto. done. Qed.
#[local] Hint Resolve submit_live_quiet : nosv.

Lemma gate_op_quiet op : emits quiet (run_gate_op op).
Proof. unfold run_gate_op, schedule, request_abort. emits_auto. Qed.
#[local] Hint Resolve gate_op_quiet : nosv.

Lemma take_and_drop_quiet (u : PollScript F T) : emits quiet (take_and_drop_future u).
Proof. unfold take_and_drop_future, Task.on_gate. emits_auto. Qed.
#[local] Hint Resolve take_and_drop_quiet : nosv.

Lemma run_once_quiet rt (u : PollScript F T) : emits quiet (run_once rt u).
Proof.
  unfold run_once, terminal_cancelled, Task.on_gate, on_join, start_poll, store, finish_terminal,
    enter_current, run_entered, poll_future, finish_pending, suspend, suspend_failed,
    replace_terminal, drop_output, Task.on_gate, Ffi.status.
  emits_auto. all: done.
Qed.
#[local] Hint Resolve run_once_quiet : nosv.

Lemma run_callback_quiet p owned rt (u : PollScript F T) : emits quiet (run_callback p owned rt u).
Proof.
  unfold run_callback, owner_pointer, metadata, force_panic, replace_error_if_unpublished,
    Task.on_gate, on_join, replace_terminal.
  emits_auto. all: done.
Qed.

Lemma completed_callback_quiet p rt : emits (S := TaskState F T) quiet (completed_callback p rt).
Proof.
  unfold completed_callback, owner_pointer, metadata, force_native_error,
    replace_error_if_unpublished, Task.on_gate, on_join, retire, destroy, publish, wake_opt, wake, Ffi.status.
  emits_auto. all: done.
Qed.
#[local] Hint Resolve run_callback_quiet completed_callback_quiet : nosv.

Lemma on_task_quiet {A} id (m : nprog (TaskState F T) A) : emits quiet m -> emits quiet (on_task id m).
Proof. intros Hm. unfold on_task. emits_auto. Qed.
#[local] Hint Resolve on_task_quiet : nosv.

Lemma task_move_quiet (m : TaskMove F T) : emits quiet (task_move m).
Proof. unfold task_move, task_completed, Task.on_gate. emits_auto. Qed.

Lemma abort_task_quiet id : emits (S := RState F T) quiet (abort_task id).
Proof. unfold abort_task, Task.on_gate, request_abort. emits_auto. Qed.

#[local] Hint Resolve task_move_quiet abort_task_quiet : nosv.

(** ** Waiting for a driver *)

Definition never_panics {S A} (m : nprog S A) : Prop :=
  forall o s h, run_post m o s h (fun r _ _ => match r with Panicked _ => False | _ => True end).

(** Requesting a driver's shutdown, then waiting among the moves of other threads:
    when the wait is over, the descriptor has been destroyed. *)
Lemma wait_post {S M} (flag : S -> bool) (slot : S -> option RawTask) raw n (req : nprog S unit)
    (run : M -> nprog S unit) moves o s h :
  survives (driver_event raw) (fun s => held (flag s) (slot s) raw n) req -> never_panics req ->
  (forall m, survives (driver_event raw) (fun s => held (flag s) (slot s) raw n) (run m)) ->
  held (flag s) (slot s) raw n h ->
  run_post (_ ← req; _ ← others run moves; s ← get; if flag s then mret tt else block "completed_cv")
    o s h (fun r s' h' => exists new, h' = new ++ h /\ Forall (driver_event raw) new /\
      match r with
      | Done _ => flag s' = true /\ slot s' = None /\ count (destroys raw) h' = Datatypes.S n
      | Panicked _ => False
      | _ => True
      end).
Proof.
  intros Hreq Hnp Hrun Hs. apply run_post_bind.
  pose proof (Hreq o s h Hs) as H1. pose proof (Hnp o s h) as H2. unfold run_post in *.
  destruct (req o s h) as [[r1 s1] h1]. cbn in *. destruct H1 as [H1 (new1 & -> & Hn1)].
  destruct r1; cbn; [|done|by exists new1..].
  apply run_post_bind. eapply run_post_mono; [by apply survives_others|].
  intros r2 s2 h2 [H3 (new2 & -> & Hn2)].
  assert (Forall (driver_event raw) (new2 ++ new1)) by (by apply Forall_app).
  destruct r2; cbn [then_post]; [|done|by exists (new2 ++ new1); rewrite app_assoc..].
  unfold run_post. run_unfold. unfold held in H3.
  destruct (flag s2) eqn:Hf; cbn; exists (new2 ++ new1); rewrite <- (app_assoc new2); [|by split_and!].
  destruct H3. by split_and!.
Qed.

Lemma ring_wait_post raw n moves o g h :
  ring_held raw n g h ->
  run_post (ring_shutdown_and_wait moves) o g h (fun r g' h' => exists new, h' = new ++ h /\
    Forall (driver_event raw) new /\
    match r with
    | Done _ => g_completed g' = true /\ g_raw g' = None /\ count (destroys raw) h' = S n
    | Panicked _ => False
    | _ => True
    end).
Proof.
  apply (wait_post g_completed g_raw raw n ring_notify ring_move);
    [apply (ring_survives raw n RMNotify)| |apply ring_survives].
  intros o' g' h'. unfold ring_notify, submit, submit_deadline_wake, submit_with, Ffi.status, run_post.
  run_unfold. destruct (g_phase g'), (g_raw g'); cbn; try done; by destruct (from_code _).
Qed.

Lemma timer_wait_post raw n moves o t h :
  timer_held raw n t h ->
  run_post (timer_shutdown_and_wait moves) o t h (fun r t' h' => exists new, h' = new ++ h /\
    Forall (driver_event raw) new /\
    match r with
    | Done _ => completed t' = true /\ graw t' = None /\ count (destroys raw) h' = S n
    | Panicked _ => False
    | _ => True
    end).
Proof.
  apply (wait_post completed graw raw n request_shutdown timer_move); [| |apply timer_survives].
  - apply (neutral_survives completed graw);
      unfold request_shutdown, notify, submit, submit_deadline_wake, submit_with, Ffi.status;
      [emits_auto; by split|preserves_auto].
  - intros o' t' h'. unfold request_shutdown, notify, submit, submit_deadline_wake, submit_with,
      Ffi.status, run_post.
    run_unfold. destruct (gphase t'), (graw t'); cbn; try done; by destruct (from_code _).
Qed.
(** ** Shutting down *)

Lemma task_move_core (m : TaskMove F T) : preserves (fun s => (ids s, lifecycle s)) (task_move m).
Proof.
  unfold task_move, on_task, task_completed. preserves_auto; done.
Qed.

Lemma abort_task_core id : preserves (S := RState F T) (fun s => (ids s, lifecycle s)) (abort_task id).
Proof. unfold abort_task, on_task. preserves_auto; done. Qed.

#[local] Hint Resolve task_move_core abort_task_core : nosv.

(** A driver that was started and not yet retired. *)
Definition ring_up (raw : RawTask) (g : GState) : Prop := g_completed g = false /\ g_raw g = Some raw.
Definition timer_up (raw : RawTask) (t : TState) : Prop := completed t = false /\ graw t = Some raw.

(** The steps of a teardown; each driver's calls come before its type's end. *)
Definition timer_steps (i : CoreIds) (ht : nhistory) : list (list ncall) :=
  [calls ht ++ [NTypeDestroy (timer_type i)]; [NTypeDestroy (task_type i)]; [NShutdown]].
Definition ring_step (i : CoreIds) (hr : nhistory) : list ncall :=
  calls hr ++ [NTypeDestroy (io_uring_type i)].

(** A segment in which the driver of [raw] destroyed its descriptor, once. *)
Definition retired_in (raw : RawTask) (new : nhistory) : Prop :=
  Forall (driver_event raw) new /\ count (destroys raw) new = 1%nat.

(** The calls of a teardown that got through [k] of its four steps: each driver's
    descriptor is destroyed, once, before the driver's type. *)
Definition torn_down (raw_r raw_t : RawTask) (i : CoreIds) (k : nat) (new : nhistory) : Prop :=
  exists hr ht, retired_in raw_r hr /\ (k <> 1%nat -> retired_in raw_t ht) /\
    calls new = concat (take k (ring_step i hr :: timer_steps i ht)).

(** The runtime library was not shut down. *)
Definition still_up (new : nhistory) : Prop := Forall (fun e : event => e.1 <> NShutdown) new.

Lemma quiet_still_up new : Forall quiet new -> still_up new.
Proof. intros H. eapply Forall_impl; [done|]. intros [c r] Hq Hc. cbn in Hc. by subst c. Qed.

(** The error of the last call. *)
Definition last_error (n : NativeError) (new : nhistory) : Prop :=
  exists c r new', new = (c, r) :: new' /\ from_code (rcode r) = Err n.

Lemma retire_type_post ty o (rt : Rt F T) h Q :
  let e := (NTypeDestroy ty, o h (NTypeDestroy ty)) in
  match from_code (rcode e.2) with
  | Ok _ => Q (Done (Ok tt)) rt (e :: h)
  | Err n => Q (Done (Err (ShutNative n))) rt (e :: h)
  end -> run_post (retire_type ty) o rt h Q.
Proof.
  intros e He. apply run_post_bind, status_post. cbn [then_post]. apply run_post_ret.
  change (o h _) with e.2. by destruct (from_code (rcode e.2)) as [[]|].
Qed.

Lemma wait_retired raw new h :
  Forall (driver_event raw) new -> count (destroys raw) (new ++ h) = S (count (destroys raw) h) ->
  retired_in raw new.
Proof. intros Hn Hc. split; [done|]. rewrite count_app in Hc. lia. Qed.

Lemma driver_still_up raw new : Forall (driver_event raw) new -> still_up new.
Proof. intros H. by eapply quiet_still_up, driver_quiet. Qed.

Lemma teardown_timer_post w i raw o (rt : Rt F T) h :
  timer_up raw (d_timer (rt_drivers rt)) ->
  run_post (teardown_timer w i) o rt h (fun r rt' h' => exists new, h' = new ++ h /\
    d_gate (rt_drivers rt') = d_gate (rt_drivers rt) /\
    match r with
    | Done (Ok _) =>
        rt_core rt' = set_lifecycle Closed (rt_core rt) /\ completed (d_timer (rt_drivers rt')) = true /\
        exists ht, retired_in raw ht /\ calls new = concat (timer_steps i ht)
    | Done (Err e) =>
        rt_core rt' = rt_core rt /\
        exists n k ht, e = ShutNative n /\ (0 < k <= 3)%nat /\ last_error n new /\
          retired_in raw ht /\ calls new = concat (take k (timer_steps i ht))
    | Panicked _ => False
    | _ => rt_core rt' = rt_core rt /\ still_up new
    end).
Proof.
  intros [Ht Htr]. apply run_post_bind, run_post_part, run_post_part.
  eapply run_post_mono; [apply (timer_wait_post raw (count (destroys raw) h));
    unfold timer_held, held; by rewrite Ht|].
  intros r t h1 (ht & -> & Hq & Hdone).
  destruct r as [[]| | |]; cbn [then_post];
    [|done|exists ht; split_and!; [done..|by eapply driver_still_up]..].
  destruct Hdone as (Htc & _ & Hc%wait_retired); [|done].
  apply run_post_bind, retire_type_post. cbn zeta. set (e2 := (NTypeDestroy (timer_type i), _)).
  destruct (from_code (rcode e2.2)) as [[]|n] eqn:H2; cbn [then_post].
  2: { exists (e2 :: ht). do 3 (split; [done|]). exists n, 1%nat, ht.
       split_and!; try done; try lia; [by eexists _, _, _|]. cbn [take concat timer_steps].
       by rewrite calls_cons, app_nil_r. }
  apply run_post_bind, retire_type_post. cbn zeta. set (e3 := (NTypeDestroy (task_type i), _)).
  destruct (from_code (rcode e3.2)) as [[]|n] eqn:H3; cbn [then_post].
  2: { exists (e3 :: e2 :: ht). do 3 (split; [done|]). exists n, 2%nat, ht.
       split_and!; try done; try lia. by eexists _, _, _. }
  apply run_post_bind, status_post. set (e4 := (NShutdown, _)). cbn [then_post].
  change (o _ NShutdown) with e4.2.
  assert (calls (e4 :: e3 :: e2 :: ht) = concat (timer_steps i ht)) as Hcalls.
  { cbn [concat timer_steps]. rewrite !calls_cons. by rewrite <- !app_assoc. }
  destruct (from_code (rcode e4.2)) as [[]|n] eqn:H4.
  - apply run_post_bind, run_post_part. unfold run_post. run_unfold.
    exists (e4 :: e3 :: e2 :: ht). do 4 (split; [done|]). by exists ht.
  - apply run_post_ret. exists (e4 :: e3 :: e2 :: ht). do 3 (split; [done|]). exists n, 3%nat, ht.
    split_and!; try done; try lia. by eexists _, _, _.
Qed.

Lemma teardown_post w i raw_r raw_t o (rt : Rt F T) h :
  ring_up raw_r (d_gate (rt_drivers rt)) -> timer_up raw_t (d_timer (rt_drivers rt)) ->
  run_post (teardown w i) o rt h (fun r rt' h' => exists new, h' = new ++ h /\
    match r with
    | Done (Ok _) =>
        rt_core rt' = set_lifecycle Closed (rt_core rt) /\
        g_completed (d_gate (rt_drivers rt')) = true /\ completed (d_timer (rt_drivers rt')) = true /\
        torn_down raw_r raw_t i 4 new
    | Done (Err e) =>
        rt_core rt' = rt_core rt /\
        exists n k, e = ShutNative n /\ (0 < k <= 4)%nat /\ torn_down raw_r raw_t i k new /\ last_error n new
    | Panicked _ => False
    | _ => rt_core rt' = rt_core rt /\ still_up new
    end).
Proof.
  intros [Hg Hgr] Ht. unfold teardown. apply run_post_bind, run_post_part, run_post_part.
  eapply run_post_mono; [apply (ring_wait_post raw_r (count (destroys raw_r) h)); unfold ring_held, held;
    by rewrite Hg|].
  intros r g h1 (hr & -> & Hq & Hdone).
  destruct r as [[]| | |]; cbn [then_post];
    [|done|exists hr; split_and!; [done..|by eapply driver_still_up]..].
  destruct Hdone as (Hgc & _ & Hc%wait_retired); [|done].
  apply run_post_bind, retire_type_post. cbn zeta. set (e1 := (NTypeDestroy _, _)).
  destruct (from_code (rcode e1.2)) as [[]|n] eqn:H1; cbn [then_post].
  2: { exists (e1 :: hr). split; [done|]. split; [done|]. exists n, 1%nat.
       split_and!; [done|lia..| |by eexists _, _, _]. exists hr, []. split_and!; [done|done|].
       cbn [take concat]. by rewrite calls_cons, app_nil_r. }
  eapply run_post_mono; [by apply (teardown_timer_post _ _ raw_t)|].
  intros r rt' h' (new & -> & Hgate & H). exists (new ++ e1 :: hr). split; [by rewrite <- app_assoc|].
  assert (forall k ht, retired_in raw_t ht -> calls new = concat (take k (timer_steps i ht)) ->
    torn_down raw_r raw_t i (S k) (new ++ e1 :: hr)) as Htd.
  { intros k ht Hr Hk. exists hr, ht. split_and!; [done|done|]. cbn [take concat].
    by rewrite calls_app, calls_cons, Hk. }
  cbn [rt_core rt_drivers d_gate] in *.
  destruct r as [[[]|e]| | |].
  - destruct H as (Hcore & Htc & ht & Hr & Hcalls). split_and!; [done|by rewrite Hgate|done|].
    by apply (Htd 3%nat ht).
  - destruct H as (Hcore & n & k & ht & -> & Hk & (c & q & new' & -> & Hlast) & Hr & Hcalls).
    split; [done|]. exists n, (S k). split_and!; [done|lia..|by apply (Htd k ht)|by eexists _, _, _].
  - done.
  - destruct H as [? Hup]. split; [done|]. apply Forall_app. split; [done|].
    constructor; [done|by eapply driver_still_up].
  - destruct H as [? Hup]. split; [done|]. apply Forall_app. split; [done|].
    constructor; [done|by eapply driver_still_up].
Qed.

Lemma np_bind {S A B} (m : nprog S A) (k : A -> nprog S B) :
  never_panics m -> (forall a, never_panics (k a)) -> never_panics (prog_bind m k).
Proof.
  intros Hm Hk o s h. apply run_post_bind. eapply run_post_mono; [apply Hm|].
  intros [] s' h' ?; cbn [then_post]; [apply Hk|done..].
Qed.

Lemma np_for_each {S A} (body : A -> nprog S unit) l :
  (forall a, never_panics (body a)) -> never_panics (for_each body l).
Proof. intros Hb. induction l as [|a l IH]; [done|by apply np_bind]. Qed.

Lemma np_zoom {S X A} (proj : S -> X) inj (m : nprog X A) : never_panics m -> never_panics (zoom proj inj m).
Proof. intros Hm o s h. apply run_post_part. apply (Hm o (proj s) h). Qed.

(** The moves of other threads cannot unwind into the owner. *)
Lemma np_others {S M} (run : M -> nprog S unit) moves : never_panics (others run moves).
Proof.
  apply np_for_each. intros m. apply np_bind; [|done].
  intros o s h. unfold run_post, catch_unwind. by destruct (run m o s h) as [[[] ?] ?].
Qed.

Lemma np_abort_task id : never_panics (S := RState F T) (abort_task id).
Proof.
  apply np_bind; [|done]. intros o s h. unfold on_task. apply run_post_bind. unfold run_post at 1. cbn.
  destruct (task_store s !! id); [|done]. apply run_post_bind, run_post_part, run_post_part.
  unfold request_abort, submit_live, submit, submit_with, Ffi.status, run_post. run_unfold.
  destruct (is_live _), (cancel_requested _), (wake_submitted _); cbn; try done.
  destruct (Task.task _); cbn; [|done]. by destruct (from_code _).
Qed.

(** A step of the owner on the registry that cannot unwind, and cannot touch the
    lifecycle or the native runtime. *)
Definition calm_post (s : RState F T) (h : nhistory) (r : outcome unit) (s' : RState F T) (h' : nhistory) : Prop :=
  (exists new, h' = new ++ h /\ Forall quiet new) /\ (ids s', lifecycle s') = (ids s, lifecycle s) /\
  match r with Panicked _ => False | _ => True end.

Lemma aborts_post l o (s : RState F T) h : run_post (for_each abort_task l) o s h (calm_post s h).
Proof.
  split; [apply emits_for_each, abort_task_quiet|].
  split; [apply (preserves_for_each (fun s => (ids s, lifecycle s))), abort_task_core|].
  apply np_for_each, np_abort_task.
Qed.

Lemma drain_empty w o (s : RState F T) h :
  run_post (drain w) o s h (fun r s' _ => match r with Done _ => tasks s' = ∅ | _ => True end).
Proof.
  apply run_post_bind. unfold run_post at 1. destruct (others _ _ _ _ _) as [[[] s2] h2]; cbn; try done.
  unfold run_post. run_unfold. destruct (bool_decide_reflect (tasks s2 = ∅)); done.
Qed.

Lemma drain_post w o (s : RState F T) h :
  run_post (drain w) o s h (fun r s' h' => calm_post s h r s' h' /\
    match r with Done _ => tasks s' = ∅ | _ => True end).
Proof.
  split; [split; [|split]|].
  - assert (emits quiet (drain w)) as He by (unfold drain, others; emits_auto). apply He.
  - assert (preserves (fun s => (ids s, lifecycle s)) (drain w)) as He
      by (unfold drain, others; preserves_auto). apply He.
  - apply np_bind; [apply np_others|].
    intros _ o' s' h'. unfold run_post. run_unfold. by destruct (bool_decide _).
  - apply drain_empty.
Qed.

(** ** What a shutdown promises *)

(** What every branch of [shutdown_inner] leaves behind. *)
Definition shutdown_post (thread getpid : Z) (raw_r raw_t : RawTask) (rt : Rt F T)
    (r : outcome (result ShutdownError unit)) (rt' : Rt F T) (new : nhistory) : Prop :=
  let c := rt_core rt in let c' := rt_core rt' in
  let torn k := exists before after, new = after ++ before /\ Forall quiet before /\
                  torn_down raw_r raw_t (ids c) k after in
  match r with
  | Done (Err ShutWrongThread) => owner_thread (ids c) <> thread /\ new = [] /\ rt' = rt
  | Done (Err ShutForkedProcess) =>
      owner_thread (ids c) = thread /\ pid (ids c) <> getpid /\ new = [] /\ rt' = rt
  | Done (Err (ShutNative n)) =>
      lifecycle c' = Closing /\ tasks c' = ∅ /\ last_error n new /\
      exists k, (0 < k <= 4)%nat /\ torn k
  | Done (Ok _) =>
      owner_thread (ids c) = thread /\ pid (ids c) = getpid /\ lifecycle c' = Closed /\
      (lifecycle c = Closed /\ new = [] /\ rt' = rt \/
       lifecycle c <> Closed /\ tasks c' = ∅ /\ g_completed (d_gate (rt_drivers rt')) = true /\
       completed (d_timer (rt_drivers rt')) = true /\ torn 4%nat)
  | Panicked _ => False
  | _ => lifecycle c' = Closing /\ still_up new
  end.

Lemma shutdown_inner_post thread getpid w raw_r raw_t o (rt : Rt F T) h :
  ring_up raw_r (d_gate (rt_drivers rt)) -> timer_up raw_t (d_timer (rt_drivers rt)) ->
  run_post (shutdown_inner thread getpid w) o rt h (fun r rt' h' => exists new, h' = new ++ h /\
    shutdown_post thread getpid raw_r raw_t rt r rt' new).
Proof.
  intros Hg Ht. unfold shutdown_inner. eapply run_post_bind_eq; [reflexivity|].
  destruct (Z.eqb_spec (owner_thread (ids (rt_core rt))) thread) as [Ho|Ho]; cbn [negb];
    [|by exists []; split_and!].
  unfold core_process_matches.
  destruct (Z.eqb_spec (pid (ids (rt_core rt))) getpid) as [Hp|Hp]; cbn [negb];
    [|by exists []; split_and!].
  destruct (decide (lifecycle (rt_core rt) = Closed)) as [Hc|Hc].
  { eapply run_post_bind_eq.
    { unfold on_core, begin_shutdown. run_unfold. rewrite Hc. cbn. reflexivity. }
    apply run_post_ret. exists []. split; [done|]. destruct rt. cbn in *. split_and!; try done. by left. }
  eapply run_post_bind_eq.
  { unfold on_core, begin_shutdown. run_unfold. instantiate (1 := h).
    instantiate (1 := mkRt (set_lifecycle Closing (rt_core rt)) (rt_drivers rt) (rt_active rt)).
    instantiate (1 := Some (elements (tasks (rt_core rt)))). by destruct (lifecycle (rt_core rt)). }
  apply run_post_bind, run_post_part.
  eapply run_post_mono; [apply aborts_post|]. intros r1 c1 h1 ((n1 & -> & Hn1) & [= Hi1 Hl1] & Hr1).
  destruct r1 as [[]| | |]; cbn [then_post]; [|done|exists n1; split; [done|]; split; [cbn; congruence|by apply quiet_still_up]..].
  apply run_post_bind, run_post_part. cbn [rt_core rt_drivers rt_active].
  eapply run_post_mono; [apply drain_post|]. intros r2 c2 h2 (((n2 & -> & Hn2) & [= Hi2 Hl2] & Hr2) & Hd).
  assert (Forall quiet (n2 ++ n1)) as Hn by (by apply Forall_app).
  destruct r2 as [[]| | |]; cbn [then_post];
    [|done|exists (n2 ++ n1); split; [by rewrite <- app_assoc|]; split; [cbn; congruence|by apply quiet_still_up]..].
  eapply run_post_mono; [by apply (teardown_post _ _ raw_r raw_t)|]. cbn [rt_core rt_drivers rt_active].
  intros r rt' h' (tear & -> & H). exists (tear ++ n2 ++ n1). split; [by rewrite <- !app_assoc|].
  assert (lifecycle c2 = Closing) as Hl by congruence.
  destruct r as [[[]|e]| | |]; cbn.
  - destruct H as (-> & Hgc & Htc & Htd). cbn. split_and!; [done..|]. right. split_and!; [done..|].
    by exists (n2 ++ n1), tear.
  - destruct H as (-> & n & k & -> & Hk & Htd & c & q & tear' & -> & Hq). cbn.
    split_and!; [done|done|by eexists _, _, _|]. exists k. split; [done|].
    by exists (n2 ++ n1), ((c, q) :: tear').
  - done.
  - destruct H as (-> & Hup). split; [done|]. apply Forall_app. split; [done|by apply quiet_still_up].
  - destruct H as (-> & Hup). split; [done|]. apply Forall_app. split; [done|by apply quiet_still_up].
Qed.
(** ** Building *)

(** Other calls shift the count. *)
Lemma held_shift c slot raw n new h :
  held c slot raw n h -> held c slot raw (count (destroys raw) new + n) (new ++ h).
Proof. unfold held. rewrite count_app. destruct c; intros []; split; try done; lia. Qed.

(** What a started driver holds on top of [st]. *)
Definition holding (completed : bool) (raw : RawTask) (st : list resource) : list resource :=
  if completed then st else RDesc raw :: st.

Lemma held_stack c slot c' slot' raw n new h st :
  held c slot raw n h -> held c' slot' raw n (new ++ h) -> Forall (driver_event raw) new ->
  stack new (holding c raw st) = Some (holding c' raw st).
Proof.
  intros Hh Hh' Hn. unfold held in *. rewrite count_app in Hh'.
  pose proof (driver_stack raw new st Hn) as [H0 H1].
  pose proof (driver_stack raw new (RDesc raw :: st) Hn) as [H2 _].
  destruct c, c', Hh, Hh'; cbn; [apply H0; lia|lia|apply H1; lia|apply H2; lia].
Qed.

(** The types and the initialization, oldest last. *)
Definition base (io_uring_type task_type : RawTaskType) : list resource :=
  [RType io_uring_type; RType task_type; RInit].

(** What every end of a failed construction leaves; an abort ends the process, and a wait
    that never ends is for a driver that has not completed. *)
Definition failed_with (r : outcome (result InitError (RState F T))) (d : Drivers) (st : list resource)
    (new : nhistory) : Prop :=
  match r with
  | Done (Ok _) | Panicked _ => False
  | Done (Err e) => stack new st = Some [] /\ exists n, e = InitNative n
  | Aborted _ => still_up new
  | Blocked msg => still_up new /\ msg = "completed_cv"%string /\ g_completed (d_gate d) = false
  end.

(** No move of the ring's driver waits forever. *)
Definition never_blocks {S A} (m : nprog S A) : Prop :=
  forall o s h, run_post m o s h (fun r _ _ => match r with Blocked _ => False | _ => True end).

Lemma ring_move_no_block m : never_blocks (ring_move m).
Proof.
  intros o g h. destruct m as [ws|dec|poll dec| | | |]; cbn [ring_move].
  - eapply run_post_mono; [apply (wake_batch_post o 1%positive ws g h)|]. intros [] ? ? [Hr _]; done.
  - unfold gate_section, run_post. run_unfold. destruct (g_notified g), dec; done.
  - unfold ring_park, yield_now, waitfor, pause, Ffi.status, run_post. run_unfold.
    destruct dec; cbn; try done; by destruct (from_code _).
  - done.
  - done.
  - unfold ring_notify, submit, submit_deadline_wake, submit_with, Ffi.status, run_post. run_unfold.
    destruct (g_phase g), (g_raw g); cbn; try done; by destruct (from_code _).
  - unfold ring_completed_callback, driver_owner, ring_retire, metadata, destroy, Ffi.status, run_post.
    run_unfold. destruct (g_raw g) as [p|] eqn:Hp; [|done]. destruct (rptr _); cbn; [done|].
    destruct (g_phase g); cbn; try done. rewrite Hp. cbn. by destruct (from_code _).
Qed.

Lemma others_no_block moves : never_blocks (others ring_move moves).
Proof.
  intros o s h. apply run_post_for_each; [|done]. intros m g h1 _ _.
  apply run_post_bind, run_post_catch. eapply run_post_mono; [apply (ring_move_no_block m)|]. by intros [].
Qed.

Lemma ring_wait_blocks moves o g h :
  run_post (ring_shutdown_and_wait moves) o g h (fun r g' _ =>
    match r with Blocked msg => msg = "completed_cv"%string /\ g_completed g' = false | _ => True end).
Proof.
  apply run_post_bind. eapply run_post_mono; [apply (ring_move_no_block RMNotify)|].
  intros [[]|e|e|e] g1 h1; cbn [then_post]; try done. intros _.
  apply run_post_bind. eapply run_post_mono; [apply others_no_block|].
  intros [[]|e|e|e] g2 h2; cbn [then_post]; try done. intros _.
  eapply run_post_bind_eq; [reflexivity|]. by destruct (g_completed g2) eqn:Hc.
Qed.

(** The ring's driver, started and not told to stop: its task cannot leave the loop. *)
Definition live_phase (p : RingPark) : Prop :=
  match p with RRunning | RPaused | RDeadlineWait | RWakePending => True | _ => False end.
Definition ring_alive raw n (g : GState) (h : nhistory) : Prop :=
  g_completed g = false /\ g_raw g = Some raw /\ count (destroys raw) h = n /\ live_phase (g_phase g).

Lemma alive_held raw n g h : ring_alive raw n g h -> ring_held raw n g h.
Proof. intros (Hc & Hr & Hn & _). unfold ring_held. by rewrite Hc. Qed.

Lemma stays_live m o g h :
  m <> RMStop -> live_phase (g_phase g) ->
  run_post (ring_move m) o g h (fun r g' _ =>
    match r with Done _ | Panicked _ => live_phase (g_phase g') /\ g_completed g' = g_completed g | _ => True end).
Proof.
  intros Hm Hp. destruct m as [ws|dec|poll dec| | | |]; cbn [ring_move]; [| | | |done| |].
  - eapply run_post_mono; [apply (wake_batch_post o 1%positive ws g h)|]. intros [] ? ? (_ & -> & _); by try split.
  - unfold gate_section, run_post. run_unfold. by destruct (g_notified g), dec.
  - unfold ring_park, yield_now, waitfor, pause, Ffi.status, run_post. run_unfold.
    destruct dec; cbn; try done; by destruct (from_code _).
  - done.
  - unfold ring_notify, submit, submit_deadline_wake, submit_with, Ffi.status, run_post. run_unfold.
    destruct (g_phase g) eqn:E, (g_raw g); cbn; rewrite ?E; try done; by destruct (from_code _).
  - unfold ring_completed_callback, driver_owner, ring_retire, metadata, destroy, Ffi.status, run_post.
    run_unfold. destruct (g_raw g) as [p|] eqn:Hraw; [|done]. destruct (rptr _); cbn; [done|].
    by destruct (g_phase g).
Qed.

Lemma alive_survives raw n m : m <> RMStop -> survives (driver_event raw) (ring_alive raw n) (ring_move m).
Proof.
  intros Hm o g h Ha. pose proof Ha as (Hc & _ & _ & Hp).
  eapply run_post_mono; [eapply run_post_and; [apply (ring_survives raw n m), (alive_held _ _ _ _ Ha)|by apply stays_live]|].
  intros r g' h' [[Hh Hnew] Hl]. split; [|done].
  destruct r; try done; destruct Hl as [Hl Hc']; unfold ring_held, held in Hh; rewrite Hc', Hc in Hh;
    destruct Hh; split_and!; congruence || done.
Qed.

(** The moves of a driver that nobody has told to stop: [decide] answers [Stop] only after
    a shutdown ([stop_after_shutdown]). *)
Definition unstopped (moves : list RingMove) : Prop := Forall (fun m => m <> RMStop) moves.

Lemma stop_after_shutdown `{U : Uring} {X : Type} (d : DriverData X) backlog oq :
  decide_run d backlog oq = DStop -> dshutdown d = true.
Proof. unfold decide_run. destruct (dshutdown d); [done|]. cbn. by repeat case_match. Qed.

Lemma alive_others raw n moves o g h :
  unstopped moves -> ring_alive raw n g h ->
  run_post (others ring_move moves) o g h (fun r g' h' =>
    match r with Done _ => ring_alive raw n g' h' | Panicked _ | Blocked _ => False | Aborted _ => True end /\
    exists new, h' = new ++ h /\ Forall (driver_event raw) new).
Proof.
  intros Hm Ha. eapply run_post_mono.
  { apply run_post_and; [apply (others_no_block moves)|].
    apply (run_post_for_each _ (fun r g' h' =>
      match r with Done _ => ring_alive raw n g' h' | Panicked _ => False | _ => True end /\
      exists new, h' = new ++ h /\ Forall (driver_event raw) new)); [|by split; [|exists []]].
    intros m g1 h1 Hin [Ha1 (new & -> & Hn)]. apply run_post_bind, run_post_catch.
    eapply run_post_mono; [apply (alive_survives raw n m); [|exact Ha1]|].
    { unfold unstopped in Hm. rewrite Forall_forall in Hm. by apply Hm. }
    intros r g2 h2 [Ha2 (new2 & -> & Hn2)].
    assert (exists new0, new2 ++ new ++ h = new0 ++ h /\ Forall (driver_event raw) new0)
      by (exists (new2 ++ new); split; [by rewrite app_assoc|by apply Forall_app]).
    by destruct r. }
  intros r g' h' [Hb [H1 H2]]. split; [|done]. by destruct r.
Qed.

Lemma undo_ring_post w io_uring_type task_type e raw n o d h :
  ring_held raw n (d_gate d) h ->
  run_post (undo_ring w io_uring_type task_type e) o d h (fun r d' h' => exists new, h' = new ++ h /\
    failed_with r d' (holding (g_completed (d_gate d)) raw (base io_uring_type task_type)) new).
Proof.
  intros Hh. apply run_post_bind, run_post_part.
  eapply run_post_mono; [eapply run_post_and; [by apply (ring_wait_post raw n (w_failed w) o (d_gate d) h)|
    apply (ring_wait_blocks (w_failed w))]|].
  intros r g h1 [(hr & -> & Hq & Hdone) Hbl].
  assert (still_up hr) as Hup by (by eapply driver_still_up).
  destruct r as [[]| | |]; cbn [then_post]; [|done|by exists hr..].
  destruct Hdone as (Hc & Hs & Hn).
  assert (stack hr (holding (g_completed (d_gate d)) raw (base io_uring_type task_type)) =
          Some (base io_uring_type task_type)) as Hst.
  { by apply (held_stack _ (g_raw (d_gate d)) true None raw n hr h). }
  apply run_post_bind, status_post. cbn [then_post]. set (q1 := o _ _).
  apply run_post_bind, status_post. cbn [then_post]. set (q2 := o _ _).
  apply run_post_bind, status_post. cbn [then_post]. set (q3 := o _ _). apply run_post_ret.
  exists ((NShutdown, q3) :: (NTypeDestroy task_type, q2) :: (NTypeDestroy io_uring_type, q1) :: hr).
  split; [done|]. split; [|by eexists].
  eapply stack_released; [done|]. eapply stack_released; [done|]. eapply stack_released; [done|]. exact Hst.
Qed.

(** What a runtime that was built holds, and how it left its drivers: the ring's loop was
    started and has not ended, the timer's too, with no timer and no shutdown. *)
Definition built (thread getpid : Z) (core : RState F T) (d : Drivers) (new : nhistory)
    (st : list resource) : Prop :=
  exists raw_r raw_t,
    ids core = mkCoreIds thread getpid (task_type (ids core)) (timer_type (ids core)) (io_uring_type (ids core)) /\
    lifecycle core = Running /\ tasks core = ∅ /\ rt_wf core /\
    ring_up raw_r (d_gate d) /\ live_phase (g_phase (d_gate d)) /\
    timer_up raw_t (d_timer d) /\ gphase (d_timer d) = TRunning /\ timers (d_timer d) = [] /\
    shutdown (d_timer d) = false /\
    stack new st = Some [RDesc raw_t; RType (timer_type (ids core)); RDesc raw_r;
      RType (io_uring_type (ids core)); RType (task_type (ids core)); RInit].

Definition build_post (thread getpid : Z) (r : outcome (result InitError (RState F T))) (d : Drivers)
    (new : nhistory) (st : list resource) : Prop :=
  match r with
  | Done (Ok core) => built thread getpid core d new st
  | _ => failed_with r d st new
  end.

(** More calls before a failed end. *)
Lemma failed_after r d st st' new first :
  still_up first -> (forall l, stack new st' = Some l -> stack (new ++ first) st = Some l) ->
  failed_with r d st' new -> failed_with r d st (new ++ first).
Proof.
  intros Hup Hst. destruct r as [[core|e]|e|e|e]; cbn; [done| |done| |].
  - intros [Hf He]. split; [by apply Hst|done].
  - intros H. by apply Forall_app.
  - intros (H & Hm). split; [by apply Forall_app|done].
Qed.

Lemma calls_still_up new l : calls new = l -> NShutdown ∉ l -> still_up new.
Proof.
  intros <- Hn. apply Forall_forall. intros e He Hs. apply Hn. unfold calls. rewrite list_elem_of_In, <- in_rev, <- Hs.
  apply in_map. by apply list_elem_of_In.
Qed.

Lemma timer_start_still_up ty : emits (fun e : event => e.1 <> NShutdown) (timer_start ty).
Proof. unfold timer_start, create, metadata, destroy, submit, submit_with, Ffi.status. emits_auto; done. Qed.

Lemma build_timer_post w thread getpid task_type io_uring_type raw n o d h :
  ring_alive raw n (d_gate d) h ->
  run_post (build_timer w thread getpid task_type io_uring_type) o d h (fun r d' h' =>
    exists new, h' = new ++ h /\
    build_post thread getpid r d' new (RDesc raw :: base io_uring_type task_type)).
Proof.
  intros Ha. pose proof (alive_held _ _ _ _ Ha) as Hh. pose proof Ha as (Hc & Hraw & _ & Hlive).
  set (st := RDesc raw :: _).
  assert (forall first o' d' e, d_gate d' = d_gate d ->
    run_post (undo_ring w io_uring_type task_type e) o' d' (first ++ h) (fun r d'' h'' => exists new,
      h'' = new ++ first ++ h /\ failed_with r d'' st new)) as Hundo.
  { intros first o' d' e Hg. eapply run_post_mono.
    - apply (undo_ring_post w _ _ e raw (count (destroys raw) first + n)). rewrite Hg. by apply held_shift.
    - intros r d'' h'' (new & -> & Hf). exists new. split; [done|]. by rewrite Hg, Hc in Hf. }
  apply run_post_bind, type_init_post; cbn [then_post]; set (e1 := (NTypeInit _ _, _)).
  { intros err Hst. eapply run_post_mono; [by apply (Hundo [e1])|].
    intros r d' h' (new & -> & Hf). exists (new ++ [e1]). split; [by rewrite <- app_assoc|].
    assert (failed_with r d' st (new ++ [e1])) as Hf'.
    { eapply failed_after; [by repeat constructor| |exact Hf]. intros l. by rewrite stack_app, Hst. }
    by destruct r as [[]| | |]. }
  intros ty Hst. eapply run_post_bind_eq; [reflexivity|]. apply run_post_bind, run_post_part.
  eapply run_post_mono; [apply run_post_and; [apply timer_start_contract|apply timer_start_still_up]|]. cbn [d_timer d_gate].
  intros r t h' [(new & -> & H) (new0 & Enew & Hup)]. apply app_inv_tail in Enew as <-. destruct r as [[[]|err]| | |]; cbn [then_post]; try done.
  - apply run_post_ret. destruct H as (raw_t & _ & _ & Hstack & Hinit).
    destruct (Hinit 0) as (_ & Htm & Hsd & Hraw_t & Hph & _ & Hct & _).
    exists (new ++ [e1]). split; [by rewrite <- app_assoc|]. exists raw, raw_t. cbn.
    split_and!; try done.
    + split; [split; vm_compute; discriminate|]. intros id. cbn. rewrite lookup_empty.
      intros [H|[H|[? H]]]; [set_solver..|done].
    + rewrite stack_app, Hst. apply Hstack.
  - destruct H as (Hd & Hstack & _). apply run_post_bind, status_post. cbn [then_post]. set (q := o _ _).
    eapply run_post_mono.
    { replace ((NTypeDestroy ty, q) :: new ++ e1 :: h) with ((((NTypeDestroy ty, q) :: new) ++ [e1]) ++ h)
        by (by rewrite <- app_assoc). by apply Hundo. }
    intros r d' h' (new' & -> & Hf). exists (new' ++ (NTypeDestroy ty, q) :: new ++ [e1]).
    split; [by rewrite <- !app_assoc; cbn; rewrite <- !app_assoc|].
    assert (failed_with r d' st (new' ++ (NTypeDestroy ty, q) :: new ++ [e1])) as Hf'.
    { eapply failed_after; [| |exact Hf].
      - constructor; [done|]. apply Forall_app. by split; [|repeat constructor].
      - intros l. rewrite stack_app. erewrite (stack_released _ (RType ty)); [done|done|].
        rewrite stack_app, Hst. apply Hstack. }
    by destruct r as [[]| | |].
Qed.

(** The driver of the ring was started: nOS-V was given its task. *)
Definition ring_started (new : nhistory) : Prop := exists raw, NSubmit raw SUBMIT_NONE ∈ calls new.

Lemma build_drivers_post w thread getpid o d h :
  unstopped (w_started w) ->
  run_post (build_drivers w thread getpid) o d h (fun r d' h' => exists new, h' = new ++ h /\
    build_post thread getpid r d' new [RInit] /\
    match r with Done _ => True | _ => ring_started new end).
Proof.
  intros Hun. apply run_post_bind, type_init_post; cbn [then_post]; set (e1 := (NTypeInit _ _, _)).
  { intros err Hst. apply run_post_bind, status_post. cbn [then_post]. apply run_post_ret.
    eexists [_; e1]. split; [done|]. split; [|done]. split; [|by eexists]. eapply stack_released; [done|apply Hst]. }
  intros task_ty Hst1. apply run_post_bind, type_init_post; cbn [then_post]; set (e2 := (NTypeInit _ _, _)).
  { intros err Hst. apply run_post_bind, status_post. cbn [then_post].
    apply run_post_bind, status_post. cbn [then_post]. apply run_post_ret.
    eexists [_; _; e2; e1]. split; [done|]. split; [|done]. split; [|by eexists].
    do 2 (eapply stack_released; [done|]). rewrite (stack_app [e2] [e1]), Hst1. apply Hst. }
  intros io_ty Hst2. eapply run_post_bind_eq; [reflexivity|]. apply run_post_bind, run_post_part.
  assert (stack [e2; e1] [RInit] = Some (base io_ty task_ty)) as Hbase.
  { rewrite (stack_app [e2] [e1]), Hst1. apply Hst2. }
  eapply run_post_mono; [apply ring_start_contract|]. cbn [d_timer d_gate].
  intros r g h' (new & -> & H). destruct r as [[[]|err]| | |]; cbn [then_post]; try done.
  2: { destruct H as (_ & Hstack & _).
    apply run_post_bind, status_post. cbn [then_post]. apply run_post_bind, status_post. cbn [then_post].
    apply run_post_bind, status_post. cbn [then_post]. apply run_post_ret.
    eexists (_ :: _ :: _ :: new ++ [e2; e1]). split; [by cbn; rewrite <- app_assoc|]. split; [|done].
    split; [|by eexists]. do 3 (eapply stack_released; [done|]). rewrite stack_app, Hbase. apply Hstack. }
  destruct H as (raw & _ & Hd & Hcalls & Hstack & ->).
  apply run_post_bind, run_post_part. cbn [d_gate d_timer].
  set (n := count (destroys raw) (e2 :: e1 :: h)).
  assert (ring_alive raw n (mkGate (Some raw) RRunning false false) (new ++ e2 :: e1 :: h)) as Ha.
  { split_and!; [done..| |done]. by rewrite count_app, Hd. }
  assert (still_up (new ++ [e2; e1])) as Hup.
  { apply Forall_app. split; [eapply calls_still_up; [exact Hcalls|]; set_solver|by repeat constructor]. }
  assert (forall l, ring_started (l ++ new ++ [e2; e1])) as Hst.
  { intros l. exists raw. unfold calls in *. rewrite !map_app, !rev_app_distr, !elem_of_app.
    left. right. rewrite Hcalls. do 2 right. by left. }
  eapply run_post_mono; [apply (alive_others raw n (w_started w)); [exact Hun|exact Ha]|].
  intros r g h' [Hg (moved & -> & Hm)]. destruct r as [[]| | |]; cbn [then_post]; try done.
  2: { exists (moved ++ new ++ [e2; e1]). split; [by rewrite <- !app_assoc|]. split; [|apply Hst].
       apply Forall_app. split; [by eapply driver_still_up|done]. }
  eapply run_post_mono; [by apply (build_timer_post _ _ _ _ _ raw n)|]. cbn [d_gate].
  intros r d' h' (last & -> & Hb). exists (last ++ moved ++ new ++ [e2; e1]).
  split; [by rewrite <- !app_assoc|].
  assert (forall st, stack last (RDesc raw :: base io_ty task_ty) = Some st ->
    stack (last ++ moved ++ new ++ [e2; e1]) [RInit] = Some st) as Hall.
  { intros st. rewrite !stack_app, Hbase. cbn [mbind option_bind]. rewrite Hstack. cbn [mbind option_bind].
    pose proof (held_stack _ _ _ _ _ _ _ _ (base io_ty task_ty) (alive_held _ _ _ _ Ha) (alive_held _ _ _ _ Hg) Hm) as Hs.
    rewrite (proj1 Hg) in Hs. cbn in Hs. by rewrite Hs. }
  assert (still_up (moved ++ new ++ [e2; e1])) as Hup'
    by (apply Forall_app; split; [by eapply driver_still_up|done]).
  assert (ring_started (last ++ moved ++ new ++ [e2; e1])) as Hstd by (rewrite (app_assoc last); apply Hst).
  split; [|by destruct r].
  destruct r as [[core|e]| | |]; try done; cbn in Hb |- *.
  - destruct Hb as (r1 & r2 & Hb). exists r1, r2. repeat (destruct Hb as [? Hb]; split; [done|]).
    by apply Hall.
  - destruct Hb as [Hb He]. split; [by apply Hall|done].
  - by apply Forall_app.
  - destruct Hb as [Hb He]. split; [by apply Forall_app|done].
Qed.
(** ** Every registered task is asked to stop *)

(** The task [id] is gone, past its life, or has been told to cancel. *)
Definition stopping (id : TaskId) (s : RState F T) : Prop :=
  forall r, task_store s !! id = Some r -> is_live (phase (gate (tstate r))) = true ->
    cancel_requested (gate (tstate r)) = true.

Lemma request_abort_post o g h :
  run_post (request_abort open_runtime) o g h (fun r g' _ =>
    match r with
    | Done _ => is_live (phase g') = true -> cancel_requested g' = true
    | Panicked _ => False
    | _ => True
    end).
Proof.
  unfold request_abort, submit_live, submit, submit_with, Ffi.status, run_post. run_unfold.
  destruct (is_live (phase g)) eqn:Hl, (cancel_requested g) eqn:Hc; cbn; try congruence.
  destruct (wake_submitted g); cbn; [done|]. destruct (Task.task g); cbn; [|done].
  by destruct (from_code _).
Qed.

Lemma abort_task_post id o (s : RState F T) h :
  run_post (abort_task id) o s h (fun r s' _ =>
    match r with
    | Done _ => stopping id s' /\ tasks s' = tasks s /\ forall j, stopping j s -> stopping j s'
    | Panicked _ => False
    | _ => True
    end).
Proof.
  apply run_post_bind, run_post_bind. unfold run_post at 1. cbn.
  destruct (task_store s !! id) as [rec|] eqn:Hid; cycle 1.
  { unfold run_post. run_unfold. split_and!; try done. intros r Hr. congruence. }
  apply run_post_bind, run_post_part, run_post_part.
  eapply run_post_mono; [apply request_abort_post|]. intros r g h' Hg.
  destruct r; unfold run_post; cbn; try done. run_unfold.
  assert (stopping id (set_task_store (<[id := mkTaskRec
    (mkTask g (future (tstate rec)) (join (tstate rec)) (current (tstate rec))) (tname rec) (tcost rec)]>
    (task_store s)) s)) as Hs.
  { intros r. cbn. rewrite lookup_insert_eq. by intros [= <-]. }
  split_and!; [done|done|]. intros j Hj. destruct (decide (j = id)) as [->|Hne]; [done|].
  intros r. cbn. rewrite lookup_insert_ne by done. apply Hj.
Qed.

(** Shutdown asks every task to stop.  When the abort loop of [shutdown_inner]
    over its registry snapshot returns, every task that was registered and is still
    live has its cancellation requested, and the registry itself is unchanged. *)
Theorem shutdown_aborts_every_task o (s : RState F T) h :
  run_post (for_each abort_task (elements (tasks s))) o s h (fun r s' _ =>
    match r with
    | Done _ => tasks s' = tasks s /\ forall id, id ∈ tasks s -> stopping id s'
    | Panicked _ => False
    | _ => True
    end).
Proof.
  assert (forall l s h, run_post (for_each abort_task l) o s h (fun r s' _ =>
    match r with
    | Done _ => tasks s' = tasks s /\ (forall id, id ∈ l \/ stopping id s -> stopping id s')
    | Panicked _ => False
    | _ => True
    end)) as Hl.
  { intros l. induction l as [|id l IH]; intros s1 h1.
    { split; [done|]. intros id [H|H]; [by apply elem_of_nil in H|done]. }
    apply run_post_bind. eapply run_post_mono; [apply abort_task_post|].
    intros r s2 h2 H. destruct r as [[]| | |]; cbn [then_post]; try done. destruct H as (Hid & Ht & Hmono).
    eapply run_post_mono; [apply IH|]. intros r s3 h3 H. destruct r; try done. destruct H as [Ht3 H].
    split; [congruence|]. intros j. rewrite elem_of_cons. intros [[->|Hj]|Hj]; apply H; auto. }
  eapply run_post_mono; [apply Hl|]. intros r s' h' H. destruct r; try done. destruct H as [Ht H].
  split; [done|]. intros id Hid. apply H. left. by apply elem_of_elements.
Qed.

(** ** The contracts *)

(** C8. Building a runtime is transactional.  Whatever the library and the kernel
    answer, and whatever the ring's driver does meanwhile short of stopping (which it
    does only after a shutdown), [build] either returns a running runtime with an empty
    registry, whose two drivers are started and not completed, the ring's in its loop and
    the timer's with no timer, and whose held resources are exactly the initialization,
    the three task types in their order and the descriptors of the two drivers; or it
    fails having released, in reverse order and before returning, everything it
    acquired.  A refusal before initialization (inside a task, an invalid configuration,
    an unsuitable kernel) makes no native call but the check for a current task.  It
    unwinds never; it aborts the process or waits without end only after the ring's
    driver was started, with the library not shut down, and waits only for that driver,
    which has not completed, on a failure path. *)
Theorem build_transactional code k config w thread getpid o d h (Hun : unstopped (w_started w)) :
  run_post (build code k config w thread getpid) o d h (fun r d' h' => exists new, h' = new ++ h /\
    match r with
    | Done (Ok core) => built thread getpid core d' new [] /\
        exists p, prepared_ring_new code k config = Ok p
    | Done (Err InitAlreadyInTask) => calls new = [NSelf]
    | Done (Err (InitNative _)) => stack new [] = Some [] /\
        exists p, prepared_ring_new code k config = Ok p
    | Done (Err e) => prepared_ring_new code k config = Err e /\ calls new = [NSelf]
    | Panicked _ => False
    | Aborted _ => still_up new /\ ring_started new
    | Blocked msg => still_up new /\ ring_started new /\ msg = "completed_cv"%string /\
        g_completed (d_gate d') = false
    end).
Proof.
  unfold build, ffi_current. apply run_post_bind, run_post_bind, run_post_call. cbn [then_post].
  set (e0 := (NSelf, _)). apply run_post_ret. cbn [then_post].
  destruct (from_ptr _); [by exists [e0]|].
  destruct (prepared_ring_new code k config) as [p|e] eqn:Hp; cycle 1.
  { apply run_post_ret. exists [e0]. split; [done|]. destruct e; try done; exfalso;
      revert Hp; unfold prepared_ring_new; by repeat case_match. }
  apply run_post_bind, status_post. cbn [then_post]. set (e1 := (NInit, o _ NInit)).
  change (o _ NInit) with e1.2. destruct (from_code (rcode e1.2)) as [[]|n] eqn:H1; cycle 1.
  { apply run_post_ret. exists [e1; e0]. split; [done|]. split; [|by eexists].
    cbn. unfold stack_step, acquired. cbn -[e1]. change (o (e0 :: h) NInit) with e1.2. by rewrite H1. }
  assert (stack [e1; e0] [] = Some [RInit]) as Hst.
  { cbn. unfold stack_step, acquired. cbn -[e1]. change (o (e0 :: h) NInit) with e1.2. by rewrite H1. }
  assert (still_up [e1; e0]) as Hup by (by repeat constructor).
  eapply run_post_mono; [by apply build_drivers_post|]. intros r d' h' (new & -> & Hb & Hs).
  exists (new ++ [e1; e0]). split; [by rewrite <- app_assoc|].
  assert (ring_started new -> ring_started (new ++ [e1; e0])) as Hst2.
  { intros [raw Hr]. exists raw. unfold calls in *. rewrite map_app, rev_app_distr. apply elem_of_app. by right. }
  destruct r as [[core|e]| | |]; cbn in Hb; try done.
  - split; [|by eexists]. destruct Hb as (r1 & r2 & Hb). exists r1, r2.
    repeat (destruct Hb as [? Hb]; split; [done|]). by rewrite stack_app, Hst.
  - destruct Hb as [Hb [n ->]]. split; [|by eexists]. by rewrite stack_app, Hst.
  - split; [by apply Forall_app|by apply Hst2].
  - destruct Hb as (Hb & Hm). split; [by apply Forall_app|]. split; [by apply Hst2|done].
Qed.

(** C9. Shutting down is orderly.  From a runtime whose drivers run, and for every
    behaviour of the tasks, the drivers and the library during its waits,
    [shutdown_inner] refuses a foreign thread or process without a native call or a
    change; is a no-op on a closed runtime; otherwise it succeeds only with an empty
    registry and both drivers completed, having made exactly the calls of a full
    teardown: each driver's descriptor is destroyed, once, before the driver's type,
    then the task type and the library go; a native error stops the teardown at the
    failing step with the runtime still closing; and it never unwinds, nor shuts the
    library down when it is cut short. *)
Theorem shutdown_contract thread getpid w raw_r raw_t o (rt : Rt F T) h :
  ring_up raw_r (d_gate (rt_drivers rt)) -> timer_up raw_t (d_timer (rt_drivers rt)) ->
  run_post (shutdown_inner thread getpid w) o rt h (fun r rt' h' => exists new, h' = new ++ h /\
    shutdown_post thread getpid raw_r raw_t rt r rt' new).
Proof. apply shutdown_inner_post. Qed.

(** ** A teardown that is repeated *)
















End Spec.

(** ** Concrete runs *)
Module Sample.

(** A library outside any task that accepts everything and never reuses an address. *)
Definition o : noracle := Ffi.accepting.
Definition kernel : RingKernel := mkRingKernel (fun _ => Ok tt) true (Ok tt) (fun _ => true).
Definition no_moves : BuildWorld := mkBuildWorld [] [].

(** The drivers of a fresh runtime, their descriptors at 5 and 8. *)
Definition drivers : Drivers :=
  mkDrivers (mkGate (Some 5%positive) RRunning false false)
    (mkT ∅ [] false (Some 8%positive) TRunning false 1 false).
Definition running : Rt nat nat :=
  mkRt (mkRState (mkCoreIds 1 10 2%positive 3%positive 4%positive) Running ∅ 1 ∅ ∅ ∅) drivers true.

(** The drivers' tasks run once more and retire. *)
Definition world : World nat nat := mkWorld [] [RMResume; RMStop; RMCompleted] [TMResume; TMCollect 100; TMCheck; TMCompleted].


End Sample.

Lemma shutdown_contract_witness :
  let x := shutdown_inner (codes := sample_codes) 1 10 Sample.world Sample.o Sample.running [] in
  outcome_of x = Done (Ok tt) /\ lifecycle (rt_core (state_of x)) = Closed /\
  calls (history_of x) =
    [NMetadata 5%positive; NDestroy 5%positive; NTypeDestroy 4%positive;
     NMetadata 8%positive; NDestroy 8%positive; NTypeDestroy 3%positive;
     NTypeDestroy 2%positive; NShutdown].
Proof.
  assert (ring_up 5%positive (d_gate (rt_drivers Sample.running))) as Hg by (split; reflexivity).
  assert (timer_up 8%positive (d_timer (rt_drivers Sample.running))) as Ht by (split; reflexivity).
  pose proof (@shutdown_contract sample_codes nat nat 1 10 Sample.world 5%positive 8%positive Sample.o
                Sample.running [] Hg Ht) as (new & Hh & H).
  split; [vm_compute; reflexivity|]. split; [|vm_compute; reflexivity].
  revert H. vm_compute. intros (_ & _ & H & _). exact H.
Defined.


(** Right after it starts, the ring's driver runs a section of its gate and parks. *)
Lemma build_transactional_witness :
  let w := mkBuildWorld [RMGate DPause; RMPark 1 DPause; RMResume] [] in
  let x := build (codes := sample_codes) (F := nat) (T := nat) 14 Sample.kernel Ring.config_default w 1 10
             Sample.o (mkDrivers gate_new driver_new) [] in
  exists core, outcome_of x = Done (Ok core) /\ lifecycle core = Running /\ tasks core = ∅ /\
    @stack sample_codes (history_of x) [] = Some [RDesc 10%positive; RType 9%positive; RDesc 5%positive;
      RType 4%positive; RType 3%positive; RInit].
Proof.
  intros w x.
  assert (unstopped (w_started w)) as Hun by (repeat constructor; discriminate).
  destruct (@build_transactional sample_codes nat nat 14 Sample.kernel Ring.config_default w 1 10 Sample.o
              (mkDrivers gate_new driver_new) [] Hun) as (new & Hh & H).
  unfold run_post in H. fold x in Hh, H. rewrite app_nil_r in Hh. subst new.
  destruct (outcome_of x) as [[core|e]|e|e|e] eqn:E;
    try (exfalso; vm_compute in E; discriminate).
  exists core. split; [reflexivity|]. destruct H as [(raw_r & raw_t & _ & Hl & Ht & _ & _ & _ & _ & _ & _ & _ & Hs) _].
  split; [exact Hl|]. split; [exact Ht|]. vm_compute. reflexivity.
Defined.
