(* ===== verification/OwnedIo.v ===== *)
(** * OwnedIo: buffers, work items and awaited operations ([src/src/io.rs])

    The traits [IoBuf] and [IoBufMut] with their four implementations, [OpWork] and
    [TypedHandler], and the operations [fs] and [net] await.  A buffer carries the
    memory of its allocation.  An awaited [OwnedOp] is one external call: its entry,
    as the arguments given to the [uring] crate's builder, answered either by the
    kernel's result together with the bytes it wrote, or by a refusal of the driver
    (the protocol in between is [RingFutures] and [RingSpec]).  System calls and
    closed descriptors are calls of the same history. *)

From Stdlib Require Import ZArith Lia.
From stdpp Require Import base list strings.
From S2P Require Import Prelude Errors Ring RingOps RingFutures.

Open Scope Z_scope.

(** ** Buffers *)

(** [IoBuf], with the memory behind [stable_ptr]. *)
Class IoBuf (B : Type) : Type := {
  stable_ptr : B -> Z;
  bytes_init : B -> nat;
  memory : B -> list Z
}.

(** [IoBufMut]; [with_memory] is a write to the allocation. *)
Class IoBufMut (B : Type) `{IoBuf B} : Type := {
  stable_mut_ptr : B -> Z;
  bytes_total : B -> nat;
  set_init : nat -> B -> B;
  with_memory : list Z -> B -> B
}.

(** The safety contract of the traits. *)
Definition buf_wf {B} `{IoBuf B} (b : B) : Prop := (bytes_init b <= length (memory b))%nat.

Class IoBufMutLaws (B : Type) `{IoBufMut B} : Prop := {
  mut_ptr_same b : stable_mut_ptr b = stable_ptr b;
  total_is_memory b : bytes_total b = length (memory b);
  set_init_ptr n b : stable_ptr (set_init n b) = stable_ptr b;
  set_init_memory n b : memory (set_init n b) = memory b;
  set_init_covers n b : (n <= bytes_total b)%nat -> (n <= bytes_init (set_init n b))%nat;
  set_init_wf n b : (n <= bytes_total b)%nat -> buf_wf b -> buf_wf (set_init n b);
  with_memory_ptr m b : stable_ptr (with_memory m b) = stable_ptr b;
  with_memory_memory m b : length m = length (memory b) -> memory (with_memory m b) = m;
  with_memory_init m b : length m = length (memory b) -> bytes_init (with_memory m b) = bytes_init b
}.

(** [Vec<u8>]: the allocation up to its capacity, and the length. *)
Record VecBuf : Type := mkVec { v_ptr : Z; v_mem : list Z; v_len : nat }.

#[export] Instance vec_buf : IoBuf VecBuf := {
  stable_ptr := v_ptr; bytes_init := v_len; memory := v_mem
}.
#[export] Instance vec_buf_mut : IoBufMut VecBuf := {
  stable_mut_ptr := v_ptr;
  bytes_total v := length (v_mem v);
  set_init n v := mkVec (v_ptr v) (v_mem v) n;
  with_memory m v := mkVec (v_ptr v) m (v_len v)
}.
#[export] Instance vec_mut_laws : IoBufMutLaws VecBuf.
Proof. by split. Qed.

(** [Box<[u8]>], [&'static [u8]] and [&'static mut [u8]]: fully initialized, so [set_init]
    changes nothing (its debug assertion is the precondition of [set_init_covers]). *)
Record SliceBuf : Type := mkSlice { s_ptr : Z; s_mem : list Z }.

#[export] Instance slice_buf : IoBuf SliceBuf := {
  stable_ptr := s_ptr; bytes_init s := length (s_mem s); memory := s_mem
}.
#[export] Instance slice_buf_mut : IoBufMut SliceBuf := {
  stable_mut_ptr := s_ptr;
  bytes_total s := length (s_mem s);
  set_init _ s := s;
  with_memory m s := mkSlice (s_ptr s) m
}.
#[export] Instance slice_mut_laws : IoBufMutLaws SliceBuf.
Proof. by split. Qed.

(** ** Entries and calls *)

(** A socket address as the C library sees it. *)
Inductive SocketAddr : Type :=
| AddrV4 (ip : Z) (port : Z)
| AddrV6 (ip : Z) (port : Z) (flowinfo scope : Z).

#[export] Instance SocketAddr_eq_dec : EqDecision SocketAddr.
Proof. solve_decision. Defined.

(** The submission entries of [fs] and [net]: the builders' arguments.  The bytes of
    an outgoing region are those the pointer and length denote. *)
Inductive Entry : Type :=
| EOpenAt (path : list Z) (flags mode : Z)
| ERead (fd pointer len offset : Z)
| EWrite (fd pointer len offset : Z) (bytes : list Z)
| EFsync (fd : Z) (datasync : bool)
| EConnect (fd : Z) (address : SocketAddr)
| ERecv (fd pointer len : Z)
| ESend (fd pointer len flags : Z) (bytes : list Z)
| EPollAdd (fd events : Z).

(** [std::net::Shutdown]. *)
Inductive Shutdown : Type := ShutRead | ShutWrite | ShutBoth.

Inductive iocall : Type :=
| Await (e : Entry)                       (* [OwnedOp::new(..).await] *)
| PollOnce (fresh : bool) (e : Entry)     (* one poll of an [OwnedOp], [fresh] when never polled before *)
| SysSocket (ipv4 : bool)                 (* nonblocking, close-on-exec stream socket *)
| SysBind (fd : Z) (address : SocketAddr)
| SysListen (fd backlog : Z)
| SysAccept4 (fd : Z)                     (* nonblocking, close-on-exec *)
| SysName (fd : Z) (peer : bool)          (* [getsockname] or [getpeername] *)
| SysTakeError (fd : Z)
| SysNodelay (fd : Z)
| SysSetNodelay (fd : Z) (nodelay : bool)
| SysShutdown (fd : Z) (how : Shutdown)
| SysRecv (fd len : Z)
| SysSend (fd : Z) (flags : Z) (bytes : list Z)
| SysClose (fd : Z).                      (* an [OwnedFd] or [Socket] is dropped *)

#[export] Instance Shutdown_eq_dec : EqDecision Shutdown.
Proof. solve_decision. Defined.
#[export] Instance Entry_eq_dec : EqDecision Entry.
Proof. solve_decision. Defined.
#[export] Instance iocall_eq_dec : EqDecision iocall.
Proof. solve_decision. Defined.

(** An answer: the kernel's result (negative: the error number), the bytes written
    through the pointer, the address reported, the driver's refusal, and whether a
    poll found no completion yet. *)
Record ioresp : Type := mkIoResp {
  io_pending : bool;
  io_res : Z;
  io_bytes : list Z;
  io_address : option SocketAddr;
  io_refused : option OwnedFailure
}.

Notation iohistory := (history iocall ioresp).
Notation iooracle := (oracle iocall ioresp).
Notation ioprog := (prog iocall ioresp unit).

(** The calls of a history, oldest first. *)
Definition iocalls (h : iohistory) : list iocall := rev (map fst h).

(** [io::Error::kind], as far as the crate looks at it. *)
Definition error_kind (e : IoError) : ErrorKind :=
  match e with
  | RawOs errno =>
      if errno =? EAGAIN then KWouldBlock else if errno =? EINTR then KInterrupted else KOther
  | Custom kind _ => kind
  end.

(** The opcodes of the [uring] crate. *)
Class OpCodes : Type := {
  OPENAT : Z; READ : Z; WRITE : Z; FSYNC : Z; CONNECT : Z; RECV : Z; SEND : Z; POLL_ADD : Z
}.

(** ** Work items *)

(** [OpWork<T>]: its opcode and entry, and what a kernel result or a failure becomes;
    the bytes are those the kernel wrote into the item's buffer. *)
Record OpWork (T : Type) : Type := mkWork {
  w_opcode : Z;
  w_entry : Entry;
  w_complete : list Z -> Z -> T;
  w_fail : IoError -> T
}.
Arguments mkWork {T}.
Arguments w_opcode {T}.
Arguments w_entry {T}.
Arguments w_complete {T}.
Arguments w_fail {T}.

(** [TypedHandler], around an item whose buffer holds [written]. *)
Definition typed_handler `{Uring} {T} (build : Entry -> sqe) (control : OpId) (written : list Z)
    (w : OpWork T) : OwnedHandler T :=
  mkHandler control (w_opcode w) (build (w_entry w)) (w_complete w written) (w_fail w).

(** [OwnedOp::new(io, work).await]. *)
Definition await {T} (w : OpWork T) : ioprog T :=
  r ← call (Await (w_entry w));
  mret (match io_refused r with
        | Some reason => w_fail w (failure_error reason)
        | None => w_complete w (io_bytes r) (io_res r)
        end).

(** A system call that returns a descriptor or an error. *)
Definition syscall (c : iocall) : ioprog (result IoError Z) :=
  r ← call c; mret (if io_res r <? 0 then Err (RawOs (- io_res r)) else Ok (io_res r)).

(** The kernel writes [written] at [at_] in the allocation; never outside it. *)
Definition mem_write {A} (at_ : nat) (written : list A) (m : list A) : list A :=
  take at_ m ++ take (length m - at_) written ++ drop (at_ + length written) m.

Lemma mem_write_length {A} at_ (w m : list A) :
  (at_ <= length m)%nat -> length (mem_write at_ w m) = length m.
Proof. intros H. unfold mem_write. rewrite !length_app, !length_take, length_drop. lia. Qed.

(** A write after a prefix extends it. *)
Lemma take_mem_write {A} at_ (w m : list A) :
  (at_ + length w <= length m)%nat -> take (at_ + length w) (mem_write at_ w m) = take at_ m ++ w.
Proof.
  intros H. unfold mem_write. rewrite (take_ge w) by lia.
  rewrite app_assoc. rewrite take_app_le by (rewrite length_app, length_take; lia).
  apply take_ge. rewrite length_app, length_take. lia.
Qed.

Definition too_large : IoError := Custom KInvalidInput "buffer is too large for io_uring".

(** What a completed operation into a buffer ([ReadWork], [RecvWork]) and out of one
    ([WriteWork], [SendWork]) returns. *)
Definition complete_fill {B} `{IoBufMut B} (oversized : string) (buf : B) (buffer_offset remaining : nat)
    (written : list Z) (result : Z) : Prelude.result IoError nat * B :=
  let buf := with_memory (mem_write buffer_offset (take remaining written) (memory buf)) buf in
  match io_result result with
  | Ok read =>
      if read <=? Z.of_nat remaining
      then (Ok (Z.to_nat read), set_init (Nat.max (bytes_init buf) (buffer_offset + Z.to_nat read)) buf)
      else (Err (Custom KInvalidData oversized), buf)
  | Err error => (Err error, buf)
  end.

Definition complete_drain {B} (oversized : string) (buf : B) (remaining : nat) (result : Z)
    : Prelude.result IoError nat * B :=
  match io_result result with
  | Ok written =>
      if written <=? Z.of_nat remaining then (Ok (Z.to_nat written), buf)
      else (Err (Custom KInvalidData oversized), buf)
  | Err error => (Err error, buf)
  end.

(** ** The transfer loop

    [while done < total { .. }] of [read_exact_at], [write_all_at], [recv_exact] and
    [send_all], with fuel: [step] is the operation awaited at an allocation offset,
    [zero] the error when it moves nothing. *)
Section Transfer.
Context {B : Type} (zero : IoError) (step : B -> nat -> ioprog (result IoError nat * B)).

Fixpoint transfer_loop (fuel : nat) (buf : B) (total done : nat) : ioprog (result IoError unit * B) :=
  if (done <? total)%nat then
    match fuel with
    | O => block "transfer loop"
    | S fuel =>
        x ← step buf done;
        match x with
        | (Ok O, buf) => mret (Err zero, buf)
        | (Ok count, buf) => transfer_loop fuel buf total (done + count)
        | (Err error, buf) => mret (Err error, buf)
        end
    end
  else mret (Ok tt, buf).

(** One iteration: it makes progress within the buffer, or ends the loop. *)
Definition step_post (total d : nat) (I : nat -> B -> iohistory -> Prop)
    (Q : result IoError unit * B -> iohistory -> Prop)
    (r : outcome (result IoError nat * B)) (_ : unit) (h : iohistory) : Prop :=
  match r with
  | Done (Ok O, b) => Q (Err zero, b) h
  | Done (Ok n, b) => (d + n <= total)%nat /\ I (d + n)%nat b h
  | Done (Err e, b) => Q (Err e, b) h
  | _ => False
  end.

(** With an invariant that each iteration keeps, the loop returns: [total] fuel is
    enough because every iteration that continues moves at least one byte. *)
Lemma transfer_loop_rule o total (I : nat -> B -> iohistory -> Prop) Q :
  (forall d b h, I d b h -> (d < total)%nat -> run_post (step b d) o tt h (step_post total d I Q)) ->
  (forall b h, I total b h -> Q (Ok tt, b) h) ->
  forall fuel d b h, I d b h -> (d <= total)%nat -> (total - d <= fuel)%nat ->
    run_post (transfer_loop fuel b total d) o tt h (fun r _ h' => exists x, r = Done x /\ Q x h').
Proof.
  intros Hstep Hend fuel. induction fuel as [|fuel IH]; intros d b h HI Hd Hf; cbn [transfer_loop].
  - destruct (Nat.ltb_spec d total) as [Hlt|Hge]; [lia|].
    replace d with total in HI by lia. apply run_post_ret. eauto.
  - destruct (Nat.ltb_spec d total) as [Hlt|Hge].
    + apply run_post_bind. eapply run_post_mono; [by apply Hstep|].
      intros [[[[|n]|e] b']|e|e|e] [] h' HQ; cbn [then_post step_post] in *; try done; try by eexists.
      destruct HQ as [Hle HI']. apply IH; [done|lia..].
    + replace d with total in HI by lia. apply run_post_ret. eauto.
Qed.
End Transfer.

(** ** What a transfer did

    The steps of a transfer are the newest part of the history. *)

(** The bytes a successful answer stands for. *)
Definition count (r : ioresp) : nat := match io_refused r with Some _ => 0 | None => Z.to_nat (io_res r) end.

Fixpoint moved (l : iohistory) : nat :=
  match l with [] => 0 | (_, r) :: l => moved l + count r end%nat.

(** The bytes the kernel delivered, in order. *)
Fixpoint delivered (l : iohistory) : list Z :=
  match l with [] => [] | (_, r) :: l => delivered l ++ take (count r) (io_bytes r) end.

(** The operations [l], made after [h], succeeded: each starts where the ones before it
    ended, and moved at least one byte and no more than there was room for. *)
Fixpoint in_order (o : iooracle) (h : iohistory) (entry : nat -> Entry) (total : nat) (l : iohistory) : Prop :=
  match l with
  | [] => True
  | (c, r) :: l =>
      c = Await (entry (moved l)) /\ r = o (l ++ h) c /\ io_refused r = None /\
      (0 < count r)%nat /\ (moved l + count r <= total)%nat /\ in_order o h entry total l
  end.

(** None of the operations [l] is one the code refuses to make. *)
Fixpoint allowed (local : nat -> option IoError) (l : iohistory) : Prop :=
  match l with [] => True | _ :: l => local (moved l) = None /\ allowed local l end.

(** Why an operation with [room] bytes left ended the transfer with [e]. *)
Definition failure (zero oversized : IoError) (room : nat) (r : ioresp) (e : IoError) : Prop :=
  match io_refused r with
  | Some reason => e = failure_error reason
  | None => io_res r < 0 /\ e = RawOs (- io_res r) \/ io_res r = 0 /\ e = zero \/
            Z.of_nat room < io_res r /\ e = oversized
  end.

(** The outcome of a transfer of [total] bytes: the operations follow each other
    without gap or overlap, and none was made where [local] refuses it; success moved
    all of it; an error moved a proper part, and is that of one last operation or was
    raised by [local] without a call.  [keeps] says what the buffer holds after the operations that succeeded. *)
Definition transferred {B} (o : iooracle) (entry : nat -> Entry) (local : nat -> option IoError) (zero oversized : IoError)
    (total : nat) (keeps : B -> iohistory -> Prop) (h : iohistory)
    (x : result IoError unit * B) (h' : iohistory) : Prop :=
  exists l, in_order o h entry total l /\ allowed local l /\ keeps x.2 l /\
    match x.1 with
    | Ok _ => h' = l ++ h /\ moved l = total
    | Err e => (moved l < total)%nat /\
        (h' = l ++ h /\ local (moved l) = Some e \/
         let c := Await (entry (moved l)) in
         h' = (c, o (l ++ h) c) :: l ++ h /\ local (moved l) = None /\
           failure zero oversized (total - moved l) (o (l ++ h) c) e)
    end.

(** One iteration as a function of the answer: refused locally, or the operation
    [entry d] was awaited and its answer converted. *)
Definition one_step {B} (step : B -> nat -> ioprog (result IoError nat * B)) (entry : nat -> Entry)
    (local : nat -> option IoError) (answer : B -> nat -> ioresp -> result IoError nat * B)
    (b : B) (d : nat) : Prop :=
  forall o h, step b d o tt h =
    match local d with
    | Some e => (Done (Err e, b), tt, h)
    | None => let a := o h (Await (entry d)) in (Done (answer b d a), tt, (Await (entry d), a) :: h)
    end.

(** The transfer loop returns, and did what [transferred] says, if every answer is
    converted as the direction of the transfer demands. *)
Lemma transfer_meaning {B} zero oversized (step : B -> nat -> ioprog (result IoError nat * B)) total entry
    local answer (keeps : B -> iohistory -> Prop) o b0 h :
  keeps b0 [] ->
  (forall b l, keeps b l -> one_step step entry local answer b (moved l)) ->
  (forall b l h0, keeps b l -> in_order o h entry total l -> (moved l < total)%nat -> local (moved l) = None -> h0 = l ++ h ->
    let a := o h0 (Await (entry (moved l))) in
    match answer b (moved l) a with
    | (Ok n, b') => io_refused a = None /\ n = count a /\ (moved l + n <= total)%nat /\
        (n = 0%nat -> io_res a = 0 /\ keeps b' l) /\ keeps b' ((Await (entry (moved l)), a) :: l)
    | (Err e, b') => failure zero oversized (total - moved l) a e /\ keeps b' l
    end) ->
  run_post (transfer_loop zero step total b0 total 0) o tt h (fun r _ h' =>
    exists x, r = Done x /\ transferred o entry local zero oversized total keeps h x h').
Proof.
  intros H0 Hstep Hans.
  apply (transfer_loop_rule zero step o total (fun d b h' => exists l, h' = l ++ h /\ in_order o h entry total l /\ allowed local l /\ moved l = d /\ keeps b l));
    [| |by exists []|lia..].
  - intros d b h' (l & -> & Ho & Ha & <- & Hk) Hlt. unfold run_post. rewrite (Hstep _ _ Hk).
    destruct (local (moved l)) as [e|] eqn:Hl.
    { cbn. exists l. cbn. eauto 10. }
    specialize (Hans b l (l ++ h) Hk Ho Hlt Hl eq_refl). cbn zeta in Hans |- *.
    set (a := o (l ++ h) (Await (entry (moved l)))) in *. unfold outcome_of, history_of, state_of. cbn.
    destruct (answer b (moved l) a) as [[[|n]|e] b']; cbn.
    + destruct Hans as (Hr & Hc & _ & Hz & _). destruct (Hz eq_refl) as [Hz' Hk']. exists l. cbn.
      do 4 (split; [done|]). right. do 2 (split; [done|]). unfold failure. fold a. rewrite Hr. by right; left.
    + destruct Hans as (Hr & Hc & Hle & _ & Hk'). split; [done|].
      exists ((Await (entry (moved l)), a) :: l). cbn. rewrite <- Hc. split_and!; [done..|lia|lia|done|done|done|done|done].
    + destruct Hans as [Hf Hk']. exists l. cbn. do 4 (split; [done|]). by right.
  - intros b h' (l & -> & Ho & Ha & Hm & Hk). exists l. by cbn.
Qed.

(** ** Buffers through a transfer *)

(** The documented meaning of a successful completion of a reading operation: as many
    bytes were written as it reports. *)
Definition delivers (o : iooracle) (e : Entry) : Prop :=
  forall h, let r := o h (Await e) in
  io_refused r = None -> 0 <= io_res r -> length (io_bytes r) = Z.to_nat (io_res r).

Section Keeps.
Context {B : Type} `{IoBufMutLaws B}.

(** The buffer [b], originally [b0], after operations [l] into it: the same allocation,
    the delivered bytes at its start, counted as initialized. *)
Definition filled (b0 b : B) (l : iohistory) : Prop :=
  stable_ptr b = stable_ptr b0 /\ length (memory b) = length (memory b0) /\ buf_wf b /\
  (moved l <= bytes_init b)%nat /\ length (delivered l) = moved l /\
  take (moved l) (memory b) = delivered l.

Lemma filled_nil b : buf_wf b -> filled b b [].
Proof. intros. by split_and!; cbn; [..|lia| |]. Qed.

(** [complete_fill] after the operation at the current position. *)
Lemma filled_answer b0 b l c a name :
  let d := moved l in let room := (length (memory b0) - d)%nat in
  filled b0 b l -> (d <= length (memory b0))%nat -> io_refused a = None ->
  (0 <= io_res a -> length (io_bytes a) = Z.to_nat (io_res a)) ->
  match complete_fill name b d room (io_bytes a) (io_res a) with
  | (Ok n, b') => n = count a /\ (d + n <= length (memory b0))%nat /\
      (n = 0%nat -> io_res a = 0 /\ filled b0 b' l) /\ filled b0 b' ((c, a) :: l)
  | (Err e, b') => (io_res a < 0 /\ e = RawOs (- io_res a) \/
      Z.of_nat room < io_res a /\ e = Custom KInvalidData name) /\ filled b0 b' l
  end.
Proof.
  intros d room (Hp & Hm & Hwf & Hi & Hdl & Ht) Hd Hr Hb. unfold complete_fill.
  set (w := take room (io_bytes a)).
  set (b1 := with_memory (mem_write d w (memory b)) b).
  assert (length (mem_write d w (memory b)) = length (memory b)) as Hlen
    by (apply mem_write_length; lia).
  assert (memory b1 = mem_write d w (memory b)) as Hm1 by by apply with_memory_memory.
  assert (stable_ptr b1 = stable_ptr b0) as Hp1 by (unfold b1; by rewrite with_memory_ptr).
  assert (bytes_init b1 = bytes_init b) as Hi1 by (unfold b1; by rewrite with_memory_init).
  assert (take d (memory b1) = delivered l) as Ht1.
  { rewrite Hm1. unfold mem_write. rewrite take_app_le by (rewrite length_take; lia).
    by rewrite take_take, Nat.min_id. }
  assert (buf_wf b1) as Hwf1 by (unfold buf_wf in *; congruence).
  assert (filled b0 b1 l) as Hf1 by (split_and!; [done|congruence|done|unfold d in *; lia|done|done]).
  unfold io_result. destruct (Z.ltb_spec (io_res a) 0) as [Hneg|Hpos]; [auto|].
  destruct (Z.leb_spec (io_res a) (Z.of_nat room)) as [Hle|Hgt]; [|auto].
  specialize (Hb Hpos). assert (count a = Z.to_nat (io_res a)) as Hc by (unfold count; by rewrite Hr).
  set (n := Z.to_nat (io_res a)) in *. set (b2 := set_init _ b1).
  assert (w = io_bytes a) as Hw by (apply take_ge; lia).
  assert (Nat.max (bytes_init b1) (d + n) <= bytes_total b1)%nat as Hcap
    by (rewrite total_is_memory; unfold buf_wf in Hwf1; rewrite Hm1, Hlen in *; lia).
  assert (Nat.max (bytes_init b1) (d + n) <= bytes_init b2)%nat as Hi2 by by apply set_init_covers.
  assert (stable_ptr b2 = stable_ptr b0) as Hp2 by (unfold b2; by rewrite set_init_ptr).
  assert (memory b2 = memory b1) as Hm2 by by apply set_init_memory.
  assert (length (memory b2) = length (memory b0)) as Hl2 by (rewrite Hm2, Hm1; congruence).
  assert (buf_wf b2) as Hwf2 by by apply set_init_wf.
  split_and!; [done|lia| |].
  - intros Hn. split; [lia|]. split_and!; [done..|unfold d in *; lia|done|by rewrite Hm2].
  - split_and!; [done..|cbn; unfold d in *; lia| |]; cbn [moved delivered].
    + rewrite length_app, length_take, Hc, Hdl, Hb. fold n. lia.
    + rewrite Hm2, Hm1, Hc, Hw. fold d. fold n.
      replace (d + n)%nat with (d + length (io_bytes a))%nat by lia.
      rewrite take_mem_write by lia. rewrite (take_ge (io_bytes a)) by lia. by f_equal.
Qed.
End Keeps.

(** [complete_drain] at the current position. *)
Lemma drain_answer {B} (b : B) room a name :
  io_refused a = None ->
  match complete_drain name b room (io_res a) with
  | (Ok n, b') => n = count a /\ (n <= room)%nat /\ (n = 0%nat -> io_res a = 0) /\ b' = b
  | (Err e, b') => (io_res a < 0 /\ e = RawOs (- io_res a) \/
      Z.of_nat room < io_res a /\ e = Custom KInvalidData name) /\ b' = b
  end.
Proof.
  intros Hr. unfold complete_drain, io_result, count. rewrite Hr.
  destruct (Z.ltb_spec (io_res a) 0); [auto|].
  destruct (Z.leb_spec (io_res a) (Z.of_nat room)); [|auto]. split_and!; lia || done.
Qed.

(** ** Transfers into and out of a buffer *)

Lemma wrap_u32_small n : (Z.of_nat n >? u32_max) = false -> wrap_u32 (Z.of_nat n) = Z.of_nat n.
Proof. intros H. unfold wrap_u32, u32_max in *. apply Z.mod_small. lia. Qed.

Definition fill_result {B} `{IoBufMut B} (name : string) (capacity : nat) (b : B) (d : nat) (a : ioresp)
    : Prelude.result IoError nat * B :=
  match io_refused a with
  | Some reason => (Err (failure_error reason), b)
  | None => complete_fill name b d (capacity - d) (io_bytes a) (io_res a)
  end.

Definition drain_result {B} (name : string) (len : nat) (b : B) (d : nat) (a : ioresp)
    : Prelude.result IoError nat * B :=
  match io_refused a with
  | Some reason => (Err (failure_error reason), b)
  | None => complete_drain name b (len - d) (io_res a)
  end.

Lemma fill_transfer {B} `{IoBufMutLaws B} zero name step entry local o (b0 : B) h :
  buf_wf b0 ->
  (forall b l, filled b0 b l -> one_step step entry local (fill_result name (bytes_total b0)) b (moved l)) ->
  (forall d, (d < bytes_total b0)%nat -> local d = None -> delivers o (entry d)) ->
  run_post (transfer_loop zero step (bytes_total b0) b0 (bytes_total b0) 0) o tt h (fun r _ h' =>
    exists x, r = Done x /\
      transferred o entry local zero (Custom KInvalidData name) (bytes_total b0) (filled b0) h x h').
Proof.
  intros Hwf Hstep Hdel. rewrite total_is_memory in *.
  apply (transfer_meaning _ _ _ _ _ _ (fill_result name (length (memory b0)))); [by apply filled_nil|done|].
  intros b' l h0 Hk Ho Hlt Hl -> a. unfold fill_result, failure. destruct (io_refused a) as [e|] eqn:Hr; [done|].
  pose proof (filled_answer b0 b' l (Await (entry (moved l))) a name Hk ltac:(lia) Hr (Hdel _ Hlt Hl (l ++ h) Hr)) as Ha.
  destruct (complete_fill _ _ _ _ _ _) as [[n|e] b'']; [tauto|]. destruct Ha as [Ha Hk']. split; [tauto|done].
Qed.

Lemma drain_transfer {B} zero name step entry local o (b0 : B) len h :
  (forall d, one_step step entry local (drain_result name len) b0 d) ->
  run_post (transfer_loop zero step len b0 len 0) o tt h (fun r _ h' => exists x, r = Done x /\
    transferred o entry local zero (Custom KInvalidData name) len (fun b _ => b = b0) h x h').
Proof.
  intros Hstep. apply (transfer_meaning _ _ _ _ _ _ (drain_result name len)); [done|by intros ? l ->|].
  intros ? l h0 -> Ho Hlt _ -> a. unfold drain_result, failure. destruct (io_refused a) as [e|] eqn:Hr; [done|].
  pose proof (drain_answer b0 (len - moved l) a name Hr) as Ha.
  destruct (complete_drain _ _ _ _) as [[n|e] b''].
  - destruct Ha as (-> & Hle & Hz & ->). split_and!; [done..|lia|auto|done].
  - destruct Ha as [Ha ->]. split; [tauto|done].
Qed.
