(* ===== verification/OwnedSpec.v ===== *)
(** * OwnedSpec: the awaited operation is the driver's

    [OwnedIo] takes the life of an [OwnedOp] as one call.  Here is what [RingFutures] and
    [RingOps] make of the same operation, from its first poll to its result. *)

From Stdlib Require Import ZArith Lia.
From stdpp Require Import base list strings gmap.
From S2P Require Import Prelude Errors Ffi Ring RingOps RingFutures OwnedIo.

Open Scope Z_scope.

(** What [await] returns for an answer. *)
Definition answered {T} (w : OpWork T) (a : ioresp) : T :=
  match io_refused a with
  | Some reason => w_fail w (failure_error reason)
  | None => w_complete w (io_bytes a) (io_res a)
  end.

Lemma await_answered {T} (w : OpWork T) o h :
  await w o tt h = (Done (answered w (o h (Await (w_entry w)))), tt, (Await (w_entry w), o h (Await (w_entry w))) :: h).
Proof. reflexivity. Qed.

Section Refined.
Context `{U : Uring} {T : Type} (build : Entry -> sqe) (ctl : OpId) (written : list Z) (w : OpWork T).
Notation ring := (Ring T).
Notation hd := (typed_handler build ctl written w).
Implicit Types (o : oracle ucall uresp) (s : ring) (h : history ucall uresp).

(** The operation after its handler went to the driver, and after its result was taken. *)
Definition queued_op : OwnedOp T := mkOwnedOp ctl None true false.
Definition done_op : OwnedOp T := mkOwnedOp ctl None true true.

(** The control block holds nothing yet. *)
Definition waiting s (slot : option Waker) : Prop :=
  exists cancelled, controls s !! ctl = Some (mkControl cancelled false slot None).

(** The control block holds the value. *)
Definition stored s (v : T) : Prop :=
  exists cancelled slot, controls s !! ctl = Some (mkControl cancelled true slot (Some v)).

Lemma poll_waiting open cx o s h slot :
  waiting s slot ->
  exists s', owned_poll open cx queued_op o s h = (Done (None, queued_op), s', h) /\
    waiting s' (replace_waker slot cx) /\ data s' = data s.
Proof.
  intros [c Hc]. eexists. split; [|split].
  - unfold owned_poll, owned_submit, owned_take, owned_register. cbn [oo_done queued_op oo_queued oo_control].
    run_unfold. rewrite Hc. cbn. rewrite lookup_alter_eq, Hc. cbn. reflexivity.
  - exists c. cbn. by rewrite lookup_alter_eq, Hc.
  - done.
Qed.

Lemma poll_stored open cx o s h v :
  stored s v -> exists s', owned_poll open cx queued_op o s h = (Done (Some v, done_op), s', h).
Proof.
  intros (c & slot & Hc). eexists. unfold owned_poll, owned_submit, owned_take, owned_register.
  cbn [oo_done queued_op oo_queued oo_control]. run_unfold. rewrite Hc. cbn. reflexivity.
Qed.

Lemma finish_stored o s h slot v :
  waiting s slot -> exists s', finish_handler hd v o s h = (Done (opt_list slot), s', h) /\ stored s' v.
Proof.
  intros [c Hc]. eexists. unfold finish_handler. run_unfold. cbn. rewrite Hc. split; [reflexivity|].
  do 2 eexists. cbn. apply lookup_insert_eq.
Qed.

(** The result reaches the control block by the CQE of the operation, or by a refusal. *)
Lemma dispatch_stored o s h slot p ctx c :
  waiting s slot -> owned_contexts (data s) !! p = Some ctx -> o_phase ctx = Submitted -> handler ctx = Some hd ->
  cqe_user_data c = p -> p <> 0 -> cqe_more c = false ->
  exists s', dispatch_owned c o s h = (Done (opt_list slot), s', h) /\ stored s' (w_complete w written (cqe_result c)).
Proof.
  intros Hw Hctx Hph Hhd Hp Hp0 Hmore. unfold dispatch_owned.
  rewrite (proj2 (Z.eqb_neq _ _)) by congruence. rewrite Hmore, Hp. run_unfold. rewrite Hctx, Hph, Hhd. cbn.
  destruct (o_cancel_queued ctx && _); by apply finish_stored.
Qed.

Lemma fail_stored o s h slot reason :
  waiting s slot ->
  exists s', fail_owned [(hd, reason)] o s h = (Done (opt_list slot), s', h) /\ stored s' (w_fail w (failure_error reason)).
Proof.
  intros Hw. destruct (finish_stored o s h slot (w_fail w (failure_error reason)) Hw) as (s' & Hf & Hs).
  exists s'. split; [|done]. cbn [fail_owned]. unfold typed_handler in *. cbn [h_fail] in *. run_unfold.
  rewrite Hf. by rewrite app_nil_r.
Qed.

(** C12. One [await] is the life of its operation in the driver.  Once the handler is
    queued a poll is pending and leaves the waker; the terminal CQE of the submitted
    context, or the driver's refusal for any reason, stores the result and hands out
    exactly that waker; the next poll is ready, once, with the value [await] returns for
    that answer.  If the runtime is closed at the first poll, that poll is ready with the
    value of a closed refusal. *)
Theorem await_refined open cx o s h slot (io : iooracle) ih :
  waiting s slot ->
  let answer r := io ih (Await (w_entry w)) = r in
  let returns v := outcome_of (await w io tt ih) = Done v in
  (exists s1, owned_poll open cx queued_op o s h = (Done (None, queued_op), s1, h) /\ data s1 = data s /\
    (forall p ctx c, owned_contexts (data s) !! p = Some ctx -> o_phase ctx = Submitted -> handler ctx = Some hd ->
       cqe_user_data c = p -> p <> 0 -> cqe_more c = false ->
       answer (mkIoResp false (cqe_result c) written None None) ->
       exists s2 s3 v, dispatch_owned c o s1 h = (Done (opt_list (replace_waker slot cx)), s2, h) /\
         owned_poll open cx queued_op o s2 h = (Done (Some v, done_op), s3, h) /\ returns v) /\
    (forall reason res bytes, answer (mkIoResp false res bytes None (Some reason)) ->
       exists s2 s3 v, fail_owned [(hd, reason)] o s1 h = (Done (opt_list (replace_waker slot cx)), s2, h) /\
         owned_poll open cx queued_op o s2 h = (Done (Some v, done_op), s3, h) /\ returns v)) /\
  (forall res bytes, answer (mkIoResp false res bytes None (Some FClosed)) ->
     exists s1 v, owned_poll false cx (mkOwnedOp ctl (Some hd) false false) o s h =
       (Done (Some v, mkOwnedOp ctl None false true), s1, h) /\ returns v).
Proof.
  intros Hw answer returns. split.
  - destruct (poll_waiting open cx o s h slot Hw) as (s1 & H1 & Hw1 & Hd). exists s1.
    split; [done|]. split; [done|]. rewrite <- Hd. split.
    + intros p ctx c Hctx Hph Hhd Hp Hp0 Hmore Ha.
      destruct (dispatch_stored o s1 h _ p ctx c Hw1 Hctx Hph Hhd Hp Hp0 Hmore) as (s2 & H2 & Hs2).
      destruct (poll_stored open cx o s2 h _ Hs2) as [s3 H3]. do 3 eexists. split; [exact H2|]. split; [exact H3|].
      unfold returns. rewrite await_answered, Ha. reflexivity.
    + intros reason res bytes Ha. destruct (fail_stored o s1 h _ reason Hw1) as (s2 & H2 & Hs2).
      destruct (poll_stored open cx o s2 h _ Hs2) as [s3 H3]. do 3 eexists. split; [exact H2|]. split; [exact H3|].
      unfold returns. rewrite await_answered, Ha. reflexivity.
  - intros res bytes Ha. destruct Hw as [c Hc]. do 2 eexists. split.
    + unfold owned_poll, owned_submit, owned_take, finish_handler, typed_handler.
      cbn [oo_done oo_queued oo_handler oo_control negb h_control h_fail]. run_unfold. rewrite Hc. cbn.
      rewrite lookup_insert_eq. cbn. reflexivity.
    + unfold returns. rewrite await_answered, Ha. reflexivity.
Qed.
End Refined.

Module OwnedWitness.

#[local] Instance uring : Uring := {|
  sqe := Z; cqe := Z * bool * Z;
  sqe_user_data e := e; sqe_set_user_data u _ := u; async_cancel t := t;
  cqe_user_data c := c.1.1; cqe_set_user_data u c := (u, c.1.2, c.2);
  cqe_flags c := if c.1.2 then 2 else 0; cqe_more c := c.1.2; cqe_result c := c.2 |}.

(** A poll for readability, submitted under the address 64. *)
Definition work : OpWork (result IoError Z) := mkWork 6 (EPollAdd 4 1) (fun _ r => Ok r) Err.
Definition build : Entry -> sqe := fun _ => (0 : Z).
Definition operation : OwnedHandler (result IoError Z) := typed_handler build 5%N [] work.

Definition submitted : Ring (result IoError Z) :=
  mkRing (mkData ∅ [] [] {[ 64 := mkOwned Submitted 5%N (Some operation) false false ]} ∅ [] [] [] true false)
    ∅ ∅ {[ 5%N := mkControl false false None None ]} [] true [] [] [] true.

Definition idle : oracle ucall uresp := fun _ _ => UResp true 0.

Lemma await_refined_witness :
  exists s1 s2 s3 v, owned_poll true 9%N (queued_op 5%N) idle submitted [] = (Done (None, queued_op 5%N), s1, []) /\
    dispatch_owned (64, false, 1) idle s1 [] = (Done [9%N], s2, []) /\
    owned_poll true 9%N (queued_op 5%N) idle s2 [] = (Done (Some v, done_op 5%N), s3, []) /\
    outcome_of (await work (fun _ _ => mkIoResp false 1 [] None None) tt []) = Done v.
Proof.
  destruct (await_refined build 5%N [] work true 9%N idle submitted [] None
    (fun _ _ => mkIoResp false 1 [] None None) [] ltac:(by exists false)) as [(s1 & H1 & _ & Hd & _) _].
  destruct (Hd 64 (mkOwned Submitted 5%N (Some operation) false false) (64, false, 1)) as (s2 & s3 & v & H2 & H3 & H4);
    [done..|]. exists s1, s2, s3, v. done.
Defined.
End OwnedWitness.
