(* ===== verification/Fs.v ===== *)
(** * Fs: positioned file I/O ([src/src/fs.rs])

    [OpenOptions] and its flags, the work items, and the operations of [File], each
    as the sequence of operations it awaits. *)

From Stdlib Require Import ZArith Lia.
From stdpp Require Import base list strings sets.
From S2P Require Import Prelude Errors Ring RingOps RingFutures OwnedIo.

Open Scope Z_scope.

(** ** [OpenOptions] *)

(** The constants of the C library. *)
Class OpenFlags : Type := {
  O_RDONLY : Z; O_WRONLY : Z; O_RDWR : Z; O_ACCMODE : Z;
  O_CLOEXEC : Z; O_APPEND : Z; O_TRUNC : Z; O_CREAT : Z; O_EXCL : Z
}.

(** Their documented layout: each flag is one bit, no two share it, and the access
    mode is a field of its own. *)
Class OpenFlagsLaws `{OpenFlags} : Prop := {
  flag_bits : Forall (fun a => exists n, 0 <= n /\ a = 2 ^ n) [O_CLOEXEC; O_APPEND; O_TRUNC; O_CREAT; O_EXCL];
  flags_distinct : NoDup [O_CLOEXEC; O_APPEND; O_TRUNC; O_CREAT; O_EXCL];
  flags_not_access : Forall (fun a => Z.land a O_ACCMODE = 0) [O_CLOEXEC; O_APPEND; O_TRUNC; O_CREAT; O_EXCL];
  access_modes : Forall (fun m => Z.land m O_ACCMODE = m) [O_RDONLY; O_WRONLY; O_RDWR];
  access_distinct : NoDup [O_RDONLY; O_WRONLY; O_RDWR]
}.

Record OpenOptions : Type := mkOptions {
  o_read : bool; o_write : bool; o_append : bool; o_truncate : bool; o_create : bool;
  o_create_new : bool; o_mode : Z; o_custom_flags : Z
}.

Definition options_new : OpenOptions := mkOptions false false false false false false 438 0.

Definition set_read b o := mkOptions b (o_write o) (o_append o) (o_truncate o) (o_create o) (o_create_new o) (o_mode o) (o_custom_flags o).
Definition set_write b o := mkOptions (o_read o) b (o_append o) (o_truncate o) (o_create o) (o_create_new o) (o_mode o) (o_custom_flags o).
Definition set_append b o := mkOptions (o_read o) (o_write o) b (o_truncate o) (o_create o) (o_create_new o) (o_mode o) (o_custom_flags o).
Definition set_truncate b o := mkOptions (o_read o) (o_write o) (o_append o) b (o_create o) (o_create_new o) (o_mode o) (o_custom_flags o).
Definition set_create b o := mkOptions (o_read o) (o_write o) (o_append o) (o_truncate o) b (o_create_new o) (o_mode o) (o_custom_flags o).
Definition set_create_new b o := mkOptions (o_read o) (o_write o) (o_append o) (o_truncate o) (o_create o) b (o_mode o) (o_custom_flags o).
Definition set_mode m o := mkOptions (o_read o) (o_write o) (o_append o) (o_truncate o) (o_create o) (o_create_new o) m (o_custom_flags o).
Definition set_custom_flags f o := mkOptions (o_read o) (o_write o) (o_append o) (o_truncate o) (o_create o) (o_create_new o) (o_mode o) f.

Definition access_required : IoError := Custom KInvalidInput "an access mode is required".
Definition write_required : IoError :=
  Custom KInvalidInput "truncate and create options require write or append access".

Section Flags.
Context `{flags : OpenFlags}.

(** [OpenOptions::flags]. *)
Definition open_flags (o : OpenOptions) : result IoError (Z * Z) :=
  if negb (o_read o) && negb (o_write o) && negb (o_append o) then Err access_required else
  if (o_truncate o || o_create o || o_create_new o) && negb (o_write o) && negb (o_append o)
  then Err write_required else
  let access := match o_read o, o_write o || o_append o with
                | true, true => O_RDWR
                | true, false => O_RDONLY
                | false, _ => O_WRONLY
                end in
  let fl := Z.lor access O_CLOEXEC in
  let fl := if o_append o then Z.lor fl O_APPEND else fl in
  let fl := if o_truncate o && negb (o_create_new o) then Z.lor fl O_TRUNC else fl in
  let fl := if o_create o || o_create_new o then Z.lor fl O_CREAT else fl in
  let fl := if o_create_new o then Z.lor fl O_EXCL else fl in
  let fl := Z.lor fl (Z.land (o_custom_flags o) (Z.lnot O_ACCMODE)) in
  Ok (fl, o_mode o).
End Flags.

(** ** Files *)

Record File : Type := mkFile { f_fd : Z; f_append : bool }.

Section Fs.
Context `{flags : OpenFlags} `{ops : OpCodes}.

(** [OpenWork]. *)
Definition open_work (path : list Z) (fl mode : Z) : OpWork (result IoError Z) :=
  mkWork OPENAT (EOpenAt path fl mode)
    (fun _ result => if result <? 0 then Err (RawOs (- result)) else Ok result) Err.

(** [OpenOptions::open_on]; the path is its bytes, [0] the interior NUL. *)
Definition open_on (o : OpenOptions) (path : list Z) : ioprog (result IoError File) :=
  let? x := mret (open_flags o) in
  if bool_decide (0 ∈ path)
  then mret (Err (Custom KInvalidInput "file path contains an interior NUL byte")) else
  let? fd := await (open_work path (fst x) (snd x)) in
  mret (Ok (mkFile fd (o_append o))).

(** [OpenOptions::open]: on the current runtime, if there is one. *)
Definition open_current (current : bool) (o : OpenOptions) (path : list Z) : ioprog (result IoError File) :=
  if current then open_on o path else mret (Err runtime_closed_error).

Definition file_open_on : list Z -> ioprog (result IoError File) := open_on (set_read true options_new).
Definition file_create_on : list Z -> ioprog (result IoError File) :=
  open_on (set_truncate true (set_create true (set_write true options_new))).
Definition file_create_new_on : list Z -> ioprog (result IoError File) :=
  open_on (set_create_new true (set_write true options_new)).

(** [File::open], [File::create] and [File::create_new]. *)
Definition file_open (current : bool) (path : list Z) : ioprog (result IoError File) :=
  if current then file_open_on path else mret (Err runtime_closed_error).
Definition file_create (current : bool) (path : list Z) : ioprog (result IoError File) :=
  if current then file_create_on path else mret (Err runtime_closed_error).
Definition file_create_new (current : bool) (path : list Z) : ioprog (result IoError File) :=
  if current then file_create_new_on path else mret (Err runtime_closed_error).

(** [SyncWork]. *)
Definition sync_work (f : File) (data_only : bool) : OpWork (result IoError unit) :=
  mkWork FSYNC (EFsync (f_fd f) data_only)
    (fun _ result => result_map (fun _ => tt) (io_result result)) Err.

Definition sync_all (f : File) : ioprog (result IoError unit) := await (sync_work f false).
Definition sync_data (f : File) : ioprog (result IoError unit) := await (sync_work f true).

Definition offset_overflow : IoError := Custom KInvalidInput "file offset overflow".
Definition unfilled : IoError := Custom KUnexpectedEof "failed to fill whole buffer".
Definition unwritten : IoError := Custom KWriteZero "failed to write buffer".

Section Read.
Context {B : Type} `{IoBufMut B}.

(** [ReadWork]. *)
Definition read_work (f : File) (buf : B) (file_offset : Z) (buffer_offset remaining : nat)
    : OpWork (result IoError nat * B) :=
  mkWork READ
    (ERead (f_fd f) (stable_mut_ptr buf + Z.of_nat buffer_offset) (wrap_u32 (Z.of_nat remaining)) file_offset)
    (fun written result =>
      complete_fill "kernel returned an oversized read" buf buffer_offset remaining written result)
    (fun error => (Err error, buf)).

Definition read_at_offset (f : File) (buf : B) (file_offset : Z) (buffer_offset : nat)
    : ioprog (result IoError nat * B) :=
  let remaining := (bytes_total buf - buffer_offset)%nat in
  if Z.of_nat remaining >? u32_max then mret (Err too_large, buf) else
  await (read_work f buf file_offset buffer_offset remaining).

Definition read_at (f : File) (buf : B) (offset : Z) : ioprog (result IoError nat * B) :=
  read_at_offset f buf offset 0.

Definition read_exact_step (f : File) (offset : Z) (buf : B) (filled : nat) : ioprog (result IoError nat * B) :=
  match checked_add_u64 offset (Z.of_nat filled) with
  | None => mret (Err offset_overflow, buf)
  | Some file_offset => read_at_offset f buf file_offset filled
  end.

Definition read_exact_at (f : File) (buf : B) (offset : Z) : ioprog (result IoError unit * B) :=
  let total := bytes_total buf in
  transfer_loop unfilled (read_exact_step f offset) total buf total 0.
End Read.

Section Write.
Context {B : Type} `{IoBuf B}.

(** [WriteWork]. *)
Definition write_work (f : File) (buf : B) (file_offset : Z) (buffer_offset remaining : nat)
    : OpWork (result IoError nat * B) :=
  mkWork WRITE
    (EWrite (f_fd f) (stable_ptr buf + Z.of_nat buffer_offset) (wrap_u32 (Z.of_nat remaining)) file_offset
       (take remaining (drop buffer_offset (memory buf))))
    (fun _ result => complete_drain "kernel returned an oversized write" buf remaining result)
    (fun error => (Err error, buf)).

Definition write_at_offset (f : File) (buf : B) (file_offset : Z) (buffer_offset : nat)
    : ioprog (result IoError nat * B) :=
  let remaining := (bytes_init buf - buffer_offset)%nat in
  if Z.of_nat remaining >? u32_max then mret (Err too_large, buf) else
  await (write_work f buf file_offset buffer_offset remaining).

Definition append_refused : IoError :=
  Custom KInvalidInput "positioned writes are not allowed on append-mode files".

Definition file_write_at (f : File) (buf : B) (offset : Z) : ioprog (result IoError nat * B) :=
  if f_append f then mret (Err append_refused, buf) else write_at_offset f buf offset 0.

Definition write_all_step (f : File) (offset : Z) (buf : B) (written : nat) : ioprog (result IoError nat * B) :=
  match checked_add_u64 offset (Z.of_nat written) with
  | None => mret (Err offset_overflow, buf)
  | Some file_offset => write_at_offset f buf file_offset written
  end.

Definition write_all_at (f : File) (buf : B) (offset : Z) : ioprog (result IoError unit * B) :=
  if f_append f then mret (Err append_refused, buf) else
  let total := bytes_init buf in
  transfer_loop unwritten (write_all_step f offset) total buf total 0.

Definition file_append (f : File) (buf : B) : ioprog (result IoError nat * B) :=
  if negb (f_append f)
  then mret (Err (Custom KInvalidInput "append requires a file opened in append mode"), buf)
  else write_at_offset f buf u64_max 0.
End Write.
End Fs.

(** ** The exact transfers *)

(** What the loops refuse without a call. *)
Definition local_refusal (offset : Z) (total d : nat) : option IoError :=
  if offset + Z.of_nat d >? u64_max then Some offset_overflow
  else if Z.of_nat (total - d) >? u32_max then Some too_large else None.

Definition read_entry (f : File) (pointer offset : Z) (total d : nat) : Entry :=
  ERead (f_fd f) (pointer + Z.of_nat d) (Z.of_nat (total - d)) (offset + Z.of_nat d).

Definition write_entry (f : File) (pointer offset : Z) (bytes : list Z) (d : nat) : Entry :=
  EWrite (f_fd f) (pointer + Z.of_nat d) (Z.of_nat (length bytes - d)) (offset + Z.of_nat d) (drop d bytes).

Definition oversized_read : IoError := Custom KInvalidData "kernel returned an oversized read".
Definition oversized_write : IoError := Custom KInvalidData "kernel returned an oversized write".

Lemma read_one_step `{OpCodes} {B} `{IoBufMutLaws B} f offset (b0 b : B) l :
  filled b0 b l ->
  one_step (read_exact_step f offset) (read_entry f (stable_ptr b0) offset (bytes_total b0))
    (local_refusal offset (bytes_total b0))
    (fill_result "kernel returned an oversized read" (bytes_total b0)) b (moved l).
Proof.
  intros (Hp & Hm & _) o h. unfold read_exact_step, local_refusal, checked_add_u64, read_at_offset.
  rewrite Z.leb_antisym, <- Z.gtb_ltb. rewrite !total_is_memory, Hm.
  destruct (offset + _ >? u64_max); cbn [negb]; [done|].
  destruct (Z.of_nat _ >? u32_max) eqn:Hs; [done|].
  unfold await, read_work, read_entry. run_unfold.
  rewrite (wrap_u32_small _ Hs), mut_ptr_same, Hp. unfold fill_result.
  by destruct (io_refused _).
Qed.

Lemma read_transfers `{OpCodes} {B} `{IoBufMutLaws B} f (b : B) offset o h :
  buf_wf b -> (forall d, (d < bytes_total b)%nat ->
    local_refusal offset (bytes_total b) d = None ->
    delivers o (read_entry f (stable_ptr b) offset (bytes_total b) d)) ->
  run_post (read_exact_at f b offset) o tt h (fun r _ h' => exists x, r = Done x /\
    transferred o (read_entry f (stable_ptr b) offset (bytes_total b)) (local_refusal offset (bytes_total b))
      unfilled oversized_read (bytes_total b) (filled b) h x h').
Proof.
  intros Hwf Hdel. apply fill_transfer; [done| |done]. intros. by apply read_one_step.
Qed.

Lemma write_one_step `{OpCodes} {B} `{IoBuf B} f offset (b : B) d :
  buf_wf b ->
  one_step (write_all_step f offset)
    (write_entry f (stable_ptr b) offset (take (bytes_init b) (memory b)))
    (local_refusal offset (bytes_init b))
    (drain_result "kernel returned an oversized write" (bytes_init b)) b d.
Proof.
  intros Hwf o h. unfold write_all_step, local_refusal, checked_add_u64, write_at_offset.
  rewrite Z.leb_antisym, <- Z.gtb_ltb.
  destruct (offset + _ >? u64_max); cbn [negb]; [done|].
  destruct (Z.of_nat _ >? u32_max) eqn:Hs; [done|].
  unfold await, write_work, write_entry. run_unfold.
  rewrite (wrap_u32_small _ Hs), length_take, (Nat.min_l _ _ Hwf), skipn_firstn_comm. unfold drain_result.
  by destruct (io_refused _).
Qed.

Lemma write_transfers `{OpCodes} {B} `{IoBuf B} f (b : B) offset o h :
  buf_wf b ->
  run_post (write_all_at f b offset) o tt h (fun r _ h' => exists x, r = Done x /\
    if f_append f then x = (Err append_refused, b) /\ h' = h else
    transferred o (write_entry f (stable_ptr b) offset (take (bytes_init b) (memory b)))
      (local_refusal offset (bytes_init b)) unwritten oversized_write (bytes_init b)
      (fun b' _ => b' = b) h x h').
Proof.
  intros Hwf. unfold write_all_at. destruct (f_append f); [by eexists|].
  apply drain_transfer. intros. by apply write_one_step.
Qed.

(** ** The file behind the descriptor *)

(** Writing [bytes] at [at_]: a gap reads as zeros, an empty write does nothing. *)
Definition overwrite (at_ : nat) (bytes content : list Z) : list Z :=
  match bytes with
  | [] => content
  | _ => take at_ (content ++ replicate (at_ - length content) 0) ++ bytes ++ drop (at_ + length bytes) content
  end.

(** The documented behaviour of positioned reads and writes on a regular file that
    nobody else writes: [contents] is its content after a history. *)
Record file_contract (fd : Z) (o : iooracle) (contents : iohistory -> list Z) : Prop := {
  contract_write h pointer len offset bytes :
    0 <= offset < u64_max ->
    let c := Await (EWrite fd pointer len offset bytes) in
    contents ((c, o h c) :: h) = overwrite (Z.to_nat offset) (take (count (o h c)) bytes) (contents h);
  contract_read h pointer len offset :
    0 <= offset < u64_max ->
    let c := Await (ERead fd pointer len offset) in
    let rest := drop (Z.to_nat offset) (contents h) in
    contents ((c, o h c) :: h) = contents h /\
    (io_refused (o h c) = None -> 0 <= io_res (o h c) ->
      io_bytes (o h c) = take (count (o h c)) rest /\ (count (o h c) <= length rest)%nat /\
      (io_res (o h c) = 0 -> 0 < len -> rest = []));
  (* offset -1 is the current position, about which nothing else is said *)
  contract_cursor pointer len : delivers o (ERead fd pointer len u64_max)
}.

Lemma overwrite_length at_ bytes content :
  bytes <> [] -> length (overwrite at_ bytes content) = Nat.max (length content) (at_ + length bytes).
Proof.
  intros Hne. unfold overwrite. destruct bytes as [|x bytes']; [done|].
  rewrite !length_app, length_take, length_app, length_replicate, length_drop. lia.
Qed.

Lemma overwrite_nonempty at_ bytes content :
  bytes <> [] ->
  overwrite at_ bytes content =
    take at_ (content ++ replicate (at_ - length content) 0) ++ bytes ++ drop (at_ + length bytes) content.
Proof. by destruct bytes. Qed.

(** The padded prefix has the length of the offset. *)
Lemma prefix_length at_ (content : list Z) :
  length (take at_ (content ++ replicate (at_ - length content) 0)) = at_.
Proof. rewrite length_take, length_app, length_replicate. lia. Qed.

(** Reading back what was written. *)
Lemma take_drop_overwrite at_ bytes content :
  take (length bytes) (drop at_ (overwrite at_ bytes content)) = bytes.
Proof.
  destruct (decide (bytes = [])) as [->|Hne]; [done|]. rewrite overwrite_nonempty by done.
  rewrite drop_app_length' by (symmetry; apply prefix_length). by apply take_app_length'.
Qed.

(** Consecutive writes are one write. *)
Lemma overwrite_app at_ a b content :
  overwrite (at_ + length a) b (overwrite at_ a content) = overwrite at_ (a ++ b) content.
Proof.
  destruct (decide (a = [])) as [->|Ha]; [by rewrite Nat.add_0_r|].
  destruct (decide (b = [])) as [->|Hb]; [by rewrite app_nil_r|].
  rewrite (overwrite_nonempty _ b), (overwrite_nonempty _ a), (overwrite_nonempty _ (a ++ b))
    by (done || by destruct a).
  set (p := take at_ _). assert (length p = at_) as Hp by apply prefix_length.
  assert (length (p ++ a) = at_ + length a)%nat as Hq by (rewrite length_app; lia).
  set (n := (at_ + length a)%nat) in *. rewrite !(app_assoc p a).
  rewrite <- (app_assoc (p ++ a)), take_app_length' by done.
  rewrite (drop_app_ge _ _ (n + length b)) by lia. rewrite drop_drop, Hq, length_app, <- !app_assoc.
  do 4 f_equal. lia.
Qed.

(** The file after the operations of a transfer. *)
Section Contents.
Context (fd : Z) (o : iooracle) (contents : iohistory -> list Z) (HC : file_contract fd o contents).
Context (f : File) (pointer offset : Z) (Hfd : f_fd f = fd) (Hoff : 0 <= offset).

Lemma contents_after_writes (data : list Z) h l :
  offset + Z.of_nat (length data) <= u64_max ->
  in_order o h (write_entry f pointer offset data) (length data) l ->
  contents (l ++ h) = overwrite (Z.to_nat offset) (take (moved l) data) (contents h).
Proof.
  intros Hmax. induction l as [|[c r] l IH]; [done|]. intros (-> & Hr & Hnr & Hpos & Hle & Ho).
  cbn [moved app]. unfold write_entry in *. rewrite Hr, Hfd. rewrite (contract_write _ _ _ HC) by lia.
  rewrite IH, <- Hfd, <- Hr by done.
  replace (Z.to_nat (offset + Z.of_nat (moved l))) with (Z.to_nat offset + moved l)%nat by lia.
  rewrite <- (length_take_le data (moved l)) at 1 by lia. rewrite overwrite_app. f_equal.
  by rewrite <- take_take_drop.
Qed.

Lemma contents_after_reads total h l :
  offset + Z.of_nat total <= u64_max ->
  in_order o h (read_entry f pointer offset total) total l ->
  contents (l ++ h) = contents h /\ delivered l = take (moved l) (drop (Z.to_nat offset) (contents h)).
Proof.
  intros Hmax. induction l as [|[c r] l IH]; [done|]. intros (-> & Hr & Hnr & Hpos & Hle & Ho).
  destruct (IH Ho) as [IHc IHd]. cbn [moved delivered app].
  assert (exists p n q, Await (read_entry f pointer offset total (moved l)) = Await (ERead fd p n q) /\
    q = offset + Z.of_nat (moved l)) as (p & n & q & Hc & Hq) by (subst fd; by do 3 eexists).
  rewrite Hc in *. destruct (contract_read _ _ _ HC (l ++ h) p n q) as [Hsame Hbytes]; [lia|].
  rewrite <- Hr in *. split; [congruence|].
  destruct Hbytes as (-> & Hlen & _); [done|unfold count in Hpos; rewrite Hnr in Hpos; lia|].
  rewrite IHd, IHc, take_take, Nat.min_id, Hq.
  replace (Z.to_nat (offset + Z.of_nat (moved l))) with (Z.to_nat offset + moved l)%nat by lia.
  by rewrite <- drop_drop, take_take_drop.
Qed.
End Contents.

(** The contract implies that reads deliver what they report. *)
Lemma contract_delivers fd o contents f pointer offset total d :
  file_contract fd o contents -> f_fd f = fd -> 0 <= offset + Z.of_nat d <= u64_max ->
  delivers o (read_entry f pointer offset total d).
Proof.
  intros HC <- Hr. destruct (decide (offset + Z.of_nat d = u64_max)) as [E|Hne].
  { unfold read_entry. rewrite E. apply (contract_cursor _ _ _ HC). }
  intros h. cbn zeta. intros Hnr Hpos. unfold read_entry in *.
  destruct (contract_read _ _ _ HC h (pointer + Z.of_nat d) (Z.of_nat (total - d)) (offset + Z.of_nat d)) as [_ Hb];
    [lia|]. destruct (Hb Hnr Hpos) as (Hbytes & Hle & _). rewrite Hbytes at 1. rewrite length_take_le by done.
  unfold count. by rewrite Hnr.
Qed.

(** Wherever the code reads, the bytes come. *)
Lemma allowed_delivers fd o contents f pointer offset total d :
  file_contract fd o contents -> f_fd f = fd -> 0 <= offset -> local_refusal offset total d = None ->
  delivers o (read_entry f pointer offset total d).
Proof.
  intros HC Hfd Hoff Hl. eapply contract_delivers; [done..|]. split; [lia|]. unfold local_refusal in Hl.
  destruct (Z.gtb_spec (offset + Z.of_nat d) u64_max); [done|lia].
Qed.

Section Exact.
Context `{OpCodes} (fd : Z) (o : iooracle) (contents : iohistory -> list Z) (HC : file_contract fd o contents).
Context (f : File) (Hfd : f_fd f = fd) (offset : Z) (Hoff : 0 <= offset).

(** [read_exact_at] on the file: the bytes at the offset, or an error; the buffer full of
    them, or the file ends before. *)
Lemma read_file {B} `{IoBufMutLaws B} (b : B) h :
  buf_wf b -> offset + Z.of_nat (bytes_total b) <= u64_max ->
  run_post (read_exact_at f b offset) o tt h (fun r _ h' => exists x, r = Done x /\ contents h' = contents h /\
    length (memory x.2) = bytes_total b /\ buf_wf x.2 /\
    (x.1 = Ok tt -> memory x.2 = take (bytes_total b) (drop (Z.to_nat offset) (contents h)) /\
       bytes_init x.2 = bytes_total b) /\
    (x.1 = Err unfilled -> (0 < bytes_total b)%nat /\ (length (contents h) < Z.to_nat offset + bytes_total b)%nat)).
Proof.
  intros Hwf Hmax. eapply run_post_mono.
  { apply read_transfers; [done|]. intros d Hd. by eapply allowed_delivers. }
  intros r [] h' (x & -> & l & Ho & _ & Hk & Hx). exists x. split; [done|].
  destruct (contents_after_reads _ _ _ HC f (stable_ptr b) offset Hfd Hoff (bytes_total b) h l Hmax Ho) as [Hc Hd].
  destruct Hk as (_ & Hlen & Hwf' & Hi & Hdl & Ht). rewrite <- (total_is_memory b) in Hlen.
  destruct x as [[[]|e] b']; cbn [fst snd] in *.
  - destruct Hx as [-> Hm]. rewrite Hm in *. split_and!; [done..| |done]. intros _.
    split; [by rewrite <- Hd, <- Ht, take_ge by lia|]. unfold buf_wf in Hwf'. lia.
  - destruct Hx as [Hlt [[-> Hl]|(-> & _ & Hf)]].
    { split_and!; [done..|]. intros [= ->]. unfold local_refusal in Hl. by repeat case_match. }
    unfold failure, read_entry in *. rewrite Hfd in *.
    destruct (contract_read _ _ _ HC (l ++ h) (stable_ptr b + Z.of_nat (moved l)) (Z.of_nat (bytes_total b - moved l))
      (offset + Z.of_nat (moved l))) as [Hsame Hread]; [lia|].
    split_and!; [by rewrite Hsame|done..|]. intros [= ->].
    destruct (io_refused _) as [[]|] eqn:Hr; [done..|].
    destruct Hf as [[_ ?]|[[Hz _]|[_ ?]]]; [done| |done].
    destruct (Hread eq_refl) as (_ & _ & Hend); [lia|]. specialize (Hend Hz ltac:(lia)).
    apply (f_equal length) in Hend. rewrite length_drop in Hend. cbn in Hend. rewrite Hc in Hend. split; lia.
Qed.

(** [write_all_at] on the file: all of the buffer, or a proper part of it from its start. *)
Lemma write_file {B} `{IoBuf B} (b : B) h :
  let data := take (bytes_init b) (memory b) in
  f_append f = false -> buf_wf b -> offset + Z.of_nat (bytes_init b) <= u64_max ->
  run_post (write_all_at f b offset) o tt h (fun r _ h' => exists x, r = Done x /\ x.2 = b /\
    exists n, contents h' = overwrite (Z.to_nat offset) (take n data) (contents h) /\
      (n <= length data)%nat /\ (x.1 = Ok tt -> n = length data)).
Proof.
  intros data Happ Hwf Hmax. assert (length data = bytes_init b) as Hlen by (apply length_take_le, Hwf).
  eapply run_post_mono; [by apply write_transfers|]. rewrite Happ.
  intros r [] h' (x & -> & l & Ho & _ & Hk & Hx). exists x. split; [done|]. split; [done|].
  fold data in Ho, Hx. rewrite <- Hlen in Ho, Hx, Hmax.
  pose proof (contents_after_writes _ _ _ HC f (stable_ptr b) offset Hfd Hoff data h l Hmax Ho) as Hc.
  destruct x as [[[]|e] b']; cbn [fst snd] in *.
  - destruct Hx as [-> Hm]. exists (moved l). split_and!; [done|lia|done].
  - destruct Hx as [Hlt [[-> Hl]|(-> & _ & Hf)]]; [exists (moved l); split_and!; [done|lia|done]|].
    pose proof (contract_write _ _ _ HC (l ++ h) (stable_ptr b + Z.of_nat (moved l)) (Z.of_nat (length data - moved l))
      (offset + Z.of_nat (moved l)) (drop (moved l) data) ltac:(lia)) as Hw. cbn zeta in Hw.
    unfold write_entry in *. rewrite Hfd in *. set (r := o _ _) in *.
    exists (moved l + length (take (count r) (drop (moved l) data)))%nat. rewrite Hw, Hc.
    replace (Z.to_nat (offset + Z.of_nat (moved l))) with (Z.to_nat offset + length (take (moved l) data))%nat
      by (rewrite length_take_le; lia).
    rewrite overwrite_app. split_and!; [|rewrite length_take, length_drop; lia|done]. f_equal.
    rewrite <- take_take_drop, length_take, <- take_take. do 2 f_equal. by rewrite firstn_all.
Qed.

(** C13. [read_exact_at] on a regular file returns for every offset and every schedule of
    short reads (the fuel is enough).  The reads cover the buffer without gap or overlap,
    none outside it and none at an offset beyond [u64::MAX]; on an error the bytes read
    so far stay in the buffer, and the error is that of the last read, or the code's own
    for the first position past [u64::MAX] ("file offset overflow") or for a remainder
    one entry cannot hold, which make no call.  For a range that ends at or below
    [u64::MAX] moreover the file is not changed; success means that the buffer holds, and
    counts as initialized, the bytes of the file at the offset; and end-of-file is
    reported only if the file ends inside the range asked for.  (For a longer range the
    loop may come to offset [u64::MAX] itself, where the kernel reads at its current
    position.) *)
Theorem read_exact_at_meaning {B} `{IoBufMutLaws B} (b : B) h :
  buf_wf b ->
  run_post (read_exact_at f b offset) o tt h (fun r _ h' => exists x, r = Done x /\
    transferred o (read_entry f (stable_ptr b) offset (bytes_total b)) (local_refusal offset (bytes_total b))
      unfilled oversized_read (bytes_total b) (filled b) h x h' /\
    (offset + Z.of_nat (bytes_total b) <= u64_max ->
      contents h' = contents h /\
      (x.1 = Ok tt -> memory x.2 = take (bytes_total b) (drop (Z.to_nat offset) (contents h)) /\
         bytes_init x.2 = bytes_total b) /\
      (x.1 = Err unfilled -> (0 < bytes_total b)%nat /\ (length (contents h) < Z.to_nat offset + bytes_total b)%nat))).
Proof.
  intros Hwf.
  assert (run_post (read_exact_at f b offset) o tt h (fun r _ h' => exists x, r = Done x /\
    transferred o (read_entry f (stable_ptr b) offset (bytes_total b)) (local_refusal offset (bytes_total b))
      unfilled oversized_read (bytes_total b) (filled b) h x h')) as Ht
    by (apply read_transfers; [done|]; intros d Hd; by eapply allowed_delivers).
  destruct (decide (offset + Z.of_nat (bytes_total b) <= u64_max)) as [Hmax|Hmax].
  - eapply run_post_mono; [eapply run_post_and; [exact (read_file b h Hwf Hmax)|exact Ht]|].
    intros r [] h' [(x & -> & Hc & _ & _ & Hok & He) (x' & [= <-] & Hx)]. by exists x.
  - eapply run_post_mono; [exact Ht|]. intros r [] h' (x & -> & Hx). exists x. by split_and!.
Qed.

(** C14. [write_all_at] returns for every offset and every schedule of short writes, with
    the caller's buffer: an append-mode file is refused without a call; otherwise the
    writes cover the initialized prefix without gap or overlap, take nothing beyond it
    and are never made at an offset beyond [u64::MAX], and an error is that of the last
    write, or the code's own for the first position past [u64::MAX] ("file offset
    overflow") or for a remainder one entry cannot hold, which make no call.  For a range
    that ends at or below [u64::MAX] the file then holds, at the offset, all of the
    prefix on success and a part of it from its start on an error; no other byte of the
    file changes.  (For a longer range the loop may come to offset [u64::MAX] itself,
    where the kernel writes at its current position.) *)
Theorem write_all_at_meaning {B} `{IoBuf B} (b : B) h :
  let data := take (bytes_init b) (memory b) in
  buf_wf b ->
  run_post (write_all_at f b offset) o tt h (fun r _ h' => exists x, r = Done x /\ x.2 = b /\
    if f_append f then x.1 = Err append_refused /\ h' = h else
    transferred o (write_entry f (stable_ptr b) offset data) (local_refusal offset (bytes_init b))
      unwritten oversized_write (bytes_init b) (fun b' _ => b' = b) h x h' /\
    (offset + Z.of_nat (bytes_init b) <= u64_max ->
      exists n, contents h' = overwrite (Z.to_nat offset) (take n data) (contents h) /\
        (n <= length data)%nat /\ (x.1 = Ok tt -> n = length data))).
Proof.
  intros data Hwf. pose proof (write_transfers f b offset o h Hwf) as Hwr.
  destruct (f_append f) eqn:Happ.
  { eapply run_post_mono; [exact Hwr|]. intros r [] h' (x & -> & -> & ->). by eexists. }
  destruct (decide (offset + Z.of_nat (bytes_init b) <= u64_max)) as [Hmax|Hmax].
  - eapply run_post_mono; [eapply run_post_and; [exact Hwr|by apply write_file]|].
    intros r [] h' [(x & -> & Ht) (x' & [= <-] & Hb & Hn)]. by exists x.
  - eapply run_post_mono; [exact Hwr|]. intros r [] h' (x & -> & Ht). exists x.
    assert (x.2 = b) as Hb by (by destruct Ht as (l & _ & _ & Hb & _)). by split_and!.
Qed.

(** C6. What a successful [write_all_at] wrote to a regular file, in a range that ends at
    or below [u64::MAX], [read_exact_at] of the same length at the same offset reads
    back: it cannot meet the end of the file, and if it succeeds its buffer holds the
    bytes written.  The condition is needed: at offset [u64::MAX] the kernel does not
    use the offset but its current position, which the two calls move. *)
Theorem write_then_read {B1 B2} `{IoBuf B1} `{IoBufMutLaws B2} (b1 : B1) (b2 : B2) h :
  f_append f = false -> buf_wf b1 -> buf_wf b2 -> bytes_total b2 = bytes_init b1 ->
  offset + Z.of_nat (bytes_init b1) <= u64_max ->
  run_post (x ← write_all_at f b1 offset; y ← read_exact_at f b2 offset; mret (x, y)) o tt h
    (fun r _ _ => exists x y, r = Done (x, y) /\
      (x.1 = Ok tt -> y.1 <> Err unfilled /\ (y.1 = Ok tt -> memory y.2 = take (bytes_init b1) (memory b1)))).
Proof.
  intros Happ Hwf1 Hwf2 Htot Hmax.
  apply run_post_bind. eapply run_post_mono; [by apply write_file|].
  intros r [] h1 (x & -> & _ & n & Hc & Hn & Hok). cbn [then_post].
  apply run_post_bind. eapply run_post_mono; [apply (read_file b2); [done|by rewrite Htot]|].
  intros r [] h2 (y & -> & _ & _ & _ & Hmem & Heof). cbn [then_post]. apply run_post_ret.
  exists x, y. split; [done|]. intros Hx. specialize (Hok Hx). subst n.
  rewrite firstn_all in Hc. set (data := take (bytes_init b1) (memory b1)) in *.
  assert (length data = bytes_init b1) as Hlen by (apply length_take_le, Hwf1). split.
  - intros He. destruct (Heof He) as [Hpos Hlt]. rewrite Hc, Htot, <- Hlen in *.
    rewrite overwrite_length in Hlt; [lia|]. intros Hnil. rewrite Hnil in Hpos. cbn in Hpos. lia.
  - intros Hy. destruct (Hmem Hy) as [-> _]. rewrite Hc, Htot, <- Hlen. apply take_drop_overwrite.
Qed.
End Exact.

(** An offset of [u64::MAX] is the kernel's "current position": a positioned write
    there makes the very operation [append] makes. *)
Lemma write_at_sentinel `{OpCodes} {B} `{IoBuf B} fd (b : B) :
  file_write_at (mkFile fd false) b u64_max = file_append (mkFile fd true) b.
Proof. reflexivity. Qed.

(** ** Open flags *)

Section OpenFlagsFacts.
Context `{OpenFlagsLaws}.

(** [fl] contains the flag. *)
Definition has (fl a : Z) : Prop := Z.land fl a = a.

Lemma has_bit fl n : 0 <= n -> has fl (2 ^ n) <-> Z.testbit fl n = true.
Proof.
  intros Hn. unfold has. split; intros Hb.
  - apply (f_equal (fun z => Z.testbit z n)) in Hb.
    rewrite Z.land_spec, Z.pow2_bits_true in Hb by done. by destruct (Z.testbit fl n).
  - apply Z.bits_inj'. intros m Hm. rewrite Z.land_spec, Z.pow2_bits_eqb by done.
    destruct (Z.eqb_spec n m) as [->|]; [by rewrite Hb|by rewrite andb_false_r].
Qed.

Definition single (a : Z) : Prop := exists n, 0 <= n /\ a = 2 ^ n.

Lemma has_lor a x y : single a -> has (Z.lor x y) a <-> has x a \/ has y a.
Proof. intros (n & Hn & ->). rewrite !has_bit, Z.lor_spec by done. apply orb_true_iff. Qed.

Lemma has_single a b : single a -> single b -> has b a <-> b = a.
Proof.
  intros (n & Hn & ->) (m & Hm & ->). rewrite has_bit, Z.pow2_bits_eqb by done.
  rewrite Z.eqb_eq. split; [by intros ->|]. intros Heq. by apply Z.pow_inj_r in Heq.
Qed.

(** Bits of an access mode, and of a field without the access mode. *)
Lemma has_access a m : single a -> Z.land a O_ACCMODE = 0 -> Z.land m O_ACCMODE = m -> ~ has m a.
Proof.
  intros (n & Hn & ->) Ha Hm. unfold has. intros Hh. rewrite <- Hm in Hh.
  rewrite <- Z.land_assoc, (Z.land_comm O_ACCMODE), Ha, Z.land_0_r in Hh.
  pose proof (Z.pow_pos_nonneg 2 n). lia.
Qed.

Lemma has_custom a c : single a -> Z.land a O_ACCMODE = 0 -> has (Z.land c (Z.lnot O_ACCMODE)) a <-> has c a.
Proof.
  intros (n & Hn & ->) Ha. rewrite !has_bit by done. rewrite Z.land_spec, Z.lnot_spec by done.
  assert (Z.testbit O_ACCMODE n = false) as ->; [|by rewrite andb_true_r].
  apply (f_equal (fun z => Z.testbit z n)) in Ha.
  by rewrite Z.land_spec, Z.pow2_bits_true, Z.bits_0 in Ha.
Qed.

(** The flags the options ask for, besides the access mode and the custom ones. *)
Definition requested (o : OpenOptions) : list Z :=
  [O_CLOEXEC] ++ (if o_append o then [O_APPEND] else []) ++
  (if o_truncate o && negb (o_create_new o) then [O_TRUNC] else []) ++
  (if o_create o || o_create_new o then [O_CREAT] else []) ++ (if o_create_new o then [O_EXCL] else []).

Definition access_of (o : OpenOptions) : Z :=
  if o_write o || o_append o then if o_read o then O_RDWR else O_WRONLY else O_RDONLY.

Definition all_flags : list Z := [O_CLOEXEC; O_APPEND; O_TRUNC; O_CREAT; O_EXCL].

(** [open_flags] as one union. *)
Lemma open_flags_union o fl m :
  open_flags o = Ok (fl, m) ->
  m = o_mode o /\ fl = Z.lor (fold_left Z.lor (requested o) (access_of o))
                          (Z.land (o_custom_flags o) (Z.lnot O_ACCMODE)).
Proof.
  unfold open_flags, requested, access_of.
  destruct (o_read o), (o_write o), (o_append o), (o_truncate o), (o_create o), (o_create_new o);
    cbn; intros [= <- <-]; done.
Qed.

Lemma has_fold a l x : single a -> Forall single l -> has (fold_left Z.lor l x) a <-> has x a \/ a ∈ l.
Proof.
  intros Ha. revert x. induction l as [|b l IH]; intros x Hl; cbn.
  - rewrite elem_of_nil. tauto.
  - apply Forall_cons in Hl as [Hb Hl]. rewrite (IH _ Hl), (has_lor a) by done.
    rewrite (has_single a b Ha Hb), elem_of_cons.
    split; [intros [[?| ->]|?]; auto|intros [?|[->|?]]; auto].
Qed.

Lemma requested_flags o : requested o ⊆ all_flags.
Proof.
  unfold requested, all_flags. intros a.
  destruct (o_append o), (o_truncate o), (o_create_new o), (o_create o); cbn;
    rewrite !elem_of_cons, !elem_of_nil; tauto.
Qed.
Lemma access_of_mode o : Z.land (access_of o) O_ACCMODE = access_of o.
Proof.
  pose proof access_modes as Hm. rewrite !Forall_cons in Hm. destruct Hm as (? & ? & ? & _).
  unfold access_of. by destruct (_ || _), (o_read o).
Qed.

Lemma all_flags_single : Forall single all_flags.
Proof. exact flag_bits. Qed.

Lemma requested_not_access o : Forall (fun a => Z.land a O_ACCMODE = 0) (requested o).
Proof.
  apply Forall_forall. intros a Ha. pose proof flags_not_access as Hf. rewrite Forall_forall in Hf.
  by apply Hf, (requested_flags o).
Qed.

Lemma fold_not_access l x :
  Forall (fun a => Z.land a O_ACCMODE = 0) l -> Z.land (fold_left Z.lor l x) O_ACCMODE = Z.land x O_ACCMODE.
Proof.
  revert x. induction l as [|a l IH]; intros x Hl; [done|]. apply Forall_cons in Hl as [Ha Hl]. cbn.
  by rewrite IH, Z.land_lor_distr_l, Ha, Z.lor_0_r.
Qed.

Lemma custom_not_access c : Z.land (Z.land c (Z.lnot O_ACCMODE)) O_ACCMODE = 0.
Proof. by rewrite <- Z.land_assoc, (Z.land_comm (Z.lnot _)), Z.land_lnot_diag, Z.land_0_r. Qed.

Lemma requested_single o : Forall single (requested o).
Proof. apply Forall_forall. intros a Ha. eapply Forall_forall; [apply all_flags_single|by apply (requested_flags o)]. Qed.

(** [OpenOptions::flags] refuses exactly the option sets without an access mode and
    those that create or truncate without write access.  Otherwise the mode is the one
    set, and the flags hold: the access mode the options ask for, whatever the custom
    flags are; each of [O_CLOEXEC], [O_APPEND], [O_TRUNC], [O_CREAT], [O_EXCL] exactly
    if the options or the custom flags ask for it; so close-on-exec always, and
    [O_CREAT] whenever [O_EXCL] is asked for. *)
Theorem open_flags_meaning o :
  match open_flags o with
  | Err e =>
      e = access_required /\ o_read o = false /\ o_write o = false /\ o_append o = false \/
      e = write_required /\ o_read o = true /\ o_write o = false /\ o_append o = false /\
        (o_truncate o = true \/ o_create o = true \/ o_create_new o = true)
  | Ok (fl, m) =>
      m = o_mode o /\ Z.land fl O_ACCMODE = access_of o /\
      (forall a, a ∈ all_flags -> has fl a <-> a ∈ requested o \/ has (o_custom_flags o) a) /\
      has fl O_CLOEXEC /\ (o_append o = true -> has fl O_APPEND) /\
      (o_create_new o = true -> has fl O_EXCL /\ has fl O_CREAT)
  end.
Proof.
  destruct (open_flags o) as [[fl m]|e] eqn:Hf.
  2:{ unfold open_flags in Hf. destruct (o_read o), (o_write o), (o_append o), (o_truncate o), (o_create o),
        (o_create_new o); cbn in Hf; try done; injection Hf as <-; auto 10. }
  apply open_flags_union in Hf as [-> ->]. split; [done|].
  assert (forall a, a ∈ all_flags -> has (Z.lor (fold_left Z.lor (requested o) (access_of o))
    (Z.land (o_custom_flags o) (Z.lnot O_ACCMODE))) a <-> a ∈ requested o \/ has (o_custom_flags o) a) as Hall.
  { intros a Ha.
    assert (single a) as Hs by (by eapply Forall_forall in Ha; [|apply all_flags_single]).
    assert (Z.land a O_ACCMODE = 0) as Hacc by (by eapply Forall_forall in Ha; [|apply flags_not_access]).
    rewrite has_lor, has_custom, has_fold by (done || apply requested_single).
    assert (~ has (access_of o) a); [|tauto]. by apply (has_access a), access_of_mode. }
  split_and!; [|done|..].
  - rewrite Z.land_lor_distr_l, fold_not_access, access_of_mode, custom_not_access by apply requested_not_access.
    apply Z.lor_0_r.
  - apply Hall; [by left|]. left. by left.
  - intros Happ. apply Hall; [set_solver|]. left. unfold requested. rewrite Happ. set_solver.
  - intros Hnew. split; (apply Hall; [unfold all_flags; set_solver|]; left; unfold requested;
      rewrite Hnew, orb_true_r; set_solver).
Qed.
End OpenFlagsFacts.

(** [O_APPEND] set as a custom flag reaches the kernel, but the [File] is not in append
    mode: its positioned writes are not refused. *)
Lemma custom_append_not_recorded `{OpenFlagsLaws} `{OpCodes} path fd o h :
  bool_decide (0 ∈ path) = false -> 0 <= fd ->
  let options := set_custom_flags O_APPEND (set_write true options_new) in
  (forall fl m, o h (Await (EOpenAt path fl m)) = mkIoResp false fd [] None None) ->
  exists fl m h', open_on options path o tt h = (Done (Ok (mkFile fd false)), tt, h') /\
    iocalls h' = iocalls h ++ [Await (EOpenAt path fl m)] /\ has fl O_APPEND.
Proof.
  intros Hp Hfd options Ho. pose proof flag_bits as Hb. rewrite !Forall_cons in Hb.
  destruct Hb as (_ & Ha & _). pose proof flags_not_access as Hacc. rewrite !Forall_cons in Hacc.
  destruct Hacc as (_ & Hacc & _).
  unfold open_on, options, open_flags. cbn -[Z.lor Z.land]. run_unfold. rewrite Hp. unfold await, open_work.
  run_unfold. rewrite Ho. cbn. rewrite (proj2 (Z.ltb_ge _ _)) by done. do 3 eexists. split; [done|].
  unfold iocalls. cbn [map rev fst]. split; [done|].
  rewrite has_lor, has_custom by done. right. by apply Z.land_diag.
Qed.

(** ** Instances *)

Module FsWitness.

(** The constants of Linux. *)
#[local] Instance linux : OpenFlags := {
  O_RDONLY := 0; O_WRONLY := 1; O_RDWR := 2; O_ACCMODE := 3;
  O_CLOEXEC := 524288; O_APPEND := 1024; O_TRUNC := 512; O_CREAT := 64; O_EXCL := 128
}.

#[local] Instance linux_laws : OpenFlagsLaws.
Proof.
  split; cbn; try by repeat constructor.
  - repeat constructor; [exists 19|exists 10|exists 9|exists 6|exists 7]; by split.
  - apply (bool_decide_unpack _). by vm_compute.
  - apply (bool_decide_unpack _). by vm_compute.
Qed.

#[local] Instance opcodes : OpCodes := {
  OPENAT := 18; READ := 22; WRITE := 23; FSYNC := 3; CONNECT := 16; RECV := 27; SEND := 26; POLL_ADD := 6
}.

(** A file on descriptor 3, and a kernel that reads two and writes three bytes at most. *)
Fixpoint disk (h : iohistory) : list Z :=
  match h with
  | [] => [10; 11; 12; 13; 14]
  | (Await (EWrite 3 _ _ off bytes), r) :: h => overwrite (Z.to_nat off) (take (count r) bytes) (disk h)
  | _ :: h => disk h
  end.

Definition disk_kernel : iooracle := fun h c =>
  match c with
  | Await (ERead 3 _ len off) =>
      let got := take (Nat.min 2 (Z.to_nat len)) (drop (Z.to_nat off) (disk h)) in
      mkIoResp false (Z.of_nat (length got)) got None None
  | Await (EWrite 3 _ len _ _) => mkIoResp false (Z.min 3 len) [] None None
  | _ => mkIoResp false (-9) [] None None
  end.

Lemma disk_contract : file_contract 3 disk_kernel disk.
Proof.
  split; [done| |].
  2: { intros p len h r _ Hr. subst r. unfold disk_kernel. cbn -[Nat.min]. by rewrite Nat2Z.id. }
  intros h p len off Hoff c rest. split; [done|]. intros _ _. unfold disk_kernel, c, count. cbn -[Nat.min].
  rewrite Nat2Z.id. fold rest. rewrite length_take.
  split_and!; [|lia|].
  - rewrite <- (take_take rest _ (length rest)). by rewrite firstn_all.
  - intros Hz Hlen. apply nil_length_inv. lia.
Qed.

Definition file := mkFile 3 false.
Definition source := mkVec 4096 [1; 2; 3; 4; 5; 6; 7; 0; 0] 7.
Definition target := mkVec 8192 [0; 0; 0; 0; 0; 0; 0] 0.

Lemma open_flags_meaning_witness :
  match open_flags (set_read true options_new) with
  | Ok (fl, m) => m = 438 /\ Z.land fl 3 = 0 /\ has fl 524288
  | Err _ => False
  end.
Proof.
  pose proof (open_flags_meaning (set_read true options_new)) as H. revert H. cbn -[has].
  intros (Hm & Ha & _ & Hc & _). exact (conj Hm (conj Ha Hc)).
Defined.

Lemma read_exact_at_meaning_witness :
  exists x, outcome_of (read_exact_at file target 0 disk_kernel tt []) = Done x /\
    (x.1 = Err unfilled -> (length [10; 11; 12; 13; 14] < 7)%nat).
Proof.
  destruct (read_exact_at_meaning 3 disk_kernel disk disk_contract file eq_refl 0 ltac:(lia) target [])
    as (x & Hx & _ & Hfile); [unfold buf_wf; cbn; lia|].
  destruct Hfile as (_ & _ & He); [cbn; unfold u64_max; lia|].
  exists x. split; [exact Hx|]. intros H. exact (proj2 (He H)).
Defined.

Lemma write_all_at_meaning_witness :
  exists x n, outcome_of (write_all_at file source 3 disk_kernel tt []) = Done x /\ x.2 = source /\
    disk (history_of (write_all_at file source 3 disk_kernel tt [])) = overwrite 3 (take n [1; 2; 3; 4; 5; 6; 7]) (disk []) /\
    (x.1 = Ok tt -> n = 7%nat).
Proof.
  destruct (write_all_at_meaning 3 disk_kernel disk disk_contract file eq_refl 3 ltac:(lia) source [])
    as (x & Hx & Hb & _ & Hfile); [unfold buf_wf; cbn; lia|].
  destruct Hfile as (n & Hc & _ & Hok); [cbn; unfold u64_max; lia|].
  exists x, n. exact (conj Hx (conj Hb (conj Hc Hok))).
Defined.

Lemma write_then_read_witness :
  exists x y, outcome_of ((x ← write_all_at file source 2; y ← read_exact_at file target 2; mret (x, y))
      disk_kernel tt []) = Done (x, y) /\
    (x.1 = Ok tt -> y.1 <> Err unfilled /\ (y.1 = Ok tt -> memory y.2 = [1; 2; 3; 4; 5; 6; 7])).
Proof.
  assert (buf_wf source) as Hs by (unfold buf_wf; cbn; lia).
  assert (buf_wf target) as Ht by (unfold buf_wf; cbn; lia).
  exact (write_then_read 3 disk_kernel disk disk_contract file eq_refl 2 ltac:(lia) source target []
    eq_refl Hs Ht eq_refl ltac:(unfold u64_max, source; cbn; lia)).
Defined.

(** The transfers of this kernel take several operations and succeed. *)
Lemma transfers_sample :
  outcome_of ((x ← write_all_at file source 2; y ← read_exact_at file target 2; mret (x.1, y))
      disk_kernel tt []) = Done (Ok tt, (Ok tt, mkVec 8192 [1; 2; 3; 4; 5; 6; 7] 7)) /\
  length (history_of ((x ← write_all_at file source 2; read_exact_at file target 2) disk_kernel tt [])) = 7%nat.
Proof. by vm_compute. Qed.
End FsWitness.
