(* ===== verification/Net.v ===== *)
(** * Net: TCP sockets ([src/src/net.rs])

    Address forms, listeners and streams: connecting, binding and accepting as
    sequences of awaited operations and system calls, the owned transfers, and the
    borrowed reads and writes with their readiness lanes.  A socket is its descriptor;
    dropping the last owner of one is a [SysClose]. *)

From Stdlib Require Import ZArith Lia.
From stdpp Require Import base list strings.
From S2P Require Import Prelude Errors Ring RingOps RingFutures OwnedIo.

Open Scope Z_scope.

(** ** Address forms *)

Record Ipv4Addr : Type := mkIpv4 { v4_bits : Z }.
Record Ipv6Addr : Type := mkIpv6 { v6_bits : Z }.
Inductive IpAddr : Type := IpV4 (ip : Ipv4Addr) | IpV6 (ip : Ipv6Addr).

(** [SocketAddr::new]. *)
Definition socket_addr_new (ip : IpAddr) (port : Z) : SocketAddr :=
  match ip with
  | IpV4 ip => AddrV4 (v4_bits ip) port
  | IpV6 ip => AddrV6 (v6_bits ip) port 0 0
  end.

(** [ToSocketAddrs], a sealed trait: the instances are all there are (arrays and slices
    are lists; references are transparent). *)
Class ToSocketAddrs (A : Type) : Type := to_socket_addrs : A -> list SocketAddr.

#[export] Instance addrs_socket_addr : ToSocketAddrs SocketAddr := fun a => [a].
#[export] Instance addrs_ip_port : ToSocketAddrs (IpAddr * Z) := fun a => [socket_addr_new a.1 a.2].
#[export] Instance addrs_ipv4_port : ToSocketAddrs (Ipv4Addr * Z) := fun a => [socket_addr_new (IpV4 a.1) a.2].
#[export] Instance addrs_ipv6_port : ToSocketAddrs (Ipv6Addr * Z) := fun a => [socket_addr_new (IpV6 a.1) a.2].
#[export] Instance addrs_slice : ToSocketAddrs (list SocketAddr) := fun a => a.

Definition is_ipv4 (a : SocketAddr) : bool := match a with AddrV4 _ _ => true | AddrV6 _ _ _ _ => false end.

(** ** Sockets *)

(** The constants of the C library. *)
Class NetFlags : Type := { POLLIN : Z; POLLOUT : Z; MSG_NOSIGNAL : Z }.

Definition close (fd : Z) : ioprog unit := _ ← call (SysClose fd); mret tt.

Definition tcp_socket (address : SocketAddr) : ioprog (result IoError Z) :=
  syscall (SysSocket (is_ipv4 address)).

(** An error while the socket is held drops it. *)
Definition or_close {A} (socket : Z) (m : ioprog (result IoError A)) : ioprog (result IoError A) :=
  r ← m;
  match r with
  | Err e => _ ← close socket; mret (Err e)
  | Ok a => mret (Ok a)
  end.

Definition bind_socket (address : SocketAddr) : ioprog (result IoError Z) :=
  let? socket := tcp_socket address in
  let? _ := or_close socket (syscall (SysBind socket address)) in
  let? _ := or_close socket (syscall (SysListen socket 1024)) in
  mret (Ok socket).

(** A kernel address that may not be an IP address. *)
Definition non_ip : IoError := Custom KInvalidData "socket returned a non-IP address".
Definition socket_addr (address : option SocketAddr) : result IoError SocketAddr := ok_or non_ip address.

Definition accept_socket (listener : Z) : ioprog (result IoError (Z * option SocketAddr)) :=
  r ← call (SysAccept4 listener);
  mret (if io_res r <? 0 then Err (RawOs (- io_res r)) else Ok (io_res r, io_address r)).

(** [local_addr] and [peer_addr]. *)
Definition query_addr (fd : Z) (peer : bool) : ioprog (result IoError SocketAddr) :=
  r ← call (SysName fd peer);
  mret (if io_res r <? 0 then Err (RawOs (- io_res r)) else socket_addr (io_address r)).

(** [nodelay], [set_nodelay] and [take_error]. *)
Definition nodelay (fd : Z) : ioprog (result IoError bool) :=
  r ← syscall (SysNodelay fd); mret (result_map (fun value => negb (value =? 0)) r).
Definition set_nodelay (fd : Z) (nodelay : bool) : ioprog (result IoError unit) :=
  r ← syscall (SysSetNodelay fd nodelay); mret (result_map (fun _ => tt) r).
Definition take_error (fd : Z) : ioprog (result IoError (option IoError)) :=
  r ← syscall (SysTakeError fd);
  mret (result_map (fun errno => if errno =? 0 then None else Some (RawOs errno)) r).

(** [TcpStream]; a lane is whether a readiness operation is pending in it. *)
Record TcpStream : Type := mkStream { st_fd : Z; read_ready : bool; write_ready : bool }.

Definition from_socket (socket : Z) : TcpStream := mkStream socket false false.

Definition no_addresses : IoError := Custom KInvalidInput "no socket addresses supplied".

(** [for address in addresses { match one(address) .. last = Some(error) }] and what
    follows the loop, in [connect_on] and [bind_on]. *)
Section FirstSuccess.
Context {A : Type} (one : SocketAddr -> ioprog (result IoError A)).

Fixpoint first_success (last : option IoError) (addresses : list SocketAddr) : ioprog (result IoError A) :=
  match addresses with
  | [] => match last with
          | Some error => mret (Err error)
          | None => panic "nonempty address attempt has a result"
          end
  | address :: rest =>
      r ← one address;
      match r with
      | Ok a => mret (Ok a)
      | Err error => first_success (Some error) rest
      end
  end.
End FirstSuccess.

(** [std::task::Poll]. *)
Inductive Poll (A : Type) : Type := Ready (a : A) | Pending.
Arguments Ready {A} a.
Arguments Pending {A}.

Section Net.
Context `{ops : OpCodes} `{flags : NetFlags}.

(** [ConnectWork]; its socket is dropped with it unless the connection succeeds. *)
Definition connect_work (socket : Z) (address : SocketAddr) : OpWork (result IoError Z) :=
  mkWork CONNECT (EConnect socket address)
    (fun _ result => result_map (fun _ => socket) (io_result result)) Err.

(** One iteration of [connect_on]. *)
Definition connect_one (address : SocketAddr) : ioprog (result IoError TcpStream) :=
  let? socket := tcp_socket address in
  let? socket := or_close socket (await (connect_work socket address)) in
  mret (Ok (from_socket socket)).

Definition connect_on {A} `{ToSocketAddrs A} (addresses : A) : ioprog (result IoError TcpStream) :=
  let addresses := to_socket_addrs addresses in
  if is_empty addresses then mret (Err no_addresses) else first_success connect_one None addresses.

(** [TcpListener::bind_on]; [running] is what [ensure_running] says. *)
Definition bind_on {A} `{ToSocketAddrs A} (running : bool) (addresses : A) : ioprog (result IoError Z) :=
  if negb running then mret (Err runtime_closed_error) else
  let addresses := to_socket_addrs addresses in
  if is_empty addresses then mret (Err no_addresses) else first_success bind_socket None addresses.

(** [TcpStream::connect] and [TcpListener::bind]: on the current runtime, if there is one. *)
Definition connect {A} `{ToSocketAddrs A} (current : bool) (addresses : A) : ioprog (result IoError TcpStream) :=
  if current then connect_on addresses else mret (Err runtime_closed_error).
Definition bind {A} `{ToSocketAddrs A} (current running : bool) (addresses : A) : ioprog (result IoError Z) :=
  if current then bind_on running addresses else mret (Err runtime_closed_error).

(** [PollWork]. *)
Definition poll_work (socket events : Z) : OpWork (result IoError unit) :=
  mkWork POLL_ADD (EPollAdd socket events)
    (fun _ result => result_map (fun _ => tt) (io_result result)) Err.

(** [TcpListener::accept], with fuel for the retries. *)
Fixpoint accept (fuel : nat) (listener : Z) : ioprog (result IoError (TcpStream * SocketAddr)) :=
  match fuel with
  | O => block "accept"
  | S fuel =>
      r ← accept_socket listener;
      match r with
      | Ok (socket, address) =>
          let? address := or_close socket (mret (socket_addr address)) in
          mret (Ok (from_socket socket, address))
      | Err error =>
          match error_kind error with
          | KWouldBlock => let? _ := await (poll_work listener POLLIN) in accept fuel listener
          | KInterrupted => accept fuel listener
          | _ => mret (Err error)
          end
      end
  end.

(** ** Owned transfers *)

Section Recv.
Context {B : Type} `{IoBufMut B}.

(** [RecvWork]. *)
Definition recv_work (fd : Z) (buf : B) (buffer_offset remaining : nat) : OpWork (result IoError nat * B) :=
  mkWork RECV (ERecv fd (stable_mut_ptr buf + Z.of_nat buffer_offset) (wrap_u32 (Z.of_nat remaining)))
    (fun written result =>
      complete_fill "kernel returned an oversized receive" buf buffer_offset remaining written result)
    (fun error => (Err error, buf)).

Definition recv_offset (fd : Z) (buf : B) (buffer_offset : nat) : ioprog (result IoError nat * B) :=
  let remaining := (bytes_total buf - buffer_offset)%nat in
  if Z.of_nat remaining >? u32_max then mret (Err too_large, buf) else
  await (recv_work fd buf buffer_offset remaining).

Definition recv (fd : Z) (buf : B) : ioprog (result IoError nat * B) := recv_offset fd buf 0.

Definition closed_early : IoError := Custom KUnexpectedEof "connection closed early".

Definition recv_exact (fd : Z) (buf : B) : ioprog (result IoError unit * B) :=
  let total := bytes_total buf in
  transfer_loop closed_early (recv_offset fd) total buf total 0.
End Recv.

Section Send.
Context {B : Type} `{IoBuf B}.

(** [SendWork]. *)
Definition send_work (fd : Z) (buf : B) (buffer_offset remaining : nat) : OpWork (result IoError nat * B) :=
  mkWork SEND
    (ESend fd (stable_ptr buf + Z.of_nat buffer_offset) (wrap_u32 (Z.of_nat remaining)) MSG_NOSIGNAL
       (take remaining (drop buffer_offset (memory buf))))
    (fun _ result => complete_drain "kernel returned an oversized send" buf remaining result)
    (fun error => (Err error, buf)).

Definition send_offset (fd : Z) (buf : B) (buffer_offset : nat) : ioprog (result IoError nat * B) :=
  let remaining := (bytes_init buf - buffer_offset)%nat in
  if Z.of_nat remaining >? u32_max then mret (Err too_large, buf) else
  await (send_work fd buf buffer_offset remaining).

Definition send (fd : Z) (buf : B) : ioprog (result IoError nat * B) := send_offset fd buf 0.

Definition unsent : IoError := Custom KWriteZero "failed to send buffer".

Definition send_all (fd : Z) (buf : B) : ioprog (result IoError unit * B) :=
  let total := bytes_init buf in
  transfer_loop unsent (send_offset fd) total buf total 0.
End Send.

(** ** Borrowed reads and writes *)

(** [ReadyLane::poll]: polls the lane's operation, made if there is none, and removes it
    when it is ready. *)
Definition lane_poll (socket events : Z) (operation : bool) : ioprog (Poll (result IoError unit) * bool) :=
  let w := poll_work socket events in
  r ← call (PollOnce (negb operation) (w_entry w));
  mret (if io_pending r then (Pending, true)
        else (Ready (match io_refused r with
                     | Some reason => w_fail w (failure_error reason)
                     | None => w_complete w (io_bytes r) (io_res r)
                     end), false)).

Definition with_read_ready (lane : bool) (s : TcpStream) : TcpStream := mkStream (st_fd s) lane (write_ready s).
Definition with_write_ready (lane : bool) (s : TcpStream) : TcpStream := mkStream (st_fd s) (read_ready s) lane.

(** [poll_write], with fuel for the retries. *)
Fixpoint poll_write (fuel : nat) (s : TcpStream) (buf : list Z) : ioprog (Poll (result IoError Z) * TcpStream) :=
  match fuel with
  | O => block "poll_write"
  | S fuel =>
      r ← call (SysSend (st_fd s) MSG_NOSIGNAL buf);
      if 0 <=? io_res r then mret (Ready (Ok (io_res r)), s) else
      let error := RawOs (- io_res r) in
      match error_kind error with
      | KInterrupted => poll_write fuel s buf
      | KWouldBlock =>
          x ← lane_poll (st_fd s) POLLOUT (write_ready s);
          let s := with_write_ready x.2 s in
          match x.1 with
          | Ready (Ok _) => poll_write fuel s buf
          | Ready (Err error) => mret (Ready (Err error), s)
          | Pending => mret (Pending, s)
          end
      | _ => mret (Ready (Err error), s)
      end
  end.

Definition poll_flush (s : TcpStream) : ioprog (Poll (result IoError unit) * TcpStream) :=
  mret (Ready (Ok tt), s).

(** [TcpStream::shutdown]. *)
Definition shutdown (s : TcpStream) (how : Shutdown) : ioprog (result IoError unit) :=
  r ← syscall (SysShutdown (st_fd s) how); mret (result_map (fun _ => tt) r).

Definition poll_shutdown (s : TcpStream) : ioprog (Poll (result IoError unit) * TcpStream) :=
  r ← shutdown s ShutWrite; mret (Ready r, s).

(** What the crate uses of tokio's [ReadBuf]: the room left, a write to the unfilled
    part, and marking its start initialized and filled. *)
Class ReadBufOps (R : Type) : Type := {
  rb_remaining : R -> nat;
  rb_write : list Z -> R -> R;
  rb_assume_init : nat -> R -> R;
  rb_advance : nat -> R -> R
}.

(** [poll_read], with fuel for the retries; a receive that fails writes nothing. *)
Fixpoint poll_read {R} `{ReadBufOps R} (fuel : nat) (s : TcpStream) (buf : R)
    : ioprog (Poll (result IoError unit) * TcpStream * R) :=
  match fuel with
  | O => block "poll_read"
  | S fuel =>
      if (rb_remaining buf =? 0)%nat then mret (Ready (Ok tt), s, buf) else
      r ← call (SysRecv (st_fd s) (Z.of_nat (rb_remaining buf)));
      if 0 <=? io_res r then
        let read := Z.to_nat (io_res r) in
        mret (Ready (Ok tt), s, rb_advance read (rb_assume_init read (rb_write (io_bytes r) buf)))
      else
      let error := RawOs (- io_res r) in
      match error_kind error with
      | KInterrupted => poll_read fuel s buf
      | KWouldBlock =>
          x ← lane_poll (st_fd s) POLLIN (read_ready s);
          let s := with_read_ready x.2 s in
          match x.1 with
          | Ready (Ok _) => poll_read fuel s buf
          | other => mret (other, s, buf)
          end
      | _ => mret (Ready (Err error), s, buf)
      end
  end.
End Net.
