(* ===== verification/NetSpec.v ===== *)
(** * NetSpec: what the TCP operations guarantee

    Connecting and binding try the addresses in order and leak no socket; accepting
    retries exactly the transient errors; the owned transfers move the bytes in order;
    a borrowed read or write that is pending has not touched its buffer. *)

From Stdlib Require Import ZArith Lia.
From stdpp Require Import base list strings.
From S2P Require Import Prelude Errors Ring RingOps RingFutures OwnedIo Net.

Open Scope Z_scope.

(** ** Descriptors *)

Fixpoint drop_one (fd : Z) (l : list Z) : list Z :=
  match l with [] => [] | x :: l => if x =? fd then l else x :: drop_one fd l end.

(** The descriptors a history created and has not closed, newest first. *)
Fixpoint live (h : iohistory) : list Z :=
  match h with
  | [] => []
  | ((SysSocket _ | SysAccept4 _), r) :: h => if io_res r <? 0 then live h else io_res r :: live h
  | (SysClose fd, _) :: h => drop_one fd (live h)
  | _ :: h => live h
  end.

Lemma drop_one_head fd l : drop_one fd (fd :: l) = l.
Proof. cbn. by rewrite Z.eqb_refl. Qed.

(** ** The first address that works *)

(** [F a h h' e]: an attempt at [a] that failed with [e]; [G a h h' x]: one that
    succeeded.  [failures]: attempts that all failed, in order. *)
Section Attempts.
Context {A : Type} (F : SocketAddr -> iohistory -> iohistory -> IoError -> Prop).
Context (G : SocketAddr -> iohistory -> iohistory -> A -> Prop).

Inductive failures : list SocketAddr -> iohistory -> iohistory -> Prop :=
| failures_nil h : failures [] h h
| failures_cons a l h h1 h2 e : F a h h1 e -> failures l h1 h2 -> failures (a :: l) h h2.

(** The outcome of trying [addresses]: the first that works, or the error of the last. *)
Definition tried (addresses : list SocketAddr) (h : iohistory) (r : result IoError A) (h' : iohistory) : Prop :=
  match r with
  | Ok x => exists pre a post h1, addresses = pre ++ a :: post /\ failures pre h h1 /\ G a h1 h' x
  | Err e => exists pre a h1, addresses = pre ++ [a] /\ failures pre h h1 /\ F a h1 h' e
  end.

(** What a program for one attempt has to do. *)
Definition attempts (o : iooracle) (one : SocketAddr -> ioprog (result IoError A)) : Prop :=
  forall a h, run_post (one a) o tt h (fun r _ h' =>
    match r with Done (Ok x) => G a h h' x | Done (Err e) => F a h h' e | _ => False end).

Lemma first_success_tried o one last l h :
  attempts o one -> l <> [] ->
  run_post (first_success one last l) o tt h (fun r _ h' => exists x, r = Done x /\ tried l h x h').
Proof.
  intros Hone. revert last h. induction l as [|a l IH]; intros last h Hne; [done|]. cbn [first_success].
  apply run_post_bind. eapply run_post_mono; [apply Hone|].
  intros [[x|e]|?|?|?] [] h1 H1; cbn [then_post]; try done.
  - apply run_post_ret. eexists. split; [done|]. exists [], a, l, h. split_and!; [done|constructor|done].
  - destruct l as [|a' l].
    + apply run_post_ret. eexists. split; [done|]. exists [], a, h. split_and!; [done|constructor|done].
    + eapply run_post_mono; [by apply IH|]. intros r [] h2 (x & -> & Hx). exists x. split; [done|].
      destruct x as [x|e']; cbn in *.
      * destruct Hx as (pre & b & post & h3 & -> & Hf & HG). exists (a :: pre), b, post, h3.
        split_and!; [done|by econstructor|done].
      * destruct Hx as (pre & b & h3 & -> & Hf & HF). exists (a :: pre), b, h3.
        split_and!; [done|by econstructor|done].
Qed.

(** Failed attempts that each leave no descriptor leave none together. *)
Lemma failures_live l h h' :
  (forall a h h' e, F a h h' e -> live h' = live h) -> failures l h h' -> live h' = live h.
Proof. intros HF. induction 1 as [|a l h h1 h2 e H1 _ IH]; [done|]. rewrite IH. by eapply HF. Qed.
End Attempts.

Section Spec.
Context `{ops : OpCodes} `{flags : NetFlags}.

(** The answer of a completed operation without a value. *)
Definition op_result (r : ioresp) : result IoError unit :=
  match io_refused r with
  | Some reason => Err (failure_error reason)
  | None => if io_res r <? 0 then Err (RawOs (- io_res r)) else Ok tt
  end.

(** An attempt to connect: no socket, or a socket whose connection is made or, if it
    fails, that is closed. *)
Definition connect_failed (a : SocketAddr) (h h' : iohistory) (e : IoError) : Prop :=
  (exists r, h' = (SysSocket (is_ipv4 a), r) :: h /\ io_res r < 0 /\ e = RawOs (- io_res r)) \/
  (exists fd s r c, h' = (SysClose fd, c) :: (Await (EConnect fd a), r) :: (SysSocket (is_ipv4 a), s) :: h /\
    io_res s = fd /\ 0 <= fd /\ op_result r = Err e).

Definition connected (a : SocketAddr) (h h' : iohistory) (stream : TcpStream) : Prop :=
  exists fd s r, h' = (Await (EConnect fd a), r) :: (SysSocket (is_ipv4 a), s) :: h /\
    io_res s = fd /\ 0 <= fd /\ op_result r = Ok tt /\ stream = from_socket fd.

Lemma connect_attempts o : attempts connect_failed connected o connect_one.
Proof.
  intros a h. unfold connect_one, tcp_socket, syscall, or_close, await, connect_work, close, connect_failed,
    connected, op_result, io_result, run_post. run_unfold.
  set (s := o h _). destruct (Z.ltb_spec (io_res s) 0) as [Hneg|Hpos]; cbn.
  { left. eauto. }
  set (r := o _ (Await _)). destruct (io_refused r) as [reason|] eqn:Hr; cbn.
  { right. do 4 eexists. split; [done|]. rewrite Hr. eauto. }
  destruct (Z.ltb_spec (io_res r) 0); cbn.
  - right. do 4 eexists. split; [done|]. rewrite Hr. rewrite (proj2 (Z.ltb_lt _ _)) by done. eauto.
  - do 3 eexists. split; [done|]. rewrite Hr. rewrite (proj2 (Z.ltb_ge _ _)) by done. eauto.
Qed.

Lemma connect_failed_live a h h' e : connect_failed a h h' e -> live h' = live h.
Proof.
  intros [(r & -> & Hr & _)|(fd & s & r & c & -> & Hs & Hfd & _)]; cbn.
  - by rewrite (proj2 (Z.ltb_lt _ _)).
  - rewrite Hs, (proj2 (Z.ltb_ge _ _)) by done. apply drop_one_head.
Qed.

(** C15. [TcpStream::connect_on] refuses an empty list without a call.  Otherwise it
    tries the addresses one after the other, each with a socket of its own for the
    address's family, and returns a stream on the first socket that connects, with both
    lanes empty, leaving the later addresses alone; or, when every address failed, the
    error of the last one.  The sockets of failed attempts are closed: the stream's is
    the only descriptor left.  It always returns. *)
Theorem connect_on_meaning {A} `{ToSocketAddrs A} (addresses : A) o h :
  run_post (connect_on addresses) o tt h (fun r _ h' => exists x, r = Done x /\
    if is_empty (to_socket_addrs addresses) then x = Err no_addresses /\ h' = h else
    tried connect_failed connected (to_socket_addrs addresses) h x h' /\
    live h' = match x with Ok stream => st_fd stream :: live h | Err _ => live h end).
Proof.
  unfold connect_on. destruct (to_socket_addrs addresses) as [|a l] eqn:Hl; cbn [is_empty]; [by eexists|].
  eapply run_post_mono; [by eapply first_success_tried; [apply connect_attempts|]|].
  intros r [] h' (x & -> & Hx). exists x. split; [done|]. split; [done|]. destruct x as [stream|e].
  - destruct Hx as (pre & b & post & h1 & _ & Hf & fd & s & r & -> & <- & Hfd & _ & ->). cbn.
    rewrite (proj2 (Z.ltb_ge _ _)) by done. f_equal. by eapply failures_live; [apply connect_failed_live|].
  - destruct Hx as (pre & b & h1 & _ & Hf & HF). rewrite (connect_failed_live _ _ _ _ HF).
    by eapply failures_live; [apply connect_failed_live|].
Qed.

(** An attempt to bind: no socket, or a socket closed because it could not be bound or
    could not listen; or a listening socket. *)
Definition bind_failed (a : SocketAddr) (h h' : iohistory) (e : IoError) : Prop :=
  (exists r, h' = (SysSocket (is_ipv4 a), r) :: h /\ io_res r < 0 /\ e = RawOs (- io_res r)) \/
  (exists fd s b c, h' = (SysClose fd, c) :: (SysBind fd a, b) :: (SysSocket (is_ipv4 a), s) :: h /\
    io_res s = fd /\ 0 <= fd /\ io_res b < 0 /\ e = RawOs (- io_res b)) \/
  (exists fd s b l c, h' = (SysClose fd, c) :: (SysListen fd 1024, l) :: (SysBind fd a, b) ::
      (SysSocket (is_ipv4 a), s) :: h /\
    io_res s = fd /\ 0 <= fd /\ 0 <= io_res b /\ io_res l < 0 /\ e = RawOs (- io_res l)).

Definition bound (a : SocketAddr) (h h' : iohistory) (fd : Z) : Prop :=
  exists s b l, h' = (SysListen fd 1024, l) :: (SysBind fd a, b) :: (SysSocket (is_ipv4 a), s) :: h /\
    io_res s = fd /\ 0 <= fd /\ 0 <= io_res b /\ 0 <= io_res l.

Lemma bind_attempts o : attempts bind_failed bound o bind_socket.
Proof.
  intros a h. unfold bind_socket, tcp_socket, syscall, or_close, close, bind_failed, bound, run_post. run_unfold.
  set (s := o h _). destruct (Z.ltb_spec (io_res s) 0) as [Hneg|Hpos]; cbn; [left; by eauto|].
  set (b := o _ (SysBind _ _)). destruct (Z.ltb_spec (io_res b) 0) as [Hb|Hb]; cbn; [right; left; by eauto 12|].
  set (l := o _ (SysListen _ _)).
  destruct (Z.ltb_spec (io_res l) 0) as [Hl|Hl]; cbn; [right; right|]; by eauto 15.
Qed.

Lemma bind_failed_live a h h' e : bind_failed a h h' e -> live h' = live h.
Proof.
  intros [(r & -> & Hr & _)|[(fd & s & b & c & -> & Hs & Hfd & _)|(fd & s & b & l & c & -> & Hs & Hfd & _)]]; cbn.
  - by rewrite (proj2 (Z.ltb_lt _ _)).
  - rewrite Hs, (proj2 (Z.ltb_ge _ _)) by done. apply drop_one_head.
  - rewrite Hs, (proj2 (Z.ltb_ge _ _)) by done. apply drop_one_head.
Qed.

(** [TcpListener::bind_on] makes no system call when the runtime is closed (and says
    so) or the list is empty.  Otherwise the addresses are tried in order, each with
    socket, bind and listen: the listener is the first socket that listens, the error
    that of the last address; every other socket is closed. *)
Theorem bind_on_meaning {A} `{ToSocketAddrs A} running (addresses : A) o h :
  run_post (bind_on running addresses) o tt h (fun r _ h' => exists x, r = Done x /\
    if negb running then x = Err runtime_closed_error /\ h' = h else
    if is_empty (to_socket_addrs addresses) then x = Err no_addresses /\ h' = h else
    tried bind_failed bound (to_socket_addrs addresses) h x h' /\
    live h' = match x with Ok fd => fd :: live h | Err _ => live h end).
Proof.
  unfold bind_on. destruct running; cbn [negb]; [|by eexists].
  destruct (to_socket_addrs addresses) as [|a l] eqn:Hl; cbn [is_empty]; [by eexists|].
  eapply run_post_mono; [by eapply first_success_tried; [apply bind_attempts|]|].
  intros r [] h' (x & -> & Hx). exists x. split; [done|]. split; [done|]. destruct x as [fd|e].
  - destruct Hx as (pre & b & post & h1 & _ & Hf & s & c & l' & -> & <- & Hfd & _). cbn.
    rewrite (proj2 (Z.ltb_ge _ _)) by done. f_equal. by eapply failures_live; [apply bind_failed_live|].
  - destruct Hx as (pre & b & h1 & _ & Hf & HF). rewrite (bind_failed_live _ _ _ _ HF).
    by eapply failures_live; [apply bind_failed_live|].
Qed.

(** ** Accepting *)

(** One round of [accept] that is retried: the queue was empty and its readiness
    operation completed, or the call was interrupted. *)
Definition transient (r : ioresp) (kind : ErrorKind) : Prop :=
  io_res r < 0 /\ error_kind (RawOs (- io_res r)) = kind.

Inductive retried (o : iooracle) (fd : Z) : nat -> iohistory -> iohistory -> Prop :=
| retried_none h : retried o fd 0 h h
| retried_interrupted n h h' :
    let a := o h (SysAccept4 fd) in
    transient a KInterrupted -> retried o fd n ((SysAccept4 fd, a) :: h) h' -> retried o fd (S n) h h'
| retried_ready n h h' :
    let a := o h (SysAccept4 fd) in
    let h1 := (SysAccept4 fd, a) :: h in
    let p := o h1 (Await (EPollAdd fd POLLIN)) in
    transient a KWouldBlock -> op_result p = Ok tt ->
    retried o fd n ((Await (EPollAdd fd POLLIN), p) :: h1) h' -> retried o fd (S n) h h'.

(** How the last round ends [accept]. *)
Definition accepted (o : iooracle) (fd : Z) (h : iohistory) (x : result IoError (TcpStream * SocketAddr))
    (h' : iohistory) : Prop :=
  let a := o h (SysAccept4 fd) in
  let h1 := (SysAccept4 fd, a) :: h in
  if 0 <=? io_res a then
    match io_address a with
    | Some address => x = Ok (from_socket (io_res a), address) /\ h' = h1
    | None => x = Err non_ip /\ h' = (SysClose (io_res a), o h1 (SysClose (io_res a))) :: h1
    end
  else
    let error := RawOs (- io_res a) in
    let p := o h1 (Await (EPollAdd fd POLLIN)) in
    match error_kind error with
    | KInterrupted => False
    | KWouldBlock => h' = (Await (EPollAdd fd POLLIN), p) :: h1 /\ exists e, op_result p = Err e /\ x = Err e
    | _ => x = Err error /\ h' = h1
    end.

Definition finished (o : iooracle) (fd : Z) (h : iohistory) : Prop := exists x h', accepted o fd h x h'.

Lemma transient_ltb r k : transient r k -> (io_res r <? 0) = true.
Proof. intros [H _]. by apply Z.ltb_lt. Qed.

(** The rounds of [accept] do not depend on the fuel. *)
Lemma accept_retried o fd n h h' fuel :
  retried o fd n h h' -> accept (n + fuel) fd o tt h = accept fuel fd o tt h'.
Proof.
  induction 1 as [h|n h h' a Ht _ IH|n h h' a h1 p Ht Hp _ IH]; [done|..]; cbn [Nat.add accept];
    unfold accept_socket; run_unfold; fold a; rewrite (transient_ltb _ _ Ht); cbn;
    destruct Ht as [_ Hk]; cbn in Hk; rewrite Hk.
  - exact IH.
  - unfold await. run_unfold. fold h1. fold p. unfold op_result in Hp. unfold io_result.
    destruct (io_refused p) eqn:Hr; [done|]. destruct (io_res p <? 0) eqn:Hneg; [done|]. exact IH.
Qed.

(** Every round ends the call or is retried. *)
Lemma accept_round o fd h :
  (exists x h', accepted o fd h x h' /\ forall fuel, accept (S fuel) fd o tt h = (Done x, tt, h')) \/
  (exists h1, retried o fd 1 h h1 /\ ~ finished o fd h).
Proof.
  unfold finished, accepted. set (a := o h (SysAccept4 fd)). set (h1 := (SysAccept4 fd, a) :: h).
  set (p := o h1 (Await (EPollAdd fd POLLIN))).
  destruct (Z.ltb_spec (io_res a) 0) as [Hneg|Hpos].
  - rewrite (proj2 (Z.leb_gt _ _)) by done.
    assert (forall fuel, accept (S fuel) fd o tt h =
      (let error := RawOs (- io_res a) in
       match error_kind error with
       | KWouldBlock => let? _ := await (poll_work fd POLLIN) in accept fuel fd
       | KInterrupted => accept fuel fd
       | _ => mret (Err error)
       end) o tt h1) as Hrun.
    { intros fuel. cbn [accept]. unfold accept_socket. run_unfold. fold a. by rewrite (proj2 (Z.ltb_lt _ _)). }
    destruct (error_kind (RawOs (- io_res a))) eqn:Hk; cbn in Hk;
      try (left; do 2 eexists; split; [done|]; intros fuel; rewrite Hrun; cbn; by rewrite Hk).
    + destruct (op_result p) as [[]|e] eqn:Hp.
      * right. eexists. split; [eapply retried_ready; [done|done|apply retried_none]|].
        intros (x & h' & _ & e & ? & _). done.
      * left. exists (Err e). eexists. split; [split; [done|by exists e]|]. intros fuel. rewrite Hrun. cbn. rewrite Hk.
        unfold await. run_unfold. fold p. unfold op_result in Hp. unfold io_result.
        destruct (io_refused p); [by injection Hp as ->|]. by destruct (io_res p <? 0); [injection Hp as <-|].
    + right. eexists. split; [eapply retried_interrupted; [done|apply retried_none]|]. by intros (x & h' & ?).
  - rewrite (proj2 (Z.leb_le _ _)) by done. left.
    destruct (io_address a) as [address|] eqn:Ha; do 2 eexists; (split; [done|]); intros fuel; cbn [accept];
      unfold accept_socket, or_close, close; run_unfold; fold a; rewrite (proj2 (Z.ltb_ge _ _)) by done;
      cbn; rewrite Ha; done.
Qed.

Lemma retried_trans o fd n m h h1 h2 : retried o fd n h h1 -> retried o fd m h1 h2 -> retried o fd (n + m) h h2.
Proof. induction 1; intros Hm; [done|..]; [eapply retried_interrupted|eapply retried_ready]; eauto. Qed.

Lemma retried_live o fd n h h' : retried o fd n h h' -> live h' = live h.
Proof.
  induction 1 as [|n h h' a [Ha _] _ IH|n h h' a h1 p [Ha _] _ _ IH]; [done|..]; rewrite IH; cbn;
    by rewrite (proj2 (Z.ltb_lt _ _)).
Qed.

Lemma accepted_live o fd h x h' :
  accepted o fd h x h' -> live h' = match x with Ok (stream, _) => st_fd stream :: live h | Err _ => live h end.
Proof.
  unfold accepted. destruct (Z.leb_spec 0 (io_res (o h (SysAccept4 fd)))) as [Hge|Hlt].
  - destruct (io_address _); intros [-> ->]; cbn; rewrite (proj2 (Z.ltb_ge _ _)) by done; [done|apply drop_one_head].
  - destruct (error_kind _); try (intros [-> ->]; cbn; by rewrite (proj2 (Z.ltb_lt _ _))); [|done].
    intros (-> & e & _ & ->). cbn. by rewrite (proj2 (Z.ltb_lt _ _)).
Qed.

Lemma accept_rounds o fd fuel h :
  (exists n h1 x h', (n < fuel)%nat /\ retried o fd n h h1 /\ accepted o fd h1 x h' /\
     accept fuel fd o tt h = (Done x, tt, h')) \/
  (exists h', retried o fd fuel h h' /\ accept fuel fd o tt h = (Blocked "accept", tt, h')).
Proof.
  revert h. induction fuel as [|fuel IH]; intros h; [right; eexists; by split; [constructor|]|].
  destruct (accept_round o fd h) as [(x & h' & Ha & Hrun)|(h1 & H1 & _)].
  - left. exists 0%nat, h, x, h'. split_and!; [lia|constructor|done|apply Hrun].
  - change (S fuel) with (1 + fuel)%nat. rewrite (accept_retried _ _ _ _ _ fuel H1).
    destruct (IH h1) as [(n & h2 & x & h' & Hn & H2 & Ha & ->)|(h' & H2 & ->)]; [left|right].
    + exists (1 + n)%nat, h2, x, h'. split_and!; [lia|by eapply retried_trans|done|done].
    + exists h'. split; [by eapply retried_trans|done].
Qed.

(** C16. [TcpListener::accept] retries exactly the rounds in which the call was
    interrupted, or found no connection and the readiness operation completed: it returns
    after the first other round, with a stream on the descriptor the kernel gave and the
    peer's address, or the error of that round.  A descriptor whose peer address is not
    an IP address is closed.  The fuel only bounds the retries: if the round after [n]
    of them ends the call, any larger fuel returns its result. *)
Theorem accept_meaning o fd h :
  (forall fuel, run_post (accept fuel fd) o tt h (fun r _ h' =>
    match r with
    | Done x => (exists n h1, (n < fuel)%nat /\ retried o fd n h h1 /\ accepted o fd h1 x h') /\
        live h' = match x with Ok (stream, _) => st_fd stream :: live h | Err _ => live h end
    | Blocked _ => retried o fd fuel h h' /\ live h' = live h
    | _ => False
    end)) /\
  (forall n h1 fuel, retried o fd n h h1 -> finished o fd h1 -> (n < fuel)%nat ->
    exists x h', accepted o fd h1 x h' /\ accept fuel fd o tt h = (Done x, tt, h')).
Proof.
  split.
  - intros fuel. unfold run_post.
    destruct (accept_rounds o fd fuel h) as [(n & h1 & x & h' & Hn & Hr & Ha & ->)|(h' & Hr & ->)]; cbn.
    + split; [by exists n, h1|]. rewrite (accepted_live _ _ _ _ _ Ha). by rewrite (retried_live _ _ _ _ _ Hr).
    + split; [done|]. by eapply retried_live.
  - intros n h1 fuel Hr Hf Hn. replace fuel with (n + S (fuel - n - 1))%nat by lia.
    rewrite (accept_retried _ _ _ _ _ _ Hr).
    destruct (accept_round o fd h1) as [(x & h' & Ha & Hrun)|(h2 & _ & Hno)]; [|done].
    exists x, h'. by split.
Qed.

(** ** Owned transfers *)

Definition recv_entry (fd pointer : Z) (total d : nat) : Entry :=
  ERecv fd (pointer + Z.of_nat d) (Z.of_nat (total - d)).

Definition send_entry (fd pointer : Z) (bytes : list Z) (d : nat) : Entry :=
  ESend fd (pointer + Z.of_nat d) (Z.of_nat (length bytes - d)) MSG_NOSIGNAL (drop d bytes).

Definition oversized_receive : IoError := Custom KInvalidData "kernel returned an oversized receive".
Definition oversized_send : IoError := Custom KInvalidData "kernel returned an oversized send".

(** What the loops refuse without a call. *)
Definition too_large_at (total d : nat) : option IoError :=
  if Z.of_nat (total - d) >? u32_max then Some too_large else None.

Lemma recv_one_step {B} `{IoBufMutLaws B} fd (b0 b : B) l :
  filled b0 b l ->
  one_step (recv_offset fd) (recv_entry fd (stable_ptr b0) (bytes_total b0)) (too_large_at (bytes_total b0))
    (fill_result "kernel returned an oversized receive" (bytes_total b0)) b (moved l).
Proof.
  intros (Hp & Hm & _) o h. unfold recv_offset, too_large_at. rewrite !total_is_memory, Hm.
  destruct (Z.of_nat _ >? u32_max) eqn:Hs; [done|]. unfold await, recv_work, recv_entry. run_unfold.
  rewrite (wrap_u32_small _ Hs), mut_ptr_same, Hp. unfold fill_result. by destruct (io_refused _).
Qed.

Lemma send_one_step {B} `{IoBuf B} fd (b : B) d :
  buf_wf b ->
  one_step (send_offset fd) (send_entry fd (stable_ptr b) (take (bytes_init b) (memory b)))
    (too_large_at (bytes_init b)) (drain_result "kernel returned an oversized send" (bytes_init b)) b d.
Proof.
  intros Hwf o h. unfold send_offset, too_large_at.
  destruct (Z.of_nat _ >? u32_max) eqn:Hs; [done|]. unfold await, send_work, send_entry. run_unfold.
  rewrite (wrap_u32_small _ Hs), length_take, (Nat.min_l _ _ Hwf), skipn_firstn_comm. unfold drain_result.
  by destruct (io_refused _).
Qed.

(** The bytes the kernel took from the sends of a transfer. *)
Fixpoint taken (l : iohistory) : list Z :=
  match l with
  | [] => []
  | (Await (ESend _ _ _ _ bytes), r) :: l => taken l ++ take (count r) bytes
  | _ :: l => taken l
  end.

Lemma sends_taken o h fd pointer data l :
  in_order o h (send_entry fd pointer data) (length data) l -> taken l = take (moved l) data.
Proof.
  induction l as [|[c r] l IH]; [done|]. intros (-> & _ & _ & _ & _ & Ho). cbn. rewrite IH by done.
  apply take_take_drop.
Qed.

(** [recv_exact] always returns.  Its receives fill the allocation from the start
    without gap, never outside it; on success the buffer is exactly the bytes the peer
    delivered, in order, all initialized; on an error (the peer closed early, an
    oversized or failed receive, a refusal) what arrived before it stays at the start of
    the returned buffer. *)
Theorem recv_exact_meaning {B} `{IoBufMutLaws B} fd (b : B) o h :
  buf_wf b -> (forall d, (d < bytes_total b)%nat -> delivers o (recv_entry fd (stable_ptr b) (bytes_total b) d)) ->
  run_post (recv_exact fd b) o tt h (fun r _ h' => exists x l, r = Done x /\
    transferred o (recv_entry fd (stable_ptr b) (bytes_total b)) (too_large_at (bytes_total b))
      closed_early oversized_receive (bytes_total b) (filled b) h x h' /\
    take (length (delivered l)) (memory x.2) = delivered l /\ (length (delivered l) <= bytes_init x.2)%nat /\
    match x.1 with
    | Ok _ => h' = l ++ h /\ memory x.2 = delivered l /\ bytes_init x.2 = bytes_total b
    | Err _ => h' = l ++ h \/ exists last, h' = last :: l ++ h
    end).
Proof.
  intros Hwf Hdel. eapply run_post_mono.
  { apply fill_transfer; [done| |auto]. intros. by apply recv_one_step. }
  intros r [] h' (x & -> & Ht). pose proof Ht as (l & Ho & _ & Hk & Hx). exists x, l. split; [done|]. split; [done|].
  destruct Hk as (_ & Hlen & Hwf' & Hi & Hdl & Hmem). rewrite Hdl. split; [done|]. split; [done|].
  destruct x as [[[]|e] b']; cbn [fst snd] in *.
  - destruct Hx as [-> Hm]. rewrite Hm, total_is_memory in *. split; [done|].
    rewrite take_ge in Hmem by lia. unfold buf_wf in Hwf'. split; [done|lia].
  - destruct Hx as [_ [[-> _]|(-> & _)]]; [by left|right; by eexists].
Qed.

(** [send_all] always returns, with the caller's buffer.  Its sends, all with
    [MSG_NOSIGNAL], cover the initialized prefix without gap or overlap: the bytes the
    kernel took are the whole prefix on success and a proper prefix of it before an
    error. *)
Theorem send_all_meaning {B} `{IoBuf B} fd (b : B) o h :
  let data := take (bytes_init b) (memory b) in
  buf_wf b ->
  run_post (send_all fd b) o tt h (fun r _ h' => exists x l, r = Done x /\ x.2 = b /\
    transferred o (send_entry fd (stable_ptr b) data) (too_large_at (bytes_init b))
      unsent oversized_send (bytes_init b) (fun b' _ => b' = b) h x h' /\
    taken l = take (moved l) data /\
    match x.1 with
    | Ok _ => h' = l ++ h /\ taken l = data
    | Err _ => (moved l < length data)%nat /\ (h' = l ++ h \/ exists last, h' = last :: l ++ h)
    end).
Proof.
  intros data Hwf. assert (length data = bytes_init b) as Hlen by (apply length_take_le, Hwf).
  eapply run_post_mono.
  { apply drain_transfer. intros. by apply send_one_step. }
  intros r [] h' (x & -> & Ht). pose proof Ht as (l & Ho & _ & Hk & Hx). exists x, l. do 3 (split; [done|]).
  fold data in Ho. rewrite <- Hlen in Ho, Hx.
  pose proof (sends_taken _ _ _ _ _ _ Ho) as Htk. split; [done|].
  destruct x as [[[]|e] b']; cbn [fst snd] in *.
  - destruct Hx as [-> Hm]. split; [done|]. by rewrite Htk, Hm, firstn_all.
  - destruct Hx as [Hlt [[-> _]|(-> & _)]]; (split; [done|]); [by left|right; by eexists].
Qed.

(** ** Readiness lanes *)

(** Whether the last poll of the operation [e] left it pending. *)
Fixpoint lane_state (e : Entry) (h : iohistory) : bool :=
  match h with
  | [] => false
  | (PollOnce _ e', r) :: h => if decide (e' = e) then io_pending r else lane_state e h
  | _ :: h => lane_state e h
  end.

(** A new operation [e] is made only when none is pending, and a pending one is polled
    again: there are never two. *)
Fixpoint lane_ok (e : Entry) (h : iohistory) : Prop :=
  match h with
  | [] => True
  | (PollOnce fresh e', _) :: h => (e' = e -> fresh = negb (lane_state e h)) /\ lane_ok e h
  | _ :: h => lane_ok e h
  end.

(** The lanes of a stream agree with the history. *)
Definition lanes_ok (s : TcpStream) (h : iohistory) : Prop :=
  let rd := EPollAdd (st_fd s) POLLIN in
  let wr := EPollAdd (st_fd s) POLLOUT in
  read_ready s = lane_state rd h /\ write_ready s = lane_state wr h /\ lane_ok rd h /\ lane_ok wr h.

Lemma lanes_ok_call s c r h : (forall fresh e, c <> PollOnce fresh e) -> lanes_ok s h -> lanes_ok s ((c, r) :: h).
Proof. intros Hc Hl. destruct c; try exact Hl. by edestruct Hc. Qed.

Lemma lane_poll_lanes (read : bool) o s h :
  POLLIN <> POLLOUT -> lanes_ok s h ->
  let events := if read then POLLIN else POLLOUT in
  let lane := if read then read_ready s else write_ready s in
  run_post (lane_poll (st_fd s) events lane) o tt h (fun r _ h' => exists p lane',
    r = Done (p, lane') /\ lanes_ok (if read then with_read_ready lane' s else with_write_ready lane' s) h' /\
    exists a, h' = (PollOnce (negb lane) (EPollAdd (st_fd s) events), a) :: h /\ io_pending a = lane' /\
      p = if lane' then Pending else Ready (op_result a)).
Proof.
  intros Hne (Hr & Hw & Hor & How) events lane. unfold lane_poll, run_post. run_unfold. set (a := o h _).
  exists (if io_pending a then Pending else Ready (op_result a)), (io_pending a).
  split; [|split; [|by exists a]].
  { unfold op_result, io_result. destruct (io_pending a); [done|].
    destruct (io_refused a); [done|]. by destruct (io_res a <? 0). }
  unfold lanes_ok, with_read_ready, with_write_ready, events, lane in *.
  destruct read; cbn [st_fd read_ready write_ready lane_state lane_ok];
    repeat case_decide; try congruence; split_and!; try done; intros; congruence.
Qed.

Section Borrowed.
Context (events_differ : POLLIN <> POLLOUT).

(** What a borrowed operation keeps of its stream. *)
Definition same_stream (s s' : TcpStream) (h' : iohistory) : Prop := st_fd s' = st_fd s /\ lanes_ok s' h'.

(** What a negative answer of a socket call is to the code. *)
Definition answered_kind (a : ioresp) : ErrorKind := error_kind (RawOs (- io_res a)).
Definition would_block (a : ioresp) : Prop := io_res a < 0 /\ answered_kind a = KWouldBlock.
Definition interrupted (a : ioresp) : Prop := io_res a < 0 /\ answered_kind a = KInterrupted.
Definition fails (a : ioresp) (e : IoError) : Prop :=
  io_res a < 0 /\ answered_kind a <> KWouldBlock /\ answered_kind a <> KInterrupted /\ e = RawOs (- io_res a).

(** [n] attempts at the call [c] that were retried: interrupted, or not ready and the
    readiness operation [e] then completed. *)
Inductive attempted (c : iocall) (e : Entry) (h : iohistory) : nat -> iohistory -> Prop :=
| attempted_none : attempted c e h 0 h
| attempted_interrupted n h1 a : attempted c e h n h1 -> interrupted a -> attempted c e h (S n) ((c, a) :: h1)
| attempted_ready n h1 a fresh b :
    attempted c e h n h1 -> would_block a -> io_pending b = false -> op_result b = Ok tt ->
    attempted c e h (S n) ((PollOnce fresh e, b) :: (c, a) :: h1).

Lemma attempted_trans c e h m h1 n h2 : attempted c e h m h1 -> attempted c e h1 n h2 -> attempted c e h (m + n) h2.
Proof.
  intros H1. induction 1; rewrite <- ?plus_n_O, <- ?plus_n_Sm; [done|by apply attempted_interrupted|by apply attempted_ready].
Qed.

(** The attempts ended in an answer to the call, which succeeded. *)
Definition succeeded (c : iocall) (e : Entry) (fuel : nat) (h h' : iohistory) (a : ioresp) : Prop :=
  exists n h1, (n < fuel)%nat /\ attempted c e h n h1 /\ h' = (c, a) :: h1 /\ 0 <= io_res a.

(** They ended in an error: of the call, or of the readiness operation after a call that
    would have blocked. *)
Definition failed_with (c : iocall) (e : Entry) (fuel : nat) (h h' : iohistory) (error : IoError) : Prop :=
  exists n h1 a, (n < fuel)%nat /\ attempted c e h n h1 /\
    (h' = (c, a) :: h1 /\ fails a error \/
     exists fresh b, h' = (PollOnce fresh e, b) :: (c, a) :: h1 /\ would_block a /\
       io_pending b = false /\ op_result b = Err error).

(** They ended with a readiness operation that is pending. *)
Definition awaits_lane (c : iocall) (e : Entry) (fuel : nat) (h h' : iohistory) : Prop :=
  exists n h1 a fresh b, (n < fuel)%nat /\ attempted c e h n h1 /\
    h' = (PollOnce fresh e, b) :: (c, a) :: h1 /\ would_block a /\ io_pending b = true.

(** One more attempt at the front. *)
Lemma attempt_more c e fuel h h1 h' :
  attempted c e h 1 h1 ->
  (forall a, succeeded c e fuel h1 h' a -> succeeded c e (S fuel) h h' a) /\
  (forall error, failed_with c e fuel h1 h' error -> failed_with c e (S fuel) h h' error) /\
  (awaits_lane c e fuel h1 h' -> awaits_lane c e (S fuel) h h') /\
  (attempted c e h1 fuel h' -> attempted c e h (S fuel) h').
Proof.
  intros H1. split; [|split; [|split]].
  - intros a (n & h2 & Hn & Ht & Hr). exists (S n), h2. split; [lia|]. split; [exact (attempted_trans _ _ _ 1 _ _ _ H1 Ht)|done].
  - intros er (n & h2 & a & Hn & Ht & Hr). exists (S n), h2, a. split; [lia|]. split; [exact (attempted_trans _ _ _ 1 _ _ _ H1 Ht)|done].
  - intros (n & h2 & a & f & b & Hn & Ht & Hr). exists (S n), h2, a, f, b. split; [lia|].
    split; [exact (attempted_trans _ _ _ 1 _ _ _ H1 Ht)|done].
  - intros Ht. exact (attempted_trans _ _ _ 1 _ _ _ H1 Ht).
Qed.

Definition recv_call {R} `{ReadBufOps R} (s : TcpStream) (buf : R) : iocall :=
  SysRecv (st_fd s) (Z.of_nat (rb_remaining buf)).
Definition send_call (s : TcpStream) (buf : list Z) : iocall := SysSend (st_fd s) MSG_NOSIGNAL buf.

Definition read_post {R} `{ReadBufOps R} (fuel : nat) (s : TcpStream) (buf : R) (h : iohistory)
    (r : outcome (Poll (result IoError unit) * TcpStream * R)) (_ : unit) (h' : iohistory) : Prop :=
  let c := recv_call s buf in
  let e := EPollAdd (st_fd s) POLLIN in
  match r with
  | Done (Ready (Ok _), s', buf') => same_stream s s' h' /\ write_ready s' = write_ready s /\
      (rb_remaining buf = 0%nat /\ buf' = buf /\ h' = h \/
       (0 < rb_remaining buf)%nat /\ exists a, succeeded c e fuel h h' a /\
         let read := Z.to_nat (io_res a) in
         buf' = rb_advance read (rb_assume_init read (rb_write (io_bytes a) buf)))
  | Done (Ready (Err error), s', buf') => same_stream s s' h' /\ write_ready s' = write_ready s /\ buf' = buf /\
      (0 < rb_remaining buf)%nat /\ failed_with c e fuel h h' error
  | Done (Pending, s', buf') => same_stream s s' h' /\ write_ready s' = write_ready s /\ buf' = buf /\
      (0 < rb_remaining buf)%nat /\ read_ready s' = true /\ awaits_lane c e fuel h h'
  | Blocked _ => (0 < fuel -> 0 < rb_remaining buf)%nat /\ attempted c e h fuel h'
  | _ => False
  end.

Lemma poll_read_post {R} `{ReadBufOps R} fuel o s (buf : R) h :
  lanes_ok s h -> run_post (poll_read fuel s buf) o tt h (read_post fuel s buf h).
Proof.
  revert s h. induction fuel as [|fuel IH]; intros s h Hs; [split; [lia|constructor]|]. cbn [poll_read].
  destruct (Nat.eqb_spec (rb_remaining buf) 0) as [H0|Hpos]; [apply run_post_ret; cbn; unfold same_stream; auto 10|].
  assert (0 < rb_remaining buf)%nat as Hroom by lia.
  assert (forall s1 h1, lanes_ok s1 h1 -> st_fd s1 = st_fd s -> write_ready s1 = write_ready s ->
    attempted (recv_call s buf) (EPollAdd (st_fd s) POLLIN) h 1 h1 ->
    run_post (poll_read fuel s1 buf) o tt h1 (read_post (S fuel) s buf h)) as Hagain.
  { intros s1 h1 H1 Hfd Hw Ht. eapply run_post_mono; [by apply IH|]. intros r [] h' Hp.
    pose proof (attempt_more _ _ fuel _ _ h' Ht) as (M1 & M2 & M3 & M4).
    destruct r as [[[[[[]|]|] s'] buf']| | |]; cbn in *; unfold same_stream, recv_call in *; rewrite ?Hfd, ?Hw in *;
      naive_solver. }
  apply run_post_bind, run_post_call. set (a := o h _). cbn zeta. cbn [then_post].
  assert (lanes_ok s ((SysRecv (st_fd s) (Z.of_nat (rb_remaining buf)), a) :: h)) as Hs1 by by apply lanes_ok_call.
  destruct (Z.leb_spec 0 (io_res a)) as [Hge|Hlt].
  { apply run_post_ret. cbn. split; [done|]. split; [done|]. right. split; [done|]. exists a. split; [|done].
    exists 0%nat, h. split; [lia|]. split; [constructor|done]. }
  destruct (error_kind (RawOs (- io_res a))) eqn:Ek.
  all: try (apply run_post_ret; cbn; split; [done|]; split; [done|]; split; [done|]; split; [done|];
    exists 0%nat, h, a; split; [lia|]; split; [constructor|]; left; split; [done|];
    unfold fails, answered_kind; rewrite Ek; by split_and!).
  - apply run_post_bind. eapply run_post_mono; [by apply (lane_poll_lanes true)|].
    intros r [] h2 (p & lane & -> & Hl & b & -> & Hp & ->). cbn [then_post fst snd].
    destruct lane.
    { apply run_post_ret. cbn. do 5 (split; [done|]). do 5 eexists. split; [|split; [apply attempted_none|by split]]. lia. }
    destruct (op_result b) as [[]|e] eqn:Eb.
    + apply Hagain; [done..|]. eapply attempted_ready; [apply attempted_none|done..].
    + apply run_post_ret. cbn. do 4 (split; [done|]). exists 0%nat, h, a. split; [lia|]. split; [constructor|].
      right. by do 2 eexists.
  - apply Hagain; [done..|]. eapply attempted_interrupted; [apply attempted_none|done].
Qed.

Definition write_post (fuel : nat) (s : TcpStream) (buf : list Z) (h : iohistory)
    (r : outcome (Poll (result IoError Z) * TcpStream)) (_ : unit) (h' : iohistory) : Prop :=
  let c := send_call s buf in
  let e := EPollAdd (st_fd s) POLLOUT in
  match r with
  | Done (Ready (Ok n), s') => same_stream s s' h' /\ read_ready s' = read_ready s /\
      exists a, succeeded c e fuel h h' a /\ io_res a = n
  | Done (Ready (Err error), s') => same_stream s s' h' /\ read_ready s' = read_ready s /\
      failed_with c e fuel h h' error
  | Done (Pending, s') => same_stream s s' h' /\ read_ready s' = read_ready s /\ write_ready s' = true /\
      awaits_lane c e fuel h h'
  | Blocked _ => attempted c e h fuel h'
  | _ => False
  end.

Lemma poll_write_post fuel o s buf h :
  lanes_ok s h -> run_post (poll_write fuel s buf) o tt h (write_post fuel s buf h).
Proof.
  revert s h. induction fuel as [|fuel IH]; intros s h Hs; [constructor|]. cbn [poll_write].
  assert (forall s1 h1, lanes_ok s1 h1 -> st_fd s1 = st_fd s -> read_ready s1 = read_ready s ->
    attempted (send_call s buf) (EPollAdd (st_fd s) POLLOUT) h 1 h1 ->
    run_post (poll_write fuel s1 buf) o tt h1 (write_post (S fuel) s buf h)) as Hagain.
  { intros s1 h1 H1 Hfd Hw Ht. eapply run_post_mono; [by apply IH|]. intros r [] h' Hp.
    pose proof (attempt_more _ _ fuel _ _ h' Ht) as (M1 & M2 & M3 & M4).
    destruct r as [[[[n|]|] s']| | |]; cbn in *; unfold same_stream, send_call in *; rewrite ?Hfd, ?Hw in *;
      naive_solver. }
  apply run_post_bind, run_post_call. set (a := o h _). cbn zeta. cbn [then_post].
  assert (lanes_ok s ((SysSend (st_fd s) MSG_NOSIGNAL buf, a) :: h)) as Hs1 by by apply lanes_ok_call.
  destruct (Z.leb_spec 0 (io_res a)) as [Hge|Hlt].
  { apply run_post_ret. cbn. do 2 (split; [done|]). exists a. split; [|done].
    exists 0%nat, h. split; [lia|]. split; [constructor|done]. }
  destruct (error_kind (RawOs (- io_res a))) eqn:Ek.
  all: try (apply run_post_ret; cbn; split; [done|]; split; [done|];
    exists 0%nat, h, a; split; [lia|]; split; [constructor|]; left; split; [done|];
    unfold fails, answered_kind; rewrite Ek; by split_and!).
  - apply run_post_bind. eapply run_post_mono; [by apply (lane_poll_lanes false)|].
    intros r [] h2 (p & lane & -> & Hl & b & -> & Hp & ->). cbn [then_post fst snd].
    destruct lane.
    { apply run_post_ret. cbn. do 3 (split; [done|]). do 5 eexists. split; [|split; [apply attempted_none|by split]]. lia. }
    destruct (op_result b) as [[]|e] eqn:Eb.
    + apply Hagain; [done..|]. eapply attempted_ready; [apply attempted_none|done..].
    + apply run_post_ret. cbn. do 2 (split; [done|]). exists 0%nat, h, a. split; [lia|]. split; [constructor|].
      right. by do 2 eexists.
  - apply Hagain; [done..|]. eapply attempted_interrupted; [apply attempted_none|done].
Qed.

(** More fuel does not change a poll that returned. *)
Lemma poll_read_more {R} `{ReadBufOps R} k fuel o s (buf : R) h x h' :
  poll_read fuel s buf o tt h = (Done x, tt, h') -> poll_read (fuel + k) s buf o tt h = (Done x, tt, h').
Proof.
  revert s h. induction fuel as [|fuel IH]; intros s h; [done|]. cbn [poll_read Nat.add].
  destruct (_ =? 0)%nat; [done|]. run_unfold. set (a := o h _). destruct (0 <=? io_res a); [done|].
  destruct (if _ =? EAGAIN then _ else _); try done; [|apply IH].
  unfold lane_poll. run_unfold. destruct (io_pending _); cbn; [done|].
  destruct (match io_refused _ with Some _ => _ | None => _ end) as [[]|e]; [apply IH|done].
Qed.

Lemma poll_write_more k fuel o s buf h x h' :
  poll_write fuel s buf o tt h = (Done x, tt, h') -> poll_write (fuel + k) s buf o tt h = (Done x, tt, h').
Proof.
  revert s h. induction fuel as [|fuel IH]; intros s h; [done|]. cbn [poll_write Nat.add].
  run_unfold. set (a := o h _). destruct (0 <=? io_res a); [done|].
  destruct (if _ =? EAGAIN then _ else _); try done; [|apply IH].
  unfold lane_poll. run_unfold. destruct (io_pending _); cbn; [done|].
  destruct (match io_refused _ with Some _ => _ | None => _ end) as [[]|e]; [apply IH|done].
Qed.

(** C17. A borrowed read or write touches only its own lane of the stream, whose state
    always agrees with the readiness operations polled so far: one is made only when the
    lane has none, and a pending one is kept and polled again.  [poll_read] with a full
    buffer is ready at once, without a call.  Otherwise both retry their call for as long
    as it is interrupted, or would block and the readiness operation then completes, and
    end with the first other answer: ready with what that receive or send transferred
    ([poll_read] with exactly its bytes in the buffer); an error, which is never
    [WouldBlock] nor [Interrupted] of the call itself but any other one of it, or that of
    the readiness operation; or pending, when the readiness operation is pending, with
    its lane set.  Pending or failed, [poll_read] returns the buffer as it was.  A poll
    does not return within its [fuel] attempts only if each of them was one to retry, and
    more fuel returns the same. *)
Theorem borrowed_io_meaning {R} `{ReadBufOps R} o s (rbuf : R) wbuf h :
  lanes_ok s h ->
  (forall fuel, rb_remaining rbuf = 0%nat -> poll_read (S fuel) s rbuf o tt h = (Done (Ready (Ok tt), s, rbuf), tt, h)) /\
  (forall fuel, run_post (poll_read fuel s rbuf) o tt h (read_post fuel s rbuf h)) /\
  (forall fuel, run_post (poll_write fuel s wbuf) o tt h (write_post fuel s wbuf h)) /\
  (forall fuel k x h', poll_read fuel s rbuf o tt h = (Done x, tt, h') ->
     poll_read (fuel + k) s rbuf o tt h = (Done x, tt, h')) /\
  (forall fuel k x h', poll_write fuel s wbuf o tt h = (Done x, tt, h') ->
     poll_write (fuel + k) s wbuf o tt h = (Done x, tt, h')).
Proof.
  intros Hs. split_and!.
  - intros fuel Hfull. cbn [poll_read]. by rewrite Hfull.
  - intros fuel. by apply poll_read_post.
  - intros fuel. by apply poll_write_post.
  - intros fuel k x h'. apply poll_read_more.
  - intros fuel k x h'. apply poll_write_more.
Qed.
End Borrowed.
End Spec.

(** ** Instances *)

Module NetWitness.

#[local] Instance opcodes : OpCodes := {
  OPENAT := 18; READ := 22; WRITE := 23; FSYNC := 3; CONNECT := 16; RECV := 27; SEND := 26; POLL_ADD := 6
}.
#[local] Instance linux : NetFlags := { POLLIN := 1; POLLOUT := 4; MSG_NOSIGNAL := 16384 }.

Definition answer (res : Z) (bytes : list Z) : ioresp := mkIoResp false res bytes None None.

(** A peer that refuses port 1, sends and takes two bytes at a time, and a listener
    whose first call finds no connection; a plain receive is not ready at first. *)
Definition peer : iooracle := fun h c =>
  match c with
  | SysSocket _ => answer (3 + Z.of_nat (length (live h))) []
  | Await (EConnect _ (AddrV4 _ 1)) => answer (-111) []
  | Await (ERecv _ _ len) => answer (Z.min 2 len) (take (Z.to_nat (Z.min 2 len)) [7; 8])
  | Await (ESend _ _ len _ _) => answer (Z.min 2 len) []
  | SysAccept4 _ => if (length h =? 0)%nat then answer (-EAGAIN) []
                    else mkIoResp false 5 [] (Some (AddrV4 1 80)) None
  | SysRecv _ _ => answer (-EAGAIN) []
  | PollOnce _ _ => mkIoResp true 0 [] None None
  | _ => answer 0 []
  end.

Definition target := mkVec 64 [0; 0; 0; 0; 0] 0.
Definition source := mkVec 128 [1; 2; 3; 0] 3.

Lemma peer_delivers pointer total d : delivers peer (recv_entry 4 pointer total d).
Proof.
  intros h. cbn. intros _ Hlen. rewrite length_take. cbn. lia.
Qed.

Lemma recv_exact_meaning_witness :
  exists x l, outcome_of (recv_exact 4 target peer tt []) = Done x /\
    take (length (delivered l)) (memory x.2) = delivered l.
Proof.
  destruct (recv_exact_meaning 4 target peer []) as (x & l & Hx & _ & Hd & _);
    [unfold buf_wf; cbn; lia|intros d _; apply peer_delivers|]. exists x, l. exact (conj Hx Hd).
Defined.

Lemma send_all_meaning_witness :
  exists x l, outcome_of (send_all 4 source peer tt []) = Done x /\ x.2 = source /\ taken l = take (moved l) [1; 2; 3].
Proof.
  destruct (send_all_meaning 4 source peer []) as (x & l & Hx & Hb & _ & Ht & _);
    [unfold buf_wf; cbn; lia|]. exists x, l. exact (conj Hx (conj Hb Ht)).
Defined.

(** A buffer of four places, as its contents and its filled length. *)
#[local] Instance sample_buf : ReadBufOps (list Z * nat) := {
  rb_remaining b := (4 - b.2)%nat;
  rb_write bytes b := (take b.2 b.1 ++ bytes, b.2);
  rb_assume_init _ b := b;
  rb_advance n b := (b.1, (b.2 + n)%nat)
}.

Lemma borrowed_io_meaning_witness :
  read_post 3 (from_socket 4) (([], 0%nat) : list Z * nat) []
    (outcome_of (poll_read 3 (from_socket 4) ([], 0%nat) peer tt [])) tt
    (history_of (poll_read 3 (from_socket 4) ([], 0%nat) peer tt [])).
Proof.
  assert (POLLIN <> POLLOUT) as Hne by discriminate.
  destruct (borrowed_io_meaning Hne peer (from_socket 4) (([], 0%nat) : list Z * nat) [1; 2] [])
    as (_ & Hr & _); [by repeat split|]. exact (Hr 3%nat).
Defined.

(** Small runs: the second address connects; two bytes at a time fill the buffer; the
    listener waits once; a read that is not ready leaves an operation in its lane. *)
Lemma net_samples :
  outcome_of (connect_on [AddrV4 1 1; AddrV6 2 80 0 0] peer tt []) = Done (Ok (from_socket 3)) /\
  length (history_of (connect_on [AddrV4 1 1; AddrV6 2 80 0 0] peer tt [])) = 5%nat /\
  outcome_of (recv_exact 4 target peer tt []) = Done (Ok tt, mkVec 64 [7; 8; 7; 8; 7] 5) /\
  outcome_of (accept 3 9 peer tt []) = Done (Ok (from_socket 5, AddrV4 1 80)) /\
  outcome_of (poll_read 3 (from_socket 4) (([], 0%nat) : list Z * nat) peer tt []) =
    Done (Pending, mkStream 4 true false, ([], 0%nat)).
Proof. by vm_compute. Qed.
End NetWitness.
