(* ===== verification/BufferSpec.v ===== *)
(** * BufferSpec: buffers survive every operation

    The safety contract of [IoBuf] and [IoBufMut], kept by every operation of [Fs] and
    [Net] that takes a buffer, whatever the kernel answers: a count larger than the
    request, a failure in the middle, bytes that were never announced. *)

From Stdlib Require Import ZArith Lia.
From stdpp Require Import base list strings.
From S2P Require Import Prelude Errors Ring RingOps RingFutures OwnedIo Fs Net.

Open Scope Z_scope.

(** The same allocation, well-formed, nothing initialized lost. *)
Definition kept {B} `{IoBuf B} (b b' : B) : Prop :=
  stable_ptr b' = stable_ptr b /\ length (memory b') = length (memory b) /\ buf_wf b' /\
  (bytes_init b <= bytes_init b')%nat.

#[export] Instance kept_trans {B} `{IoBuf B} : Transitive (@kept B _).
Proof. intros a b c (? & ? & _ & ?) (? & ? & ? & ?). split_and!; [congruence..|done|lia]. Qed.

(** [returns m b P]: however it ends, the operation returns a buffer with [P]. *)
Definition returns {A B} (P : B -> Prop) (m : ioprog (result IoError A * B)) : Prop :=
  forall o h, run_post m o tt h (fun r _ _ => exists x b, r = Done (x, b) /\ P b).

Section Returns.
Context {B : Type} (P : B -> Prop).

Lemma returns_ret {A} (x : result IoError A) b : P b -> returns P (mret (x, b)).
Proof. intros Hb o h. by exists x, b. Qed.

Lemma returns_await {A} (w : OpWork (result IoError A * B)) :
  (forall a, P (match io_refused a with
                | Some reason => w_fail w (failure_error reason)
                | None => w_complete w (io_bytes a) (io_res a)
                end).2) -> returns P (await w).
Proof.
  intros Hw o h. unfold await, run_post. run_unfold. specialize (Hw (o h (Await (w_entry w)))).
  destruct (match io_refused _ with Some _ => _ | None => _ end) as [x b] eqn:E. exists x, b. split; [|exact Hw].
  by rewrite <- E.
Qed.

(** A loop whose steps return such a buffer, with a count within the room left. *)
Lemma returns_loop zero step total (b : B) :
  P b ->
  (forall d b, P b -> (d < total)%nat -> forall o h, run_post (step b d) o tt h (fun r _ _ =>
     exists x b', r = Done (x, b') /\ P b' /\ match x with Ok n => (d + n <= total)%nat | Err _ => True end)) ->
  returns P (transfer_loop zero step total b total 0).
Proof.
  intros Hb Hstep o h. eapply run_post_mono.
  - apply (transfer_loop_rule zero step o total (fun _ b _ => P b) (fun x _ => P x.2)); [|done|done|lia..].
    intros d b' h' Hb' Hd. eapply run_post_mono; [by apply Hstep|].
    intros r [] h'' (x & b'' & -> & Hb'' & Hn). destruct x as [[|n]|e]; by cbn.
  - intros r _ h' ([x b'] & -> & Hx). by exists x, b'.
Qed.
End Returns.

Section Fill.
Context {B : Type} `{IoBufMutLaws B}.

(** A completed read of any answer keeps the buffer. *)
Lemma complete_fill_kept name (b : B) d room bytes res :
  buf_wf b -> (d + room <= length (memory b))%nat ->
  let '(x, b') := complete_fill name b d room bytes res in
  kept b b' /\ match x with Ok n => (n <= room)%nat | Err _ => True end.
Proof.
  intros Hwf Hroom. unfold complete_fill. set (m := mem_write _ _ _).
  assert (length m = length (memory b)) as Hm by (apply mem_write_length; lia).
  set (b1 := with_memory m b).
  assert (memory b1 = m) as Hm1 by by apply with_memory_memory.
  assert (bytes_init b1 = bytes_init b) as Hi1 by by apply with_memory_init.
  assert (buf_wf b1) as Hwf1 by (unfold buf_wf in *; rewrite Hm1; lia).
  assert (kept b b1) as Hk1.
  { split_and!; [apply with_memory_ptr|by rewrite Hm1|done|lia]. }
  unfold io_result. destruct (Z.ltb_spec res 0); [done|].
  destruct (Z.leb_spec res (Z.of_nat room)); [|done]. split; [|lia].
  assert (Nat.max (bytes_init b1) (d + Z.to_nat res) <= bytes_total b1)%nat as Hcap
    by (rewrite total_is_memory, Hm1; unfold buf_wf in Hwf; lia).
  etrans; [exact Hk1|]. split_and!.
  - apply set_init_ptr.
  - by rewrite set_init_memory.
  - by apply set_init_wf.
  - pose proof (set_init_covers _ b1 Hcap). lia.
Qed.

(** One step of a filling transfer, by the answer to its operation. *)
Lemma fill_step name (b0 b : B) d total (w : OpWork (result IoError nat * B)) o h :
  buf_wf b -> kept b0 b -> (d <= total)%nat -> total = length (memory b) ->
  w_complete w = complete_fill name b d (total - d) -> (forall e, w_fail w e = (Err e, b)) ->
  run_post (await w) o tt h (fun r _ _ => exists x b', r = Done (x, b') /\ kept b0 b' /\
    match x with Ok n => (d + n <= total)%nat | Err _ => True end).
Proof.
  intros Hwf Hk Hd -> Hc Hf. unfold await, run_post. run_unfold. set (a := o h _).
  destruct (io_refused a) as [reason|]; [rewrite Hf; by do 2 eexists|].
  pose proof (complete_fill_kept name b d (length (memory b) - d) (io_bytes a) (io_res a) Hwf ltac:(lia)) as Hx.
  rewrite Hc. destruct (complete_fill _ _ _ _ _ _) as [x b']. destruct Hx as [Hb' Hn]. exists x, b'.
  split; [done|]. split; [by etrans|]. destruct x; [lia|done].
Qed.
End Fill.

Lemma kept_refl {B} `{IoBuf B} (b : B) : buf_wf b -> kept b b.
Proof. by intros. Qed.

Lemma kept_wf {B} `{IoBuf B} (b b' : B) : kept b b' -> buf_wf b'.
Proof. by intros (_ & _ & ? & _). Qed.

Section Operations.
Context `{OpCodes} `{NetFlags}.

Section In.
Context {B : Type} `{IoBufMutLaws B}.

Lemma read_step f (b0 b : B) offset d o h :
  kept b0 b -> (d <= bytes_total b)%nat ->
  run_post (read_at_offset f b offset d) o tt h (fun r _ _ => exists x b', r = Done (x, b') /\ kept b0 b' /\
    match x with Ok n => (d + n <= bytes_total b)%nat | Err _ => True end).
Proof.
  intros Hk Hd. unfold read_at_offset. destruct (_ >? u32_max); [by do 2 eexists|].
  apply (fill_step "kernel returned an oversized read" b0 b d (bytes_total b)); try done; [by eapply kept_wf|].
  apply total_is_memory.
Qed.

Lemma recv_step fd (b0 b : B) d o h :
  kept b0 b -> (d <= bytes_total b)%nat ->
  run_post (recv_offset fd b d) o tt h (fun r _ _ => exists x b', r = Done (x, b') /\ kept b0 b' /\
    match x with Ok n => (d + n <= bytes_total b)%nat | Err _ => True end).
Proof.
  intros Hk Hd. unfold recv_offset. destruct (_ >? u32_max); [by do 2 eexists|].
  apply (fill_step "kernel returned an oversized receive" b0 b d (bytes_total b)); try done; [by eapply kept_wf|].
  apply total_is_memory.
Qed.

Lemma kept_total (b b' : B) : kept b b' -> bytes_total b' = bytes_total b.
Proof. intros (_ & Hl & _). by rewrite !total_is_memory. Qed.

(** C32. Every operation that reads into a buffer returns, on every outcome and for every
    answer of the kernel, honest or not, a buffer in the same allocation of the same
    size, with its initialized prefix inside the allocation and at least as long as
    before: the contract on which the unsafe [set_init] and the next operation rely. *)
Theorem reads_keep_buffers f fd (b : B) offset :
  buf_wf b ->
  returns (kept b) (read_at f b offset) /\ returns (kept b) (read_exact_at f b offset) /\
  returns (kept b) (recv fd b) /\ returns (kept b) (recv_exact fd b).
Proof.
  intros Hwf. pose proof (kept_refl b Hwf) as Hb. split_and!.
  - intros o h. eapply run_post_mono; [apply read_step; [done|lia]|]. intros r _ h' (x & b' & -> & Hk & _). eauto.
  - apply returns_loop; [done|]. intros d b' Hk Hd o h. unfold read_exact_step.
    destruct (checked_add_u64 _ _); [|by do 2 eexists].
    rewrite <- (kept_total _ _ Hk) in *. apply read_step; [done|lia].
  - intros o h. eapply run_post_mono; [apply recv_step; [done|lia]|]. intros r _ h' (x & b' & -> & Hk & _). eauto.
  - apply returns_loop; [done|]. intros d b' Hk Hd o h.
    rewrite <- (kept_total _ _ Hk) in *. apply recv_step; [done|lia].
Qed.
End In.

Section Out.
Context {B : Type} `{IoBuf B}.

Lemma drain_step name (b : B) d total (w : OpWork (result IoError nat * B)) o h :
  (d <= total)%nat ->
  (forall bytes res, w_complete w bytes res = complete_drain name b (total - d) res) ->
  (forall e, w_fail w e = (Err e, b)) ->
  run_post (await w) o tt h (fun r _ _ => exists x b', r = Done (x, b') /\ b' = b /\
    match x with Ok n => (d + n <= total)%nat | Err _ => True end).
Proof.
  intros Hd Hc Hf. unfold await, run_post. run_unfold. set (a := o h _).
  destruct (io_refused a) as [reason|]; [rewrite Hf; by do 2 eexists|].
  rewrite Hc. unfold complete_drain, io_result. destruct (Z.ltb_spec (io_res a) 0); [by do 2 eexists|].
  destruct (Z.leb_spec (io_res a) (Z.of_nat (total - d))); do 2 eexists; (split; [done|]); (split; [done|]); [lia|done].
Qed.

Lemma write_step f (b : B) offset d o h :
  (d <= bytes_init b)%nat ->
  run_post (write_at_offset f b offset d) o tt h (fun r _ _ => exists x b', r = Done (x, b') /\ b' = b /\
    match x with Ok n => (d + n <= bytes_init b)%nat | Err _ => True end).
Proof.
  intros Hd. unfold write_at_offset. destruct (_ >? u32_max); [by do 2 eexists|].
  by apply (drain_step "kernel returned an oversized write").
Qed.

Lemma send_step fd (b : B) d o h :
  (d <= bytes_init b)%nat ->
  run_post (send_offset fd b d) o tt h (fun r _ _ => exists x b', r = Done (x, b') /\ b' = b /\
    match x with Ok n => (d + n <= bytes_init b)%nat | Err _ => True end).
Proof.
  intros Hd. unfold send_offset. destruct (_ >? u32_max); [by do 2 eexists|].
  by apply (drain_step "kernel returned an oversized send").
Qed.

(** Every operation that writes out of a buffer returns that very buffer, on every
    outcome and for every answer of the kernel. *)
Theorem writes_return_buffers f fd (b : B) offset :
  returns (fun b' => b' = b) (file_write_at f b offset) /\ returns (fun b' => b' = b) (write_all_at f b offset) /\
  returns (fun b' => b' = b) (file_append f b) /\
  returns (fun b' => b' = b) (send fd b) /\ returns (fun b' => b' = b) (send_all fd b).
Proof.
  assert (forall m : ioprog (result IoError nat * B),
    (forall o h, run_post m o tt h (fun r _ _ => exists x b', r = Done (x, b') /\ b' = b /\
       match x with Ok n => (0 + n <= bytes_init b)%nat | Err _ => True end)) -> returns (fun b' => b' = b) m) as Hone.
  { intros m Hm o h. eapply run_post_mono; [apply Hm|]. intros r _ h' (x & b' & -> & Hk & _). eauto. }
  split_and!.
  - unfold file_write_at. destruct (f_append f); [by apply returns_ret|]. apply Hone. intros. apply write_step. lia.
  - unfold write_all_at. destruct (f_append f); [by apply returns_ret|]. apply returns_loop; [done|].
    intros d ? -> Hd o h. unfold write_all_step. destruct (checked_add_u64 _ _); [|by do 2 eexists].
    apply write_step. lia.
  - unfold file_append. destruct (f_append f); [|by apply returns_ret]. apply Hone. intros. apply write_step. lia.
  - apply Hone. intros. apply send_step. lia.
  - apply returns_loop; [done|]. intros d ? -> Hd o h. apply send_step. lia.
Qed.
End Out.
End Operations.

(** ** Instances *)

Module BufferWitness.

#[local] Instance opcodes : OpCodes := {
  OPENAT := 18; READ := 22; WRITE := 23; FSYNC := 3; CONNECT := 16; RECV := 27; SEND := 26; POLL_ADD := 6
}.
#[local] Instance linux : NetFlags := { POLLIN := 1; POLLOUT := 4; MSG_NOSIGNAL := 16384 }.

(** A kernel that announces more than it was asked for, then lies about what it wrote. *)
Definition liar : iooracle := fun h _ => mkIoResp false (if (length h =? 0)%nat then 2 else 100) [9] None None.
Definition target := mkVec 64 [0; 0; 0; 0] 1.

Lemma reads_keep_buffers_witness :
  exists x b, outcome_of (read_exact_at (mkFile 3 false) target 0 liar tt []) = Done (x, b) /\ buf_wf b.
Proof.
  assert (buf_wf target) as Hwf by (unfold buf_wf; cbn; lia).
  destruct (reads_keep_buffers (mkFile 3 false) 4 target 0 Hwf) as (_ & Hr & _).
  destruct (Hr liar []) as (x & b & Hx & _ & _ & Hb & _). exists x, b. exact (conj Hx Hb).
Defined.

Lemma liar_sample :
  outcome_of (read_exact_at (mkFile 3 false) target 0 liar tt []) =
    Done (Err (Custom KInvalidData "kernel returned an oversized read"), mkVec 64 [9; 0; 9; 0] 2).
Proof. by vm_compute. Qed.
End BufferWitness.
