(* ===== verification/Frame.v ===== *)
(** * Frame: the length-prefixed protocol of the example ([src/examples/net_io_poc.rs])

    Frames of at most 64 KiB behind a big-endian length, sent and received with the
    owned TCP operations under a timeout.  How many operations complete before a
    deadline is arbitrary ([deadline]), as are the addresses and the contents of fresh
    vectors. *)

From Stdlib Require Import ZArith Lia.
From stdpp Require Import base list strings pretty.
From S2P Require Import Prelude Errors Ffi Timer Ring RingOps RingFutures OwnedIo Net NetSpec.

Open Scope Z_scope.

(** ** Lengths *)

Definition FRAME_HEADER_LEN : nat := 4.
Definition MAX_FRAME_SIZE : Z := 64 * 1024.

(** [u32::to_be_bytes] and [u32::from_be_bytes]. *)
Definition to_be_bytes (n : Z) : list Z :=
  map (fun shift => n / 2 ^ shift mod 256) [24; 16; 8; 0].
Definition from_be_bytes (bytes : list Z) : Z :=
  fold_left (fun n byte => n * 256 + byte) bytes 0.

Definition frame_too_long (what : string) (n : Z) : string :=
  (what ++ pretty n ++ " exceeds the " ++ pretty MAX_FRAME_SIZE ++ "-byte limit")%string.

Definition encode_frame_len (payload_len : Z) : result IoError (list Z) :=
  if payload_len >? MAX_FRAME_SIZE then Err (Custom KInvalidInput (frame_too_long "frame length " payload_len)) else
  if payload_len >? u32_max then Err (Custom KInvalidInput "frame length does not fit u32") else
  Ok (to_be_bytes payload_len).

Definition decode_frame_len (header : list Z) : result IoError Z :=
  let payload_len := from_be_bytes header in
  if payload_len >? MAX_FRAME_SIZE
  then Err (Custom KInvalidData (frame_too_long "peer frame length " payload_len)) else Ok payload_len.

Definition is_byte (b : Z) : Prop := 0 <= b < 256.

Lemma from_to_be_bytes n : 0 <= n <= u32_max -> from_be_bytes (to_be_bytes n) = n.
Proof.
  intros Hn. unfold u32_max in Hn. cbn [to_be_bytes map from_be_bytes fold_left].
  change (2 ^ 24) with (256 * 256 * 256). change (2 ^ 16) with (256 * 256). change (2 ^ 8) with 256. change (2 ^ 0) with 1.
  rewrite <- !Z.div_div, Z.div_1_r by lia.
  pose proof (Z.div_mod n 256). pose proof (Z.div_mod (n / 256) 256). pose proof (Z.div_mod (n / 256 / 256) 256).
  assert (n / 256 / 256 / 256 < 256) by (repeat (apply Z.div_lt_upper_bound; [lia|]); lia).
  assert (0 <= n / 256 / 256 / 256) by (repeat apply Z.div_pos; lia).
  rewrite (Z.mod_small (n / 256 / 256 / 256)) by lia. lia.
Qed.

Lemma to_be_byte n : Forall is_byte (to_be_bytes n).
Proof. unfold to_be_bytes. rewrite Forall_fmap. apply Forall_forall. intros s _. apply Z.mod_pos_bound. lia. Qed.

Lemma be_digits q b : is_byte b -> (q * 256 + b) / 256 = q /\ (q * 256 + b) mod 256 = b.
Proof.
  intros Hb. unfold is_byte in Hb. rewrite Z.div_add_l, (Z.div_small b), Z.add_0_r by lia.
  by rewrite Z.add_comm, Z.mod_add, Z.mod_small by lia.
Qed.

Lemma to_from_be_bytes header :
  length header = FRAME_HEADER_LEN -> Forall is_byte header ->
  to_be_bytes (from_be_bytes header) = header /\ 0 <= from_be_bytes header <= u32_max.
Proof.
  intros Hl Hb. destruct header as [|a [|b [|c [|d []]]]]; try done.
  apply Forall_cons in Hb as [Ha [Hb [Hc [Hd _]%Forall_cons]%Forall_cons]%Forall_cons]. cbn [to_be_bytes map from_be_bytes fold_left].
  change (2 ^ 24) with (256 * 256 * 256). change (2 ^ 16) with (256 * 256). change (2 ^ 8) with 256. change (2 ^ 0) with 1.
  rewrite <- !Z.div_div, Z.div_1_r by lia. rewrite Z.mul_0_l, Z.add_0_l.
  destruct (be_digits ((a * 256 + b) * 256 + c) d Hd) as [-> ->].
  destruct (be_digits (a * 256 + b) c Hc) as [-> ->]. destruct (be_digits a b Hb) as [-> ->].
  unfold is_byte, u32_max in *. rewrite (Z.mod_small a) by lia. split; [done|lia].
Qed.

(** The two directions of the length agree: every length up to 64 KiB, and no
    longer one, is encoded, as four bytes from which the peer decodes it; and every
    header a peer may send is refused, or is the encoding of the length it is decoded
    as, which is at most 64 KiB. *)
Theorem frame_lengths_agree n header :
  0 <= n -> length header = FRAME_HEADER_LEN -> Forall is_byte header ->
  match encode_frame_len n with
  | Ok h => n <= MAX_FRAME_SIZE /\ length h = FRAME_HEADER_LEN /\ Forall is_byte h /\ decode_frame_len h = Ok n
  | Err e => MAX_FRAME_SIZE < n /\ error_kind e = KInvalidInput
  end /\
  match decode_frame_len header with
  | Ok m => 0 <= m <= MAX_FRAME_SIZE /\ encode_frame_len m = Ok header
  | Err e => MAX_FRAME_SIZE < from_be_bytes header /\ error_kind e = KInvalidData
  end.
Proof.
  intros Hn Hl Hb. destruct (to_from_be_bytes header Hl Hb) as [Hto Hr].
  unfold decode_frame_len, encode_frame_len. split.
  - destruct (Z.gtb_spec n MAX_FRAME_SIZE); [by split|]. unfold MAX_FRAME_SIZE in *.
    destruct (Z.gtb_spec n u32_max); [unfold u32_max in *; lia|].
    rewrite from_to_be_bytes by lia. destruct (Z.gtb_spec n (64 * 1024)); [lia|].
    split_and!; [done|done|apply to_be_byte|done].
  - destruct (Z.gtb_spec (from_be_bytes header) MAX_FRAME_SIZE); [by split|]. split; [lia|].
    destruct (Z.gtb_spec (from_be_bytes header) MAX_FRAME_SIZE); [lia|].
    destruct (Z.gtb_spec (from_be_bytes header) u32_max); [lia|]. by rewrite Hto.
Qed.

(** ** Timeouts *)

Definition is_await (c : iocall) : bool := match c with Await _ => true | _ => false end.

(** The calls [l], oldest first, up to the one that follows [n] completed operations. *)
Fixpoint cut (n : nat) (l : iohistory) : option iohistory :=
  match l with
  | [] => None
  | (c, r) :: l =>
      if is_await c
      then match n with O => Some [(c, r)] | S n => cons (c, r) <$> cut n l end
      else cons (c, r) <$> cut n l
  end.

(** [time::timeout(..)], awaited (its poll is [timeout_poll]): [in_time] operations of [m] complete before the deadline.
    The future is polled before the timer, so [m] ends normally when it needs no more;
    otherwise it is dropped at its next operation, whose answer nobody sees. *)
Definition timeout {A} (in_time : nat) (m : ioprog A) : ioprog (result Elapsed A) :=
  fun o s h =>
    let '(r, s', h') := m o s h in
    match cut in_time (rev (take (length h' - length h) h')) with
    | Some l => (Done (Err mkElapsed), s', rev l ++ h)
    | None => (match r with
               | Done a => Done (Ok a)
               | Panicked e => Panicked e
               | Aborted e => Aborted e
               | Blocked e => Blocked e
               end, s', h')
    end.

Lemma cut_prefix n l l' : cut n l = Some l' -> exists l'', l = l' ++ l''.
Proof.
  revert n l'. induction l as [|[c r] l IH]; intros n l'; cbn; [done|].
  assert (forall k, cons (c, r) <$> cut k l = Some l' -> exists l'', (c, r) :: l = l' ++ l'') as Hk.
  { intros k (x & Hx & ->)%fmap_Some. symmetry in Hx. destruct (IH _ _ (eq_sym Hx)) as [l'' ->]. by exists l''. }
  destruct (is_await c); [|apply Hk]. destruct n; [intros [= <-]; by exists l|apply Hk].
Qed.

(** What runs before the deadline is a first part of what would run. *)
Lemma timeout_run {A} n (m : ioprog A) o h a l :
  m o tt h = (Done a, tt, l ++ h) ->
  timeout n m o tt h = (Done (Ok a), tt, l ++ h) \/
  exists l1 l2, l = l1 ++ l2 /\ timeout n m o tt h = (Done (Err mkElapsed), tt, l2 ++ h).
Proof.
  intros Hm. unfold timeout. rewrite Hm, length_app, Nat.add_sub, take_app_length.
  destruct (cut n (rev l)) as [l'|] eqn:Hc; [right|by left].
  apply cut_prefix in Hc as [l'' Hc]. exists (rev l''), (rev l'). split; [|done].
  by rewrite <- rev_app_distr, <- Hc, rev_involutive.
Qed.

(** Enough time is as good as no deadline. *)
Lemma cut_late n l : (length l <= n)%nat -> cut n l = None.
Proof.
  revert n. induction l as [|[c r] l IH]; intros n Hn; [done|]. cbn in *.
  destruct (is_await c), n; [lia|by rewrite IH by lia|lia|by rewrite IH by lia].
Qed.

(** ** Frames on a stream *)

Definition timed_out (operation : string) : IoError := Custom KTimedOut (operation ++ " exceeded 5s").

(** The contents of a vector. *)
Definition vec_bytes (v : VecBuf) : list Z := take (v_len v) (v_mem v).

Section Frames.
Context `{ops : OpCodes} `{flags : NetFlags}.
(** The operations that complete before a deadline five seconds from now, and vectors:
    what [Vec::with_capacity] allocates, and where the contents of a full one are. *)
Variable deadline : iohistory -> nat.
Variable with_capacity : iohistory -> nat -> VecBuf.
Variable heap : list Z -> Z.

Definition vec_of (bytes : list Z) : VecBuf := mkVec (heap bytes) bytes (length bytes).

(** [time::timeout(OPERATION_TIMEOUT, m)]. *)
Definition timed {A} (m : ioprog A) : ioprog (result Elapsed A) := fun o s h => timeout (deadline h) m o s h.

Definition timed_send_all (fd : Z) (buffer : VecBuf) : ioprog (result IoError unit) :=
  r ← timed (send_all fd buffer);
  mret (match r with Ok (r, _) => r | Err _ => Err (timed_out "send") end).

Definition timed_recv_exact (fd : Z) (buffer : VecBuf) : ioprog (result IoError VecBuf) :=
  r ← timed (recv_exact fd buffer);
  mret (match r with
        | Ok (Ok _, buffer) => Ok buffer
        | Ok (Err error, _) => Err error
        | Err _ => Err (timed_out "receive")
        end).

Definition send_frame (fd : Z) (payload : VecBuf) : ioprog (result IoError unit) :=
  let? header := mret (encode_frame_len (Z.of_nat (bytes_init payload))) in
  let? _ := timed_send_all fd (vec_of header) in
  timed_send_all fd payload.

(** [header.try_into()] for [[u8; FRAME_HEADER_LEN]]. *)
Definition try_into_header (header : VecBuf) : result IoError (list Z) :=
  if (v_len header =? FRAME_HEADER_LEN)%nat then Ok (vec_bytes header)
  else Err (Custom KInvalidData ("received " ++ pretty (v_len header) ++ " header bytes")).

(** [timed_recv_exact(stream, Vec::with_capacity(n))]. *)
Definition recv_new (fd : Z) (n : nat) : ioprog (result IoError VecBuf) :=
  fun o s h => timed_recv_exact fd (with_capacity h n) o s h.

Definition recv_frame (fd : Z) : ioprog (result IoError VecBuf) :=
  let? header := recv_new fd FRAME_HEADER_LEN in
  let? header := mret (try_into_header header) in
  let? payload_len := mret (decode_frame_len header) in
  recv_new fd (Z.to_nat payload_len).
End Frames.

Lemma frame_lengths_agree_witness :
  match encode_frame_len 65536 with
  | Ok h => 65536 <= MAX_FRAME_SIZE /\ length h = FRAME_HEADER_LEN /\ Forall is_byte h /\ decode_frame_len h = Ok 65536
  | Err e => False
  end /\
  exists e, decode_frame_len [0; 1; 0; 1] = Err e /\ error_kind e = KInvalidData.
Proof.
  assert (Forall is_byte [0; 1; 0; 1]) as Hb by (repeat (apply Forall_cons; split; [unfold is_byte; lia|]); by apply Forall_nil).
  destruct (frame_lengths_agree 65536 [0; 1; 0; 1] ltac:(lia) eq_refl Hb) as [H1 H2]. split; [exact H1|].
  eexists. split; [reflexivity|]. exact (proj2 H2).
Defined.
