(* ===== verification/FrameSpec.v ===== *)
(** * FrameSpec: frames survive the stream

    What [send_frame] gives the kernel and what [recv_frame] makes of a stream. *)

From Stdlib Require Import ZArith Lia.
From stdpp Require Import base list strings.
From S2P Require Import Prelude Errors Ffi Timer Ring RingOps RingFutures OwnedIo Net NetSpec Frame.

Open Scope Z_scope.

Definition u32_len (n : nat) : Prop := Z.of_nat n <= u32_max.

Section Spec.
Context `{ops : OpCodes} `{flags : NetFlags}.
Variable deadline : iohistory -> nat.
Variable with_capacity : iohistory -> nat -> VecBuf.
Variable heap : list Z -> Z.

(** A frame on the wire. *)
Definition frame (payload : list Z) : list Z := to_be_bytes (Z.of_nat (length payload)) ++ payload.

(** The end of a frame is recognized: what follows it does not matter. *)
Lemma frame_inj p q s t :
  u32_len (length p) -> u32_len (length q) -> frame p ++ s = frame q ++ t -> p = q /\ s = t.
Proof.
  unfold frame, u32_len. rewrite <- !app_assoc. intros Hp Hq Heq.
  apply app_inj_1 in Heq as [Hh Heq]; [|done].
  assert (length p = length q) as Hl.
  { apply (f_equal from_be_bytes) in Hh. rewrite !from_to_be_bytes in Hh by lia. lia. }
  by apply app_inj_1 in Heq.
Qed.

(** ** Sending *)

Lemma taken_app l1 l2 : taken (l1 ++ l2) = taken l2 ++ taken l1.
Proof.
  induction l1 as [|[c r] l1 IH]; cbn; [by rewrite app_nil_r|].
  destruct c; try done. destruct e; try done. by rewrite IH, app_assoc.
Qed.

Lemma prefix_take {A} k (l : list A) : take k l `prefix_of` l.
Proof. exists (drop k l). by rewrite take_drop. Qed.

(** What [send_all] gave the kernel is a prefix of the buffer, all of it on success. *)
Lemma send_all_run fd (b : VecBuf) o h :
  buf_wf b -> exists x l, send_all fd b o tt h = (Done x, tt, l ++ h) /\
    taken l `prefix_of` vec_bytes b /\ (x.1 = Ok tt -> taken l = vec_bytes b).
Proof.
  intros Hwf. assert (length (vec_bytes b) = bytes_init b) as Hlen by (apply length_take_le, Hwf).
  pose proof (drain_transfer unsent "kernel returned an oversized send" (send_offset fd)
    (send_entry fd (stable_ptr b) (vec_bytes b)) (too_large_at (bytes_init b)) o b (bytes_init b) h
    (fun d => send_one_step fd b d Hwf)) as Ht.
  destruct Ht as (x & Hx & l & Ho & _ & _ & Ht). rewrite <- Hlen in Ho.
  pose proof (sends_taken _ _ _ _ _ _ Ho) as Htk. rewrite Hlen in Ho.
  assert (send_all fd b o tt h = (Done x, tt, history_of (send_all fd b o tt h))) as Hrun.
  { unfold send_all. revert Hx. unfold outcome_of, history_of. destruct (transfer_loop _ _ _ _ _ _ _ _ _) as [[r []] h'].
    cbn. by intros ->. }
  unfold send_all in Hrun |- *. destruct x as [[[]|e] b']; cbn [fst snd] in *.
  - destruct Ht as [Hh Hm]. rewrite Hh in Hrun. exists (Ok tt, b'), l. rewrite Hrun, Htk, Hm, <- Hlen, firstn_all.
    by split_and!.
  - destruct Ht as [Hlt [[Hh _]|(Hh & _)]]; rewrite Hh in Hrun.
    + exists (Err e, b'), l. rewrite Hrun, Htk. split_and!; [done|apply prefix_take|done].
    + eexists (Err e, b'), (_ :: l). rewrite Hrun. split; [done|]. cbn. rewrite Htk, take_take_drop.
      split; [apply prefix_take|done].
Qed.

Lemma timed_send_run fd (b : VecBuf) o h :
  buf_wf b -> exists x l, timed_send_all deadline fd b o tt h = (Done x, tt, l ++ h) /\
    taken l `prefix_of` vec_bytes b /\ (x = Ok tt -> taken l = vec_bytes b).
Proof.
  intros Hwf. destruct (send_all_run fd b o h Hwf) as ([x b'] & l & Hr & Hp & Hok).
  unfold timed_send_all, timed. run_unfold.
  destruct (timeout_run (deadline h) _ _ _ _ _ Hr) as [->|(l1 & l2 & -> & ->)].
  - by exists x, l.
  - exists (Err (timed_out "send")), l2. split; [done|]. split; [|done].
    rewrite taken_app in Hp. destruct Hp as [s ->]. exists (taken l1 ++ s). by rewrite app_assoc.
Qed.

(** A frame is sent from its start; all of it on success, and nothing at all when it is
    longer than 64 KiB. *)
Lemma send_frame_run fd (p : VecBuf) o h :
  buf_wf p -> exists x l, send_frame deadline heap fd p o tt h = (Done x, tt, l ++ h) /\
    taken l `prefix_of` frame (vec_bytes p) /\ (x = Ok tt -> taken l = frame (vec_bytes p)) /\
    (MAX_FRAME_SIZE < Z.of_nat (length (vec_bytes p)) -> l = [] /\ exists e, x = Err e /\ error_kind e = KInvalidInput).
Proof.
  intros Hwf. assert (length (vec_bytes p) = bytes_init p) as Hlen by (apply length_take_le, Hwf).
  unfold send_frame. change (bytes_init p) with (v_len p) in *. unfold prog_bind at 1, mret, prog_mret, prog_ret.
  destruct (encode_frame_len (Z.of_nat (v_len p))) as [hd|e] eqn:He; revert He; unfold encode_frame_len;
    destruct (Z.gtb_spec (Z.of_nat (v_len p)) MAX_FRAME_SIZE) as [Hbig|Hbig].
  - done.
  - destruct (_ >? u32_max); [done|]. intros [= <-].
    destruct (timed_send_run fd (vec_of heap (to_be_bytes (Z.of_nat (v_len p)))) o h) as (x1 & l1 & R1 & P1 & K1);
      [by unfold buf_wf|].
    assert (vec_bytes (vec_of heap (to_be_bytes (Z.of_nat (v_len p)))) = to_be_bytes (Z.of_nat (v_len p)))
      as Hhd by (apply firstn_all). rewrite Hhd in *.
    assert (frame (vec_bytes p) = to_be_bytes (Z.of_nat (v_len p)) ++ vec_bytes p) as Hf by (unfold frame; by rewrite Hlen).
    unfold prog_bind at 1. rewrite R1. destruct x1 as [[]|e].
    + specialize (K1 eq_refl). destruct (timed_send_run fd p o (l1 ++ h) Hwf) as (x2 & l2 & R2 & P2 & K2).
      exists x2, (l2 ++ l1). rewrite R2, taken_app, K1, Hf, <- app_assoc. split; [done|].
      split; [by apply prefix_app|]. split; [by intros ->%K2|lia].
    + exists (Err e), l1. split; [done|]. rewrite Hf. split; [by apply prefix_app_r|]. split; [done|lia].
  - intros [= <-]. eexists _, []. split; [done|]. split; [apply prefix_nil|]. split; [done|].
    intros _. split; [done|]. by eexists.
  - destruct (Z.gtb_spec (Z.of_nat (v_len p)) u32_max); [unfold u32_max, MAX_FRAME_SIZE in *; lia|done].
Qed.

(** ** Receiving *)

(** How much of its stream a socket has delivered. *)
Fixpoint position (fd : Z) (h : iohistory) : nat :=
  match h with
  | [] => 0
  | (Await (ERecv fd' _ _), r) :: h => position fd h + (if fd' =? fd then count r else 0)
  | _ :: h => position fd h
  end.

(** The socket's receives deliver the stream in order, at most what is asked for, and
    nothing only at its end. *)
Definition streams (o : iooracle) (fd : Z) (stream : list Z) : Prop :=
  forall h pointer (len : nat), let r := o h (Await (ERecv fd pointer (Z.of_nat len))) in
  io_refused r = None -> 0 <= io_res r ->
  io_res r <= Z.of_nat len /\ length (io_bytes r) = Z.to_nat (io_res r) /\
  io_bytes r = take (Z.to_nat (io_res r)) (drop (position fd h) stream) /\
  (io_res r = 0 -> (0 < len)%nat -> drop (position fd h) stream = []).

(** Receives of at most [n] bytes. *)
Definition receives (fd : Z) (n : Z) (l : iohistory) : Prop :=
  Forall (fun cr => exists pointer len, cr.1 = Await (ERecv fd pointer len) /\ len <= n) l.

Lemma in_order_stream o fd pointer stream total l h :
  streams o fd stream -> in_order o h (recv_entry fd pointer total) total l ->
  position fd (l ++ h) = (position fd h + moved l)%nat /\ receives fd (Z.of_nat total) l /\
  delivered l = take (moved l) (drop (position fd h) stream).
Proof.
  intros Hs. induction l as [|[c r] l IH]; cbn [in_order].
  { intros _. split; [cbn; lia|]. split; [by apply Forall_nil_2|done]. }
  intros (-> & -> & Hr & Hc & Hle & Ho). destruct (IH Ho) as (IH1 & IH2 & IH3).
  cbn [app position moved delivered recv_entry]. rewrite Z.eqb_refl, IH1, IH3. split; [lia|]. split.
  - apply Forall_cons. split; [|done]. eexists _, _. split; [done|]. lia.
  - set (r := o (l ++ h) _) in *. assert (0 <= io_res r) as H0 by (unfold count in Hc; rewrite Hr in Hc; lia).
    assert (io_bytes r = take (Z.to_nat (io_res r)) (drop (position fd (l ++ h)) stream)) as Hb
      by apply (Hs (l ++ h) _ _ Hr H0).
    assert (count r = Z.to_nat (io_res r)) as -> by (unfold count; by rewrite Hr).
    by rewrite Hb, IH1, take_take, Nat.min_id, <- drop_drop, take_take_drop.
Qed.

(** The kernel refuses nothing and no receive fails. *)
Definition willing (o : iooracle) (fd : Z) : Prop :=
  forall h pointer (len : nat), let r := o h (Await (ERecv fd pointer (Z.of_nat len))) in io_refused r = None /\ 0 <= io_res r.

Lemma in_order_length o h entry total l : in_order o h entry total l -> (length l <= moved l)%nat.
Proof. induction l as [|[c r] l IH]; [done|]. intros (_ & _ & _ & Hc & _ & Ho). specialize (IH Ho). cbn. lia. Qed.

(** Why a receive failed, when the stream behaves. *)
Definition receive_failed (left_ : list Z) (n : nat) (e : IoError) : Prop :=
  e = timed_out "receive" \/ (exists errno, e = RawOs errno) \/ (exists reason, e = failure_error reason) \/
  (e = closed_early /\ (length left_ < n)%nat) \/ too_large_at n 0 = Some e.

(** An empty vector of capacity [n]. *)
Definition empty_vec (n : nat) (v : VecBuf) : Prop := v_len v = 0%nat /\ length (v_mem v) = n.

Lemma recv_exact_run o fd stream n (b : VecBuf) h :
  streams o fd stream -> empty_vec n b ->
  exists x l, recv_exact fd b o tt h = (Done x, tt, l ++ h) /\ receives fd (Z.of_nat n) l /\
    match x.1 with
    | Ok _ => position fd (l ++ h) = (position fd h + n)%nat /\
        vec_bytes x.2 = take n (drop (position fd h) stream) /\ length (vec_bytes x.2) = n /\ v_len x.2 = n /\
        (length l <= n)%nat
    | Err e => receive_failed (drop (position fd h) stream) n e /\
        (willing o fd -> u32_len n -> e = closed_early /\ (length (drop (position fd h) stream) < n)%nat)
    end.
Proof.
  intros Hs [Hv Hn].
  assert (forall d, (d < bytes_total b)%nat -> delivers o (recv_entry fd (stable_ptr b) (bytes_total b) d)) as Hdel.
  { intros d _ h0 r H1 H2. by destruct (Hs h0 _ _ H1 H2) as (_ & H & _). }
  assert (buf_wf b) as Hwf by (unfold buf_wf; cbn; lia).
  pose proof (fill_transfer closed_early "kernel returned an oversized receive" (recv_offset fd) _ _ o b h
    Hwf (fun b' l Hk => recv_one_step fd b b' l Hk) (fun d Hd _ => Hdel d Hd)) as (x & Hx & l & Ho & _ & Hk & Ht).
  change (bytes_total b) with (length (v_mem b)) in *. rewrite Hn in *.
  destruct (in_order_stream _ _ _ _ _ _ _ Hs Ho) as (Hpos & Hrec & Hdl).
  assert (forall h', history_of (recv_exact fd b o tt h) = h' -> recv_exact fd b o tt h = (Done x, tt, h')) as Hrun.
  { intros h' <-. unfold recv_exact. change (bytes_total b) with (length (v_mem b)). rewrite Hn. revert Hx.
    unfold outcome_of, history_of. destruct (transfer_loop _ _ _ _ _ _ _ _ _) as [[r []] h']. cbn. by intros ->. }
  unfold recv_exact in Hrun at 1. change (bytes_total b) with (length (v_mem b)) in Hrun. rewrite Hn in Hrun.
  destruct Hk as (_ & Hlen & Hwf' & Hi & Hdlen & Hmem). cbn in Hlen, Hi, Hmem, Hwf'. unfold buf_wf in Hwf'. cbn in Hwf'.
  destruct x as [[[]|e] b']; cbn [fst snd] in *.
  - destruct Ht as [Hh Hm]. apply Hrun in Hh. exists (Ok tt, b'), l. rewrite Hh, Hpos, Hm. cbn [fst snd].
    assert (v_len b' = n) as Hl by lia. assert (vec_bytes b' = delivered l) as Hb.
    { unfold vec_bytes. by rewrite Hl, <- Hm. }
    pose proof (in_order_length _ _ _ _ _ Ho). rewrite Hb, Hdlen, Hdl, Hm. split_and!; done || lia.
  - destruct Ht as [Hlt [[Hh Hloc]|(Hh & _ & Hf)]].
    { assert (too_large_at n 0 = Some e /\ ~ u32_len n) as [Hlarge Hu].
      { unfold too_large_at, u32_len in *. rewrite Nat.sub_0_r.
        destruct (Z.gtb_spec (Z.of_nat (n - moved l)) u32_max) as [Hg|]; [|done].
        destruct (Z.gtb_spec (Z.of_nat n) u32_max); [|lia]. split; [exact Hloc|lia]. }
      apply Hrun in Hh. exists (Err e, b'), l. rewrite Hh. split; [done|]. split; [done|].
      split; [by do 4 right|done]. }
    apply Hrun in Hh. eexists (Err e, b'), (_ :: l). rewrite Hh. split; [done|]. split.
    + apply Forall_cons. split; [|done]. eexists _, _. split; [done|]. lia.
    + cbn [fst]. unfold failure in Hf. set (r := o (l ++ h) _) in *.
      assert (willing o fd -> io_refused r = None /\ 0 <= io_res r) as Hw by (intros Hw; apply Hw).
      destruct (io_refused r) as [reason|] eqn:Hr.
      { split; [right; right; left; by eexists|]. by intros [? _]%Hw. }
      destruct Hf as [[Hneg ->]|[[Hz ->]|[Hov _]]].
      * split; [right; left; by eexists|]. intros [_ ?]%Hw. lia.
      * assert (length (drop (position fd h) stream) < n)%nat; [|by split; [do 3 right; left|]].
        destruct (Hs (l ++ h) _ _ Hr ltac:(change (0 <= io_res r); lia)) as (_ & _ & _ & Hend).
        specialize (Hend Hz ltac:(lia)). rewrite Hpos, <- drop_drop in Hend.
        apply (f_equal length) in Hend. rewrite length_drop in Hend. cbn in Hend. lia.
      * destruct (Hs (l ++ h) _ _ Hr ltac:(change (0 <= io_res r); lia)) as (Hle & _).
        change (io_res r <= Z.of_nat (n - moved l)) in Hle. lia.
Qed.

(** The operations before the deadline suffice for a frame. *)
Definition ample : Prop := forall h, MAX_FRAME_SIZE <= Z.of_nat (deadline h).

Lemma timed_recv_run o fd stream n (b : VecBuf) h :
  streams o fd stream -> empty_vec n b ->
  exists x l, timed_recv_exact deadline fd b o tt h = (Done x, tt, l ++ h) /\ receives fd (Z.of_nat n) l /\
    match x with
    | Ok v => position fd (l ++ h) = (position fd h + n)%nat /\
        vec_bytes v = take n (drop (position fd h) stream) /\ length (vec_bytes v) = n /\ v_len v = n
    | Err e => receive_failed (drop (position fd h) stream) n e /\
        (willing o fd -> ample -> Z.of_nat n <= MAX_FRAME_SIZE ->
         (n <= length (drop (position fd h) stream))%nat -> False)
    end.
Proof.
  intros Hs Hb.
  assert (Z.of_nat n <= MAX_FRAME_SIZE -> u32_len n) as Hu by (unfold u32_len, u32_max, MAX_FRAME_SIZE in *; lia).
  destruct (recv_exact_run o fd stream n b h Hs Hb) as ([x b'] & l & Hr & Hrec & Hx). cbn [fst snd] in Hx.
  unfold timed_recv_exact, timed. run_unfold.
  destruct (timeout_run (deadline h) _ _ _ _ _ Hr) as [->|(l1 & l2 & -> & Hto)].
  - destruct x as [[]|e].
    + exists (Ok b'), l. destruct Hx as (H1 & H2 & H3 & H4 & _). by split_and!.
    + exists (Err e), l. destruct Hx as [Hf Hw]. split; [done|]. split; [done|]. split; [done|].
      intros Hwill _ Hn Hlen. destruct (Hw Hwill (Hu Hn)) as [_ ?]. lia.
  - rewrite Hto. apply Forall_app in Hrec as [_ Hrec]. exists (Err (timed_out "receive")), l2. split; [done|]. split; [done|].
    split; [by left|]. intros Hwill Hample Hn Hlen.
    destruct x as [[]|e].
    + destruct Hx as (_ & _ & _ & _ & Hl). revert Hto. unfold timeout. rewrite Hr. rewrite length_app, Nat.add_sub, take_app_length.
      specialize (Hample h). rewrite cut_late by (rewrite length_rev; lia). done.
    + destruct Hx as [Hf Hw]. destruct (Hw Hwill (Hu Hn)) as [_ ?]. lia.
Qed.

Lemma receives_le fd m n l : receives fd m l -> m <= n -> receives fd n l.
Proof. intros H Hle. eapply Forall_impl; [exact H|]. intros x (p & len & ? & ?). exists p, len. split; [done|lia]. Qed.

(** [Vec::with_capacity(n)]: an empty vector with room for at least [n] bytes. *)
Definition allocates : Prop := forall h n, v_len (with_capacity h n) = 0%nat /\ (n <= length (v_mem (with_capacity h n)))%nat.

Definition capacity (h : iohistory) (n : nat) : nat := length (v_mem (with_capacity h n)).

(** What the peer announces at the start of [s]. *)
Definition announced (s : list Z) : Z := from_be_bytes (take FRAME_HEADER_LEN s).

(** What [recv_frame] makes of the rest [s] of its stream, when its first vector has the
    capacity [c1] and the second, if it gets there, [c2]: a header vector with more room
    than asked for is filled and refused; a length above the limit is refused before any
    of that payload is received; otherwise the payload's vector is filled. *)
Definition frame_post (c1 c2 : nat) (s : list Z) (read : nat) (x : result IoError VecBuf) : Prop :=
  match x with
  | Ok v => c1 = FRAME_HEADER_LEN /\ (FRAME_HEADER_LEN + c2 <= length s)%nat /\ announced s <= MAX_FRAME_SIZE /\
      v_len v = c2 /\ vec_bytes v = take c2 (drop FRAME_HEADER_LEN s) /\ read = (FRAME_HEADER_LEN + c2)%nat
  | Err e => receive_failed s c1 e \/
      (c1 <= length s)%nat /\
      if negb (c1 =? FRAME_HEADER_LEN)%nat then read = c1 /\ error_kind e = KInvalidData
      else if announced s >? MAX_FRAME_SIZE then read = c1 /\ error_kind e = KInvalidData
      else receive_failed (drop FRAME_HEADER_LEN s) c2 e
  end.

Hypothesis Hcap : allocates.

Lemma recv_new_run o fd stream n h :
  streams o fd stream -> let c := capacity h n in
  exists x l, recv_new deadline with_capacity fd n o tt h = (Done x, tt, l ++ h) /\ receives fd (Z.of_nat c) l /\
    match x with
    | Ok v => position fd (l ++ h) = (position fd h + c)%nat /\
        vec_bytes v = take c (drop (position fd h) stream) /\ length (vec_bytes v) = c /\ v_len v = c
    | Err e => receive_failed (drop (position fd h) stream) c e /\
        (willing o fd -> ample -> Z.of_nat c <= MAX_FRAME_SIZE ->
         (c <= length (drop (position fd h) stream))%nat -> False)
    end.
Proof. intros Hs c. apply timed_recv_run; [done|]. split; [apply Hcap|done]. Qed.

Lemma announced_range s : Forall is_byte s -> (FRAME_HEADER_LEN <= length s)%nat ->
  to_be_bytes (announced s) = take FRAME_HEADER_LEN s /\ 0 <= announced s <= u32_max.
Proof. intros Hb Hl. apply to_from_be_bytes; [by apply length_take_le|by apply Forall_take]. Qed.

Lemma announced_frame p tail : u32_len (length p) ->
  announced (frame p ++ tail) = Z.of_nat (length p) /\ drop FRAME_HEADER_LEN (frame p ++ tail) = p ++ tail.
Proof.
  intros Hu. unfold announced, frame. rewrite <- app_assoc, take_app_length', drop_app_length' by done.
  split; [|done]. apply from_to_be_bytes. unfold u32_len in Hu. lia.
Qed.

(** The two receives and the capacities their vectors got. *)
Lemma recv_frame_run o fd stream h :
  streams o fd stream -> Forall is_byte stream ->
  let s := drop (position fd h) stream in let c1 := capacity h FRAME_HEADER_LEN in
  exists x l1 l2, recv_frame deadline with_capacity fd o tt h = (Done x, tt, (l2 ++ l1) ++ h) /\
    let c2 := capacity (l1 ++ h) (Z.to_nat (announced s)) in
    receives fd (Z.of_nat c1) l1 /\ receives fd (Z.of_nat c2) l2 /\
    (MAX_FRAME_SIZE < announced s -> l2 = []) /\
    exists read, frame_post c1 c2 s read x /\
      (is_ok x = true -> position fd ((l2 ++ l1) ++ h) = (position fd h + read)%nat) /\
      (willing o fd -> ample -> c1 = FRAME_HEADER_LEN -> (FRAME_HEADER_LEN + c2 <= length s)%nat ->
       announced s <= MAX_FRAME_SIZE -> Z.of_nat c2 <= MAX_FRAME_SIZE -> is_ok x = true).
Proof.
  intros Hs Hbytes s c1.
  destruct (recv_new_run o fd stream FRAME_HEADER_LEN h Hs) as (x1 & l1 & R1 & Rec1 & H1).
  change (drop (position fd h) stream) with s in H1. change (capacity h FRAME_HEADER_LEN) with c1 in Rec1, H1.
  unfold recv_frame. unfold prog_bind at 1. rewrite R1. destruct x1 as [hd|e].
  2: { destruct H1 as [Hf Hw]. exists (Err e), l1, []. do 2 (split; [done|]). split; [by apply Forall_nil_2|]. split; [done|].
       exists 0%nat. split; [by left|]. split; [done|].
       intros W A Hc Hl _ _. exfalso. apply (Hw W A); rewrite Hc; [done|lia]. }
  destruct H1 as (P1 & V1 & L1 & N1). unfold try_into_header. rewrite N1.
  assert (c1 <= length s)%nat as Hls by (rewrite V1, length_take in L1; lia).
  unfold mret, prog_mret, prog_ret, prog_bind at 1.
  destruct (Nat.eqb_spec c1 FRAME_HEADER_LEN) as [Hc|Hc]; cycle 1.
  { eexists (Err _), l1, []. do 2 (split; [done|]). split; [by apply Forall_nil_2|]. split; [done|]. exists c1. split.
    - right. split; [done|]. by rewrite (proj2 (Nat.eqb_neq _ _) Hc).
    - split; [done|]. intros _ _ ?. congruence. }
  rewrite Hc in Hls. rewrite V1, Hc.
  assert (Forall is_byte s) as Hbs by by apply Forall_drop.
  destruct (announced_range s Hbs Hls) as [Hto Hr].
  unfold prog_bind at 1, decode_frame_len. fold (announced s).
  destruct (Z.gtb_spec (announced s) MAX_FRAME_SIZE) as [Hbig|Hsmall].
  { eexists (Err _), l1, []. split; [done|]. split; [by rewrite <- Hc|]. split; [by apply Forall_nil_2|]. split; [done|]. exists FRAME_HEADER_LEN. split.
    - right. split; [done|]. rewrite Nat.eqb_refl. cbn [negb]. by destruct (Z.gtb_spec (announced s) MAX_FRAME_SIZE); [|lia].
    - split; [done|]. intros. lia. }
  destruct (recv_new_run o fd stream (Z.to_nat (announced s)) (l1 ++ h) Hs) as (x2 & l2 & R2 & Rec2 & H2).
  rewrite P1, Hc, <- drop_drop in H2. change (drop (position fd h) stream) with s in H2.
  exists x2, l1, l2. rewrite R2, <- app_assoc. split; [done|]. split; [by rewrite <- Hc|]. split; [done|]. split; [lia|].
  destruct x2 as [v|e].
  - destruct H2 as (P2 & V2 & L2 & N2). exists (FRAME_HEADER_LEN + capacity (l1 ++ h) (Z.to_nat (announced s)))%nat.
    split; [|split; [intros _; lia|done]]. rewrite V2, length_take, length_drop in L2.
    split_and!; done || lia.
  - destruct H2 as [Hf Hw]. exists 0%nat. split; [right; split; [done|]|split; [done|]].
    + rewrite Nat.eqb_refl. cbn [negb]. by destruct (Z.gtb_spec (announced s) MAX_FRAME_SIZE); [lia|].
    + intros W A _ Hl _ Hc2. exfalso. apply (Hw W A Hc2). rewrite length_drop. lia.
Qed.

(** ** The two together *)

(** C35. Receiving a frame always ends, on a socket that delivers its stream in order,
    whatever the peer sends and whatever room [Vec::with_capacity], which gives at least
    what is asked for, leaves in the two vectors beyond that.  With a header
    vector of capacity [c1] and a payload vector of capacity [c2], [recv_frame] fills the
    first, refuses it when it holds more than a header, refuses an announced length above
    64 KiB before any of that payload is received, and otherwise returns the [c2] bytes
    after the header; or it fails with an error of the transport.  No receive asks for more
    than the capacity of its vector.  So when both allocations are exact, what it returns is
    the frame at the start of the stream, read to its last byte and no further, and no
    receive asks for more than 64 KiB, however long a frame the peer announces. *)
Theorem recv_frame_meaning o fd stream h :
  streams o fd stream -> Forall is_byte stream ->
  let s := drop (position fd h) stream in let c1 := capacity h FRAME_HEADER_LEN in
  run_post (recv_frame deadline with_capacity fd) o tt h (fun r _ h' => exists x l1 l2 read,
    r = Done x /\ h' = (l2 ++ l1) ++ h /\ let c2 := capacity (l1 ++ h) (Z.to_nat (announced s)) in
    receives fd (Z.of_nat c1) l1 /\ receives fd (Z.of_nat c2) l2 /\ (MAX_FRAME_SIZE < announced s -> l2 = []) /\
    frame_post c1 c2 s read x /\ (is_ok x = true -> position fd h' = (position fd h + read)%nat) /\
    (c1 = FRAME_HEADER_LEN -> c2 = Z.to_nat (announced s) ->
     receives fd MAX_FRAME_SIZE (l2 ++ l1) /\
     match x with
     | Ok v => read = length (frame (vec_bytes v)) /\ Z.of_nat (length (vec_bytes v)) <= MAX_FRAME_SIZE /\
         exists tail, s = frame (vec_bytes v) ++ tail
     | Err _ => True
     end)).
Proof.
  intros Hs Hb s c1. destruct (recv_frame_run o fd stream h Hs Hb) as (x & l1 & l2 & R & Rec1 & Rec2 & Hno & read & Hp & Hpos & _).
  unfold run_post, outcome_of, history_of. rewrite R. exists x, l1, l2, read. do 2 (split; [done|]). cbv zeta.
  split; [exact Rec1|]. split; [exact Rec2|]. split; [exact Hno|]. split; [exact Hp|]. split; [exact Hpos|].
  intros E1 E2. split.
  { apply Forall_app. split; [|eapply receives_le; [exact Rec1|]; change (Z.of_nat c1 <= MAX_FRAME_SIZE); by rewrite E1].
    destruct (Z.le_gt_cases (announced s) MAX_FRAME_SIZE) as [Hle|Hgt]; [|rewrite Hno by (fold s; lia); by apply Forall_nil_2].
    eapply receives_le; [exact Rec2|]. fold s. rewrite E2. unfold MAX_FRAME_SIZE in *. lia. }
  destruct x as [v|e]; [|done]. destruct Hp as (_ & Hl & Hm & _ & Hv & Hr). fold s in Hl, Hm, Hv, Hr.
  rewrite E2 in Hl, Hv, Hr.
  assert (Forall is_byte s) as Hbs by by apply Forall_drop.
  destruct (announced_range s Hbs ltac:(lia)) as [Hto Hrange].
  assert (length (vec_bytes v) = Z.to_nat (announced s)) as Hlen by (rewrite Hv, length_take, length_drop; lia).
  assert (frame (vec_bytes v) = take FRAME_HEADER_LEN s ++ vec_bytes v) as Hf.
  { unfold frame. rewrite Hlen, Z2Nat.id by lia. by rewrite Hto. }
  rewrite Hf, length_app, Hlen, length_take. split; [lia|]. split; [lia|].
  exists (drop (Z.to_nat (announced s)) (drop FRAME_HEADER_LEN s)). by rewrite Hv, <- app_assoc, take_drop, take_drop.
Qed.

(** C34. A frame survives the stream.  When [send_frame] succeeded and the bytes the kernel
    took from it are next on the peer's stream, which its socket delivers in order, whatever
    follows them, then what
    [recv_frame] returns starts with the payload, and goes on with as many of the bytes
    behind the frame as [Vec::with_capacity] gave the payload's vector more room than asked
    for.  When both of its vectors have exactly the capacity asked for, it returns the
    payload and leaves the peer at the first byte after the frame, or fails with a timeout
    or an error of its kernel; and it does return the payload when its kernel fails no
    receive and there is time for them. *)
Theorem frame_round_trip o1 o2 fd1 fd2 (p : VecBuf) h1 h2 stream tail :
  buf_wf p -> streams o2 fd2 stream -> Forall is_byte stream ->
  run_post (send_frame deadline heap fd1 p) o1 tt h1 (fun r _ h1' => exists x l, r = Done x /\ h1' = l ++ h1 /\
    (x = Ok tt -> drop (position fd2 h2) stream = taken l ++ tail ->
     run_post (recv_frame deadline with_capacity fd2) o2 tt h2 (fun r _ h2' => exists y l1 l2,
       r = Done y /\ h2' = (l2 ++ l1) ++ h2 /\
       let c1 := capacity h2 FRAME_HEADER_LEN in let c2 := capacity (l1 ++ h2) (length (vec_bytes p)) in
       let exact := c1 = FRAME_HEADER_LEN /\ c2 = length (vec_bytes p) in
       match y with
       | Ok v => c1 = FRAME_HEADER_LEN /\ vec_bytes v = take c2 (vec_bytes p ++ tail) /\
           vec_bytes p `prefix_of` vec_bytes v /\ drop (position fd2 h2') stream = drop c2 (vec_bytes p ++ tail) /\
           (exact -> vec_bytes v = vec_bytes p /\ drop (position fd2 h2') stream = tail)
       | Err e => ~ (exact /\ willing o2 fd2 /\ ample) /\
           (exact -> e = timed_out "receive" \/ (exists errno, e = RawOs errno) \/ exists reason, e = failure_error reason)
       end))).
Proof.
  intros Hp Hs Hb. destruct (send_frame_run fd1 p o1 h1 Hp) as (x & l & R & _ & Hok & Hbig).
  unfold run_post at 1, outcome_of, history_of. rewrite R. exists x, l. do 2 (split; [done|]).
  intros -> Hd. rewrite (Hok eq_refl) in Hd.
  assert (Z.of_nat (length (vec_bytes p)) <= MAX_FRAME_SIZE) as Hlen.
  { apply Z.le_ngt. intros Hgt. by destruct (Hbig Hgt) as (_ & e & He & _). }
  destruct (recv_frame_run o2 fd2 stream h2 Hs Hb) as (y & l1 & l2 & R2 & _ & _ & _ & read & Hpost & Hpos & Hlive).
  unfold run_post, outcome_of, history_of. rewrite R2. exists y, l1, l2. do 2 (split; [done|]). rewrite Hd in Hpost, Hlive.
  assert (u32_len (length (vec_bytes p))) as Hu by (unfold u32_len, u32_max, MAX_FRAME_SIZE in *; lia).
  destruct (announced_frame (vec_bytes p) tail Hu) as [Ha Hdrop]. rewrite Ha, Nat2Z.id in *.
  set (c1 := capacity h2 FRAME_HEADER_LEN) in *. set (c2 := capacity (l1 ++ h2) (length (vec_bytes p))) in *. cbv zeta.
  destruct y as [v|e]; cbn [fst snd].
  - destruct Hpost as (Hc1 & Hl & _ & Hv & Hb2 & Hread). rewrite Hdrop in Hb2.
    assert (drop (position fd2 ((l2 ++ l1) ++ h2)) stream = drop c2 (vec_bytes p ++ tail)) as Hrest.
    { by rewrite (Hpos eq_refl), Hread, <- drop_drop, Hd, <- drop_drop, Hdrop. }
    assert (length (vec_bytes p) <= c2)%nat as Hroom by apply Hcap. rewrite Hrest. split; [done|]. split; [done|].
    split; [rewrite Hb2, take_app_ge by done; by eexists|]. split; [done|].
    intros [_ Hex]. rewrite Hb2, Hex. by rewrite take_app_length, drop_app_length.
  - assert (length (frame (vec_bytes p) ++ tail) = FRAME_HEADER_LEN + length (vec_bytes p) + length tail)%nat as Hlf.
    { rewrite length_app. unfold frame. rewrite length_app. done. }
    split.
    + intros [[E1 E2] [W A]]. enough (false = true) by done. apply Hlive; rewrite ?E1, ?E2, ?Hlf; try done. lia.
    + intros [E1 E2]. unfold frame_post in Hpost. rewrite E1, E2, Hdrop, Ha in Hpost.
      assert (forall n left_, receive_failed left_ n e -> (n <= length left_)%nat -> u32_len n ->
        e = timed_out "receive" \/ (exists errno, e = RawOs errno) \/ exists reason, e = failure_error reason) as Hfail.
      { intros n left_ [?|[?|[?|[[_ ?]|Hlarge]]]] Hn Hun; [by left|by right; left|by right; right|lia|].
        unfold too_large_at, u32_len in *. rewrite Nat.sub_0_r in Hlarge.
        by destruct (Z.gtb_spec (Z.of_nat n) u32_max); [lia|]. }
      destruct Hpost as [Hf|[Hl Hf]]; [eapply Hfail; [exact Hf|lia|done]|].
      rewrite Nat.eqb_refl in Hf. cbn [negb] in Hf. revert Hf.
      destruct (Z.gtb_spec (Z.of_nat (length (vec_bytes p))) MAX_FRAME_SIZE); [lia|]. intros Hf.
      eapply Hfail; [exact Hf| |done]. rewrite length_app. lia.
Qed.
End Spec.

(** ** Instances *)

Module FrameWitness.
#[local] Instance opcodes : OpCodes := {
  OPENAT := 18; READ := 22; WRITE := 23; FSYNC := 3; CONNECT := 16; RECV := 27; SEND := 26; POLL_ADD := 6
}.
#[local] Instance linux : NetFlags := { POLLIN := 1; POLLOUT := 4; MSG_NOSIGNAL := 16384 }.

Definition answer (res : Z) (bytes : list Z) : ioresp := mkIoResp false res bytes None None.
Definition plenty : iohistory -> nat := fun _ => Z.to_nat MAX_FRAME_SIZE.
Definition zeroed (_ : iohistory) (n : nat) : VecBuf := mkVec 64 (repeat 0 n) 0.

(** Room beyond what is asked for, behind the headers only or everywhere. *)
Definition roomy (_ : iohistory) (n : nat) : VecBuf := mkVec 64 (repeat 0 (n + 4)) 0.

Lemma zeroed_allocates : allocates zeroed.
Proof. intros h n. cbn. by rewrite repeat_length. Qed.
Lemma roomy_allocates : allocates roomy.
Proof. intros h n. cbn. rewrite repeat_length. lia. Qed.
Definition somewhere (_ : list Z) : Z := 128.

(** Two bytes at a time, out of the sender and into the receiver. *)
Definition wire : list Z := [0; 0; 0; 3; 104; 105; 33; 0; 0; 0; 1].
Definition sink : iooracle := fun _ c =>
  match c with Await (ESend _ _ len _ _) => answer (Z.min 2 len) [] | _ => answer 0 [] end.
Definition source : iooracle := fun h c =>
  match c with
  | Await (ERecv fd _ len) =>
      let bytes := take (Nat.min 2 (Z.to_nat len)) (drop (position fd h) wire) in
      answer (Z.of_nat (length bytes)) bytes
  | _ => answer 0 []
  end.
Definition greeting : VecBuf := mkVec 256 [104; 105; 33] 3.

Lemma source_streams fd : streams source fd wire.
Proof.
  intros h pointer len. unfold source, answer, io_refused, io_res, io_bytes.
  set (rest := drop (position fd h) wire). intros _ _. rewrite !Nat2Z.id, length_take. split_and!; [lia|done| |].
  - destruct (Nat.le_ge_cases (Nat.min 2 len) (length rest));
      [by rewrite (Nat.min_l _ (length rest))|by rewrite (Nat.min_r _ (length rest)), !take_ge].
  - intros H0 Hlen. apply length_zero_iff_nil. lia.
Qed.

Lemma wire_bytes : Forall is_byte wire.
Proof. repeat (apply Forall_cons; split; [unfold is_byte; lia|]). by apply Forall_nil. Qed.

(** With vectors of four bytes more than asked for, the receiver fills the first from the
    payload and refuses the frame. *)
Lemma recv_frame_meaning_witness :
  exists x l1 l2 read, outcome_of (recv_frame plenty roomy 4 source tt []) = Done x /\
    history_of (recv_frame plenty roomy 4 source tt []) = (l2 ++ l1) ++ [] /\
    receives 4 8 l1 /\ frame_post 8 7 wire read x /\ is_ok x = false.
Proof.
  destruct (recv_frame_meaning plenty roomy roomy_allocates source 4 wire [] (source_streams 4) wire_bytes)
    as (x & l1 & l2 & read & Hx & Hh & Hr & _ & _ & Hp & _). exists x, l1, l2, read.
  split; [exact Hx|]. split; [exact Hh|]. split; [exact Hr|]. split; [exact Hp|].
  revert Hx. vm_compute. intros [= <-]. reflexivity.
Defined.

(** The greeting arrives, and one byte of the next header is left for it. *)
Lemma frame_round_trip_witness :
  exists y, outcome_of (recv_frame plenty zeroed 4 source tt []) = Done y /\
    match y with Ok v => vec_bytes v = [104; 105; 33] | Err e => False end.
Proof.
  assert (buf_wf greeting) as Hwf by (unfold buf_wf; cbn; lia).
  destruct (frame_round_trip plenty zeroed somewhere zeroed_allocates sink source 3 4 greeting [] [] wire [0; 0; 0; 1]
    Hwf (source_streams 4) wire_bytes) as (x & l & Hx & Hl & Hrt).
  assert (x = Ok tt) as -> by (revert Hx; vm_compute; congruence).
  destruct Hrt as (y & l1 & l2 & Hy & _ & Hrt); [done| |].
  - rewrite app_nil_r in Hl. rewrite <- Hl. by vm_compute.
  - exists y. split; [exact Hy|]. destruct y as [v|e].
    + destruct Hrt as (_ & _ & _ & _ & Hex). apply Hex. split; reflexivity.
    + apply (proj1 Hrt). split; [split; reflexivity|]. split; [|intros h; unfold plenty; lia].
      intros h pointer len. cbn. split; [done|lia].
Defined.

(** Small runs: a deadline that cuts the second send, a frame announced too long. *)
Definition loud : iooracle := fun h c =>
  match c with Await (ERecv _ _ _) => answer 4 [0; 1; 0; 1] | _ => answer 0 [] end.

Lemma frame_samples :
  (let x := send_frame (fun _ => 1%nat) somewhere 3 greeting sink tt [] in
   outcome_of x = Done (Err (timed_out "send")) /\ taken (history_of x) = [0; 0; 0; 3]) /\
  outcome_of (recv_frame plenty zeroed 4 loud tt []) =
    Done (Err (Custom KInvalidData "peer frame length 65537 exceeds the 65536-byte limit")).
Proof. by vm_compute. Qed.

(** An allocator that rounds capacities up, which the standard library allows, makes the
    receiver read into the payload and refuse the frame; and one that does so for the
    payload alone makes it return the next frame's bytes with it. *)
Lemma roomy_vectors_refuse_frames :
  outcome_of (recv_frame plenty roomy 4 source tt []) = Done (Err (Custom KInvalidData "received 8 header bytes")) /\
  match outcome_of (recv_frame plenty (fun _ n => mkVec 64 (repeat 0 (if (n =? 4)%nat then 4 else S n)) 0) 4 source tt []) with
  | Done (Ok v) => vec_bytes v = [104; 105; 33; 0]
  | _ => False
  end.
Proof. by vm_compute. Qed.
End FrameWitness.
