(* ===== verification/Demo.v ===== *)
(** * Demo: the tasks of the example ([src/examples/net_io_poc.rs])

    The upper-casing server, its clients, and the tasks the example spawns, joins and
    aborts.  Spawning, aborting and awaiting a task are calls of the environment: a
    spawned future is a [Job], and an awaited handle answers with the job's output or a
    [JoinError]. *)

From Stdlib Require Import Ascii String List ZArith Lia.
From stdpp Require Import base list strings pretty.
From S2P Require Import Prelude Errors Ffi Timer Ring RingOps RingFutures OwnedIo Net NetSpec Frame FrameSpec.

Open Scope Z_scope.

(** ** One connection *)

(** [make_ascii_uppercase], and the well-formedness [String::from_utf8] checks. *)
Definition ascii_upper (b : Z) : Z := if (97 <=? b) && (b <=? 122) then b - 32 else b.

Definition uppercase (v : VecBuf) : VecBuf :=
  with_memory (map ascii_upper (vec_bytes v) ++ drop (v_len v) (v_mem v)) v.

Definition in_range (lo hi b : Z) : bool := (lo <=? b) && (b <=? hi).
Definition cont : Z -> bool := in_range 128 191.

Fixpoint utf8_valid (l : list Z) : bool :=
  match l with
  | [] => true
  | a :: l =>
      if in_range 0 127 a then utf8_valid l else
      match l with
      | [] => false
      | b :: l =>
          if in_range 194 223 a then cont b && utf8_valid l else
          match l with
          | [] => false
          | c :: l =>
              if in_range 224 239 a
              then in_range (if a =? 224 then 160 else 128) (if a =? 237 then 159 else 191) b && cont c && utf8_valid l
              else
              match l with
              | [] => false
              | d :: l =>
                  in_range 240 244 a &&
                  in_range (if a =? 240 then 144 else 128) (if a =? 244 then 143 else 191) b &&
                  cont c && cont d && utf8_valid l
              end
          end
      end
  end.

Record ClientResult : Type := mkClientResult { cr_id : Z; cr_request : list Z; cr_response : list Z }.

Section Connection.
Context `{ops : OpCodes} `{flags : NetFlags}.
Variable deadline : iohistory -> nat.
Variable with_capacity : iohistory -> nat -> VecBuf.
Variable heap : list Z -> Z.
(** [format!("{:?}", String::from_utf8_lossy(..))]. *)
Variable debug_lossy : list Z -> string.
(** The retries of [accept]. *)
Variable fuel : nat.


Definition timed_connect (address : SocketAddr) : ioprog (result IoError TcpStream) :=
  r ← timed deadline (connect_on address);
  mret (match r with Ok r => r | Err _ => Err (timed_out "connect") end).

Definition timed_accept (listener : Z) : ioprog (result IoError (TcpStream * SocketAddr)) :=
  r ← timed deadline (accept fuel listener);
  mret (match r with Ok r => r | Err _ => Err (timed_out "accept") end).

(** The stream is dropped when the future ends. *)
Definition handle_connection (stream : TcpStream) (peer : SocketAddr) : ioprog (result IoError Z) :=
  r ← (let? payload := recv_frame deadline with_capacity (st_fd stream) in
       let bytes := v_len payload in
       let? _ := send_frame deadline heap (st_fd stream) (uppercase payload) in
       mret (Ok (Z.of_nat bytes)));
  _ ← close (st_fd stream);
  mret r.

Definition mismatch (id : Z) (expected received : list Z) : IoError :=
  Custom KInvalidData ("client " ++ pretty id ++ " expected " ++ debug_lossy expected ++ ", received " ++ debug_lossy received).

Definition not_utf8 : IoError := Custom KInvalidData "invalid utf-8 sequence".

Definition run_client (id : Z) (address : SocketAddr) (request : list Z) : ioprog (result IoError ClientResult) :=
  let? stream := timed_connect address in
  r ← (let? _ := set_nodelay (st_fd stream) true in
       let? _ := send_frame deadline heap (st_fd stream) (vec_of heap request) in
       let? response := recv_frame deadline with_capacity (st_fd stream) in
       let expected := map ascii_upper request in
       if negb (bool_decide (vec_bytes response = expected))
       then mret (Err (mismatch id expected (vec_bytes response))) else
       if utf8_valid (vec_bytes response)
       then mret (Ok (mkClientResult id request (vec_bytes response)))
       else mret (Err not_utf8));
  _ ← close (st_fd stream);
  mret r.
End Connection.

(** ** Tasks *)

(** The futures the example spawns. *)
Inductive Job : Type :=
| Serve (listener : Z) (clients : nat)
| Connection (stream : TcpStream) (peer : SocketAddr)
| Client (id : Z) (address : SocketAddr) (request : list Z).

Definition TaskRef := N.

Inductive DemoCall : Type :=
| Io (c : iocall)
| SpawnJob (j : Job)
| AbortTask (t : TaskRef)
| JoinTask (t : TaskRef).

(** The answers: of the I/O, of a spawn, and of an awaited handle of either output. *)
Record DemoResp : Type := mkDemoResp {
  d_io : ioresp;
  d_spawned : result SpawnError TaskRef;
  d_bytes : result JoinError (result IoError Z);
  d_client : result JoinError (result IoError ClientResult)
}.

(** The outputs of awaited handles: [io::Result<usize>] and [io::Result<ClientResult>]. *)
Class JoinOutput (T : Type) : Type := joined : DemoResp -> result JoinError (result IoError T).
#[export] Instance joined_bytes : JoinOutput Z := d_bytes.
#[export] Instance joined_client : JoinOutput ClientResult := d_client.

Notation demohistory := (history DemoCall DemoResp).
Notation demooracle := (oracle DemoCall DemoResp).
Notation demo := (prog DemoCall DemoResp unit).

(** The I/O of a future among its other calls, which the environment answers knowing all
    of them. *)
Definition io_history (h : demohistory) : iohistory :=
  omap (fun cr => match cr.1 with Io c => Some (c, d_io cr.2) | _ => None end) h.
Definition io_answered (cr : iocall * ioresp) : DemoCall * DemoResp :=
  (Io cr.1, mkDemoResp cr.2 (Err SpawnForkedProcess) (Err Cancelled) (Err Cancelled)).

Definition io {A} (m : ioprog A) : demo A := fun o s h =>
  let before := io_history h in
  let now l := map io_answered (take (length l - length before) l) ++ h in
  let '(r, _, l) := m (fun l c => d_io (o (now l) (Io c))) tt before in (r, s, now l).

(** ** Dropping a future *)

(** The calls [l], oldest first, of a future that is dropped at its [n]th wait from here:
    an operation in flight was submitted, and a handle it awaits was not joined. *)
Fixpoint until (n : nat) (l : demohistory) : option demohistory :=
  match l with
  | [] => None
  | (c, r) :: l =>
      let go n := cons (c, r) <$> until n l in
      match c with
      | Io c' =>
          if is_await c' then match n with O => Some [(c, r)] | S n => go n end else go n
      | JoinTask _ => match n with O => Some [] | S n => go n end
      | _ => go n
      end
  end.

(** A task is aborted: its future is dropped unpolled, or at its [at_]th wait; [Some] when
    it ends before that. *)
Definition dropped {A} (at_ : nat) (m : demo A) : demo (option A) := fun o s h =>
  match at_ with
  | O => (Done None, s, h)
  | S n =>
      let '(r, s', h') := m o s h in
      match until n (rev (take (length h' - length h) h')) with
      | Some l => (Done None, s, rev l ++ h)
      | None => (match r with
                 | Done a => Done (Some a)
                 | Panicked e => Panicked e
                 | Aborted e => Aborted e
                 | Blocked e => Blocked e
                 end, s', h')
      end
  end.

Section Tasks.
Context `{ops : OpCodes} `{flags : NetFlags} `{codes : NosvCodes}.
Variable deadline : iohistory -> nat.
Variable fuel : nat.
(** What [ensure_running] says of the I/O handle. *)
Variable running : bool.

Definition spawn_job (j : Job) : demo (result SpawnError TaskRef) :=
  r ← call (SpawnJob j); mret (d_spawned r).
Definition abort_job (t : TaskRef) : demo unit := _ ← call (AbortTask t); mret tt.

Definition spawn_error (e : SpawnError) : IoError := Custom KOther (display_spawn e).
Definition join_error (e : JoinError) : IoError := Custom KOther (display_join e).

Definition join_io_task {T} `{JoinOutput T} (t : TaskRef) : demo (result IoError T) :=
  r ← call (JoinTask t);
  mret (match joined r with Ok r => r | Err e => Err (join_error e) end).

(** [let _ = task.await]. *)
Definition await_task (t : TaskRef) : demo unit := _ ← call (JoinTask t); mret tt.

Definition abort_and_drain (tasks : list TaskRef) : demo unit :=
  _ ← for_each abort_job tasks;
  for_each await_task tasks.

(** [join_io_tasks], from the [outputs] so far. *)
Fixpoint join_io_tasks {T} `{JoinOutput T} (outputs : list T) (tasks : list TaskRef) : demo (result IoError (list T)) :=
  match tasks with
  | [] => mret (Ok outputs)
  | task :: tasks =>
      r ← join_io_task task;
      match r with
      | Ok output => join_io_tasks (outputs ++ [output]) tasks
      | Err error => _ ← abort_and_drain tasks; mret (Err error)
      end
  end.

(** The loop of [serve]. *)
Fixpoint serve_loop (listener : Z) (clients : nat) (connections : list TaskRef) : demo (result IoError (list TaskRef)) :=
  match clients with
  | O => mret (Ok connections)
  | S clients =>
      r ← io (timed_accept deadline fuel listener);
      match r with
      | Err error => _ ← abort_and_drain connections; mret (Err error)
      | Ok (stream, peer) =>
          s ← spawn_job (Connection stream peer);
          match s with
          | Ok connection => serve_loop listener clients (connections ++ [connection])
          | Err error => _ ← abort_and_drain connections; mret (Err (spawn_error error))
          end
      end
  end.

Definition serve_body (listener : Z) (clients : nat) : demo (result IoError Z) :=
  let? connections := serve_loop listener clients [] in
  let? bytes := join_io_tasks [] connections in
  mret (Ok (foldr Z.add 0 bytes)).

(** The listener is dropped when the future ends. *)
Definition serve (listener : Z) (clients : nat) : demo (result IoError Z) :=
  r ← serve_body listener clients;
  _ ← io (close listener);
  mret r.

(** [serve] when its task is aborted: the future is dropped where it waits, or before its
    first poll, with the listener and the join handles it owns, which detaches the
    connections.  When the abort comes too late, the future has ended: [Some]. *)
Definition serve_aborted (at_ : nat) (listener : Z) (clients : nat) : demo (option (result IoError Z)) :=
  r ← dropped at_ (serve_body listener clients);
  _ ← io (close listener);
  mret r.

(** The loop of [run_demo] over its messages. *)
Fixpoint spawn_clients (address : SocketAddr) (id : Z) (messages : list string) (clients : list TaskRef)
    : demo (result IoError (list TaskRef)) :=
  match messages with
  | [] => mret (Ok clients)
  | request :: messages =>
      r ← spawn_job (Client id address (map (fun c => Z.of_N (Ascii.N_of_ascii c)) (String.list_ascii_of_string request)));
      match r with
      | Ok client => spawn_clients address (id + 1) messages (clients ++ [client])
      | Err error => _ ← abort_and_drain clients; mret (Err (spawn_error error))
      end
  end.

Definition CLIENT_MESSAGES : list string := ["hello nosv"; "owned buffers"; "completion-native io"; "numeric tcp"].

Definition stop_server (server : TaskRef) : demo unit :=
  _ ← abort_job server; await_task server.

Definition run_demo : demo (result IoError (list ClientResult * Z)) :=
  let? listener := io (bind_on running (mkIpv4 2130706433, 0)) in
  address ← io (query_addr listener false);
  match address with
  | Err error => _ ← io (close listener); mret (Err error)
  | Ok address =>
      let? server := r ← spawn_job (Serve listener (length CLIENT_MESSAGES));
                     mret (match r with Ok server => Ok server | Err e => Err (spawn_error e) end) in
      clients ← spawn_clients address 0 CLIENT_MESSAGES [];
      match clients with
      | Err error => _ ← stop_server server; mret (Err error)
      | Ok clients =>
          results ← join_io_tasks [] clients;
          match results with
          | Err error => _ ← stop_server server; mret (Err error)
          | Ok results => let? processed := join_io_task server in mret (Ok (results, processed))
          end
      end
  end.
End Tasks.
