(* ===== verification/DemoSpec.v ===== *)
(** * DemoSpec: who joins the tasks of the example

    The functions of the example await every task they spawn, whatever fails, unless
    their own task is aborted, which detaches what they hold; and the upper-casing server
    answers with the upper-cased frame. *)

From Stdlib Require Import ZArith Lia.
From stdpp Require Import base list strings.
From S2P Require Import Prelude Errors Ffi Timer Ring RingOps RingFutures OwnedIo Net NetSpec Frame FrameSpec Demo.

Open Scope Z_scope.

(** ** One connection *)

Section Connection.
Context `{ops : OpCodes} `{flags : NetFlags}.
Variable deadline : iohistory -> nat.
Variable with_capacity : iohistory -> nat -> VecBuf.
Variable heap : list Z -> Z.
(** The allocations are exact. *)
Hypothesis Hcap : allocates with_capacity.
Hypothesis Hexact : forall h n, capacity with_capacity h n = n.

Lemma receives_taken fd n l : receives fd n l -> taken l = [].
Proof. induction 1 as [|[c r] l (p & len & Hc & _) _ IH]; [done|]. cbn in Hc. subst c. exact IH. Qed.

Lemma uppercase_bytes v :
  v_len v = length (vec_bytes v) -> buf_wf (uppercase v) /\ vec_bytes (uppercase v) = map ascii_upper (vec_bytes v).
Proof.
  intros Hv. unfold buf_wf, uppercase, vec_bytes in *. cbn. rewrite length_app, length_map. split; [lia|].
  rewrite take_app_le by (rewrite length_map; lia). apply take_ge. rewrite length_map. lia.
Qed.

(** The server answers with the upper-cased frame: when vectors get exactly the capacity
    they ask for and a frame of [p] is next on a
    connection, what [handle_connection] sends is a prefix of the frame of [p] in upper
    case, all of it when it returns the number of bytes, which is the length of [p]; and
    whatever happens it returns, and closes the connection last. *)
Theorem connection_answers o stream h p tail (s : TcpStream) peer :
  streams o (st_fd s) stream -> Forall is_byte stream -> Z.of_nat (length p) <= MAX_FRAME_SIZE ->
  drop (position (st_fd s) h) stream = frame p ++ tail ->
  run_post (handle_connection deadline with_capacity heap s peer) o tt h (fun r _ h' =>
    exists x l r', r = Done x /\ h' = (SysClose (st_fd s), r') :: l ++ h /\
      taken l `prefix_of` frame (map ascii_upper p) /\
      match x with Ok n => n = Z.of_nat (length p) /\ taken l = frame (map ascii_upper p) | Err _ => True end).
Proof.
  intros Hs Hb Hp Hd. destruct (recv_frame_run deadline with_capacity Hcap o (st_fd s) stream h Hs Hb)
    as (y & l11 & l12 & R1 & Hrec1 & Hrec2 & _ & read & Hpost & _ & _).
  apply receives_taken in Hrec1, Hrec2. rewrite Hd in Hpost.
  assert (u32_len (length p)) as Hu by (unfold u32_len, u32_max, MAX_FRAME_SIZE in *; lia).
  destruct (announced_frame p tail Hu) as [Ha Hdrop]. set (l1 := l12 ++ l11) in *.
  assert (taken l1 = []) as Hrec by (unfold l1; by rewrite taken_app, Hrec1, Hrec2).
  unfold handle_connection, close. apply run_post_bind. unfold prog_bind at 1. unfold run_post at 1.
  rewrite R1. destruct y as [v|e].
  - destruct Hpost as (_ & _ & _ & Hl & Hv & _).
    rewrite Hexact, Ha, Nat2Z.id in Hl. rewrite Hexact, Ha, Hdrop, Nat2Z.id, take_app_length in Hv.
    rewrite <- Hv in Hl, Hp |- *. clear Hv.
    destruct (uppercase_bytes v Hl) as [Hwf Hup].
    destruct (send_frame_run deadline heap (st_fd s) (uppercase v) o (l1 ++ h) Hwf) as (x & l2 & R2 & Hpre & Hok & _).
    unfold prog_bind. rewrite R2, Hup in *. unfold outcome_of, state_of, history_of.
    destruct x as [[]|e]; cbn [fst snd then_post]; unfold run_post; run_unfold; eexists _, (l2 ++ l1), _; rewrite <- app_assoc, taken_app, Hrec;
      (split; [done|]; split; [done|]; split; [exact Hpre|]); [|done]. split; [by rewrite Hl|by apply Hok].
  - unfold outcome_of, state_of, history_of. cbn [fst snd then_post]. unfold run_post. run_unfold.
    eexists _, l1, _. rewrite Hrec. split; [done|]. split; [done|]. split; [apply prefix_nil|done].
Qed.
End Connection.

(** ** The join handles a future holds *)












Section Joined.
Context `{ops : OpCodes} `{flags : NetFlags} `{codes : NosvCodes}.
Variable deadline : iohistory -> nat.
Variable fuel : nat.
Variable running : bool.
Notation demo := (prog DemoCall DemoResp unit).
Implicit Types (o : oracle DemoCall DemoResp) (h : history DemoCall DemoResp).

(** The environment of the I/O, and what it is assumed to do. *)
Variable calm : iooracle -> Prop.
























(** ** The I/O in between returns *)








(** ** A future that is dropped *)


End Joined.

(** ** Accepting ends in time *)

Section Accepting.
Context `{ops : OpCodes} `{flags : NetFlags} `{codes : NosvCodes}.
Variable deadline : iohistory -> nat.
Variable fuel : nat.
(** Every retry after the first waits for the listener, and fewer waits than [fuel]
    complete before the deadline. *)
Hypothesis Hfuel : forall h, (deadline h < fuel)%nat.








End Accepting.

(** ** Instances *)

Module DemoWitness.
Import FrameWitness.
#[local] Existing Instance opcodes.
#[local] Existing Instance linux.

(** A client on the wire of [FrameWitness], which also takes what it is sent. *)
Definition client : iooracle := fun h c =>
  match c with Await (ESend _ _ len _ _) => answer len [] | _ => source h c end.

Lemma connection_answers_witness :
  exists x l r', outcome_of (handle_connection plenty zeroed somewhere (from_socket 4) (AddrV4 1 1) client tt []) = Done x /\
    history_of (handle_connection plenty zeroed somewhere (from_socket 4) (AddrV4 1 1) client tt []) =
      (SysClose 4, r') :: l ++ [] /\
    taken l `prefix_of` [0; 0; 0; 3; 72; 73; 33] /\ match x with Ok n => n = 3 /\ taken l = [0; 0; 0; 3; 72; 73; 33] | Err _ => True end.
Proof.
  assert (forall h n, capacity zeroed h n = n) as Hz by (intros h n; apply repeat_length).
  exact (connection_answers plenty zeroed somewhere zeroed_allocates Hz client wire [] [104; 105; 33] [0; 0; 0; 1] (from_socket 4) (AddrV4 1 1)
    (source_streams 4) wire_bytes ltac:(unfold MAX_FRAME_SIZE; cbn; lia) eq_refl).
Defined.

(** An environment that gives out tasks, in which the second client fails. *)
Definition world : oracle DemoCall DemoResp := fun h c =>
  mkDemoResp (match c with
              | Io (SysName _ _) => mkIoResp false 0 [] (Some (AddrV4 1 80)) None
              | Io (SysAccept4 _) => mkIoResp false 5 [] (Some (AddrV4 2 90)) None
              | _ => answer 3 []
              end)
    (Ok (N.of_nat (length h))) (Ok (Ok 7))
    (match c with JoinTask 6%N => Err (Panic "client") | _ => Ok (Ok (mkClientResult 0 [] [])) end).

#[local] Existing Instance sample_codes.


(** The second client's panic aborts the two that are left and the server. *)
Lemma demo_sample :
  outcome_of (run_demo true world tt []) = Done (Err (Custom KOther "task panicked")) /\
  map fst (take 7 (history_of (run_demo true world tt []))) =
    [JoinTask 4; AbortTask 4; JoinTask 8; JoinTask 7; AbortTask 8; AbortTask 7; JoinTask 6]%N.
Proof. by vm_compute. Qed.
End DemoWitness.
