(* ===== verification/Handles.v ===== *)
(** * Handles: the capabilities of a runtime generation ([src/src/runtime.rs], [io.rs], [io_uring.rs])

    [RuntimeBuilder], [Handle], [TaskBuilder::spawn], [IoHandle] and [IoUringHandle]: what
    each checks before it acts.  A capability that holds only a weak reference is given
    [alive], whether it still upgrades; [getpid] is the process that uses it.  The file
    shows that in a forked child, and after the runtime has closed, the capabilities of
    the runtime call nothing, and that the one of the raw ring does. *)

From Stdlib Require Import ZArith Lia.
From stdpp Require Import base gmap sets list strings.
From S2P Require Import Prelude Errors Ffi Affinity Task TaskLife Runtime Ring RingOps RingFutures RingInv RingPrim RingCount RingStep RingSect RingDrive RingSys RingSpec RingStop RingGate RingWork RingRun Query Lifecycle.

Open Scope Z_scope.

(** ** [RuntimeBuilder] *)

Record RuntimeBuilder : Type := mkRuntimeBuilder { rb_io_uring_config : IoUringConfig }.
Definition builder_default : RuntimeBuilder := mkRuntimeBuilder Ring.config_default.
Definition builder : RuntimeBuilder := builder_default.
Definition io_uring_config (config : IoUringConfig) (_ : RuntimeBuilder) : RuntimeBuilder := mkRuntimeBuilder config.

Section Capabilities.
Context `{codes : NosvCodes} `{repr : AffinityRepr} `{levels : TopoLevels} {F T : Type}.
Notation rprog := (nprog (RState F T)).
Implicit Types (s : RState F T) (o : noracle) (h : nhistory).

(** [RuntimeBuilder::build] and [Runtime::new]. *)
Definition builder_build (code : Z) (k : RingKernel) (b : RuntimeBuilder) (w : BuildWorld) (thread getpid : Z)
    : nprog Drivers (result InitError (RState F T)) :=
  build code k (rb_io_uring_config b) w thread getpid.
Definition runtime_new (code : Z) (k : RingKernel) (w : BuildWorld) (thread getpid : Z)
    : nprog Drivers (result InitError (RState F T)) :=
  builder_build code k builder w thread getpid.

(** ** [Handle] *)

Inductive Topology : Type := mkTopology.
Inductive IoHandle : Type := mkIoHandle.

Definition handle_spawn (getpid : Z) (fut : F) : rprog (result SpawnError TaskId) := spawn_on getpid Runtime.config_default fut.
Definition handle_topology (getpid : Z) : rprog (result RuntimeClosed Topology) :=
  let? _ := ensure_running getpid in mret (Ok mkTopology).
Definition handle_io_handle (getpid : Z) : rprog (result RuntimeClosed IoHandle) :=
  let? _ := ensure_running getpid in mret (Ok mkIoHandle).

(** [TaskBuilder::spawn]. *)
Definition builder_spawn (getpid : Z) (config : TaskConfig) (fut : F) : rprog (result SpawnError TaskId) :=
  spawn_on getpid config fut.

(** [JoinHandle::abort] and [AbortHandle::abort], which hold the same [TaskCore]; its
    runtime is the reference that the core upgrades. *)
Record JoinHandle : Type := mkJoinHandle { jh_core : TaskId }.
Record AbortHandle : Type := mkAbortHandle { ah_core : TaskId }.
Definition abort_handle (j : JoinHandle) : AbortHandle := mkAbortHandle (jh_core j).

Definition upgraded (alive : bool) (getpid : Z) s : option RuntimeRef :=
  if alive then Some (mkRuntimeRef (core_process_matches getpid s)) else None.
Definition join_handle_abort (alive : bool) (getpid : Z) s (_ : JoinHandle) : nprog NativeGate bool :=
  request_abort (upgraded alive getpid s).
Definition abort_handle_abort (alive : bool) (getpid : Z) s (_ : AbortHandle) : nprog NativeGate bool :=
  request_abort (upgraded alive getpid s).

(** ** [IoHandle] *)

(** [current]: whether the thread has a current runtime. *)
Definition io_try_current (current : bool) (getpid : Z) : rprog (result RuntimeClosed IoHandle) :=
  if current then handle_io_handle getpid else mret (Err mkRuntimeClosed).
Definition io_ensure_running (alive : bool) (getpid : Z) : rprog (result RuntimeClosed unit) :=
  if alive then ensure_running getpid else mret (Err mkRuntimeClosed).

(** What [IoUringHandle::submit_entries] asks of its core. *)
Definition handle_closed (alive : bool) (getpid : Z) : rprog bool :=
  if alive then r ← ensure_running getpid; mret (negb (is_ok r)) else mret true.

(** *** Fail closed *)

(** The runtime is closing or closed, or the process is not the one that made it. *)
Definition inert (getpid : Z) s : Prop := pid (ids s) <> getpid \/ lifecycle s <> Running.

(** However it is called, [m] refuses at an inert runtime, changes nothing and calls
    nothing. *)
Definition guarded {E A} (m : Z -> rprog (result E A)) : Prop :=
  forall getpid s o h, inert getpid s -> exists e, m getpid o s h = (Done (Err e), s, h).

Lemma inert_live alive getpid s : inert getpid s -> live alive getpid s = false.
Proof.
  unfold live, core_process_matches. intros [Hp|Hl]; [by rewrite (proj2 (Z.eqb_neq _ _) Hp), andb_false_r|].
  destruct (lifecycle s); [done|..]; by rewrite andb_false_r.
Qed.

Lemma ensure_running_inert getpid s o h : inert getpid s -> ensure_running getpid o s h = (Done (Err mkRuntimeClosed), s, h).
Proof.
  intros [Hp|Hl]; unfold ensure_running, core_process_matches; run_unfold; [by rewrite (proj2 (Z.eqb_neq _ _) Hp)|].
  destruct (lifecycle s); [done|..]; by rewrite orb_true_r.
Qed.

Lemma spawn_guarded config fut : guarded (fun getpid => spawn_on getpid config fut).
Proof.
  intros getpid s o h [Hp|Hl]; unfold spawn_on, core_process_matches; run_unfold.
  - rewrite (proj2 (Z.eqb_neq _ _) Hp). by eexists.
  - destruct (negb _); [by eexists|]. destruct (opt_to_raw (affinity config)); [|by eexists].
    destruct (lifecycle s); [done|..]; by eexists.
Qed.

Lemma topology_guarded : guarded handle_topology.
Proof. intros getpid s o h Hi. eexists. unfold handle_topology. run_unfold. by rewrite ensure_running_inert. Qed.

Lemma io_handle_guarded : guarded handle_io_handle.
Proof. intros getpid s o h Hi. eexists. unfold handle_io_handle. run_unfold. by rewrite ensure_running_inert. Qed.

Lemma io_ensure_running_guarded alive : guarded (io_ensure_running alive).
Proof. intros getpid s o h Hi. destruct alive; [eexists; by apply ensure_running_inert|by eexists]. Qed.

Lemma io_try_current_guarded current : guarded (io_try_current current).
Proof. intros getpid s o h Hi. destruct current; [by apply io_handle_guarded|by eexists]. Qed.

Lemma memory_stats_guarded : guarded memory_stats.
Proof.
  intros getpid s o h Hi. unfold memory_stats, core_process_matches. run_unfold.
  destruct (Z.eqb_spec (pid (ids s)) getpid) as [E|]; [|by eexists]. destruct Hi as [|Hl]; [done|].
  destruct (lifecycle s); [done|..]; by eexists.
Qed.

Lemma with_live_guarded {A} alive (query : rprog (result NativeError A)) : guarded (fun getpid => with_live alive getpid query).
Proof.
  intros getpid s o h Hi. unfold with_live, core_process_matches. run_unfold. destruct alive; [|by eexists].
  cbn. destruct (Z.eqb_spec (pid (ids s)) getpid) as [E|]; [|by eexists]. destruct Hi as [|Hl]; [done|].
  destruct (lifecycle s); [done|..]; by eexists.
Qed.
End Capabilities.

(** ** [IoUringHandle] *)

Section RingHandle.
Context `{codes : NosvCodes} `{U : Uring} {F V T : Type}.
Notation uprog := (prog ucall uresp).
Notation driver := (Driver (T := T)).
Variable new_box : history ucall uresp -> gset Z -> Z.
Variable o : oracle ucall uresp.
Variable no : noracle.
Variable cfg : IoUringConfig.

(** [IoUringHandle::submit_entries], when its core answers [closed]. *)
Definition handle_submit_entries (closed : bool) (id : SubId) (es : list sqe) (x : driver) : option (SubmitEntries * driver) :=
  match section o (submit_entries (max_buffered_completions cfg) id closed es) (dsys x) with
  | (s, Some se) => Some (se, mkDriver s (dgate x) (dhist x))
  | (_, None) => None
  end.

(** [wake_waiters]: a panic of a waker is contained. *)
Definition wake_admitted (ws : list Waker) (x : driver) : driver :=
  let '(_, g, h) := for_each wake ws no (dgate x) (dhist x) in mkDriver (dsys x) g h.

(** [SubmitEntries::poll] with its wake-ups and notifications; [None] when it panics or aborts. *)
Definition poll_submission (cx : Waker) (se : SubmitEntries) (x : driver)
    : option (option (result SubmissionErrorKind unit) * driver) :=
  match section o (submit_admit new_box se) (dsys x) with
  | (_, None) => None
  | (s, Some (se, ws, due)) =>
      let x := wake_admitted ws (mkDriver s (dgate x) (dhist x)) in
      x ← (if due then notify_driver no x else Some x);
      match section o (submit_check cx se) (dsys x) with
      | (_, None) => None
      | (s, Some q) =>
          let x := mkDriver s (dgate x) (dhist x) in
          x ← match q with
              | Some (Err _) => announce o no (request_cancel (se_state se) Cancelling) x
              | Some (Ok _) => Some x
              | None => notify_driver no x
              end;
          Some (q, x)
      end
  end.

Implicit Types (x y : driver).

Lemma request_cancel_done id dl (s : Ring T) h : outcome_of (request_cancel id dl o s h) = Done tt.
Proof. unfold request_cancel, close_delivery, queue_cancels. run_unfold. by destruct (bool_decide _). Qed.

Lemma announce_done {A} (m : uprog (Ring T) A) x a :
  outcome_of (m o (r (dsys x)) (rh (dsys x))) = Done a ->
  exists s, announce o no m x = notify_driver no (mkDriver s (dgate x) (dhist x)).
Proof.
  unfold announce, section. destruct (m o (r (dsys x)) (rh (dsys x))) as [[q s] h]. cbn. intros ->. by eexists.
Qed.

(** A submission through a closed handle is refused, and the refusal notifies. *)
Lemma closed_submission id es cx x :
  exists se y s, handle_submit_entries true id es x = Some (se, y) /\ dgate y = dgate x /\ dhist y = dhist x /\
    poll_submission cx se y =
      (z ← notify_driver no (mkDriver s (dgate y) (dhist y)); Some (Some (Err KRuntimeClosed), z)).
Proof.
  unfold handle_submit_entries, section, submit_entries, register_submission. run_unfold.
  do 2 eexists. 
  match goal with |- context [Some (?a, ?b)] => set (se := a); set (y := b) end.
  assert (exists u, subs (r (dsys y)) !! id = Some u /\ delivery u = Cancelling) as (u & Hu & Hd).
  { subst y. cbn. rewrite lookup_alter_eq, lookup_insert_eq. cbn. eexists. by split. }
  assert (exists s h, section o (submit_check cx se) (dsys y) = (set_r s h (dsys y), Some (Some (Err KRuntimeClosed)))) as (s1 & h1 & E1).
  { unfold section, submit_check, get_sub. run_unfold. rewrite Hu. cbn. rewrite Hd. by do 2 eexists. }
  destruct (announce_done (request_cancel id Cancelling) (mkDriver (set_r s1 h1 (dsys y)) (dgate y) (dhist y)) tt
    (request_cancel_done _ _ _ _)) as [s E2].
  exists s. split; [reflexivity|]. split_and!; [done|done|].
  assert (section o (submit_admit new_box se) (dsys y) = (dsys y, Some (se, [], false))) as E0 by reflexivity.
  change (poll_submission cx se y = (z ← notify_driver no (mkDriver s (dgate y) (dhist y)); Some (Some (Err KRuntimeClosed), z))).
  unfold poll_submission. rewrite E0. cbn -[section announce submit_check request_cancel y]. rewrite E1.
  cbn -[section announce submit_check request_cancel y]. rewrite E2. reflexivity.
Qed.

Implicit Types (s : RState F V).

(** C31. What handles that a child inherited over [fork] do.  The capabilities of the
    runtime keep the promise of the documentation: whatever the process, once it is not
    the one that made the runtime, spawning (with any builder's configuration), the
    topology handle and each of its queries (CPUs, NUMA nodes, domains, the CPUs of a
    domain), the memory query and the checks of I/O handles report an error, aborts
    report that they did nothing, and none changes anything or calls anything in nOS-V.
    The handle of the raw ring does not keep it: it reports that the runtime is closed,
    but if the driver was parked when the process forked, and nOS-V accepts the call, the
    report of the refused submission submits the inherited descriptor. *)
Theorem inherited_handles `{repr : AffinityRepr, levels : TopoLevels} getpid s (Hfork : pid (ids s) <> getpid)
    id es cx x raw (Hraw : g_raw (dgate x) = Some raw) (Hpark : g_phase (dgate x) = RPaused) (Haccepts : accepts no) :
  (forall h config fut, exists e, spawn_on getpid config fut no s h = (Done (Err e), s, h)) /\
  (forall h, exists e, handle_topology getpid no s h = (Done (Err e), s, h)) /\
  (forall h, exists e, handle_io_handle getpid no s h = (Done (Err e), s, h)) /\
  (forall h alive, exists e, io_ensure_running alive getpid no s h = (Done (Err e), s, h)) /\
  (forall h, exists e, memory_stats getpid no s h = (Done (Err e), s, h)) /\
  (forall h alive, exists e, cpus alive getpid no s h = (Done (Err e), s, h)) /\
  (forall h alive, exists e, numa_nodes alive getpid no s h = (Done (Err e), s, h)) /\
  (forall h alive level, exists e, domains alive getpid level no s h = (Done (Err e), s, h)) /\
  (forall h alive domain, exists e, cpus_in alive getpid domain no s h = (Done (Err e), s, h)) /\
  (forall h alive, handle_closed alive getpid no s h = (Done true, s, h)) /\
  (forall g h alive j, join_handle_abort alive getpid s j no g h = (Done false, g, h) /\
     abort_handle_abort alive getpid s (abort_handle j) no g h = (Done false, g, h)) /\
  exists se y z resp,
    handle_submit_entries true id es x = Some (se, y) /\
    poll_submission cx se y = Some (Some (Err KRuntimeClosed), z) /\
    dhist z = (NSubmit raw SUBMIT_NONE, resp) :: dhist x.
Proof.
  assert (inert getpid s) as Hi by (by left).
  split_and!.
  - intros h config fut. by apply (spawn_guarded config fut).
  - intros h. by apply topology_guarded.
  - intros h. by apply io_handle_guarded.
  - intros h alive. by apply io_ensure_running_guarded.
  - intros h. by apply memory_stats_guarded.
  - intros h alive. by apply (with_live_guarded alive).
  - intros h alive. by apply (with_live_guarded alive).
  - intros h alive level. by apply (with_live_guarded alive).
  - intros h alive domain. by apply (with_live_guarded alive).
  - intros h alive. destruct alive; [|done]. unfold handle_closed. run_unfold. by rewrite ensure_running_inert.
  - intros g h alive j. unfold join_handle_abort, abort_handle_abort, upgraded, core_process_matches.
    rewrite (proj2 (Z.eqb_neq _ _) Hfork). by destruct alive.
  - destruct (closed_submission id es cx x) as (se & y & t & E1 & Eg & Eh & E2).
    exists se, y. rewrite E2, Eg, Eh. unfold notify_driver, ring_notify, submit, submit_with, Ffi.status. run_unfold.
    rewrite Hpark. cbn. rewrite Hraw. cbn. rewrite (proj1 Haccepts). cbn. by do 2 eexists.
Qed.
End RingHandle.

(** ** A child of a process whose driver is parked *)

Module ForkRun.
Import RingSpec.Sample.
#[local] Existing Instance sample_codes.
#[local] Existing Instance packed_affinity.

(** The levels of a library. *)
#[local] Instance sample_levels : TopoLevels := Build_TopoLevels 0 1 2 3 4.

Definition parked : Driver (T := Z) := mkDriver start (mkGate (Some 5%positive) RPaused false false) [].

Lemma inherited_handles_witness :
  (exists e, spawn_on 11 Runtime.Sample.config 0%nat Ffi.accepting Runtime.Sample.start [] = (Done (Err e), Runtime.Sample.start, [])) /\
  exists se y z resp,
    handle_submit_entries kernel config_default true 1%N [70] parked = Some (se, y) /\
    poll_submission new_box kernel Ffi.accepting 9%N se y = Some (Some (Err KRuntimeClosed), z) /\
    dhist z = [(NSubmit 5%positive SUBMIT_NONE, resp)].
Proof.
  assert (accepts Ffi.accepting) as Ha by (split; [intros h []; reflexivity|done]).
  assert (pid (ids Runtime.Sample.start) <> 11) as Hf by done.
  destruct (inherited_handles new_box kernel Ffi.accepting config_default 11 Runtime.Sample.start Hf 1%N [70] 9%N parked
    5%positive eq_refl eq_refl Ha) as (H1 & _ & _ & _ & _ & _ & _ & _ & _ & _ & _ & H8).
  exact (conj (H1 [] Runtime.Sample.config 0%nat) H8).
Defined.
End ForkRun.
