(* ===== verification/UnitTests.v ===== *)
(** * UnitTests: the crate's own unit tests, run on the model

    The [tests] modules of [src/src/error.rs], [affinity.rs], [topology.rs], [time.rs] and
    [io_uring.rs], translated like the rest of the code: a test is a program that panics
    at a false assertion.  Each theorem runs one and shows that it ends without a panic,
    for every value the test leaves to the system: the native codes, the clock, the
    addresses of the boxed contexts, the completion entries.  Not here: the test of the
    [ubq] crate alone, and the one whose subject is a model of its own. *)

From Stdlib Require Import ZArith Lia.
From stdpp Require Import base gmap sets list strings pretty.
From S2P Require Import Prelude Errors Ffi Affinity Timer Ring RingOps RingFutures RingInv RingPrim RingCount RingStep RingSect RingDrive RingSys RingSpec RingGate.

Open Scope Z_scope.

Definition ASSERTION : string := "assertion failed".
Definition assert_that {C R S} (b : bool) : prog C R S unit := if b then mret tt else panic ASSERTION.
Definition passes {C R S A} (test : prog C R S A) (s : S) : Prop :=
  forall o h, exists a, outcome_of (test o s h) = Done a.

(** The assertions of a test that reads no state. *)
Fixpoint all_hold (assertions : list bool) : prog unit unit unit unit :=
  match assertions with [] => mret tt | b :: l => _ ← assert_that b; all_hold l end.

Lemma all_hold_passes l : Forall (eq true) l -> passes (all_hold l) tt.
Proof.
  intros Hl o h. exists tt. revert h. induction Hl as [|b l <- _ IH]; intros h; [done|].
  exact (IH h).
Qed.

(** ** [error.rs] *)

Section ErrorTests.
Context `{codes : NosvCodes}.

(** [str::contains]. *)
Fixpoint contains (needle s : string) : bool :=
  String.prefix needle s || match s with EmptyString => false | String _ s' => contains needle s' end.

Definition round_trip_cases : list (Z * NativeError) :=
  [(NOSV_ERR_INVALID_CALLBACK, InvalidCallback);
   (NOSV_ERR_INVALID_METADATA_SIZE, InvalidMetadataSize);
   (NOSV_ERR_INVALID_OPERATION, InvalidOperation);
   (NOSV_ERR_INVALID_PARAMETER, InvalidParameter);
   (NOSV_ERR_NOT_INITIALIZED, NotInitialized);
   (NOSV_ERR_OUT_OF_MEMORY, OutOfMemory);
   (NOSV_ERR_OUTSIDE_TASK, OutsideTask);
   (NOSV_ERR_BUSY, Busy);
   (NOSV_ERR_TIMEOUT, Timeout)].

Definition round_trip_case (expected : Z * NativeError) : list bool :=
  [bool_decide (from_code expected.1 = Err expected.2);
   code expected.2 =? expected.1;
   contains (pretty expected.1) (display_native expected.2)].

Definition every_known_native_code_round_trips : prog unit unit unit unit :=
  all_hold (bool_decide (from_code NOSV_SUCCESS = Ok tt) :: flat_map round_trip_case round_trip_cases).

Definition unknown_native_code_is_preserved : prog unit unit unit unit :=
  all_hold [bool_decide (from_code (-123456) = Err (Unknown (-123456))); code (Unknown (-123456)) =? -123456].
End ErrorTests.

Lemma string_app_assoc (a b c : string) : (a ++ b ++ c = (a ++ b) ++ c)%string.
Proof.
  induction a as [|x a IH]; [done|].
  change (String x (a ++ b ++ c) = String x ((a ++ b) ++ c))%string. by rewrite IH.
Qed.

Lemma contains_infix needle a b : contains needle (a ++ needle ++ b) = true.
Proof.
  assert (forall s, String.prefix needle (needle ++ s) = true) as Hp.
  { intros s. induction needle as [|c n IHn]; [by destruct s|].
    change (String c n ++ s)%string with (String c (n ++ s)). cbn. by destruct (Ascii.ascii_dec c c). }
  induction a as [|c a IH].
  - specialize (Hp b). change ("" ++ needle ++ b)%string with (needle ++ b)%string.
    destruct (needle ++ b)%string; cbn [contains]; by rewrite Hp.
  - change (String c a ++ needle ++ b)%string with (String c (a ++ needle ++ b)). cbn [contains]. rewrite IH. apply orb_true_r.
Qed.

Section ErrorResults.
Context `{codes : NosvCodes, !NosvCodesDistinct}.

(** A code other than success decodes to the error that has it. *)
Lemma known_from_code e : (forall k, e = Unknown k -> k ∉ known_error_codes) -> code e <> NOSV_SUCCESS ->
  from_code (code e) = Err e.
Proof. intros Hu Hs. unfold from_code. rewrite (proj2 (Z.eqb_neq _ _) Hs). by rewrite classify_code. Qed.

Lemma round_trip_case_holds e : (forall k, e <> Unknown k) -> code e <> NOSV_SUCCESS ->
  Forall (eq true) (round_trip_case (code e, e)).
Proof.
  intros He Hs. repeat constructor; cbn [fst snd].
  - rewrite known_from_code; [by rewrite bool_decide_true|by intros k Hk%He|done].
  - by rewrite Z.eqb_refl.
  - unfold display_native. assert (forall m p, (m ++ " (code " ++ p ++ ")")%string = ((m ++ " (code ") ++ p ++ ")")%string) as ->.
    { intros m p. by rewrite string_app_assoc. }
    by rewrite contains_infix.
Qed.

(** [every_known_native_code_round_trips], for all constants the header may have. *)
Theorem every_known_native_code_round_trips_passes : passes every_known_native_code_round_trips tt.
Proof.
  apply all_hold_passes. constructor; [unfold from_code; by rewrite Z.eqb_refl|].
  pose proof codes_distinct as Hd. apply NoDup_cons in Hd as [Hs _].
  assert (forall c, c ∈ known_error_codes -> c <> NOSV_SUCCESS) as Hne by (intros c Hc ->; done).
  unfold round_trip_cases. cbn [flat_map].
  repeat (apply Forall_app; split); try apply Forall_nil_2;
    match goal with |- Forall _ (round_trip_case (_, ?e)) => apply (round_trip_case_holds e); [done|] end;
    apply Hne; unfold known_error_codes; cbn; repeat (left + right); left.
Qed.

Theorem unknown_native_code_is_preserved_passes (Hc : -123456 ∉ NOSV_SUCCESS :: known_error_codes) :
  passes unknown_native_code_is_preserved tt.
Proof.
  apply not_elem_of_cons in Hc as [Hs Hk]. apply all_hold_passes. repeat constructor.
  assert (from_code (-123456) = Err (Unknown (-123456))) as ->; [|by rewrite bool_decide_true].
  apply (known_from_code (Unknown (-123456))); [by intros k [= <-]|]. cbn. congruence.
Qed.
End ErrorResults.

(** ** [affinity.rs] and [topology.rs] *)

Section IdentifierTests.
Context `{repr : AffinityRepr}.

Definition affinity_index_boundary_is_checked_without_truncation : prog unit unit unit unit :=
  all_hold [
    match CpuId_new MAX_INDEX with Ok maximum => is_ok (to_raw (strict_cpu maximum)) | Err _ => false end;
    match CpuId_new (MAX_INDEX + 1) with
    | Ok too_large => match to_raw (preferred_cpu too_large) with Err InvalidParameter => true | _ => false end
    | Err _ => false
    end;
    is_ok (to_raw Any)].

Theorem affinity_index_boundary_passes : passes affinity_index_boundary_is_checked_without_truncation tt.
Proof. apply all_hold_passes. by repeat constructor. Qed.
End IdentifierTests.

Definition identifiers_reject_signed_abi_overflow_and_negative_domains : prog unit unit unit unit :=
  all_hold [
    match CpuId_new (2 ^ 31 - 1) with Ok c => cpu_get c =? 2 ^ 31 - 1 | Err _ => false end;
    bool_decide (CpuId_new (2 ^ 31 - 1 + 1) = Err InvalidParameter);
    bool_decide (NumaNodeId_from_native (-1) = Err InvalidParameter);
    match DomainId_new LCpu (-1) with Err InvalidParameter => true | _ => false end;
    match DomainId_new LNuma 7 with
    | Ok domain => bool_decide (level domain = LNuma) && (system_id domain =? 7)
    | Err _ => false
    end].

Theorem identifiers_reject_overflow_passes : passes identifiers_reject_signed_abi_overflow_and_negative_domains tt.
Proof. apply all_hold_passes. by repeat constructor. Qed.

(** ** [time.rs] *)

Section TimeTests.
Variable r : TimerRef.
Variable noop : Waker.

(** [sleep(d)] at the clock's value [now], and a poll at [now'] outside a runtime. *)
Definition new_sleep (now d : Z) : nprog TState Sleep :=
  match sleep_at now now d with Some deadline => sleep_until deadline r | None => panic "overflow when adding duration to instant" end.

Definition expired_sleep_is_ready_without_a_runtime (now now' : Z) : nprog TState unit :=
  sleep ← new_sleep now 0;
  '(q, _) ← sleep_poll now' noop NoHandle sleep;
  assert_that (bool_decide (q = None)).

Definition ready_operation_wins_a_simultaneous_timeout (now now' : Z) : nprog TState unit :=
  sleep ← new_sleep now 0;
  q ← timeout_poll (mret (Some 42)) ('(q, _) ← sleep_poll now' noop NoHandle sleep; mret (bool_decide (q = None)));
  assert_that (match q with Some (Ok v) => v =? 42 | _ => false end).

Theorem expired_sleep_passes now now' (Hn : now <= INSTANT_MAX) (Hle : now <= now') s :
  passes (expired_sleep_is_ready_without_a_runtime now now') s.
Proof.
  intros o h. exists tt. unfold expired_sleep_is_ready_without_a_runtime, new_sleep, sleep_at, checked_add.
  rewrite Z.add_0_r, (proj2 (Z.leb_le _ _) Hn). unfold sleep_until, sleep_poll, sleep_check. run_unfold.
  rewrite lookup_insert_eq. cbn. by rewrite (proj2 (Z.leb_le _ _) Hle).
Qed.

Theorem ready_operation_passes now now' (Hn : now <= INSTANT_MAX) s :
  passes (ready_operation_wins_a_simultaneous_timeout now now') s.
Proof.
  intros o h. exists tt. unfold ready_operation_wins_a_simultaneous_timeout, new_sleep, sleep_at, checked_add.
  by rewrite Z.add_0_r, (proj2 (Z.leb_le _ _) Hn).
Qed.
End TimeTests.

(** ** [io_uring.rs] *)

Definition with_entries n := mkIoUringConfig n (reap_size config_default) (poll_interval config_default) (max_buffered_completions config_default).
Definition with_reap_size n := mkIoUringConfig (entries config_default) n (poll_interval config_default) (max_buffered_completions config_default).
Definition with_poll_interval d := mkIoUringConfig (entries config_default) (reap_size config_default) d (max_buffered_completions config_default).
Definition with_completion_buffer n := mkIoUringConfig (entries config_default) (reap_size config_default) (poll_interval config_default) n.
Definition refused (c : IoUringConfig) (e : InvalidIoUringConfig) : bool :=
  match validate c with Err e' => bool_decide (e' = e) | Ok _ => false end.

Definition configuration_validation : prog unit unit unit unit :=
  all_hold [
    is_ok (validate config_default);
    refused (with_entries 0) ZeroEntries;
    refused (with_entries 3) EntriesNotPowerOfTwo;
    refused (with_reap_size 0) ZeroReapSize;
    refused (with_poll_interval 0) ZeroPollInterval;
    refused (with_completion_buffer 0) ZeroCompletionBuffer].

Theorem configuration_validation_passes : passes configuration_validation tt.
Proof. apply all_hold_passes. by repeat constructor. Qed.

Definition CQE_F_MORE : Z := Z.shiftl 1 1.
Definition EIO : Z := 5.

Section RingTests.
Context `{U : Uring} {T : Type}.
Notation ring := (Ring T).
Notation uprog := (prog ucall uresp).

(** The entry that [fake_cqe] makes, of an entry type the [uring] crate does not build. *)
Variable fake_cqe : Z -> Z -> Z -> cqe.


(** The data of [park_decisions] and of [model_driver]. *)
Definition test_data (cs : list (Z * CqeContext)) (shutdown : bool) : DriverData T :=
  mkData (list_to_map cs) [] [] ∅ ∅ [] [] [] true shutdown.

(** [model_driver], and the submission [state] the test keeps. *)
Definition model_driver (state : SubId) (u : SubmissionInner) (cs : list (Z * CqeContext)) : ring :=
  set_ring_open false (set_subs (<[ state := u ]> ∅) (set_data (test_data cs false) ring_new)).

Definition park_decisions : prog unit unit unit unit :=
  all_hold [
    bool_decide (decide_run (test_data [] false) false true = DPause);
    bool_decide (decide_run (test_data [] false) true true = DYield);
    bool_decide (decide_run (test_data [] true) false true = DStop)].

(** A context as the tests build it. *)
Definition test_context kd idx ud state tg queued : CqeContext := mkContext kd Submitted idx ud state tg queued false.

(** [inner.iterator_finished = true; inner.originals = n; inner.accepted = n]. *)
Definition admitted_all (n : Z) (u : SubmissionInner) : SubmissionInner :=
  set_accepted n (set_originals n (set_iterator_finished true u)).

Definition contexts_empty : uprog ring bool := s ← get; mret (Nat.eqb (size (contexts (data s))) 0).
Definition has_context p : uprog ring bool := s ← get; mret (match contexts (data s) !! p with Some _ => true | None => false end).

Definition pointer_context_preserves_metadata (new_box : history ucall uresp -> gset Z -> Z) : uprog ring unit :=
  let context := mkContext Original Staged 9 (2 ^ 64 - 1) 0%N None false false in
  pointer ← alloc new_box;
  _ ← assert_that (negb (pointer =? 0));
  assert_that (original_user_data context =? 2 ^ 64 - 1).

Definition original_dispatch_restores_user_data_and_retires_context (state : SubId) (pointer : Z) : uprog ring unit :=
  _ ← put (model_driver state (admitted_all 1 (sub_new 4))
            [(pointer, test_context Original 3 0x55aa state None false)]);
  '(_, over) ← dispatch (fake_cqe pointer (- EIO) 0);
  _ ← assert_that (bool_decide (over = None));
  empty ← contexts_empty;
  _ ← assert_that empty;
  inner ← get_sub state;
  match normal inner with
  | [] => panic "called Option::unwrap() on a None value"
  | completion :: _ =>
      _ ← assert_that (c_index completion =? 3);
      _ ← assert_that (cqe_user_data (c_cqe completion) =? 0x55aa);
      _ ← assert_that (cqe_result (c_cqe completion) =? - EIO);
      assert_that (original_terminal inner =? 1)
  end.

Definition cancellation_order (state : SubId) (original_pointer cancel_pointer : Z) (cancel_first : bool) : uprog ring unit :=
  _ ← put (model_driver state (set_cancels 1 (admitted_all 1 (set_delivery Cancelling (sub_new 4))))
            [(original_pointer, test_context Original 1 99 state None true);
             (cancel_pointer, test_context Cancel 1 99 state (Some original_pointer) false)]);
  _ ← (if cancel_first then
         _ ← dispatch (fake_cqe cancel_pointer 0 0);
         _ ← dispatch (fake_cqe original_pointer (- ECANCELED) 0);
         mret tt
       else
         _ ← dispatch (fake_cqe original_pointer (- ECANCELED) 0);
         kept ← has_context original_pointer;
         _ ← assert_that kept;
         _ ← dispatch (fake_cqe cancel_pointer 0 0);
         mret tt);
  empty ← contexts_empty;
  _ ← assert_that empty;
  inner ← get_sub state;
  _ ← assert_that (original_terminal inner =? 1);
  _ ← assert_that (cancel_terminal inner =? 1);
  match cancellations inner with
  | [] => panic "called Option::unwrap() on a None value"
  | completion :: _ =>
      _ ← assert_that (c_index completion =? 1);
      assert_that (cqe_user_data (c_cqe completion) =? 99)
  end.

Definition cancellation_cqes_are_order_independent (state : SubId) (original_pointer cancel_pointer : Z) : uprog ring unit :=
  _ ← cancellation_order state original_pointer cancel_pointer false;
  cancellation_order state original_pointer cancel_pointer true.

Definition multishot_context_is_retained_until_more_flag_clears (state : SubId) (pointer : Z) : uprog ring unit :=
  _ ← assert_that (cqe_more (fake_cqe pointer 1 CQE_F_MORE));
  _ ← put (model_driver state (admitted_all 1 (sub_new 4))
            [(pointer, test_context Original 0 77 state None false)]);
  _ ← dispatch (fake_cqe pointer 1 CQE_F_MORE);
  kept ← has_context pointer;
  _ ← assert_that kept;
  inner ← get_sub state;
  _ ← assert_that (original_terminal inner =? 0);
  _ ← dispatch (fake_cqe pointer 2 0);
  empty ← contexts_empty;
  _ ← assert_that empty;
  inner ← get_sub state;
  _ ← assert_that (original_terminal inner =? 1);
  _ ← assert_that (Nat.eqb (length (normal inner)) 2);
  match normal inner with
  | c1 :: c2 :: _ =>
      _ ← assert_that (cqe_user_data (c_cqe c1) =? 77);
      assert_that (cqe_user_data (c_cqe c2) =? 77)
  | _ => panic "called Option::unwrap() on a None value"
  end.

Definition completion_limit_closes_delivery_and_reports_overflow_once (state : SubId) (p0 p1 : Z) : uprog ring unit :=
  _ ← put (model_driver state (admitted_all 2 (sub_new 1))
            [(p0, test_context Original 0 0 state None false); (p1, test_context Original 1 1 state None false)]);
  '(_, over) ← dispatch (fake_cqe p0 0 0);
  _ ← assert_that (bool_decide (over = None));
  '(_, overflow) ← dispatch (fake_cqe p1 0 0);
  match overflow with
  | None => panic "overflow state"
  | Some overflow =>
      _ ← assert_that (bool_decide (overflow = state));
      inner ← get_sub state;
      _ ← assert_that (bool_decide (delivery inner = Overflow));
      _ ← assert_that (normal_overflow inner);
      _ ← assert_that (Nat.eqb (length (normal inner)) 1);
      assert_that (original_terminal inner =? 2)
  end.

Theorem park_decisions_passes : passes park_decisions tt.
Proof. apply all_hold_passes. by repeat constructor. Qed.

Theorem pointer_context_passes new_box (Hbox : allocator_fresh new_box) s :
  passes (pointer_context_preserves_metadata new_box) s.
Proof.
  intros o h. exists tt. unfold pointer_context_preserves_metadata, alloc. run_unfold.
  rewrite (proj2 (Z.eqb_neq _ 0)) by apply Hbox. done.
Qed.

End RingTests.

(** The tests that dispatch, on entries that are what [fake_cqe] lays out, and contexts
    boxed one after the other. *)
Section DispatchTests.
Import Sample.
Definition laid_out (u v f : Z) : Z * bool * Z := (u, negb (Z.land f CQE_F_MORE =? 0), v).
Definition box0 : Z := new_box [] ∅.
Definition box1 : Z := new_box [] {[ box0 ]}.
Ltac run_test := intros o h; exists tt; by vm_compute.

Theorem original_dispatch_passes :
  passes (original_dispatch_restores_user_data_and_retires_context laid_out 1%N box0) (ring_new (T := Z)).
Proof. run_test. Qed.

Theorem cancellation_cqes_pass :
  passes (cancellation_cqes_are_order_independent laid_out 1%N box0 box1) (ring_new (T := Z)).
Proof. run_test. Qed.

Theorem multishot_passes :
  passes (multishot_context_is_retained_until_more_flag_clears laid_out 1%N box0) (ring_new (T := Z)).
Proof. run_test. Qed.

Theorem completion_limit_passes :
  passes (completion_limit_closes_delivery_and_reports_overflow_once laid_out 1%N box0 box1) (ring_new (T := Z)).
Proof. run_test. Qed.
End DispatchTests.
